(* ===== verification/_CoqProject ===== *)
-Q . S2P
Prelude.v
Text.v
Cursor.v
Errors.v
Fs.v
Options.v
Messages.v
Net.v
Window.v
Session.v
Transfer.v
Delivery.v
Reference.v
Anomalies.v
Negotiation.v
AsyncSession.v
Timed.v
Duration.v
Paths.v
LocalFs.v
GuestFs.v
RemoteFs.v
SharedDisk.v
TestsCommon.v
NbdDisk.v
PeerHandler.v
LocalSet.v
Network.v
Loopback.v
Interop.v
Server.v
Channel.v
FsWatch.v
Main.v
Program.v
Service.v
Display.v
UnitTests.v
