(* ===== verification/Prelude.v ===== *)
(** * rtftp: a verified model of a TFTP server for NBD disks

    rtftp (under src/) answers TFTP read requests (RFC 1350 with the options of RFC 2347,
    2348, 2349 and 7440) from directories of the server and from disk images on NBD
    servers, which it opens through libguestfs.  This library translates the program
    into executable definitions, one file per component, and proves what makes the
    components correct, on their own and put together.

    ** The program

    [main] binds a UDP socket and runs a [TFTPServer] (src/src/server.rs).  The server
    parses each datagram as a read request ([ReadRequest::parse], src/src/messages/mod.rs,
    over the cursors of src/src/cursor/mod.rs) and hands it to the handler of the sender's
    address, creating one if there is none; it answers what it cannot parse with an error
    (src/src/error.rs).  A handler ([PeerHandler], src/src/peer_handler/mod.rs) is a thread
    with a channel of requests.  It owns the roots of its client, which are the client's
    directory (src/src/local_fs/mod.rs), the disk a configuration file assigns to it
    (src/src/nbd_disk/mod.rs, src/src/remote_fs.rs, over src/src/guestfs/mod.rs), and the
    default directory.  For each request it binds a socket, opens the file in the first
    root that has it and spawns a task, which negotiates the options
    (src/src/options/mod.rs) and sends the file window by window
    (src/src/datagram_stream.rs).  Meanwhile the directory of configurations is watched by
    inotify (src/src/fs_watch/mod.rs); events travel through a queue
    (src/src/fs_watch/async_channel.rs) to the server, which replaces the handler of a client
    whose configuration changed.

    ** The files

    - Prelude (this file): results with errors and panics, 16-bit and 64-bit integers, byte
      ranges and stores, addresses, the tactics and the hint database [rtftp].
    - Text, Paths: what the program uses of Rust's strings, UTF-8, number formatting and
      [std::path].
    - Cursor, Errors, Options, Messages: the wire formats.
    - Fs: the traits [OpenedFile] and [Root] as classes, and [OpenedFileSpec], the laws the
      transfer relies on.
    - Net: a UDP socket, the timer and [DatagramStream].
    - Window, Session: the window of blocks and the functions of a session's task.
    - Transfer, Delivery, Anomalies, Negotiation: theorems about sessions.
    - Reference: the sender of the RFCs, without the ring of buffers, the counters and the
      shared buffer of the code, and the theorem that [send_file] implements it for clients
      that acknowledge what RFC 7440 has them acknowledge.
    - AsyncSession: the functions of Session as tasks, interaction trees that suspend at every
      await and every call of the file, with the theorem that they do what Session computes.
    - Timed, Duration: the tasks over a clock, with instants of arrival and deadlines of
      reads, and how long a session can last.
    - LocalFs, GuestFs, RemoteFs, NbdDisk: the two file systems, which discharge
      [OpenedFileSpec], and the configurations.
    - SharedDisk: the handle of a disk, shared by reference counting between the disk and
      the files opened on it, as a store that all of them use in any order, and the calls of
      libguestfs they lead to.
    - TestsCommon: the helpers of the tests that read a file to its end.
    - PeerHandler, Server: the handlers and the server.
    - LocalSet: the executor of a handler, which runs its sessions' tasks in turns.
    - Channel, FsWatch: the queue, and the watch of the configurations with the traits
      [Event] and [Observer] as classes.
    - Main: [async_main], which puts server, watch and reading task together.
    - Program: the program as a system of steps, with the threads of the handlers.
    - Service: a request from the datagram to the client's copy of the file.
    - Display: how values are printed.
    - Network, Loopback, Interop: two parties that send to each other, by turns; the server
      with the client of its unit tests (src/src/peer_handler/tests.rs), and with the client
      of the integration tests (src/tests/common/client.rs).
    - UnitTests: the unit tests of the repository, evaluated on the model.

    A type of the source is a record or inductive type of the same name (as the type [t] of
    a module named after it, where the source has an [impl]), a method is a definition of
    that module, and a loop is a [Fixpoint] of its own beside the function it is part of.

    ** State, errors, panics

    A fallible function returns [res E A]: [Ok], [Err], or [Stop] for a panic (a failed
    bounds check, [unwrap], assertion or, in a debug build, an overflow) or for a loop out
    of fuel.  Where debug and release builds differ the model takes a flag [debug].  A
    method on [&mut self] returns the new state next to its result.  A session's functions
    thread a [Link]: the datagram stream and the one buffer in which messages are both built
    and received, since what the code does depends on their sharing it.

    The network is a script: the arrivals a socket will see (datagrams, failures, expiries
    of the timer) and the outcomes of its sends; the datagrams accepted are recorded.  A
    used-up script means silence.  Theorems quantify over scripts, so that they hold for
    every client and network.  A [File] carries a script of its reads and seeks likewise.

    A handler is a transition system: the rounds of its loop are functions of its state,
    while the passing of time, the end of tasks and the loss of the sender are steps of
    their own ([PeerHandler.step]).  What opening its roots gives is computed when it is
    created, and reached by the thread in a step of its own, so that requests can be queued
    before.  The server's rounds are functions, and [Server.system_step] interleaves them
    with the steps of all handlers; shutting a handler down waits for its thread, and what
    was shut down is recorded.  The program is a machine over what wakes it
    ([Main.on_wake]): an interrupt, the timer, a datagram, a file event in the channel, or
    the reading task finding something to read.

    What a session's task does is modelled twice.  Session has functions from the state
    before to the state after, in which every await returns at once; most theorems are about
    these.  AsyncSession has the same code as trees, whose nodes are the places where the
    task can be suspended, with the loops as loops; [runs] runs a tree under a handler of
    its calls.  LocalSet steps many trees in any order, over one state of the shared handle;
    Timed answers the calls with a clock.  Theorems carry results from the first model to
    the others ([session_task_ends], [sessions_interleave], [clock_is_a_script]).  In Timed
    only waiting takes time, and a datagram that comes in at the very deadline is received.

    Where the peer is a program as well, in Loopback and Interop, there is no script: a
    system has two parties (class [Party]), each with a step, and what one sends is what the
    other hears.  The laws of a party ([PartyLaws]) make the turns of the two commute, so
    that one schedule that ends shows that all end, and in the same state ([always_ends]).
    In these systems no datagram is lost and no timer expires.

    The handle of a disk is shared by the sessions that read from it.  The components up to
    PeerHandler give each reader a copy of the handle's state; SharedDisk models the sharing
    itself, with the reference count, and shows that the copies make no difference:
    whatever the order of openings, reads and drops, each file is the stream it would be
    alone ([shared_disk_refines]); LocalSet shows it of whole sessions ([sessions_interleave]).

    ** What is proved

    - Wire formats.  [parse_iff] and [parse_total]: requests are accepted exactly when they
      are well-formed, and every datagram is answered.  [put_string_exact] and
      [error_serialize_exact] give the outgoing messages on every branch, including the
      terminator that is stored one place too far.  [find_in_bounds] and
      [oack_answers_request]: option values are within their caps and the ones
      acknowledged are the ones used.
    - Sessions.  [send_file_only_sends_the_file] (safety, for every network),
      [session_returns] and [session_task_ends] (termination), [send_file_delivers] and [session_delivers]
      (a cooperating client gets exactly the file), and what happens with silent and failing
      clients.  [send_file_implements_reference]: with a client that acknowledges of each
      window some of its blocks, and of the last window the last ([well_behaved]), on every
      network, [send_file] is the reference sender of the RFCs.  With other clients it is not:
      the reference, which always ends ([reference_total]), sends the rest of the last
      window again and ignores acknowledgements of
      other windows, where the code ends the transfer ([last_window_not_resent]), refuses
      the client ([rollover_refused]) or floods it ([future_ack_floods]).
      [clock_is_a_script] and [silent_client_timed]: on every clock a task does what it does
      under some script, and a client that does not answer keeps its session for exactly
      five timeouts; [session_duration]: no session lasts more than five timeouts for each
      thing it receives, and five more.  Five theorems pin down behaviour at odds with the protocol:
      [rollover_refused], [future_ack_floods], [future_ack_panics],
      [last_window_not_resent] and [stranger_corrupts_oack].
    - Both ends.  [download_gets_file]: [send_file] and the client of its tests, side by
      side, always end, and the client has the file.  [interop_download] and
      [interop_download_window]: so do a whole session and the integration tests' client,
      from the request that client writes, through the OACK, to the content it returns.
    - File systems.  [remote_read_fills]: reading through chunks refines reading the file;
      [shared_disk_refines] and [handle_closed_once]: files that share a handle are
      independent streams, and [guestfs_close] is called once, after every other call;
      [mount_suitable_cases], [connect_valid], [open_nbd_root_first], [match_ip_iff] for
      disks and configurations; [requests_escape_root] and [short_read_truncates] for local
      files.
    - Handlers and server.  [first_root_decides] says which root answers; [request_delivered]
      follows a request through the program, from the datagram to the last block;
      [sessions_interleave] and [served_beside_others] show that sessions which take turns
      end as they do alone; [handler_invariant] and [server_invariant] hold in all
      interleavings;
      [request_routed], [malformed_answered] and [config_change_replaces] describe each
      round; [bad_config_stops_server] shows how a panic of a handler's thread reaches the
      server; [shutdown_can_complete], [session_limit_ignored], [idle_request_forgotten],
      [busy_handler_stays] and [short_session_unseen] describe the life of a handler: as
      long as the server holds on to it and no request panics, its thread does not give up
      while a session runs, but takes no notice of one that starts and ends between two ticks.
    - Watch.  [channel_correct]: a queue that loses neither values nor wake-ups;
      [parse_events_records] and [read_loop_delivers]: every event reaches it.
    - Program.  [main_refines_serve]: kernel, parser, reading task, channel and [select!]
      together hand the server's loop each file event once and in order;
      [program_invariant] holds in all states of the running program, from each of which it
      can be stopped ([interrupt_completes]);
      [interrupt_shuts_down] and [exit_codes] describe its end.

    ** Fuel

    Every loop that is not structural has a fuel that theorems show to be enough: the outer
    loop of [send_file] one more than the arrivals left (each further round consumes one),
    its inner loop the window's size, the loop over a request's options one more than its
    bytes, [FileReader::read_to] twice the buffer's length plus one (a round copies bytes
    or fetches a chunk), [parse_events] one more than the bytes read, and [read_file] of the
    tests one more than the file's size.  [recv] is
    structural in the arrivals, and the five attempts of a window in their number.

    ** Parameters

    Code outside src/ is an argument with the laws it is documented to have: the functions
    of libguestfs (class [libguestfs], and [libguestfs_files] for images whose files can be
    read), binding the socket and the system calls of inotify ([Platform]), opening a file
    ([FileSystem]), the directory listing, file contents and JSON decoder ([Environment] and
    an argument [from_value]), the text of an address ([IpText]), Rust's escaped debug
    output ([DebugStr]) and the capacity of a hash table ([HashMapCapacity]) and the order
    in which it yields its entries ([HashMapOrder]). Each is instantiated in the witnesses.

    ** Not modelled

    The parsing of the command line by clap and the set-up of the runtime in
    src/src/main.rs; a socket whose own address cannot be read; the alignment of the
    reference that src/src/fs_watch/mod.rs:51-52 casts from the bytes it reads, which a
    debug build checks (the fields are read from the bytes); the capacity of a vector as
    something else than the length of its storage; a change of a hash table's capacity other
    than by an insertion; what is logged and when; how the standard library prints a file;
    the time that computing and reading a file take; the waiting times of the loops of
    server and handler (only the order of their events); the fairness of the executor; what
    unwinding does after a panic of the main task; the memory behind the raw pointers of the
    foreign calls; and the making of directories and disk images for the tests. Of the
    integration tests' client, what it does from its request to the end of a download is
    modelled; its other calls, and the starting of the server as a process, are not. *)

From stdpp Require Export base gmap list numbers strings.
From Stdlib Require Export Lia.
From Stdlib Require Strings.String Strings.Byte.

Abbreviation byte := Corelib.Init.Byte.byte.

Declare Scope rust_scope.
Delimit Scope rust_scope with rust.
Open Scope rust_scope.

(** ** Results

    A Rust call returns [Ok] or [Err]; it may also fail to return, by a panic
    (an index out of bounds, a division by zero, a failed [debug_assert!], an
    [unwrap] of [None]) or, in the model only, because a loop ran out of the
    fuel it was given.  The last two are [Stop]. *)

Inductive halt : Type :=
| Panicked
| OutOfFuel.

Inductive res (E A : Type) : Type :=
| Ok (a : A)
| Err (e : E)
| Stop (h : halt).
Arguments Ok {E A} a.
Arguments Err {E A} e.
Arguments Stop {E A} h.

(** The [?] operator on a result paired with the state the callee left behind. *)
Notation "'let?' ( x , s ) := m 'in' k" :=
  (match m with
   | (Ok x, s) => k
   | (Err e, s) => (Err e, s)
   | (Stop h, s) => (Stop h, s)
   end)
  (at level 10, x pattern, s pattern, m at level 100, k at level 200) : rust_scope.

Definition returns {E A} (r : res E A) : Prop :=
  match r with Stop _ => False | _ => True end.

(** The kinds of [std::io::Error] the code distinguishes; every other kind the
    operating system reports is [OsError], by its number. *)
Inductive ErrorKind : Type :=
| NotFound
| PermissionDenied
| ConnectionReset
| UnexpectedEof
| InvalidData
| InvalidInput
| TimedOut
| Other
| OsError (code : Z).

(** ** Bytes and 16-bit words *)

#[global] Instance byte_eq_dec_inst : EqDecision byte := Stdlib.Strings.Byte.byte_eq_dec.

#[global] Program Instance byte_countable : Countable byte :=
  inj_countable Stdlib.Strings.Byte.to_N Stdlib.Strings.Byte.of_N _.
Next Obligation. intros b. apply Stdlib.Strings.Byte.of_to_N. Qed.

#[global] Instance ErrorKind_eq_dec : EqDecision ErrorKind.
Proof. solve_decision. Defined.

(** Value of a [u8]. *)
Definition u8_val (b : byte) : Z := Z.of_N (Stdlib.Strings.Byte.to_N b).

(** [z as u8]. *)
Definition as_u8 (z : Z) : byte :=
  default Corelib.Init.Byte.x00 (Stdlib.Strings.Byte.of_N (Z.to_N (z mod 256))).

(** [z as u16], and the wrapping operations of [u16]. *)
Definition as_u16 (z : Z) : Z := z mod 65536.
Definition wrapping_add (a b : Z) : Z := as_u16 (a + b).
Definition wrapping_sub (a b : Z) : Z := as_u16 (a - b).
Definition is_u16 (z : Z) : Prop := (0 ≤ z < 65536)%Z.

Definition u16_max : Z := 65535.
Definition usize_max : Z := 18446744073709551615.

(** [usize as i64] and [i64 as usize] on a 64-bit target. *)
Definition as_i64 (z : Z) : Z := ((z + 2 ^ 63) mod 2 ^ 64 - 2 ^ 63)%Z.
Definition as_usize (z : Z) : Z := (z mod 2 ^ 64)%Z.

(** [u16::from_be_bytes]. *)
Definition from_be_bytes (hi lo : byte) : Z := (u8_val hi * 256 + u8_val lo)%Z.

Definition zero : byte := Corelib.Init.Byte.x00.

(** Rust strings are their UTF-8 bytes; [str "..."] is a literal. *)
Abbreviation rstring := (list byte).
Definition str (s : String.string) : rstring := Stdlib.Strings.String.list_byte_of_string s.
Arguments str s%_string.

(** ** Slices

    [range a b l] is [l[a..b]] and [store i x l] is [l[i] = x]; [None] is the
    bounds-check panic.  [overwrite off src l] is what [copy_from_slice] leaves
    in [l] when [src] is copied at [off] and fits. *)

Definition range {A} (a b : nat) (l : list A) : option (list A) :=
  if (a <=? b) && (b <=? length l) then Some (take (b - a) (drop a l)) else None.

Definition store {A} (i : nat) (x : A) (l : list A) : option (list A) :=
  if i <? length l then Some (<[i := x]> l) else None.

Definition overwrite {A} (off : nat) (src l : list A) : list A :=
  take off l ++ src ++ drop (off + length src) l.

#[global] Arguments range : simpl never.
#[global] Arguments store : simpl never.
#[global] Arguments overwrite : simpl never.
#[global] Arguments as_u8 : simpl never.
#[global] Arguments u8_val : simpl never.
#[global] Arguments as_u16 : simpl never.
#[global] Arguments str : simpl never.
#[global] Arguments from_be_bytes : simpl never.

(** ** Automation *)

Create HintDb rtftp.

(** Case analysis on the innermost match of the goal, closing absurd branches. *)
Ltac branch :=
  repeat (case_match; simplify_eq/=; try done).

(** Boolean comparisons of the context and the goal as propositions. *)
Ltac to_prop :=
  repeat match goal with
  | H : (_ && _)%bool = true |- _ => apply andb_true_iff in H as [? ?]
  | H : (_ && _)%bool = false |- _ => apply andb_false_iff in H as [?|?]
  | H : (_ <=? _)%nat = true |- _ => apply Nat.leb_le in H
  | H : (_ <=? _)%nat = false |- _ => apply Nat.leb_gt in H
  | H : (_ <? _)%nat = true |- _ => apply Nat.ltb_lt in H
  | H : (_ <? _)%nat = false |- _ => apply Nat.ltb_ge in H
  | H : (_ =? _)%nat = true |- _ => apply Nat.eqb_eq in H
  | H : (_ =? _)%nat = false |- _ => apply Nat.eqb_neq in H
  | H : (_ <=? _)%Z = true |- _ => apply Z.leb_le in H
  | H : (_ <=? _)%Z = false |- _ => apply Z.leb_gt in H
  | H : (_ <? _)%Z = true |- _ => apply Z.ltb_lt in H
  | H : (_ <? _)%Z = false |- _ => apply Z.ltb_ge in H
  | H : (_ =? _)%Z = true |- _ => apply Z.eqb_eq in H
  | H : (_ =? _)%Z = false |- _ => apply Z.eqb_neq in H
  end.

(** Decide a boolean comparison that [lia] settles, in the goal. *)
Ltac settle b :=
  first [ replace b with true by (symmetry; first [apply Nat.leb_le | apply Nat.ltb_lt
            | apply Nat.eqb_eq | apply Z.leb_le | apply Z.ltb_lt | apply Z.eqb_eq]; lia)
        | replace b with false by (symmetry; first [apply Nat.leb_gt | apply Nat.ltb_ge
            | apply Nat.eqb_neq | apply Z.leb_gt | apply Z.ltb_ge | apply Z.eqb_neq]; lia) ].

Ltac settle_all :=
  repeat match goal with
  | |- context [(?a <=? ?b)%nat] => settle (a <=? b)%nat
  | |- context [(?a <? ?b)%nat] => settle (a <? b)%nat
  | |- context [(?a =? ?b)%nat] => settle (a =? b)%nat
  | |- context [(?a <=? ?b)%Z] => settle (a <=? b)%Z
  | |- context [(?a <? ?b)%Z] => settle (a <? b)%Z
  | |- context [(?a =? ?b)%Z] => settle (a =? b)%Z
  end; simpl.

(** ** Generic lemmas *)

Lemma u8_val_range (b : byte) : (0 ≤ u8_val b < 256)%Z.
Proof.
  unfold u8_val. pose proof (Stdlib.Strings.Byte.to_N_bounded b). lia.
Qed.

Lemma u8_val_as_u8 (z : Z) : u8_val (as_u8 z) = (z mod 256)%Z.
Proof.
  unfold u8_val, as_u8.
  assert (0 ≤ z mod 256 < 256)%Z as Hz by (apply Z.mod_pos_bound; lia).
  destruct (Stdlib.Strings.Byte.of_N (Z.to_N (z mod 256))) as [b|] eqn:E; simpl.
  - apply Stdlib.Strings.Byte.to_of_N in E. rewrite E. lia.
  - apply Stdlib.Strings.Byte.of_N_None_iff in E. lia.
Qed.

Lemma as_u8_u8_val (b : byte) : as_u8 (u8_val b) = b.
Proof.
  unfold as_u8. rewrite Z.mod_small by apply u8_val_range.
  unfold u8_val. by rewrite N2Z.id, Stdlib.Strings.Byte.of_to_N.
Qed.

Lemma u8_val_inj (a b : byte) : u8_val a = u8_val b → a = b.
Proof. intros H. by rewrite <- (as_u8_u8_val a), <- (as_u8_u8_val b), H. Qed.

Lemma u8_val_zero_iff (b : byte) : u8_val b = 0%Z ↔ b = zero.
Proof.
  split; [|by intros ->]. intros H. by apply u8_val_inj.
Qed.

(** The two bytes [put_ushort] and [push_block] write are the big-endian bytes. *)
Lemma be_bytes_roundtrip (v : Z) :
  is_u16 v → from_be_bytes (as_u8 (Z.shiftr v 8)) (as_u8 v) = v.
Proof.
  intros [??]. unfold from_be_bytes. rewrite !u8_val_as_u8, Z.shiftr_div_pow2 by lia.
  change (2 ^ 8)%Z with 256%Z.
  rewrite (Z.mod_small (v / 256)) by (split; [apply Z.div_pos|apply Z.div_lt_upper_bound]; lia).
  pose proof (Z.div_mod v 256). lia.
Qed.

Lemma from_be_bytes_u16 (hi lo : byte) : is_u16 (from_be_bytes hi lo).
Proof.
  unfold from_be_bytes, is_u16. pose proof (u8_val_range hi). pose proof (u8_val_range lo). lia.
Qed.

Lemma as_u16_small (z : Z) : is_u16 z → as_u16 z = z.
Proof. intros ?. by apply Z.mod_small. Qed.

Lemma as_u16_range (z : Z) : is_u16 (as_u16 z).
Proof. apply Z.mod_pos_bound. lia. Qed.
Lemma wrapping_succ R : wrapping_add (as_u16 (Z.of_nat R)) 1 = as_u16 (Z.of_nat (S R)).
Proof.
  unfold wrapping_add, as_u16. rewrite Zplus_mod_idemp_l. f_equal. lia.
Qed.
Lemma as_i64_small z : (0 ≤ z < 2 ^ 63)%Z → as_i64 z = z.
Proof. intros. unfold as_i64. rewrite Z.mod_small by lia. lia. Qed.

Lemma as_usize_small z : (0 ≤ z < 2 ^ 64)%Z → as_usize z = z.
Proof. intros. unfold as_usize. by rewrite Z.mod_small. Qed.

#[export] Hint Resolve as_u16_range from_be_bytes_u16 : rtftp.

Section slices.
Context {A : Type}.
Implicit Types l : list A.

Lemma range_Some a b l : a ≤ b → b ≤ length l → range a b l = Some (take (b - a) (drop a l)).
Proof. intros. unfold range. by settle_all. Qed.

Lemma range_inv a b l s : range a b l = Some s → a ≤ b ∧ b ≤ length l ∧ length s = b - a.
Proof.
  unfold range. destruct (Nat.leb_spec a b), (Nat.leb_spec b (length l)); simpl; try done.
  intros [= <-]. rewrite length_take, length_drop. lia.
Qed.

Lemma store_length i x l l' : store i x l = Some l' → length l' = length l.
Proof. unfold store. case_match; [|done]. intros [= <-]. apply length_insert. Qed.

Lemma range_prefix b l : b ≤ length l → range 0 b l = Some (take b l).
Proof. intros. rewrite range_Some by lia. by rewrite drop_0, Nat.sub_0_r. Qed.

Lemma store_Some i x l : i < length l → store i x l = Some (<[i := x]> l).
Proof. intros. unfold store. by settle_all. Qed.

Lemma store_None i x l : length l ≤ i → store i x l = None.
Proof. intros. unfold store. by settle_all. Qed.

Lemma length_overwrite off src l :
  off + length src ≤ length l → length (overwrite off src l) = length l.
Proof. intros. unfold overwrite. rewrite !length_app, length_take, length_drop. lia. Qed.

Lemma take_overwrite off src l :
  off + length src ≤ length l →
  take (off + length src) (overwrite off src l) = take off l ++ src.
Proof.
  intros. unfold overwrite. rewrite app_assoc, take_app_le.
  - rewrite take_ge; [done|]. rewrite length_app, length_take. lia.
  - rewrite length_app, length_take. lia.
Qed.

Lemma drop_overwrite off src l n :
  off + length src ≤ n → n ≤ length l →
  drop n (overwrite off src l) = drop n l.
Proof.
  intros. unfold overwrite.
  rewrite app_assoc, drop_app_ge by (rewrite length_app, length_take; lia).
  rewrite drop_drop. f_equal. rewrite length_app, length_take. lia.
Qed.

Lemma lookup_overwrite off src l i :
  off + length src ≤ length l →
  overwrite off src l !! i =
  if decide (off ≤ i < off + length src) then src !! (i - off) else l !! i.
Proof.
  intros Hfit. unfold overwrite.
  assert (length (take off l) = off) as Ht by (rewrite length_take; lia).
  destruct (decide (i < off)).
  - rewrite lookup_app_l, lookup_take_lt by lia. by rewrite decide_False by lia.
  - rewrite lookup_app_r, Ht by lia. destruct (decide (i < off + length src)).
    + rewrite lookup_app_l by lia. by rewrite decide_True by lia.
    + rewrite lookup_app_r, lookup_drop, decide_False by lia. f_equal. lia.
Qed.

Lemma overwrite_app off src1 src2 l :
  off + length src1 + length src2 ≤ length l →
  overwrite (off + length src1) src2 (overwrite off src1 l) = overwrite off (src1 ++ src2) l.
Proof.
  intros. apply list_eq. intros i.
  rewrite !lookup_overwrite by (rewrite ?length_overwrite, ?length_app; lia).
  rewrite length_app. repeat case_decide; try lia; try done.
  - rewrite lookup_app_r by lia. f_equal. lia.
  - by rewrite lookup_app_l by lia.
Qed.

Lemma overwrite_prefix src l : overwrite 0 src l = src ++ drop (length src) l.
Proof. done. Qed.

Lemma insert_as_overwrite i x l : i < length l → <[i := x]> l = overwrite i [x] l.
Proof.
  intros. unfold overwrite. simpl.
  rewrite insert_take_drop by lia. repeat f_equal; lia.
Qed.

End slices.

(** [simpl] must not unfold [overwrite]; its lemmas above say what it does. *)
#[global] Opaque overwrite.

(** [u16::MAX as usize], the size of the datagram buffers: a number too large to be
    computed with in unary, so only its value is used. *)
Definition buffer_size : nat := Z.to_nat u16_max.

Lemma buffer_size_val : Z.of_nat buffer_size = 65535%Z.
Proof. apply Z2Nat.id. unfold u16_max. lia. Qed.

#[global] Opaque buffer_size.
