(* ===== verification/Text.v ===== *)
(** * Text: what the program uses of Rust's strings and number formatting

    The standard library's UTF-8 validation ([String::from_utf8]), its decimal
    printing of a [usize] ([to_string]) and its parsing ([str::parse::<usize>]),
    prefix and substring tests, and the lemmas the components share about
    NUL-terminated strings. *)

From S2P Require Import Prelude.

(** ** UTF-8 *)

Definition in_range (lo hi : Z) (b : byte) : bool :=
  (lo <=? u8_val b)%Z && (u8_val b <=? hi)%Z.

Definition is_cont : byte → bool := in_range 0x80 0xBF.

(** Second bytes allowed after a lead byte of a three- and a four-byte form. *)
Definition second_of_three (b0 b1 : byte) : bool :=
  if in_range 0xE0 0xE0 b0 then in_range 0xA0 0xBF b1
  else if in_range 0xED 0xED b0 then in_range 0x80 0x9F b1
  else in_range 0xE1 0xEF b0 && is_cont b1.

Definition second_of_four (b0 b1 : byte) : bool :=
  if in_range 0xF0 0xF0 b0 then in_range 0x90 0xBF b1
  else if in_range 0xF4 0xF4 b0 then in_range 0x80 0x8F b1
  else in_range 0xF1 0xF3 b0 && is_cont b1.

Fixpoint utf8_valid (l : list byte) : bool :=
  match l with
  | [] => true
  | b0 :: r0 =>
      if in_range 0x00 0x7F b0 then utf8_valid r0 else
      match r0 with
      | [] => false
      | b1 :: r1 =>
          if in_range 0xC2 0xDF b0 then is_cont b1 && utf8_valid r1 else
          match r1 with
          | [] => false
          | b2 :: r2 =>
              if second_of_three b0 b1 then is_cont b2 && utf8_valid r2 else
              match r2 with
              | [] => false
              | b3 :: r3 => second_of_four b0 b1 && is_cont b2 && is_cont b3 && utf8_valid r3
              end
          end
      end
  end.

(** [String::from_utf8]. *)
Definition from_utf8 (l : list byte) : option rstring :=
  if utf8_valid l then Some l else None.

(** [String::from_utf8_lossy]: each maximal part of an ill-formed sequence becomes U+FFFD. *)
Definition replacement : rstring := [as_u8 0xEF; as_u8 0xBF; as_u8 0xBD].

Fixpoint from_utf8_lossy (l : list byte) : rstring :=
  match l with
  | [] => []
  | b0 :: r0 =>
      if in_range 0x00 0x7F b0 then b0 :: from_utf8_lossy r0 else
      match r0 with
      | [] => replacement
      | b1 :: r1 =>
          if in_range 0xC2 0xDF b0 && is_cont b1 then b0 :: b1 :: from_utf8_lossy r1
          else if second_of_three b0 b1 || second_of_four b0 b1 then
            match r1 with
            | [] => replacement
            | b2 :: r2 =>
                if negb (is_cont b2) then replacement ++ from_utf8_lossy r1
                else if second_of_three b0 b1 then b0 :: b1 :: b2 :: from_utf8_lossy r2
                else
                  match r2 with
                  | [] => replacement
                  | b3 :: r3 =>
                      if is_cont b3 then b0 :: b1 :: b2 :: b3 :: from_utf8_lossy r3
                      else replacement ++ from_utf8_lossy r2
                  end
            end
          else replacement ++ from_utf8_lossy r0
      end
  end.

Definition ascii (l : list byte) : bool := forallb (in_range 0x00 0x7F) l.

(** ** Decimal numbers *)

Definition digit (d : Z) : byte := as_u8 (48 + d).

Fixpoint dec_digits (fuel : nat) (n : Z) : rstring :=
  match fuel with
  | O => []
  | S f => if (n <? 10)%Z then [digit n] else dec_digits f (n / 10) ++ [digit (n mod 10)]
  end.

(** [usize::to_string]: at most twenty digits on a 64-bit target. *)
Definition to_string (n : Z) : rstring := dec_digits 20 n.

#[global] Arguments to_string : simpl never.

Definition to_digit (b : byte) : option Z :=
  if in_range 48 57 b then Some (u8_val b - 48)%Z else None.

(** The loop of [usize::from_str], with its checked multiplication and addition. *)
Fixpoint parse_digits (acc : Z) (s : rstring) : option Z :=
  match s with
  | [] => Some acc
  | b :: s' =>
      if (usize_max <? acc * 10)%Z then None else
      match to_digit b with
      | None => None
      | Some d => if (usize_max <? acc * 10 + d)%Z then None else parse_digits (acc * 10 + d) s'
      end
  end.

Definition plus_sign : byte := as_u8 43.
Definition minus_sign : byte := as_u8 45.

(** [str::parse::<usize>]: one leading [+] is accepted, a lone sign is not. *)
Definition parse_usize (s : rstring) : option Z :=
  match s with
  | [] => None
  | [b] => if decide (b = plus_sign ∨ b = minus_sign) then None else parse_digits 0 [b]
  | b :: s' => if decide (b = plus_sign) then parse_digits 0 s' else parse_digits 0 (b :: s')
  end.

(** ** Searching *)

(** [slice.iter().position(|&b| b == 0)]. *)
Fixpoint position_zero (l : list byte) : option nat :=
  match l with
  | [] => None
  | b :: l' => if decide (b = zero) then Some 0 else S <$> position_zero l'
  end.

Fixpoint starts_with (p s : rstring) : bool :=
  match p, s with
  | [], _ => true
  | a :: p', b :: s' => bool_decide (a = b) && starts_with p' s'
  | _ :: _, [] => false
  end.

(** [str::contains] with a string pattern. *)
Fixpoint contains (pat s : rstring) : bool :=
  starts_with pat s || match s with [] => false | _ :: s' => contains pat s' end.

(** [str::lines]: the text between line feeds, a carriage return before one dropped, and no
    empty line after the last. *)
Definition line_feed : byte := as_u8 10.
Definition carriage_return : byte := as_u8 13.

Definition strip_carriage_return (line : rstring) : rstring :=
  match rev line with
  | b :: l => if decide (b = carriage_return) then rev l else line
  | [] => line
  end.

Fixpoint lines_after (line s : rstring) : list rstring :=
  match s with
  | [] => match line with [] => [] | _ => [line] end
  | b :: s' =>
      if decide (b = line_feed) then strip_carriage_return line :: lines_after [] s'
      else lines_after (line ++ [b]) s'
  end.

Definition lines (s : rstring) : list rstring := lines_after [] s.

(** [[String]::join]. *)
Fixpoint join_with (separator : rstring) (l : list rstring) : rstring :=
  match l with
  | [] => []
  | [s] => s
  | s :: l' => s ++ separator ++ join_with separator l'
  end.

(** [CString::new]: [None] when there is a NUL inside. *)
Definition CString_new (s : rstring) : option rstring :=
  if position_zero s is Some _ then None else Some s.

Definition slash : byte := as_u8 47.

(** [trim_start_matches('/')]. *)
Fixpoint trim_start_slashes (s : rstring) : rstring :=
  match s with
  | b :: s' => if decide (b = slash) then trim_start_slashes s' else s
  | [] => []
  end.

(** ** Lemmas *)

Definition nul_free (s : rstring) : Prop := Forall (λ b, b ≠ zero) s.

#[global] Instance nul_free_dec s : Decision (nul_free s).
Proof. apply _. Defined.

Lemma ascii_utf8 (l : list byte) : ascii l = true → utf8_valid l = true.
Proof.
  induction l as [|b l IH]; [done|]. simpl. intros [-> ?]%andb_true_iff. auto.
Qed.

Lemma from_utf8_Some l s : from_utf8 l = Some s ↔ utf8_valid l = true ∧ s = l.
Proof. unfold from_utf8. case_match; naive_solver. Qed.

Lemma u8_val_digit (d : Z) : (0 ≤ d < 10)%Z → u8_val (digit d) = (48 + d)%Z.
Proof. intros. unfold digit. rewrite u8_val_as_u8. apply Z.mod_small. lia. Qed.

Lemma to_digit_digit (d : Z) : (0 ≤ d < 10)%Z → to_digit (digit d) = Some d.
Proof.
  intros. unfold to_digit, in_range. rewrite u8_val_digit by done. settle_all. f_equal. lia.
Qed.

Lemma parse_digits_app acc s t :
  parse_digits acc (s ++ t) = (parse_digits acc s ≫= λ a, parse_digits a t).
Proof.
  revert acc. induction s as [|b s IH]; intros acc; [done|]. simpl.
  by repeat (case_match; try done).
Qed.

Lemma dec_digits_Forall (P : byte → Prop) fuel n :
  (∀ d, (0 ≤ d < 10)%Z → P (digit d)) → (0 ≤ n)%Z → Forall P (dec_digits fuel n).
Proof.
  intros HP. revert n. induction fuel as [|f IH]; intros n Hn; simpl; [done|].
  case_match; to_prop.
  - constructor; [apply HP; lia|done].
  - apply Forall_app; split.
    + apply IH. apply Z.div_pos; lia.
    + constructor; [|done]. apply HP, Z.mod_pos_bound. lia.
Qed.

Lemma dec_digits_parse fuel n :
  (0 ≤ n < 10 ^ Z.of_nat fuel)%Z → (n ≤ usize_max)%Z → fuel ≠ 0 →
  parse_digits 0 (dec_digits fuel n) = Some n.
Proof.
  revert n. induction fuel as [|f IH]; intros n Hn Hmax Hf; [done|]. simpl.
  case_match; to_prop.
  - simpl. rewrite to_digit_digit by lia. settle_all. done.
  - assert (0 ≤ n / 10 < 10 ^ Z.of_nat f)%Z as Hdiv.
    { rewrite Nat2Z.inj_succ, Z.pow_succ_r in Hn by lia.
      split; [apply Z.div_pos|apply Z.div_lt_upper_bound]; lia. }
    pose proof (Z.div_mod n 10). pose proof (Z.mod_pos_bound n 10).
    rewrite parse_digits_app, IH; [|done|lia|].
    + simpl. rewrite to_digit_digit by lia. settle_all. f_equal. lia.
    + intros ->. simpl in *. lia.
Qed.

Lemma dec_digits_nonempty fuel n : fuel ≠ 0 → dec_digits fuel n ≠ [].
Proof. destruct fuel; [done|]. simpl. case_match; [done|]. by destruct (dec_digits _ _). Qed.

Lemma parse_digits_bounds acc s n :
  (0 ≤ acc ≤ usize_max)%Z → parse_digits acc s = Some n → (0 ≤ n ≤ usize_max)%Z.
Proof.
  revert acc. induction s as [|b s IH]; intros acc Hacc; simpl; [naive_solver|].
  case_match; [done|]. unfold to_digit, in_range.
  repeat (case_match; simplify_eq; try done). to_prop. apply IH. lia.
Qed.

(** What [parse] accepts is a [usize]. *)
Lemma parse_usize_bounds s n : parse_usize s = Some n → (0 ≤ n ≤ usize_max)%Z.
Proof.
  unfold parse_usize. intros Hp. repeat case_match; try done;
    (eapply parse_digits_bounds; [|eassumption]; unfold usize_max; lia).
Qed.

Lemma digit_not_sign (d : Z) :
  (0 ≤ d < 10)%Z → digit d ≠ plus_sign ∧ digit d ≠ minus_sign ∧ digit d ≠ zero.
Proof.
  intros Hd. pose proof (u8_val_digit d Hd) as Hv.
  assert (u8_val plus_sign = 43 ∧ u8_val minus_sign = 45 ∧ u8_val zero = 0)%Z as (?&?&?) by done.
  repeat split; intros E; rewrite E in Hv; lia.
Qed.

(** Printing and parsing a [usize] are inverse. *)
Lemma parse_to_string (n : Z) : (0 ≤ n ≤ usize_max)%Z → parse_usize (to_string n) = Some n.
Proof.
  intros Hn. unfold to_string.
  assert (Forall (λ b, b ≠ plus_sign ∧ b ≠ minus_sign ∧ b ≠ zero) (dec_digits 20 n)) as Hd
    by (apply dec_digits_Forall; [apply digit_not_sign|lia]).
  assert (parse_digits 0 (dec_digits 20 n) = Some n) as Hp
    by (apply dec_digits_parse; [unfold usize_max in *; lia|lia|done]).
  pose proof (dec_digits_nonempty 20 n) as Hne.
  unfold parse_usize. destruct (dec_digits 20 n) as [|b l]; [naive_solver|].
  apply Forall_cons in Hd as [Hb _].
  destruct l; rewrite decide_False by naive_solver; done.
Qed.

Lemma length_dec_digits fuel n : length (dec_digits fuel n) ≤ fuel.
Proof.
  revert n. induction fuel as [|fuel IH]; intros n; simpl; [lia|].
  case_match; [simpl; lia|]. rewrite length_app. specialize (IH (n / 10)%Z). simpl. lia.
Qed.

Lemma length_to_string n : length (to_string n) ≤ 20.
Proof. apply length_dec_digits. Qed.

Lemma to_string_nul_free n : (0 ≤ n)%Z → nul_free (to_string n).
Proof. apply dec_digits_Forall. intros. by apply digit_not_sign. Qed.

Lemma to_string_ascii n : (0 ≤ n)%Z → ascii (to_string n) = true.
Proof.
  intros. apply forallb_forall. intros b Hb%list_elem_of_In.
  assert (Forall (λ b, in_range 0x00 0x7F b = true) (to_string n)) as HF.
  { apply dec_digits_Forall; [|done]. intros d Hd. unfold in_range.
    rewrite u8_val_digit by done. settle_all. done. }
  rewrite Forall_forall in HF. by apply HF.
Qed.

(** The first NUL of [s ++ NUL ++ rest] ends [s]. *)
Lemma position_zero_app s rest :
  nul_free s → position_zero (s ++ zero :: rest) = Some (length s).
Proof.
  induction 1 as [|b s Hb _ IH]; simpl; [done|].
  by rewrite decide_False, IH by done.
Qed.

Lemma position_zero_Some l n :
  position_zero l = Some n →
  n < length l ∧ nul_free (take n l) ∧ l = take n l ++ zero :: drop (S n) l.
Proof.
  revert n. induction l as [|b l IH]; intros n; simpl; [done|].
  case_decide as Hb.
  - intros [= <-]. subst. repeat split; [lia|constructor].
  - intros (m & Hm & ->)%fmap_Some. destruct (IH _ Hm) as (?&?&Heq).
    repeat split; [lia|by constructor|]. simpl. by f_equal.
Qed.

Lemma position_zero_None l : position_zero l = None ↔ nul_free l.
Proof.
  unfold nul_free. induction l as [|b l IH]; simpl; [by split|].
  rewrite Forall_cons. case_decide; [naive_solver|].
  destruct (position_zero l); naive_solver.
Qed.

Lemma starts_with_app p s : starts_with p (p ++ s) = true.
Proof. induction p; simpl; [done|]. by rewrite bool_decide_eq_true_2. Qed.

Lemma starts_with_spec p s : starts_with p s = true ↔ ∃ t, s = p ++ t.
Proof.
  split; [|intros [t ->]; apply starts_with_app].
  revert s. induction p as [|a p IH]; intros s; simpl; [eauto|].
  destruct s as [|b s]; [done|].
  intros [Hab Hs]%andb_true_iff. apply bool_decide_eq_true in Hab as ->.
  destruct (IH _ Hs) as [t ->]. by exists t.
Qed.

Lemma trim_start_twice s : trim_start_slashes (trim_start_slashes s) = trim_start_slashes s.
Proof.
  induction s as [|b s IH]; [done|]. simpl. case_decide; [done|]. simpl. by rewrite decide_False.
Qed.

(** Valid text is left alone by the lossy conversion. *)
Lemma from_utf8_lossy_valid l : utf8_valid l = true → from_utf8_lossy l = l.
Proof.
  remember (length l) as n eqn:Hn. revert l Hn. induction n as [n IH] using lt_wf_ind.
  intros [|b0 r0] -> Hv; [done|]. simpl in Hv |- *.
  destruct (in_range 0 127 b0); [f_equal; eapply IH; [|done|done]; simpl; lia|].
  destruct r0 as [|b1 r1]; [done|].
  destruct (in_range 194 223 b0).
  { apply andb_true_iff in Hv as [-> Hv]. simpl. do 2 f_equal. eapply IH; [|done|done]. simpl. lia. }
  destruct r1 as [|b2 r2]; [done|]. cbn [andb]. destruct (second_of_three b0 b1).
  { apply andb_true_iff in Hv as [-> Hv]. simpl. do 3 f_equal. eapply IH; [|done|done]. simpl. lia. }
  destruct r2 as [|b3 r3]; [done|].
  apply andb_true_iff in Hv as [Hv Hv3]. apply andb_true_iff in Hv as [Hv Hv2].
  apply andb_true_iff in Hv as [-> ->]. rewrite Hv2. simpl. do 4 f_equal.
  eapply IH; [|done|done]. simpl. lia.
Qed.
