(* ===== verification/Cursor.v ===== *)
(** * Cursor: src/src/cursor/mod.rs

    [ReadCursor] walks over a received datagram, [WriteCursor] fills a buffer.
    Both keep the slice and a position; a reader's position only moves on
    success.  Slice accesses go through [range] and [store] of the prelude, so
    a bounds-check panic is a value of the model ([Stop Panicked]). *)

From S2P Require Import Prelude Text.

(** The message of a [BufferError] is built as in the source. *)
Inductive BufferError : Type :=
| mkBufferError (message : rstring).

Module ReadCursor.

Record t : Type := mk { datagram : list byte; index : nat }.

Definition new (datagram : list byte) : t := mk datagram 0.

Definition extract_ushort (c : t) : res ErrorKind Z * t :=
  let end_index := index c + 2 in
  if length (datagram c) <? end_index then (Err UnexpectedEof, c)
  else match datagram c !! index c, datagram c !! (index c + 1) with
       | Some hi, Some lo => (Ok (from_be_bytes hi lo), mk (datagram c) end_index)
       | _, _ => (Stop Panicked, c)
       end.

Definition extract_string (c : t) : res ErrorKind rstring * t :=
  if length (datagram c) <=? index c then (Err UnexpectedEof, c)
  else match range (index c) (length (datagram c)) (datagram c) with
       | None => (Stop Panicked, c)
       | Some tail =>
           match position_zero tail with
           | None => (Err InvalidData, c)
           | Some relative_null_index =>
               let absolute_null_index := index c + relative_null_index in
               match range (index c) absolute_null_index (datagram c) with
               | None => (Stop Panicked, c)
               | Some raw =>
                   match from_utf8 raw with
                   | Some string => (Ok string, mk (datagram c) (absolute_null_index + 1))
                   | None => (Err InvalidData, c)
                   end
               end
           end
       end.

#[global] Arguments extract_ushort : simpl never.
#[global] Arguments extract_string : simpl never.

(** What is left to read. *)
Definition rest (c : t) : list byte := drop (index c) (datagram c).

Lemma extract_ushort_rest c :
  extract_ushort c =
  match rest c with
  | hi :: lo :: _ => (Ok (from_be_bytes hi lo), mk (datagram c) (index c + 2))
  | _ => (Err UnexpectedEof, c)
  end.
Proof.
  unfold extract_ushort, rest. destruct c as [d i]; simpl.
  assert (length (drop i d) = length d - i) as Hl by apply length_drop.
  assert (d !! i = drop i d !! 0 ∧ d !! (i + 1) = drop i d !! 1) as [-> ->]
    by (rewrite !lookup_drop; split; f_equal; lia).
  destruct (drop i d) as [|hi [|lo r]]; simpl in *; by settle_all.
Qed.

Lemma extract_string_rest c :
  extract_string c =
  match rest c, position_zero (rest c) with
  | [], _ => (Err UnexpectedEof, c)
  | _, None => (Err InvalidData, c)
  | _, Some n =>
      if utf8_valid (take n (rest c))
      then (Ok (take n (rest c)), mk (datagram c) (index c + n + 1))
      else (Err InvalidData, c)
  end.
Proof.
  unfold extract_string, rest. destruct c as [d i]; simpl.
  assert (length (drop i d) = length d - i) as Hl by apply length_drop.
  case_match; to_prop.
  - rewrite drop_ge by done. done.
  - rewrite range_Some by lia. rewrite take_ge by lia.
    destruct (drop i d) as [|b r] eqn:Hr; [simpl in *; lia|]. rewrite <- Hr in *.
    destruct (position_zero (drop i d)) as [n|] eqn:Hn; [|done].
    apply position_zero_Some in Hn as [Hn _].
    rewrite range_Some by lia. replace (i + n - i) with n by lia.
    unfold from_utf8. by destruct (utf8_valid _).
Qed.

Lemma extract_string_Ok (c : t) (s : rstring) (c' : t) :
  extract_string c = (Ok s, c') ↔
  nul_free s ∧ utf8_valid s = true ∧ rest c = s ++ zero :: rest c' ∧
  datagram c' = datagram c ∧ index c' = index c + length s + 1.
Proof.
  rewrite extract_string_rest. split.
  - destruct (position_zero (rest c)) as [n|] eqn:Hn; [|by destruct (rest c)].
    apply position_zero_Some in Hn as (Hlt & Hfree & Heq).
    assert (length (take n (rest c)) = n) as Hlen by (rewrite length_take; lia).
    destruct (utf8_valid (take n (rest c))) eqn:Hu; [|by destruct (rest c)].
    destruct (rest c) as [|b r] eqn:Hr; [done|]. rewrite <- Hr in *.
    intros [= <- <-]. simpl. rewrite Hlen. repeat split; try done.
    unfold rest at 3. simpl. rewrite Heq at 1. do 2 f_equal.
    unfold rest. rewrite drop_drop. f_equal. lia.
  - destruct c as [d i], c' as [d' i']. simpl. intros (Hfree & Hu & Heq & -> & ->).
    rewrite Heq, position_zero_app by done.
    rewrite take_app_length, Hu. by destruct s.
Qed.

Lemma extract_string_Err (c : t) :
  returns (extract_string c).1 ∧
  (∀ e c', extract_string c = (Err e, c') →
     c' = c ∧ e = (if decide (rest c = []) then UnexpectedEof else InvalidData)).
Proof.
  rewrite extract_string_rest.
  destruct (rest c) as [|b r] eqn:Hr; [naive_solver|]. rewrite <- Hr.
  destruct (position_zero (rest c)); [destruct (utf8_valid _)|];
    (split; [done|intros ?? [=]; rewrite decide_False by congruence; auto]).
Qed.

(** [extract_string] in full.  It succeeds with [s] exactly when what is left of the
    datagram starts with [s], valid UTF-8 and free of NUL, and a NUL behind it; the
    cursor then stands right after that NUL, in the same datagram.  A failing call
    leaves the cursor where it was and reports [UnexpectedEof] exactly when nothing
    is left, [InvalidData] otherwise; no call panics. *)
Theorem extract_string_spec (c : t) :
  (∀ s c', extract_string c = (Ok s, c') ↔
     nul_free s ∧ utf8_valid s = true ∧ rest c = s ++ zero :: rest c' ∧
     datagram c' = datagram c ∧ index c' = index c + length s + 1) ∧
  returns (extract_string c).1 ∧
  (∀ e c', extract_string c = (Err e, c') →
     c' = c ∧ e = (if decide (rest c = []) then UnexpectedEof else InvalidData)).
Proof. split; [apply extract_string_Ok|apply extract_string_Err]. Qed.

Lemma extract_string_shrinks c s c' :
  extract_string c = (Ok s, c') → length (rest c') < length (rest c).
Proof.
  intros (_ & _ & -> & _)%extract_string_Ok. rewrite length_app. simpl. lia.
Qed.

End ReadCursor.

Module WriteCursor.

Record t : Type := mk { buffer : list byte; offset : nat }.

Definition new (buffer : list byte) : t := mk buffer 0.

Definition put_ushort (value : Z) (c : t) : res BufferError nat * t :=
  let end_index := offset c + 2 in
  if length (buffer c) <? end_index
  then (Err (mkBufferError (str "Too little data left to write u16")), c)
  else match store (offset c) (as_u8 (Z.shiftr (Z.land value 0xFF00) 8)) (buffer c) with
       | None => (Stop Panicked, c)
       | Some buffer1 =>
           match store (offset c + 1) (as_u8 (Z.land value 0xFF)) buffer1 with
           | None => (Stop Panicked, mk buffer1 (offset c))
           | Some buffer2 => (Ok end_index, mk buffer2 end_index)
           end
       end.

(** The terminator is stored at [end_index], the index after the string's slot. *)
Definition put_string (string : rstring) (c : t) : res BufferError nat * t :=
  let string_size := length string in
  let end_index := offset c + string_size + 1 in
  if length (buffer c) <? end_index
  then (Err (mkBufferError (str "Too little data left to write a string "
                            ++ to_string (Z.of_nat string_size) ++ str " bytes size")), c)
  else match range (offset c) (end_index - 1) (buffer c) with
       | None => (Stop Panicked, c)
       | Some _ =>
           let buffer1 := overwrite (offset c) string (buffer c) in
           match store end_index zero buffer1 with
           | None => (Stop Panicked, mk buffer1 (offset c))
           | Some buffer2 => (Ok end_index, mk buffer2 end_index)
           end
       end.

#[global] Arguments put_ushort : simpl never.
#[global] Arguments put_string : simpl never.

(** The bytes written so far, and a buffer that is still zero behind them. *)
Definition written (c : t) : list byte := take (offset c) (buffer c).
Definition clean (c : t) : Prop := drop (offset c) (buffer c) = replicate (length (buffer c) - offset c) zero.

Lemma put_ushort_fits v c :
  offset c + 2 ≤ length (buffer c) →
  put_ushort v c =
  (Ok (offset c + 2),
   mk (overwrite (offset c) [as_u8 (Z.shiftr v 8); as_u8 v] (buffer c)) (offset c + 2)).
Proof.
  intros Hfit. unfold put_ushort. settle_all.
  rewrite store_Some by lia. rewrite store_Some by (rewrite length_insert; lia).
  assert (as_u8 (Z.land v 0xFF) = as_u8 v) as ->.
  { apply u8_val_inj. rewrite !u8_val_as_u8. change 255%Z with (Z.ones 8).
    rewrite Z.land_ones by lia. by rewrite Z.mod_mod. }
  assert (as_u8 (Z.shiftr (Z.land v 0xFF00) 8) = as_u8 (Z.shiftr v 8)) as ->.
  { apply u8_val_inj. rewrite !u8_val_as_u8, Z.shiftr_land.
    change (Z.shiftr 65280 8) with (Z.ones 8). rewrite Z.land_ones by lia. by rewrite Z.mod_mod. }
  do 2 f_equal. rewrite !insert_as_overwrite by (rewrite ?length_insert; lia).
  by rewrite (overwrite_app _ [_] [_]) by (simpl; lia).
Qed.

Lemma put_ushort_short v c :
  length (buffer c) < offset c + 2 → ∃ m, put_ushort v c = (Err (mkBufferError m), c).
Proof. intros. unfold put_ushort. settle_all. eauto. Qed.

Section put_string_branches.
Context (s : rstring) (c : t).

Lemma put_string_short :
  length (buffer c) < offset c + length s + 1 →
  ∃ m, put_string s c = (Err (mkBufferError m), c).
Proof. intros. unfold put_string. settle_all. eauto. Qed.

Lemma put_string_full :
  length (buffer c) = offset c + length s + 1 → (put_string s c).1 = Stop Panicked.
Proof.
  intros. unfold put_string. settle_all. rewrite range_Some by lia.
  by rewrite store_None by (rewrite length_overwrite; lia).
Qed.

Lemma put_string_fits :
  offset c + length s + 1 < length (buffer c) →
  put_string s c =
  (Ok (offset c + length s + 1),
   mk (<[offset c + length s + 1 := zero]> (overwrite (offset c) s (buffer c)))
      (offset c + length s + 1)).
Proof.
  intros. unfold put_string. settle_all. rewrite range_Some by lia.
  by rewrite store_Some by (rewrite length_overwrite; lia).
Qed.

(** What [put_string] appends: the string and one byte the buffer already held. *)
Lemma put_string_written stale :
  offset c + length s + 1 < length (buffer c) →
  buffer c !! (offset c + length s) = Some stale →
  written (put_string s c).2 = written c ++ s ++ [stale].
Proof.
  intros Hfit Hstale. rewrite put_string_fits by done. unfold written. simpl.
  rewrite take_insert_ge by lia. rewrite Nat.add_1_r. erewrite take_S_r.
  - rewrite take_overwrite by lia. by rewrite <- app_assoc.
  - rewrite lookup_overwrite by lia. by rewrite decide_False by lia.
Qed.

End put_string_branches.

(** [put_string] on every branch.  A buffer shorter than string and terminator is
    refused with the cursor unchanged; one exactly that long makes the store of the
    terminator panic; otherwise the call succeeds, and the bytes it appends to what
    was written are the string followed by the byte the buffer already held there:
    the NUL is stored one position further. *)
Theorem put_string_exact (s : rstring) (c : t) :
  let n := offset c + length s + 1 in
  (length (buffer c) < n → ∃ m, put_string s c = (Err (mkBufferError m), c)) ∧
  (length (buffer c) = n → (put_string s c).1 = Stop Panicked) ∧
  (n < length (buffer c) →
   put_string s c = (Ok n, mk (<[n := zero]> (overwrite (offset c) s (buffer c))) n) ∧
   ∃ stale, buffer c !! (offset c + length s) = Some stale ∧
            written (put_string s c).2 = written c ++ s ++ [stale]).
Proof.
  intros n. split; [|split]; intros Hlen.
  - by apply put_string_short.
  - by apply put_string_full.
  - split; [by apply put_string_fits|].
    destruct (lookup_lt_is_Some_2 (buffer c) (offset c + length s)) as [stale Hstale]; [lia|].
    eauto using put_string_written.
Qed.

Section clean_buffer.
Context (c : t) (Hclean : clean c) (Hoff : offset c ≤ length (buffer c)).

Lemma clean_lookup i : offset c ≤ i → i < length (buffer c) → buffer c !! i = Some zero.
Proof.
  intros. replace i with (offset c + (i - offset c)) by lia.
  rewrite <- lookup_drop, Hclean. apply lookup_replicate. split; [done|lia].
Qed.

Lemma clean_drop n : offset c ≤ n → drop n (buffer c) = replicate (length (buffer c) - n) zero.
Proof.
  intros. replace n with (offset c + (n - offset c)) at 1 by lia.
  rewrite <- drop_drop, Hclean, drop_replicate. f_equal. lia.
Qed.

Lemma put_ushort_clean v :
  offset c + 2 ≤ length (buffer c) →
  ∃ c', put_ushort v c = (Ok (offset c + 2), c') ∧ clean c' ∧
        offset c' = offset c + 2 ∧ length (buffer c') = length (buffer c) ∧
        written c' = written c ++ [as_u8 (Z.shiftr v 8); as_u8 v].
Proof using Hclean Hoff.
  intros Hfit. rewrite put_ushort_fits by done. eexists. split; [done|].
  unfold clean, written. simpl. rewrite length_overwrite by (simpl; lia).
  repeat split.
  - rewrite drop_overwrite by (simpl; lia). apply clean_drop. lia.
  - by rewrite (take_overwrite _ [_; _]) by (simpl; lia).
Qed.

Lemma put_string_clean s :
  offset c + length s + 1 < length (buffer c) →
  ∃ c', put_string s c = (Ok (offset c + length s + 1), c') ∧ clean c' ∧
        offset c' = offset c + length s + 1 ∧ length (buffer c') = length (buffer c) ∧
        written c' = written c ++ s ++ [zero].
Proof using Hclean Hoff.
  intros Hfit. pose proof (put_string_written s c zero Hfit) as Hw.
  rewrite put_string_fits in * by done. eexists. split; [done|]. unfold clean. simpl in *.
  rewrite length_insert, length_overwrite by lia.
  repeat split; [|apply Hw, clean_lookup; lia].
  rewrite list_insert_id.
  - rewrite drop_overwrite by lia. apply clean_drop. lia.
  - rewrite lookup_overwrite, decide_False by lia. apply clean_lookup; lia.
Qed.

End clean_buffer.

End WriteCursor.
