(* ===== verification/Errors.v ===== *)
(** * Errors: src/src/error.rs

    The TFTP errors the server reports and their wire format. *)

From S2P Require Import Prelude Text Cursor.

Definition ERROR : Z := 0x05.
Definition UNDEFINED_ERROR : Z := 0x00.
Definition FILE_NOT_FOUND : Z := 0x01.
Definition ACCESS_VIOLATION : Z := 0x02.
Definition ILLEGAL_OPERATION : Z := 0x04.

Inductive TFTPError : Type :=
| UndefinedError (message : rstring)
| FileNotFound (message : rstring)
| AccessViolation (message : rstring)
| IllegalOperation (message : rstring).

#[global] Instance TFTPError_eq_dec : EqDecision TFTPError.
Proof. solve_decision. Defined.

Module TFTPErr.

Definition undefined (message : rstring) : TFTPError := UndefinedError message.
Definition file_not_found : TFTPError := FileNotFound (str "File not found").
Definition access_violation : TFTPError := AccessViolation (str "Access violation").
Definition illegal_operation (message : rstring) : TFTPError := IllegalOperation message.

Definition parse (self : TFTPError) : Z * rstring :=
  match self with
  | UndefinedError string => (UNDEFINED_ERROR, string)
  | FileNotFound string => (FILE_NOT_FOUND, string)
  | AccessViolation string => (ACCESS_VIOLATION, string)
  | IllegalOperation string => (ILLEGAL_OPERATION, string)
  end.

(** The result, and the content the borrowed buffer is left with. *)
Definition serialize (self : TFTPError) (buffer : list byte) : res BufferError nat * list byte :=
  let cursor := WriteCursor.new buffer in
  let '(code, message) := parse self in
  let '(result, cursor3) :=
    let? (_, cursor1) := WriteCursor.put_ushort ERROR cursor in
    let? (_, cursor2) := WriteCursor.put_ushort code cursor1 in
    WriteCursor.put_string message cursor2 in
  (result, WriteCursor.buffer cursor3).

(** The ERROR datagram of RFC 1350. *)
Definition wire (e : TFTPError) (terminator : byte) : list byte :=
  [as_u8 0; as_u8 ERROR; as_u8 0; as_u8 (parse e).1] ++ (parse e).2 ++ [terminator].

Lemma length_wire e x : length (wire e x) = 4 + length (parse e).2 + 1.
Proof. unfold wire. rewrite !length_app. simpl. lia. Qed.

Lemma code_high_byte e : as_u8 (Z.shiftr (parse e).1 8) = as_u8 0.
Proof. by destruct e. Qed.

(** The cursor once the two words of the header are in the buffer. *)
Lemma error_serialize_header e buffer :
  4 ≤ length buffer →
  serialize e buffer =
  (let '(r, c) := WriteCursor.put_string (parse e).2
     (WriteCursor.mk (overwrite 0 [as_u8 0; as_u8 ERROR; as_u8 0; as_u8 (parse e).1] buffer) 4) in
   (r, WriteCursor.buffer c)).
Proof.
  intros Hlen. unfold serialize. rewrite (surjective_pairing (parse e)) at 1.
  rewrite WriteCursor.put_ushort_fits by (simpl; lia). simpl.
  rewrite WriteCursor.put_ushort_fits by (simpl; rewrite length_overwrite; simpl; lia).
  simpl. rewrite (overwrite_app 0 [_; _] [_; _]) by (simpl; lia).
  by rewrite code_high_byte.
Qed.

Lemma error_serialize_fits e buffer stale :
  buffer !! (4 + length (parse e).2) = Some stale →
  4 + length (parse e).2 + 1 < length buffer →
  ∃ buffer', serialize e buffer = (Ok (4 + length (parse e).2 + 1), buffer') ∧
             length buffer' = length buffer ∧
             take (4 + length (parse e).2 + 1) buffer' = wire e stale.
Proof.
  intros Hstale Hlen. rewrite error_serialize_header by lia.
  set (c := WriteCursor.mk _ _).
  assert (length (WriteCursor.buffer c) = length buffer) as Hl
    by (subst c; simpl; rewrite length_overwrite; simpl; lia).
  pose proof (WriteCursor.put_string_written (parse e).2 c stale) as Hw.
  rewrite WriteCursor.put_string_fits in * by (rewrite Hl; simpl; lia).
  eexists. split; [done|]. simpl. split.
  - rewrite length_insert, length_overwrite; simpl in *; lia.
  - unfold WriteCursor.written in Hw. simpl in Hw. rewrite Hw; [done|simpl in Hl; lia|].
    rewrite lookup_overwrite by (simpl; lia). by rewrite decide_False by (simpl; lia).
Qed.

(** The usual case: the buffer still holds a zero where the terminator belongs. *)
Lemma error_serialize_zeroed e buffer :
  buffer !! (4 + length (parse e).2) = Some zero →
  4 + length (parse e).2 + 1 < length buffer →
  ∃ buffer', serialize e buffer = (Ok (length (wire e zero)), buffer') ∧
             length buffer' = length buffer ∧
             take (length (wire e zero)) buffer' = wire e zero.
Proof. intros. rewrite length_wire. by apply error_serialize_fits. Qed.

(** Serializing an error succeeds exactly when the buffer has at least one byte to
    spare behind the datagram; the datagram is then opcode 5, the error's code and its
    message, followed by the byte the buffer held at the terminator's place (a NUL if
    the buffer was zero there).  With no byte to spare the call panics, with less room
    it is refused. *)
Theorem error_serialize_exact (e : TFTPError) (buffer : list byte) :
  let n := length (wire e zero) in
  (n < length buffer →
     ∃ stale buffer', buffer !! (n - 1) = Some stale ∧ serialize e buffer = (Ok n, buffer') ∧
                      take n buffer' = wire e stale) ∧
  (n = length buffer → (serialize e buffer).1 = Stop Panicked) ∧
  (length buffer < n → ∃ m, (serialize e buffer).1 = Err (mkBufferError m)).
Proof.
  rewrite length_wire. intros n. split; [|split]; intros Hlen.
  - destruct (lookup_lt_is_Some_2 buffer (4 + length (parse e).2)) as [stale Hs]; [lia|].
    destruct (error_serialize_fits e buffer stale Hs) as (buffer' & ? & _ & ?); [lia|].
    exists stale, buffer'. split; [|done]. rewrite <- Hs. f_equal. lia.
  - rewrite error_serialize_header by lia. set (c := WriteCursor.mk _ _).
    pose proof (WriteCursor.put_string_full (parse e).2 c) as Hp.
    destruct (WriteCursor.put_string _ _). apply Hp. simpl; rewrite length_overwrite; simpl; lia.
  - destruct (decide (4 ≤ length buffer)).
    + rewrite error_serialize_header by lia. set (c := WriteCursor.mk _ _).
      destruct (WriteCursor.put_string_short (parse e).2 c) as [m ->]; [|by exists m].
      simpl; rewrite length_overwrite; simpl; lia.
    + unfold serialize. rewrite (surjective_pairing (parse e)).
      destruct (decide (2 ≤ length buffer)).
      * rewrite WriteCursor.put_ushort_fits by (simpl; lia). simpl.
        set (c := WriteCursor.mk _ _).
        destruct (WriteCursor.put_ushort_short (parse e).1 c) as [m ->]; [|by exists m].
        simpl; rewrite length_overwrite; simpl; lia.
      * destruct (WriteCursor.put_ushort_short ERROR (WriteCursor.new buffer)) as [m ->];
          [simpl; lia|by exists m].
Qed.

End TFTPErr.
