(* ===== verification/Fs.v ===== *)
(** * Fs: src/src/fs.rs

    The two traits through which a session sees files, as type classes: an
    [OpenedFile] is read into a buffer and asked for its size, a [Root] opens a
    path.  [OpenedFileSpec] is what the transfer relies on; the local and the
    remote files are instances of it, and so is the in-memory file of the unit
    tests of the transfer. *)

From S2P Require Import Prelude.

(** [read_to] returns the count, the content the caller's buffer is left with, and
    the file. *)
Class OpenedFile (F : Type) : Type := {
  read_to : F → list byte → res ErrorKind nat * (list byte * F);
  get_size : F → res ErrorKind Z * F;
}.

Class Root (R F : Type) : Type := {
  open : R → rstring → res ErrorKind F;
}.

(** The contract: a [readable] file is a stream of [remaining] bytes; a read fills the
    buffer as far as the stream goes, and says how far.  The size is only promised of a
    file nothing was read from ([fresh]), where it is the length of the stream. *)
Class OpenedFileSpec (F : Type) `{OpenedFile F} : Type := {
  remaining : F → list byte;
  readable : F → Prop;
  fresh : F → Prop;
  read_to_spec f buffer :
    readable f →
    let n := length buffer `min` length (remaining f) in
    ∃ f', read_to f buffer = (Ok n, (take n (remaining f) ++ drop n buffer, f')) ∧
          remaining f' = drop n (remaining f) ∧ readable f';
  get_size_spec f :
    readable f → fresh f →
    ∃ f', get_size f = (Ok (Z.of_nat (length (remaining f))), f') ∧
          remaining f' = remaining f ∧ readable f' ∧ fresh f';
}.

(** The in-memory file of src/src/peer_handler/tests.rs. *)
Module VirtualOpenedFile.

Record t : Type := mk { buffer : list byte; offset : nat }.

Definition new (buffer : list byte) : t := mk buffer 0.

Definition read_into (self : t) (dst : list byte) : res ErrorKind nat * (list byte * t) :=
  let slice_length := length dst `min` (length (buffer self) - offset self) in
  match range (offset self) (offset self + slice_length) (buffer self) with
  | None => (Stop Panicked, (dst, self))
  | Some src => (Ok slice_length,
                 (src ++ drop slice_length dst, mk (buffer self) (offset self + slice_length)))
  end.

Definition size (self : t) : res ErrorKind Z * t :=
  (Ok (Z.of_nat (length (buffer self))), self).

End VirtualOpenedFile.

#[global] Instance VirtualOpenedFile_OpenedFile : OpenedFile VirtualOpenedFile.t := {
  read_to := VirtualOpenedFile.read_into;
  get_size := VirtualOpenedFile.size;
}.

#[global] Program Instance VirtualOpenedFile_spec : OpenedFileSpec VirtualOpenedFile.t := {
  remaining f := drop (VirtualOpenedFile.offset f) (VirtualOpenedFile.buffer f);
  readable f := VirtualOpenedFile.offset f ≤ length (VirtualOpenedFile.buffer f);
  fresh f := VirtualOpenedFile.offset f = 0;
}.
Next Obligation.
  intros [b o] dst Hf n. simpl in *. unfold VirtualOpenedFile.read_into. simpl.
  assert (length dst `min` (length b - o) = n) as -> by (unfold n; rewrite length_drop; done).
  assert (n ≤ length b - o) by (unfold n; rewrite length_drop; lia).
  rewrite range_Some by lia. replace (o + n - o) with n by lia.
  eexists. split; [done|]. simpl. rewrite drop_drop. split; [done|lia].
Qed.
Next Obligation.
  intros [b o] Hf Ho. simpl in *. subst o. unfold VirtualOpenedFile.size. simpl.
  rewrite drop_0. eauto.
Qed.
