(* ===== verification/Options.v ===== *)
(** * Options: src/src/options/mod.rs

    The four TFTP options the server knows, how a request's option map is
    searched for them and how the acknowledged value is printed.  A [HashMap] of
    strings is a [gmap]; [parse::<usize>] and [to_string] are those of Text. *)

From S2P Require Import Prelude Text Fs.

Abbreviation options_map := (gmap rstring rstring).

Definition TSIZE : rstring := str "tsize".
Definition TIMEOUT : rstring := str "timeout".
Definition BLKSIZE : rstring := str "blksize".
Definition WINDOW_SIZE : rstring := str "windowsize".

Definition BLOCK_SIZE_BOTTOM_CAP : Z := 8.
Definition BLOCK_SIZE_UPPER_CAP : Z := u16_max.
Definition ACK_TIMEOUT_BOTTOM_CAP : Z := 1.
Definition ACK_TIMEOUT_UPPER_CAP : Z := 255.
Definition WINDOW_SIZE_BOTTOM_CAP : Z := 1.
Definition WINDOW_SIZE_UPPER_CAP : Z := u16_max.

(** [(lo..=hi).contains(&n)] *)
Definition contained (lo hi n : Z) : bool := (lo <=? n)%Z && (n <=? hi)%Z.

Module Blksize.

Record t : Type := mk { block_size : Z }.

Definition find_in (options : options_map) : option t :=
  match options !! BLKSIZE with
  | Some block_size_string =>
      match parse_usize block_size_string with
      | Some block_size =>
          if contained BLOCK_SIZE_BOTTOM_CAP BLOCK_SIZE_UPPER_CAP block_size
          then Some (mk block_size) else None
      | None => None
      end
  | None => None
  end.

Definition as_key_pair (self : t) : rstring * rstring := (BLKSIZE, to_string (block_size self)).

Definition get_size (self : t) : Z := block_size self.

Definition default : t := mk 512.

End Blksize.

Module AckTimeout.

Record t : Type := mk { timeout : Z }.

Definition default : t := mk 5.

Definition find_in (options : options_map) : option t :=
  match options !! TIMEOUT with
  | Some timeout_string =>
      match parse_usize timeout_string with
      | Some timeout =>
          if contained ACK_TIMEOUT_BOTTOM_CAP ACK_TIMEOUT_UPPER_CAP timeout
          then Some (mk timeout) else None
      | None => None
      end
  | None => None
  end.

Definition as_key_pair (self : t) : rstring * rstring := (TIMEOUT, to_string (timeout self)).

End AckTimeout.

Module TSize.

Record t : Type := mk { file_size : Z }.

Definition is_requested (options : options_map) : bool :=
  match options !! TSIZE with Some _ => true | None => false end.

Definition obtain {F} `{OpenedFile F} (opened_file : F) : res ErrorKind t * F :=
  let? (file_size, opened_file') := get_size opened_file in
  (Ok (mk file_size), opened_file').

Definition as_key_pair (self : t) : rstring * rstring := (TSIZE, to_string (file_size self)).

End TSize.

Module WindowSize.

Record t : Type := mk { blocks_count : Z }.

Definition find_in (options : options_map) : option t :=
  match options !! WINDOW_SIZE with
  | Some window_size =>
      match parse_usize window_size with
      | Some window_size =>
          if contained WINDOW_SIZE_BOTTOM_CAP WINDOW_SIZE_UPPER_CAP window_size
          then Some (mk window_size) else None
      | None => None
      end
  | None => None
  end.

Definition get_size (self : t) : Z := blocks_count self.

Definition as_key_pair (self : t) : rstring * rstring := (WINDOW_SIZE, to_string (blocks_count self)).

Definition default : t := mk 1.

End WindowSize.

(** The search shared by the three numeric options: the value under [key], read as
    decimal, if it lies between the caps. *)
Definition find_capped (key : rstring) (lo hi : Z) (options : options_map) : option Z :=
  s ← options !! key; n ← parse_usize s; if contained lo hi n then Some n else None.

Lemma Blksize_find_capped o :
  Blksize.find_in o =
  Blksize.mk <$> find_capped BLKSIZE BLOCK_SIZE_BOTTOM_CAP BLOCK_SIZE_UPPER_CAP o.
Proof. unfold Blksize.find_in, find_capped. by repeat (case_match; simpl). Qed.

Lemma AckTimeout_find_capped o :
  AckTimeout.find_in o =
  AckTimeout.mk <$> find_capped TIMEOUT ACK_TIMEOUT_BOTTOM_CAP ACK_TIMEOUT_UPPER_CAP o.
Proof. unfold AckTimeout.find_in, find_capped. by repeat (case_match; simpl). Qed.

Lemma WindowSize_find_capped o :
  WindowSize.find_in o =
  WindowSize.mk <$> find_capped WINDOW_SIZE WINDOW_SIZE_BOTTOM_CAP WINDOW_SIZE_UPPER_CAP o.
Proof. unfold WindowSize.find_in, find_capped. by repeat (case_match; simpl). Qed.

Lemma find_capped_bounds key lo hi o n : find_capped key lo hi o = Some n → (lo ≤ n ≤ hi)%Z.
Proof.
  unfold find_capped, contained. intros (s & _ & (m & _ & Hm)%bind_Some)%bind_Some.
  case_match; simplify_eq. to_prop. lia.
Qed.

Lemma find_capped_value key lo hi o n :
  find_capped key lo hi o = Some n → (0 ≤ n ≤ usize_max)%Z.
Proof.
  unfold find_capped. intros (s & _ & (m & Hm & Hc)%bind_Some)%bind_Some.
  apply parse_usize_bounds in Hm. by case_match; simplify_eq.
Qed.

Lemma find_capped_insert key lo hi o n :
  (lo ≤ n ≤ hi)%Z → (0 ≤ n ≤ usize_max)%Z →
  find_capped key lo hi (<[key := to_string n]> o) = Some n.
Proof.
  intros. unfold find_capped. rewrite lookup_insert_eq. simpl.
  rewrite parse_to_string by done. simpl. unfold contained. by settle_all.
Qed.

Lemma find_capped_absent key lo hi o : o !! key = None → find_capped key lo hi o = None.
Proof. intros Ho. unfold find_capped. by rewrite Ho. Qed.

(** A map that has the value found under [key], printed, is found to have the same. *)
Lemma find_capped_same {V} (mk : Z → V) (num : V → Z) key lo hi o m :
  (∀ n, num (mk n) = n) → m !! key = to_string ∘ num <$> (mk <$> find_capped key lo hi o) →
  find_capped key lo hi m = find_capped key lo hi o.
Proof.
  intros Hnum Hm. destruct (find_capped key lo hi o) as [n|] eqn:E.
  - simpl in Hm. rewrite Hnum in Hm. unfold find_capped. rewrite Hm. simpl.
    rewrite parse_to_string by eauto using find_capped_value. simpl.
    apply find_capped_bounds in E. unfold contained. by settle_all.
  - unfold find_capped. by rewrite Hm.
Qed.

(** What the numeric options yield is within their caps: a block of 8 to 65535
    bytes, a timeout of 1 to 255 seconds, a window of 1 to 65535 blocks, and the
    defaults used in their absence (512, 5 and 1) are as well. *)
Theorem find_in_bounds (o : options_map) :
  (8 ≤ Blksize.block_size (default Blksize.default (Blksize.find_in o)) ≤ 65535)%Z ∧
  (1 ≤ AckTimeout.timeout (default AckTimeout.default (AckTimeout.find_in o)) ≤ 255)%Z ∧
  (1 ≤ WindowSize.blocks_count (default WindowSize.default (WindowSize.find_in o)) ≤ 65535)%Z.
Proof.
  rewrite Blksize_find_capped, AckTimeout_find_capped, WindowSize_find_capped.
  split; [|split]; (destruct (find_capped _ _ _ _) eqn:E; simpl; [|lia]);
    apply find_capped_bounds in E; exact E.
Qed.

(** The value acknowledged for an option is read back as the same option: a client
    that answers an OACK by requesting what it was offered is offered the same again. *)
Theorem acknowledged_is_stable (o o' : options_map) (b : Blksize.t) (a : AckTimeout.t) (w : WindowSize.t) :
  Blksize.find_in o = Some b → AckTimeout.find_in o = Some a → WindowSize.find_in o = Some w →
  let ins m (kv : rstring * rstring) := <[kv.1 := kv.2]> m in
  Blksize.find_in (ins o' (Blksize.as_key_pair b)) = Some b ∧
  AckTimeout.find_in (ins o' (AckTimeout.as_key_pair a)) = Some a ∧
  WindowSize.find_in (ins o' (WindowSize.as_key_pair w)) = Some w.
Proof.
  rewrite !Blksize_find_capped, !AckTimeout_find_capped, !WindowSize_find_capped.
  intros (nb & Hb & ->)%fmap_Some (na & Ha & ->)%fmap_Some (nw & Hw & ->)%fmap_Some ins.
  unfold ins, Blksize.as_key_pair, AckTimeout.as_key_pair, WindowSize.as_key_pair.
  rewrite Blksize_find_capped, AckTimeout_find_capped, WindowSize_find_capped.
  cbn [fst snd Blksize.block_size AckTimeout.timeout WindowSize.blocks_count].
  rewrite !find_capped_insert by eauto using find_capped_bounds, find_capped_value. done.
Qed.

Definition sample_options : options_map :=
  <[BLKSIZE := str "+01024"]> (<[TIMEOUT := str "3"]> {[WINDOW_SIZE := str "16"]}).

Lemma acknowledged_is_stable_witness :
  Blksize.find_in sample_options = Some (Blksize.mk 1024) ∧
  Blksize.find_in {[BLKSIZE := str "1024"]} = Some (Blksize.mk 1024).
Proof.
  split; [reflexivity|].
  exact (proj1 (acknowledged_is_stable sample_options ∅
           (Blksize.mk 1024) (AckTimeout.mk 3) (WindowSize.mk 16) eq_refl eq_refl eq_refl)).
Defined.
