(* ===== verification/Messages.v ===== *)
(** * Messages: src/src/messages/mod.rs

    Parsing of a read request and building of an option acknowledgement. *)

From S2P Require Import Prelude Text Cursor Errors Fs Options.

Definition RRQ : Z := 0x01.
Definition OACK : Z := 0x06.
Definition OCTET : rstring := str "octet".

Module ReadRequest.

Record t : Type := mk { filename : rstring; options : options_map }.

(** The [loop] over the options: it ends when the datagram does.  Every round takes at
    least two bytes, so a fuel above the datagram's length is never used up. *)
Fixpoint parse_options (fuel : nat) (cursor : ReadCursor.t) (options : options_map)
  : res TFTPError options_map :=
  match fuel with
  | O => Stop OutOfFuel
  | S fuel' =>
      match ReadCursor.extract_string cursor with
      | (Ok option_name, cursor1) =>
          match ReadCursor.extract_string cursor1 with
          | (Ok option_value, cursor2) =>
              parse_options fuel' cursor2 (<[option_name := option_value]> options)
          | (Err _, _) => Err (TFTPErr.undefined (str "Bad format"))
          | (Stop h, _) => Stop h
          end
      | (Err UnexpectedEof, _) => Ok options
      | (Err _, _) => Err (TFTPErr.undefined (str "Bad format"))
      | (Stop h, _) => Stop h
      end
  end.

Definition parse (raw : list byte) : res TFTPError t :=
  let cursor := ReadCursor.new raw in
  match ReadCursor.extract_ushort cursor with
  | (Stop h, _) => Stop h
  | (Err _, _) => Err (TFTPErr.undefined (str "Bad format"))
  | (Ok opcode, cursor1) =>
      if negb (opcode =? RRQ)%Z
      then Err (TFTPErr.illegal_operation (str "Only RRQ is supported"))
      else
        match ReadCursor.extract_string cursor1 with
        | (Stop h, _) => Stop h
        | (Err _, _) => Err (TFTPErr.undefined (str "Can't obtain filename"))
        | (Ok filename, cursor2) =>
            match ReadCursor.extract_string cursor2 with
            | (Stop h, _) => Stop h
            | (Err _, _) => Err (TFTPErr.undefined (str "Bad format"))
            | (Ok mode, cursor3) =>
                if decide (mode ≠ OCTET) then
                  if decide (mode = []) then Err (TFTPErr.undefined (str "Bad format"))
                  else Err (TFTPErr.undefined (str "Only octet mode is supported"))
                else
                  match parse_options (S (length raw)) cursor3 ∅ with
                  | Ok options => Ok (mk filename options)
                  | Err e => Err e
                  | Stop h => Stop h
                  end
            end
        end
  end.

Definition open_in {R F} `{Root R F} (self : t) (filesystem : R) : res ErrorKind F :=
  let normalized_path := trim_start_slashes (filename self) in
  open filesystem normalized_path.

Definition yield_options (self : t) : options_map := options self.

(** ** The wire format of RFC 1350 and RFC 2347 *)

Definition zstring (s : rstring) : list byte := s ++ [zero].

Definition options_wire (opts : list (rstring * rstring)) : list byte :=
  opts ≫= λ '(k, v), zstring k ++ zstring v.

Definition wire (filename mode : rstring) (opts : list (rstring * rstring)) : list byte :=
  [as_u8 0; as_u8 RRQ] ++ zstring filename ++ zstring mode ++ options_wire opts.

(** Strings that survive a trip over the wire. *)
Definition wire_string (s : rstring) : Prop := nul_free s ∧ utf8_valid s = true.

Definition insert_option (m : options_map) (kv : rstring * rstring) : options_map :=
  <[kv.1 := kv.2]> m.

(** Later options of the same name replace earlier ones. *)
Definition options_of (opts : list (rstring * rstring)) : options_map :=
  foldl insert_option ∅ opts.

Lemma extract_zstring c s r :
  wire_string s → ReadCursor.rest c = zstring s ++ r →
  ∃ c', ReadCursor.extract_string c = (Ok s, c') ∧ ReadCursor.rest c' = r ∧
        ReadCursor.datagram c' = ReadCursor.datagram c.
Proof.
  intros [Hn Hu] Hr. unfold zstring in Hr. rewrite <- app_assoc in Hr. simpl in Hr.
  set (c' := ReadCursor.mk (ReadCursor.datagram c) (ReadCursor.index c + length s + 1)).
  assert (ReadCursor.rest c' = r) as Hr'.
  { unfold ReadCursor.rest in *. subst c'. simpl.
    rewrite <- Nat.add_assoc, <- drop_drop, Hr.
    rewrite drop_app_ge by lia. by replace (length s + 1 - length s) with 1 by lia. }
  exists c'. split; [|done]. apply ReadCursor.extract_string_Ok. by rewrite Hr, Hr'.
Qed.

Lemma extract_string_inv c s c' :
  ReadCursor.extract_string c = (Ok s, c') →
  wire_string s ∧ ReadCursor.rest c = zstring s ++ ReadCursor.rest c'.
Proof.
  intros (? & ? & Hr & _)%ReadCursor.extract_string_Ok.
  split; [done|]. unfold zstring. by rewrite <- app_assoc.
Qed.

Lemma extract_string_stop c h c' : ReadCursor.extract_string c ≠ (Stop h, c').
Proof. intros E. pose proof (proj1 (ReadCursor.extract_string_Err c)) as Hr. by rewrite E in Hr. Qed.

Lemma extract_string_eof c c' :
  ReadCursor.extract_string c = (Err UnexpectedEof, c') ↔ ReadCursor.rest c = [] ∧ c' = c.
Proof.
  split.
  - intros E. destruct (ReadCursor.extract_string_Err c) as [_ He].
    destruct (He _ _ E) as [-> Heq]. by case_decide.
  - intros [Hr ->]. by rewrite ReadCursor.extract_string_rest, Hr.
Qed.

Lemma parse_options_complete opts fuel c m :
  Forall (λ kv, wire_string kv.1 ∧ wire_string kv.2) opts →
  ReadCursor.rest c = options_wire opts → length opts < fuel →
  parse_options fuel c m = Ok (foldl insert_option m opts).
Proof.
  intros Hwf. revert fuel c m.
  induction Hwf as [|[k v] opts [Hk Hv] _ IH]; intros [|fuel] c m Hr Hf; simpl in *; try lia.
  - by rewrite (proj2 (extract_string_eof c c)) by done.
  - rewrite <- app_assoc in Hr. destruct (extract_zstring _ _ _ Hk Hr) as (c1 & -> & Hr1 & _).
    destruct (extract_zstring _ _ _ Hv Hr1) as (c2 & -> & Hr2 & _).
    apply IH; [done|lia].
Qed.

Lemma parse_options_sound fuel c m m' :
  parse_options fuel c m = Ok m' →
  ∃ opts, Forall (λ kv, wire_string kv.1 ∧ wire_string kv.2) opts ∧
          ReadCursor.rest c = options_wire opts ∧ m' = foldl insert_option m opts.
Proof.
  revert c m. induction fuel as [|fuel IH]; intros c m; simpl; [done|].
  destruct (ReadCursor.extract_string c) as [[k|[]|] c1] eqn:E1; try done.
  - destruct (ReadCursor.extract_string c1) as [[v| |] c2] eqn:E2; try done.
    intros (opts & Hwf & Hr & ->)%IH.
    apply extract_string_inv in E1 as [? Hr1]. apply extract_string_inv in E2 as [? Hr2].
    exists ((k, v) :: opts). split; [by constructor|]. split; [|done].
    simpl. by rewrite Hr1, Hr2, Hr, <- app_assoc.
  - intros [= ->]. apply extract_string_eof in E1 as [-> _]. by exists [].
Qed.

Lemma parse_options_returns fuel c m :
  length (ReadCursor.rest c) < fuel → returns (parse_options fuel c m).
Proof.
  revert c m. induction fuel as [|fuel IH]; intros c m Hf; simpl; [lia|].
  destruct (ReadCursor.extract_string c) as [[k|[]|] c1] eqn:E1; try done;
    [|by apply extract_string_stop in E1].
  destruct (ReadCursor.extract_string c1) as [[v| |] c2] eqn:E2; try done;
    [|by apply extract_string_stop in E2].
  apply IH. apply ReadCursor.extract_string_shrinks in E1, E2. lia.
Qed.

Lemma rest_shrinks c c' s :
  ReadCursor.extract_string c = (Ok s, c') → length (ReadCursor.rest c') ≤ length (ReadCursor.rest c).
Proof. intros ?%ReadCursor.extract_string_shrinks. lia. Qed.

Lemma options_wire_length opts : length opts ≤ length (options_wire opts).
Proof.
  induction opts as [|[k v] opts IH]; simpl; [done|].
  unfold zstring. rewrite !length_app. simpl. lia.
Qed.

Lemma rrq_opcode hi lo : from_be_bytes hi lo = RRQ ↔ hi = as_u8 0 ∧ lo = as_u8 RRQ.
Proof.
  split; [|by intros [-> ->]]. unfold from_be_bytes, RRQ. intros E.
  pose proof (u8_val_range hi). pose proof (u8_val_range lo).
  split; apply u8_val_inj; rewrite u8_val_as_u8; change (0 mod 256)%Z with 0%Z;
    change (1 mod 256)%Z with 1%Z; lia.
Qed.

Lemma parse_complete filename opts :
  wire_string filename → Forall (λ kv, wire_string kv.1 ∧ wire_string kv.2) opts →
  parse (wire filename OCTET opts) = Ok (mk filename (options_of opts)).
Proof.
  intros Hf Hopts. unfold parse.
  assert (ReadCursor.extract_ushort (ReadCursor.new (wire filename OCTET opts))
          = (Ok RRQ, ReadCursor.mk (wire filename OCTET opts) 2)) as ->
    by (rewrite ReadCursor.extract_ushort_rest; reflexivity).
  rewrite Z.eqb_refl. cbn [negb].
  destruct (extract_zstring (ReadCursor.mk (wire filename OCTET opts) 2) filename
              (zstring OCTET ++ options_wire opts)) as (c2 & -> & Hr2 & _); [done..|].
  destruct (extract_zstring c2 OCTET (options_wire opts)) as (c3 & -> & Hr3 & _);
    [split; [by apply (bool_decide_unpack _)|done]|done|].
  rewrite decide_False by naive_solver.
  rewrite (parse_options_complete opts) by
    (done || (pose proof (options_wire_length opts); unfold wire; rewrite !length_app; simpl; lia)).
  done.
Qed.

Lemma parse_sound raw r :
  parse raw = Ok r →
  ∃ opts, raw = wire (filename r) OCTET opts ∧ wire_string (filename r) ∧
          Forall (λ kv, wire_string kv.1 ∧ wire_string kv.2) opts ∧ options r = options_of opts.
Proof.
  unfold parse. rewrite ReadCursor.extract_ushort_rest. generalize (S (length raw)). intros fuel.
  destruct raw as [|hi [|lo raw]]; simpl; try done.
  destruct (from_be_bytes hi lo =? RRQ)%Z eqn:Hop; [|done]. simpl. to_prop.
  apply rrq_opcode in Hop as [-> ->].
  destruct (ReadCursor.extract_string _) as [[f| |] c2] eqn:E2; try done.
  destruct (ReadCursor.extract_string c2) as [[mode| |] c3] eqn:E3; try done.
  case_decide as Hm; [by case_decide|]. subst mode.
  destruct (parse_options fuel c3 ∅) as [m| |] eqn:Ho; try done. intros [= <-]. simpl.
  apply parse_options_sound in Ho as (opts & Hwf & Hr & ->).
  apply extract_string_inv in E2 as [Hf Hr2]. apply extract_string_inv in E3 as [_ Hr3].
  exists opts. split; [|done]. unfold ReadCursor.rest in Hr2 at 1. simpl in Hr2.
  rewrite drop_0 in Hr2.
  unfold wire. simpl. by rewrite Hr2, Hr3, Hr.
Qed.

(** C12: [ReadRequest::parse] accepts exactly the well-formed octet-mode read requests:
    it returns [r] iff the datagram is opcode 1, a file name, "octet" and any number of
    option pairs, all NUL-terminated UTF-8, with [r] holding that name and, for each
    option name, its last value. *)
Theorem parse_iff (raw : list byte) (r : t) :
  parse raw = Ok r ↔
  ∃ opts, raw = wire (filename r) OCTET opts ∧ wire_string (filename r) ∧
          Forall (λ kv, wire_string kv.1 ∧ wire_string kv.2) opts ∧ options r = options_of opts.
Proof.
  split; [apply parse_sound|]. intros (opts & -> & Hf & Hopts & Ho).
  rewrite parse_complete by done. destruct r. simpl in *. by rewrite Ho.
Qed.

Lemma parse_returns raw : returns (parse raw).
Proof.
  unfold parse. rewrite ReadCursor.extract_ushort_rest.
  remember (S (length raw)) as fuel eqn:Hfuel.
  destruct raw as [|hi [|lo raw]]; simpl; try done.
  destruct (from_be_bytes hi lo =? RRQ)%Z; simpl; [|done].
  destruct (ReadCursor.extract_string _) as [[f| |] c2] eqn:E2; try done;
    [|by apply extract_string_stop in E2].
  destruct (ReadCursor.extract_string c2) as [[mode| |] c3] eqn:E3; try done;
    [|by apply extract_string_stop in E3].
  case_decide; [by case_decide|].
  pose proof (parse_options_returns fuel c3 ∅) as Hp.
  destruct (parse_options fuel c3 ∅); try done. apply Hp.
  apply rest_shrinks in E2, E3. unfold ReadCursor.rest in E2 at 2. simpl in *.
  rewrite drop_0 in E2. lia.
Qed.

Lemma parse_options_error fuel c m e :
  parse_options fuel c m = Err e → e = UndefinedError (str "Bad format").
Proof.
  revert c m. induction fuel as [|fuel IH]; intros c m; simpl; [done|]. unfold TFTPErr.undefined.
  intros. repeat (case_match; simplify_eq; try done); eauto.
Qed.

(** The messages of the errors are short. *)
Lemma parse_error_length raw e : parse raw = Err e → length (TFTPErr.wire e zero) < 37.
Proof.
  unfold parse, TFTPErr.undefined, TFTPErr.illegal_operation.
  repeat (case_match; try done); intros [= <-];
    match goal with
    | H : parse_options _ _ _ = Err _ |- _ => apply parse_options_error in H as ->
    | _ => idtac
    end; vm_compute; lia.
Qed.

(** [parse] returns on every datagram: no index out of bounds, no endless loop.  What
    it refuses it answers with "illegal operation" exactly when the first two bytes are
    there and are not the RRQ opcode, and with an undefined error otherwise. *)
Theorem parse_total (raw : list byte) :
  returns (parse raw) ∧
  ∀ e, parse raw = Err e →
    match raw with
    | hi :: lo :: _ =>
        if decide (from_be_bytes hi lo = RRQ) then ∃ m, e = UndefinedError m
        else e = IllegalOperation (str "Only RRQ is supported")
    | _ => e = UndefinedError (str "Bad format")
    end.
Proof.
  split; [apply parse_returns|]. intros e.
  unfold parse. rewrite ReadCursor.extract_ushort_rest.
  destruct raw as [|hi [|lo raw]]; simpl; [by intros [= <-]..|].
  case_decide as Hop.
  - rewrite Hop, Z.eqb_refl. simpl. unfold TFTPErr.undefined.
    intros. repeat (case_match; simplify_eq; try done); eauto using parse_options_error.
  - settle_all. by intros [= <-].
Qed.

End ReadRequest.

Module OptionsAcknowledge.

Record t : Type := mk { options : list (rstring * rstring) }.

Definition new : t := mk [].

Fixpoint put_options (opts : list (rstring * rstring)) (offset : nat) (datagram : WriteCursor.t)
  : res BufferError nat * WriteCursor.t :=
  match opts with
  | [] => (Ok offset, datagram)
  | (key, value) :: opts' =>
      let? (_, datagram1) := WriteCursor.put_string key datagram in
      let? (offset', datagram2) := WriteCursor.put_string value datagram1 in
      put_options opts' offset' datagram2
  end.

(** The result, and the content the borrowed buffer is left with. *)
Definition serialize (self : t) (buffer : list byte) : res BufferError nat * list byte :=
  match buffer with
  | [] => (Ok 0, buffer)
  | _ =>
      let datagram := WriteCursor.new buffer in
      let '(result, datagram2) :=
        let? (_, datagram1) := WriteCursor.put_ushort OACK datagram in
        put_options (options self) 0 datagram1 in
      (result, WriteCursor.buffer datagram2)
  end.

Definition push (self : t) (option : rstring * rstring) : t := mk (options self ++ [option]).

Definition has_options (self : t) : bool :=
  match options self with [] => false | _ => true end.

(** The OACK datagram of RFC 2347. *)
Definition wire (self : t) : list byte :=
  [as_u8 0; as_u8 OACK] ++ ReadRequest.options_wire (options self).

Lemma put_options_clean opts offset c :
  WriteCursor.clean c → WriteCursor.offset c ≤ length (WriteCursor.buffer c) →
  WriteCursor.offset c + length (ReadRequest.options_wire opts) < length (WriteCursor.buffer c) →
  ∃ c', put_options opts offset c =
          (Ok (match opts with [] => offset | _ => WriteCursor.offset c' end), c') ∧
        WriteCursor.offset c' = WriteCursor.offset c + length (ReadRequest.options_wire opts) ∧
        length (WriteCursor.buffer c') = length (WriteCursor.buffer c) ∧
        WriteCursor.written c' = WriteCursor.written c ++ ReadRequest.options_wire opts.
Proof.
  revert offset c. induction opts as [|[k v] opts IH]; intros offset c Hc Ho Hfit.
  - exists c. simpl. by rewrite app_nil_r, Nat.add_0_r.
  - simpl in *. unfold ReadRequest.zstring in *. rewrite !length_app in *. simpl in *.
    destruct (WriteCursor.put_string_clean c Hc Ho k) as (c1 & -> & Hc1 & Ho1 & Hl1 & Hw1); [lia|].
    destruct (WriteCursor.put_string_clean c1 Hc1) with (s := v)
      as (c2 & -> & Hc2 & Ho2 & Hl2 & Hw2); [lia..|].
    destruct (IH (WriteCursor.offset c1 + length v + 1) c2) as (c3 & -> & Ho3 & Hl3 & Hw3);
      [done|lia..|].
    exists c3. split; [|split; [lia|split; [lia|]]].
    + destruct opts; [|done]. simpl in Ho3. do 2 f_equal. lia.
    + rewrite Hw3, Hw2, Hw1. by rewrite <- !app_assoc.
Qed.

Lemma oack_serialize_zeroed self n :
  length (wire self) < n → options self ≠ [] →
  ∃ buffer', serialize self (replicate n zero) = (Ok (length (wire self)), buffer') ∧
             length buffer' = n ∧ take (length (wire self)) buffer' = wire self.
Proof.
  intros Hn Hne. unfold serialize. unfold wire in *. rewrite length_app in *. simpl in *.
  destruct (replicate n zero) as [|b l] eqn:Hrep; [destruct n; [lia|done]|]. rewrite <- Hrep.
  assert (length (replicate n zero) = n) as Hlen by apply length_replicate.
  destruct (WriteCursor.put_ushort_clean (WriteCursor.new (replicate n zero)))
    with (v := OACK) as (c1 & -> & Hc1 & Ho1 & Hl1 & Hw1).
  { unfold WriteCursor.clean. simpl. by rewrite drop_0, Nat.sub_0_r, Hlen. }
  { simpl. lia. }
  { simpl. lia. }
  simpl in *.
  destruct (put_options_clean (options self) 0 c1) as (c2 & -> & Ho2 & Hl2 & Hw2); [done|lia..|].
  exists (WriteCursor.buffer c2). rewrite Ho1 in Ho2. simpl in *. split; [|split; [lia|]].
  - destruct (options self); [done|]. by rewrite Ho2.
  - rewrite Hw1 in Hw2. unfold WriteCursor.written in Hw2. rewrite Ho2 in Hw2. by rewrite Hw2.
Qed.

(** Over a zeroed buffer with a byte to spare, a non-empty acknowledgement is
    serialized to the OACK datagram: opcode 6 and each name and value NUL-terminated, in
    the order they were pushed. *)
Theorem oack_serialize_wire (self : t) (n : nat) :
  length (wire self) < n → has_options self = true →
  ∃ buffer', serialize self (replicate n zero) = (Ok (length (wire self)), buffer') ∧
             take (length (wire self)) buffer' = wire self.
Proof.
  intros Hn Hh. destruct (oack_serialize_zeroed self n) as (b & ? & _ & ?);
    [done|by unfold has_options in Hh; destruct (options self)|eauto].
Qed.

Lemma oack_serialize_wire_witness :
  let oack := push new (BLKSIZE, str "1024") in
  ∃ buffer', serialize oack (replicate 32 zero) = (Ok 15, buffer') ∧
             take 15 buffer' = wire oack.
Proof. intros oack. apply (oack_serialize_wire oack 32); [vm_compute; lia|reflexivity]. Defined.

(** A client that reads an OACK as the options of a request finds what was pushed. *)
Lemma wire_options_parse self c m :
  Forall (λ kv, ReadRequest.wire_string kv.1 ∧ ReadRequest.wire_string kv.2) (options self) →
  ReadCursor.rest c = ReadRequest.options_wire (options self) →
  ReadRequest.parse_options (S (length (options self))) c m
  = Ok (foldl ReadRequest.insert_option m (options self)).
Proof. intros. apply ReadRequest.parse_options_complete; [done..|lia]. Qed.

End OptionsAcknowledge.
