(* ===== verification/Net.v ===== *)
(** * Net: src/src/datagram_stream.rs, over the socket and the timer

    A session talks to one UDP socket.  What the outside world does to it is a
    script: the [arrivals] its reads will see, in order, and the [outcomes] of its
    sends.  An arrival is a datagram with its source, a failure of [recv_from], or
    the expiry of the timer the read is wrapped in; when the script is used up
    nothing arrives any more, so a read ends by its timer and a send succeeds.
    Every datagram the kernel takes is appended to [sent]. *)

From S2P Require Import Prelude Options.

Inductive IpAddr : Type :=
| V4 (bits : Z)
| V6 (bits : Z).

(** Two IPv6 addresses differ when their flow info or scope differ. *)
Record SocketAddr : Type := mkSocketAddr {
  ip : IpAddr;
  port : Z;
  flowinfo : Z;
  scope_id : Z;
}.

#[global] Instance IpAddr_eq_dec : EqDecision IpAddr.
Proof. solve_decision. Defined.
#[global] Instance SocketAddr_eq_dec : EqDecision SocketAddr.
Proof. solve_decision. Defined.

(** [SocketAddr::new] *)
Definition SocketAddr_new (ip : IpAddr) (port : Z) : SocketAddr := mkSocketAddr ip port 0 0.

Inductive arrival : Type :=
| Datagram (from : SocketAddr) (payload : list byte)
| RecvFailed (kind : ErrorKind)
| TimerElapsed.

Inductive send_outcome : Type :=
| SendAll
| SendShort (count : nat)
| SendFailed (kind : ErrorKind).

Module UdpSocket.

Record t : Type := mk {
  arrivals : list arrival;
  outcomes : list send_outcome;
  sent : list (SocketAddr * list byte);
}.

(** [send_to]: the number of bytes the kernel took. *)
Definition send_to (buffer : list byte) (to : SocketAddr) (self : t) : res ErrorKind nat * t :=
  let push l n := mk (arrivals self) l (sent self ++ [(to, take n buffer)]) in
  match outcomes self with
  | [] => (Ok (length buffer), push [] (length buffer))
  | SendAll :: l => (Ok (length buffer), push l (length buffer))
  | SendShort n :: l => (Ok n, push l n)
  | SendFailed k :: l => (Err k, mk (arrivals self) l (sent self))
  end.

(** [recv_from] of one datagram: what does not fit the buffer is lost. *)
Definition receive (payload buffer : list byte) : nat * list byte :=
  let recv_size := length payload `min` length buffer in
  (recv_size, take recv_size payload ++ drop recv_size buffer).

End UdpSocket.

Module DatagramStream.

Record t : Type := mk { local_socket : UdpSocket.t; peer_address : SocketAddr }.

Definition new (local_socket : UdpSocket.t) (peer_address : SocketAddr) : t :=
  mk local_socket peer_address.

Definition send (buffer : list byte) (self : t) : res ErrorKind unit * t :=
  match UdpSocket.send_to buffer (peer_address self) (local_socket self) with
  | (Ok sent, socket) =>
      if negb (sent =? length buffer) then (Err ConnectionReset, mk socket (peer_address self))
      else (Ok tt, mk socket (peer_address self))
  | (Err error, socket) => (Err error, mk socket (peer_address self))
  | (Stop h, socket) => (Stop h, mk socket (peer_address self))
  end.

(** The loop of [recv].  [None]: the future was still pending when the timer it runs
    under expired.  A datagram that is skipped has already been copied into the buffer. *)
Fixpoint recv_loop (peer_address : SocketAddr) (min_size : nat) (arrivals : list arrival)
    (buffer : list byte) : option (res ErrorKind nat) * (list arrival * list byte) :=
  match arrivals with
  | [] => (None, ([], buffer))
  | TimerElapsed :: arrivals' => (None, (arrivals', buffer))
  | RecvFailed error :: arrivals' => (Some (Err error), (arrivals', buffer))
  | Datagram remote_address payload :: arrivals' =>
      let '(recv_size, buffer') := UdpSocket.receive payload buffer in
      if decide (remote_address ≠ peer_address)
      then recv_loop peer_address min_size arrivals' buffer'
      else if recv_size <? min_size
      then recv_loop peer_address min_size arrivals' buffer'
      else (Some (Ok recv_size), (arrivals', buffer'))
  end.

Definition recv (buffer : list byte) (min_size : nat) (self : t)
  : option (res ErrorKind nat) * (list byte * t) :=
  let socket := local_socket self in
  let '(r, (arrivals', buffer')) :=
    recv_loop (peer_address self) min_size (UdpSocket.arrivals socket) buffer in
  (r, (buffer', mk (UdpSocket.mk arrivals' (UdpSocket.outcomes socket) (UdpSocket.sent socket))
                   (peer_address self))).

End DatagramStream.

Inductive Elapsed : Type := mkElapsed.

(** [AckTimeout::timeout]: the future's output, or [Elapsed] if the timer came first.
    The duration is not modelled; the script says when the timer expires. *)
Definition AckTimeout_timeout {T S} (self : AckTimeout.t) (fut : option T * S) : res Elapsed T * S :=
  match fut with
  | (Some output, s) => (Ok output, s)
  | (None, s) => (Err mkElapsed, s)
  end.

(** ** The script as the stream sees it *)

Definition arrivals_of (s : DatagramStream.t) : list arrival :=
  UdpSocket.arrivals (DatagramStream.local_socket s).
Definition outcomes_of (s : DatagramStream.t) : list send_outcome :=
  UdpSocket.outcomes (DatagramStream.local_socket s).
Definition sent_by (s : DatagramStream.t) : list (list byte) :=
  snd <$> UdpSocket.sent (DatagramStream.local_socket s).

(** A stream whose sends have succeeded so far and will go on to do so. *)
Definition stream_of (peer : SocketAddr) (arrivals : list arrival) (sent : list (list byte))
  : DatagramStream.t :=
  DatagramStream.mk (UdpSocket.mk arrivals [] (pair peer <$> sent)) peer.

(** The same stream before other arrivals. *)
Definition with_arrivals (s : DatagramStream.t) (l : list arrival) : DatagramStream.t :=
  DatagramStream.mk (UdpSocket.mk l (outcomes_of s) (UdpSocket.sent (DatagramStream.local_socket s)))
    (DatagramStream.peer_address s).

(** A datagram [recv] skips: from someone else, or too short. *)
Definition noise (peer : SocketAddr) (min_size : nat) (a : arrival) : Prop :=
  match a with
  | Datagram from payload => from ≠ peer ∨ length payload < min_size
  | _ => False
  end.

#[global] Instance noise_dec peer min_size a : Decision (noise peer min_size a).
Proof. destruct a; simpl; apply _. Defined.

Lemma length_receive payload buffer :
  length (UdpSocket.receive payload buffer).2 = length buffer.
Proof. simpl. rewrite length_app, length_take, length_drop. lia. Qed.

(** A datagram that fits is received whole. *)
Lemma receive_fits payload buffer :
  length payload ≤ length buffer →
  UdpSocket.receive payload buffer = (length payload, payload ++ drop (length payload) buffer).
Proof. intros Hl. unfold UdpSocket.receive. by rewrite Nat.min_l, take_ge by lia. Qed.

Lemma recv_loop_length peer m arrs buffer :
  length (DatagramStream.recv_loop peer m arrs buffer).2.2 = length buffer.
Proof.
  revert buffer. induction arrs as [|[from payload| |] arrs IH]; intros buffer; try done.
  simpl. pose proof (length_receive payload buffer) as Hl. simpl in Hl.
  case_decide; [by rewrite IH|]. case_match; [by rewrite IH|done].
Qed.

Lemma recv_loop_consumes peer m arrs buffer :
  let '(r, (arrs', _)) := DatagramStream.recv_loop peer m arrs buffer in
  length arrs' ≤ length arrs ∧ (is_Some r → length arrs' < length arrs) ∧
  ∀ h, r ≠ Some (Stop h).
Proof.
  revert buffer. induction arrs as [|[from payload| |] arrs IH]; intros buffer; simpl.
  - split; [done|]. split; [by intros []%is_Some_None|done].
  - set (b' := take _ _ ++ drop _ _). specialize (IH b').
    destruct (DatagramStream.recv_loop peer m arrs b') as [r [arrs' b'']].
    destruct IH as (? & Hr & ?). destruct (decide _); [|destruct (_ <? m)].
    + split; [lia|]. split; [|done]. intros ?. by apply Nat.lt_lt_succ_r, Hr.
    + split; [lia|]. split; [|done]. intros ?. by apply Nat.lt_lt_succ_r, Hr.
    + split; [lia|]. split; [lia|done].
  - split; [lia|]. split; [lia|done].
  - split; [lia|]. split; [by intros []%is_Some_None|done].
Qed.

(** A datagram of the peer long enough ends the read, whatever noise came before. *)
Lemma recv_loop_datagram peer m pre payload arrs buffer :
  Forall (noise peer m) pre → m ≤ length payload → m ≤ length buffer →
  ∃ buffer',
    DatagramStream.recv_loop peer m (pre ++ Datagram peer payload :: arrs) buffer =
    (Some (Ok (length payload `min` length buffer)), (arrs, buffer')) ∧
    length buffer' = length buffer ∧
    take (length payload `min` length buffer) buffer' = take (length buffer) payload.
Proof.
  intros Hpre Hp. revert buffer. induction Hpre as [|a pre Ha _ IH]; intros buffer Hb.
  - simpl. rewrite decide_False by naive_solver. settle_all. eexists. split; [done|].
    pose proof (length_receive payload buffer) as Hl. simpl in Hl. split; [done|].
    rewrite take_app_le by (rewrite length_take; lia).
    rewrite take_take. by destruct (decide (length payload ≤ length buffer));
      [rewrite Nat.min_l, !(take_ge payload) by lia|f_equal; lia].
  - destruct a as [from q| |]; try done. simpl in *.
    pose proof (length_receive q buffer) as Hl. simpl in Hl.
    case_decide as Hfrom.
    + destruct (IH (take (length q `min` length buffer) q ++ drop (length q `min` length buffer) buffer))
        as (b' & -> & ? & ?); [by rewrite Hl|]. exists b'. by rewrite Hl in *.
    + assert (length q < m) by naive_solver. settle_all.
      destruct (IH (take (length q `min` length buffer) q ++ drop (length q `min` length buffer) buffer))
        as (b' & -> & ? & ?); [by rewrite Hl|]. exists b'. by rewrite Hl in *.
Qed.

Lemma recv_loop_timer peer m pre arrs buffer :
  Forall (noise peer m) pre →
  ∃ buffer',
    DatagramStream.recv_loop peer m (pre ++ TimerElapsed :: arrs) buffer = (None, (arrs, buffer')) ∧
    length buffer' = length buffer.
Proof.
  intros Hpre. revert buffer. induction Hpre as [|a pre Ha _ IH]; intros buffer; simpl; [eauto|].
  destruct a as [from q| |]; try done. simpl in *.
  destruct (IH (UdpSocket.receive q buffer).2) as (b' & Hb' & Hl).
  rewrite length_receive in Hl. simpl in Hb'. exists b'.
  case_decide; [done|]. assert (length q < m) by naive_solver. by settle_all.
Qed.

(** Sending when sends succeed. *)
Lemma send_stream_of peer arrs sent buffer :
  DatagramStream.send buffer (stream_of peer arrs sent) =
  (Ok tt, stream_of peer arrs (sent ++ [buffer])).
Proof.
  unfold DatagramStream.send, stream_of. simpl. rewrite Nat.eqb_refl. simpl.
  rewrite take_ge by done. by rewrite fmap_app.
Qed.

(** What is to arrive makes no difference to a send. *)
Lemma send_with_arrivals buffer s l :
  DatagramStream.send buffer (with_arrivals s l) =
  let '(r, s') := DatagramStream.send buffer s in (r, with_arrivals s' l).
Proof.
  unfold DatagramStream.send, UdpSocket.send_to, with_arrivals, outcomes_of. simpl.
  destruct (UdpSocket.outcomes _) as [|[|n|k] out]; simpl; [by case_match|by case_match..|done].
Qed.

Lemma sent_by_stream_of peer arrs sent : sent_by (stream_of peer arrs sent) = sent.
Proof. unfold sent_by, stream_of. simpl. rewrite <- list_fmap_compose. apply list_fmap_id. Qed.

(** Sending in general: at most one datagram goes out, a prefix of the buffer, to the
    peer; it is the whole buffer when the call succeeds.  No arrival is consumed. *)
Lemma send_any buffer s r s' :
  DatagramStream.send buffer s = (r, s') →
  returns r ∧ arrivals_of s' = arrivals_of s ∧
  DatagramStream.peer_address s' = DatagramStream.peer_address s ∧
  (sent_by s' = sent_by s ∨ ∃ n, sent_by s' = sent_by s ++ [take n buffer]).
Proof.
  unfold DatagramStream.send, UdpSocket.send_to, arrivals_of, sent_by. intros.
  repeat (case_match; simplify_eq/=); rewrite ?fmap_app; simpl; eauto 6.
Qed.
