(* ===== verification/Window.v ===== *)
(** * Window: the block buffers of src/src/peer_handler/mod.rs

    A [Window] owns one byte vector per block in flight; block [index] lives in the
    slot [index % len].  A [Vec<u8>] is its allocation and its length: [truncate] and
    [set_len] move the length only, the bytes behind it stay. *)

From S2P Require Import Prelude Fs Net.

Definition DATA : Z := 0x03.
Definition ACK : Z := 0x04.

Record Vec : Type := mkVec { storage : list byte; len : nat }.

Definition vec_bytes (v : Vec) : list byte := take (len v) (storage v).

Module Window.

(** [buffers_capacity] is the outer vector's capacity: collecting a range allocates for
    exactly as many elements as the range has. *)
Record t : Type := mk { block_size : Z; buffers : list Vec; buffers_capacity : nat }.

Definition new (block_size window_size : Z) : t :=
  let n := Z.to_nat block_size + 2 * 2 in
  mk block_size (replicate (Z.to_nat window_size) (mkVec (replicate n zero) n)) (Z.to_nat window_size).

Definition size (self : t) : Z := as_u16 (Z.of_nat (buffers_capacity self)).

(** [index as usize % window_length]; a remainder by zero panics. *)
Definition slot (self : t) (index : Z) : option nat :=
  match length (buffers self) with
  | O => None
  | n => Some (Z.to_nat index mod n)
  end.

(** The vector of a slot after [set_len(capacity)]; a [Vec]'s capacity is the length of its
    [storage]. *)
Definition buffer (self : t) (index : Z) : option (nat * list byte) :=
  s ← slot self index; v ← buffers self !! s; Some (s, storage v).

Definition set_buffer (self : t) (s : nat) (v : Vec) : t :=
  mk (block_size self) (<[s := v]> (buffers self)) (buffers_capacity self).

(** The four stores of the block's header. *)
Definition write_header (index : Z) (bytes : list byte) : option (list byte) :=
  bytes0 ← store 0 (as_u8 0) bytes;
  bytes1 ← store 1 (as_u8 DATA) bytes0;
  bytes2 ← store 2 (as_u8 (Z.shiftr index 8)) bytes1;
  store 3 (as_u8 index) bytes2.

Definition push_block {F} `{OpenedFile F} (self : t) (opened_file : F) (index : Z)
  : res ErrorKind (nat * bool) * (t * F) :=
  match buffer self index with
  | None => (Stop Panicked, (self, opened_file))
  | Some (s, bytes) =>
      match write_header index bytes with
      | None => (Stop Panicked, (self, opened_file))
      | Some bytes' =>
          match read_to opened_file (drop 4 bytes') with
          | (Ok read_bytes, (tail, opened_file')) =>
              let bytes'' := take 4 bytes' ++ tail in
              let v := mkVec bytes'' ((read_bytes + 4) `min` length bytes'') in
              (Ok (read_bytes, (Z.of_nat read_bytes <? block_size self)%Z),
               (set_buffer self s v, opened_file'))
          | (Err e, (tail, opened_file')) =>
              let bytes'' := take 4 bytes' ++ tail in
              (Err e, (set_buffer self s (mkVec bytes'' (length bytes'')), opened_file'))
          | (Stop h, (_, opened_file')) => (Stop h, (self, opened_file'))
          end
      end
  end.

Definition send (self : t) (index : Z) (datagram_stream : DatagramStream.t)
  : res ErrorKind unit * DatagramStream.t :=
  match slot self index ≫= λ s, buffers self !! s with
  | None => (Stop Panicked, datagram_stream)
  | Some v => DatagramStream.send (vec_bytes v) datagram_stream
  end.

End Window.

(** ** The reference: a file cut into blocks *)

(** Block [k], from 1, of a file; the last block is shorter than the block size,
    possibly empty. *)
Definition block (bs : nat) (data : list byte) (k : nat) : list byte :=
  take bs (drop ((k - 1) * bs) data).

Definition n_blocks (bs : nat) (data : list byte) : nat := length data / bs + 1.

(** The DATA datagram of RFC 1350, block numbers modulo 2^16. *)
Definition data_packet (k : nat) (payload : list byte) : list byte :=
  let number := as_u16 (Z.of_nat k) in
  [as_u8 0; as_u8 DATA; as_u8 (Z.shiftr number 8); as_u8 number] ++ payload.

Definition packet (bs : nat) (data : list byte) (k : nat) : list byte :=
  data_packet k (block bs data k).

Section blocks.
Context (bs : nat) (data : list byte) (Hbs : 0 < bs).

Lemma length_block k :
  1 ≤ k → length (block bs data k) = bs `min` (length data - (k - 1) * bs).
Proof. intros. unfold block. by rewrite length_take, length_drop. Qed.

(** A block before the last is full, the last one is not. *)
Lemma block_short k :
  1 ≤ k → k ≤ n_blocks bs data →
  length (block bs data k) < bs ↔ k = n_blocks bs data.
Proof using Hbs.
  intros Hk Hn. rewrite length_block by done. unfold n_blocks in *.
  pose proof (Nat.div_mod_eq (length data) bs). pose proof (Nat.mod_upper_bound (length data) bs).
  split; intros; [|subst k; nia].
  destruct (decide (k - 1 < length data / bs)); [|lia].
  assert ((k - 1) * bs + bs ≤ length data / bs * bs) by nia. nia.
Qed.

Lemma n_blocks_bound : length data < n_blocks bs data * bs.
Proof using Hbs.
  unfold n_blocks. pose proof (Nat.div_mod_eq (length data) bs).
  pose proof (Nat.mod_upper_bound (length data) bs). nia.
Qed.

(** The first [k] blocks are the first [k * bs] bytes. *)
Lemma concat_blocks k : concat (block bs data <$> seq 1 k) = take (k * bs) data.
Proof.
  induction k as [|k IH]; [done|].
  rewrite seq_S, fmap_app, concat_app, IH. simpl. rewrite app_nil_r.
  unfold block. replace (S k - 1) with k by lia.
  rewrite (Nat.add_comm bs). apply take_take_drop.
Qed.

Lemma concat_all_blocks : concat (block bs data <$> seq 1 (n_blocks bs data)) = data.
Proof using Hbs. rewrite concat_blocks. apply take_ge. pose proof n_blocks_bound. lia. Qed.

End blocks.

(** ** The window as a ring of packets *)

Definition win_ok (bs w : nat) (W : Window.t) : Prop :=
  Window.block_size W = Z.of_nat bs ∧ length (Window.buffers W) = w ∧
  Window.buffers_capacity W = w ∧
  Forall (λ v, length (storage v) = bs + 4) (Window.buffers W).

(** The slot of block [k]. *)
Definition slot_of (w k : nat) : nat := Z.to_nat (as_u16 (Z.of_nat k)) mod w.

(** [W] has packet [k] of the file ready to be sent. *)
Definition holds (bs w : nat) (data : list byte) (W : Window.t) (k : nat) : Prop :=
  ∃ v, Window.buffers W !! slot_of w k = Some v ∧ vec_bytes v = packet bs data k.

Lemma win_ok_new bs w :
  win_ok bs w (Window.new (Z.of_nat bs) (Z.of_nat w)).
Proof.
  unfold win_ok, Window.new. simpl. rewrite !Nat2Z.id, length_replicate.
  repeat split; try done. apply Forall_replicate. simpl. by rewrite length_replicate.
Qed.

Lemma slot_of_lt w k : 0 < w → slot_of w k < w.
Proof. intros. apply Nat.mod_upper_bound. lia. Qed.

(** Blocks of one window use different slots while block numbers do not wrap. *)
Lemma slot_of_inj w k k' :
  0 < w → k < k' → k' < k + w → (Z.of_nat k' < 65536)%Z → slot_of w k ≠ slot_of w k'.
Proof.
  intros Hw ???. unfold slot_of. rewrite !as_u16_small by (split; lia). rewrite !Nat2Z.id.
  pose proof (Nat.div_mod_eq k w). pose proof (Nat.div_mod_eq k' w).
  pose proof (Nat.mod_upper_bound k w). intros Heq. rewrite Heq in *.
  assert (w * (k' / w - k / w) = k' - k) by (rewrite Nat.mul_sub_distr_l; lia).
  destruct (k' / w - k / w) as [|q]; nia.
Qed.

Lemma win_slot bs w W k :
  0 < w → win_ok bs w W → Window.slot W (as_u16 (Z.of_nat k)) = Some (slot_of w k).
Proof.
  intros Hw (_ & Hl & _). unfold Window.slot, slot_of. rewrite Hl. by destruct w; [lia|].
Qed.

Lemma win_size bs w W : win_ok bs w W → (Z.of_nat w < 65536)%Z → Window.size W = Z.of_nat w.
Proof. intros (_ & _ & Hc & _) Hw. unfold Window.size. rewrite Hc. apply as_u16_small. split; lia. Qed.

Lemma store_header index bytes :
  4 ≤ length bytes →
  Window.write_header index bytes =
  Some ([as_u8 0; as_u8 DATA; as_u8 (Z.shiftr index 8); as_u8 index] ++ drop 4 bytes).
Proof.
  unfold Window.write_header. destruct bytes as [|b0 [|b1 [|b2 [|b3 bytes]]]]; simpl; try lia. intros _.
  unfold store. simpl. by rewrite drop_0.
Qed.

(** A block of whatever the file's read gave. *)
Lemma push_block_read {F} `{OpenedFile F} (bs w : nat) (W : Window.t) (f : F) (k n : nat)
    (chunk : list byte) (Q : F → Prop) :
  0 < w → win_ok bs w W → length chunk = n → n ≤ bs →
  (∀ buffer, length buffer = bs →
    ∃ f', read_to f buffer = (Ok n, (chunk ++ drop n buffer, f')) ∧ Q f') →
  ∃ v f', Window.push_block W f (as_u16 (Z.of_nat k)) =
      (Ok (n, (Z.of_nat n <? Z.of_nat bs)%Z), (Window.set_buffer W (slot_of w k) v, f')) ∧
    vec_bytes v = data_packet k chunk ∧ length (storage v) = bs + 4 ∧ Q f'.
Proof.
  intros Hw Hok Hchunk Hn Hread. pose proof Hok as (Hb & Hl & Hc & Hst).
  destruct (lookup_lt_is_Some_2 (Window.buffers W) (slot_of w k)) as [v Hv];
    [rewrite Hl; by apply slot_of_lt|].
  assert (length (storage v) = bs + 4) as Hlen by (by eapply Forall_lookup_1 in Hst).
  unfold Window.push_block, Window.buffer.
  rewrite (win_slot bs w) by done. simpl. rewrite Hv. cbn [mbind option_bind].
  rewrite store_header by lia.
  rewrite (drop_app_length' [_; _; _; _]), (take_app_length' [_; _; _; _]) by done.
  destruct (Hread (drop 4 (storage v))) as (f' & -> & HQ); [rewrite length_drop; lia|].
  rewrite Hb. do 2 eexists. split; [done|]. split_and!; [| |done].
  - unfold vec_bytes. simpl. rewrite !length_app, !length_drop, Hlen, Hchunk.
    replace (_ `min` _) with (4 + n) by lia.
    unfold data_packet. simpl. by rewrite take_app_length'.
  - simpl. rewrite !length_app, !length_drop, Hlen, Hchunk. lia.
Qed.

Section push.
Context {F} `{OpenedFileSpec F}.
Context (bs w : nat) (data : list byte) (Hbs : 0 < bs) (Hw : 0 < w).

Lemma push_block_spec (W : Window.t) (f : F) (R : nat) :
  win_ok bs w W → readable f → remaining f = drop (R * bs) data →
  ∃ v f',
    Window.push_block W f (as_u16 (Z.of_nat (S R))) =
      (Ok (length (block bs data (S R)), (Z.of_nat (length (block bs data (S R))) <? Z.of_nat bs)%Z),
       (Window.set_buffer W (slot_of w (S R)) v, f')) ∧
    vec_bytes v = packet bs data (S R) ∧ length (storage v) = bs + 4 ∧
    readable f' ∧ remaining f' = drop (S R * bs) data.
Proof using Hbs Hw.
  intros Hok Hread Hrem.
  assert (length (block bs data (S R)) = bs `min` length (remaining f)) as Hlb
    by (rewrite length_block, Hrem, length_drop by lia; simpl; by rewrite Nat.sub_0_r).
  assert (take (length (block bs data (S R))) (remaining f) = block bs data (S R)) as Htake.
  { unfold block at 2. simpl. rewrite Nat.sub_0_r, <- Hrem, Hlb.
    destruct (decide (bs ≤ length (remaining f))); [by rewrite Nat.min_l by lia|].
    by rewrite Nat.min_r, !take_ge by lia. }
  destruct (push_block_read bs w W f (S R) (length (block bs data (S R))) (block bs data (S R))
    (λ f', remaining f' = drop (length (block bs data (S R))) (remaining f) ∧ readable f'))
    as (v & f' & -> & Hv & Hst & Hrem' & Hread'); [done|done|done|lia| |].
  - intros buffer Hbuf. destruct (read_to_spec f buffer Hread) as (f' & Hf' & Hrem').
    rewrite Hbuf, <- Hlb, Htake in *. eauto.
  - exists v, f'. split_and!; [done..|].
    rewrite Hrem', Hrem, drop_drop. destruct (decide (bs ≤ length (remaining f))).
    + f_equal. lia.
    + rewrite Hrem, length_drop in *. rewrite !drop_ge by lia. done.
Qed.

Lemma set_buffer_ok W k v :
  win_ok bs w W → length (storage v) = bs + 4 → win_ok bs w (Window.set_buffer W (slot_of w k) v).
Proof.
  intros (? & ? & ? & Hst) ?. unfold win_ok, Window.set_buffer. simpl. rewrite length_insert.
  repeat split; try done. by apply Forall_insert.
Qed.

Lemma holds_set_buffer W k v :
  win_ok bs w W → vec_bytes v = packet bs data k →
  holds bs w data (Window.set_buffer W (slot_of w k) v) k.
Proof using Hw.
  intros (_ & Hl & _) ?. exists v. split; [|done]. simpl.
  apply list_lookup_insert_eq. rewrite Hl. by apply slot_of_lt.
Qed.

Lemma holds_set_other W k k' v :
  slot_of w k ≠ slot_of w k' → holds bs w data W k' →
  holds bs w data (Window.set_buffer W (slot_of w k) v) k'.
Proof. intros Hne (v' & Hv' & ?). exists v'. split; [|done]. simpl. by rewrite list_lookup_insert_ne. Qed.

Lemma window_send W k s :
  win_ok bs w W → holds bs w data W k →
  Window.send W (as_u16 (Z.of_nat k)) s = DatagramStream.send (packet bs data k) s.
Proof using Hw.
  intros Hok (v & Hv & <-). unfold Window.send. rewrite (win_slot bs w) by done. simpl. by rewrite Hv.
Qed.

End push.
