(* ===== verification/Session.v ===== *)
(** * Session: the transfer of one file, src/src/peer_handler/mod.rs

    The functions a session's task runs: error reports, the wait for an
    acknowledgement, the retransmission loops, option negotiation and the transfer
    itself.  They share a datagram stream and one scratch buffer, which is both where
    outgoing messages are built and where incoming ones land; the pair is a [Link],
    threaded through every call. *)

From S2P Require Import Prelude Text Cursor Errors Fs Options Messages Net Window.

Definition SEND_ATTEMPTS : nat := 5.

Record Link : Type := mkLink { stream : DatagramStream.t; buf : list byte }.

Module SendError.
Inductive t : Type :=
| Network
| Timeout
| ClientError (code : Z) (message : rstring)
| ACKError.
End SendError.

Module RecvError.
Inductive t : Type :=
| Network
| Timeout
| ClientError (code : Z) (message : rstring)
| ACKError.
End RecvError.

(** Nothing is returned, but the buffer is overwritten, and serializing may panic. *)
Definition fire_error (error : TFTPError) (l : Link) : res Empty_set unit * Link :=
  match TFTPErr.serialize error (buf l) with
  | (Ok to_send, buffer) =>
      match range 0 to_send buffer with
      | None => (Stop Panicked, mkLink (stream l) buffer)
      | Some bytes =>
          match DatagramStream.send bytes (stream l) with
          | (Stop h, stream') => (Stop h, mkLink stream' buffer)
          | (_, stream') => (Ok tt, mkLink stream' buffer)
          end
      end
  | (Err _, buffer) => (Ok tt, mkLink (stream l) buffer)
  | (Stop h, buffer) => (Stop h, mkLink (stream l) buffer)
  end.

(** The whole buffer is parsed, not just the bytes received. *)
Definition parse_acknowledge (buffer : list byte) : res RecvError.t Z :=
  let datagram := ReadCursor.new buffer in
  match ReadCursor.extract_ushort datagram with
  | (Ok opcode, datagram1) =>
      if (opcode =? ACK)%Z then
        match ReadCursor.extract_ushort datagram1 with
        | (Ok block, _) => Ok block
        | (Err _, _) => Err RecvError.ACKError
        | (Stop h, _) => Stop h
        end
      else if (opcode =? ERROR)%Z then
        match ReadCursor.extract_ushort datagram1 with
        | (Ok error_code, datagram2) =>
            match ReadCursor.extract_string datagram2 with
            | (Ok error_message, _) => Err (RecvError.ClientError error_code error_message)
            | (Err _, _) => Err RecvError.ACKError
            | (Stop h, _) => Stop h
            end
        | (Err _, _) => Err RecvError.ACKError
        | (Stop h, _) => Stop h
        end
      else Err RecvError.ACKError
  | (Err _, _) => Err RecvError.ACKError
  | (Stop h, _) => Stop h
  end.

Definition read_acknowledge (ack_timeout : AckTimeout.t) (l : Link) : res RecvError.t Z * Link :=
  match AckTimeout_timeout ack_timeout (DatagramStream.recv (buf l) 4 (stream l)) with
  | (Ok read_result, (buffer, stream')) =>
      match read_result with
      | Ok _read_size => (parse_acknowledge buffer, mkLink stream' buffer)
      | Err _ => (Err RecvError.Network, mkLink stream' buffer)
      | Stop h => (Stop h, mkLink stream' buffer)
      end
  | (Err _elapsed, (buffer, stream')) => (Err RecvError.Timeout, mkLink stream' buffer)
  | (Stop h, (buffer, stream')) => (Stop h, mkLink stream' buffer)
  end.

(** ** Sending a window until it is acknowledged *)

Fixpoint send_blocks (window : Window.t) (indices : list Z) (s : DatagramStream.t)
  : res ErrorKind unit * DatagramStream.t :=
  match indices with
  | [] => (Ok tt, s)
  | block_index :: indices' =>
      let? (_, s') := Window.send window block_index s in
      send_blocks window indices' s'
  end.

Definition block_indices (window_index count : Z) : list Z :=
  wrapping_add window_index <$> seqZ 0 count.

(** The [for attempt in 1..=SEND_ATTEMPTS] loop, by the attempts left. *)
Fixpoint send_attempts (attempts : nat) (window : Window.t) (ack_timeout : AckTimeout.t)
    (window_index count : Z) (l : Link) : res SendError.t Z * Link :=
  match attempts with
  | O => (Err SendError.Timeout, l)
  | S attempts' =>
      match send_blocks window (block_indices window_index count) (stream l) with
      | (Stop h, s) => (Stop h, mkLink s (buf l))
      | (Err _, s) => (Err SendError.Network, mkLink s (buf l))
      | (Ok _, s) =>
          match read_acknowledge ack_timeout (mkLink s (buf l)) with
          | (Ok received_ack, l') =>
              if (window_index <=? received_ack)%Z then (Ok received_ack, l')
              else
                match fire_error (TFTPErr.undefined (str "Received ACK from the past")) l' with
                | (Stop h, l'') => (Stop h, l'')
                | (_, l'') => (Err SendError.ACKError, l'')
                end
          | (Err RecvError.Timeout, l') =>
              send_attempts attempts' window ack_timeout window_index count l'
          | (Err (RecvError.ClientError error_code error_message), l') =>
              (Err (SendError.ClientError error_code error_message), l')
          | (Err _, l') => (Err SendError.Network, l')
          | (Stop h, l') => (Stop h, l')
          end
      end
  end.

Definition send_reliably (window : Window.t) (ack_timeout : AckTimeout.t) (window_index count : Z)
    (l : Link) : res SendError.t Z * Link :=
  send_attempts SEND_ATTEMPTS window ack_timeout window_index count l.

(** ** The transfer *)

Section transfer.
Context {F : Type} `{OpenedFile F}.

(** The local variables of [send_file]. *)
Record Transfer : Type := mkTransfer {
  opened_file : F;
  window : Window.t;
  link : Link;
  bytes_sent : nat;
  blocks_sent : nat;
  last_acknowledged_index : Z;
  last_read_index : Z;
}.

(** The inner [while]: blocks are read until the window is full or the file ends.  The
    flag is [done]; a fuel of the window's size covers every round of the loop. *)
Fixpoint fill_window (fuel : nat) (to_send : Z) (t : Transfer)
  : res TFTPError (bool * Z) * Transfer :=
  if negb (to_send <? Window.size (window t))%Z then (Ok (false, to_send), t)
  else
    match fuel with
    | O => (Stop OutOfFuel, t)
    | S fuel' =>
        let last_read := wrapping_add (last_read_index t) 1 in
        match Window.push_block (window t) (opened_file t) last_read with
        | (Ok (read_bytes, is_last), (window', file')) =>
            let t' := mkTransfer file' window' (link t) (bytes_sent t + read_bytes)
                        (blocks_sent t) (last_acknowledged_index t) last_read in
            if is_last then (Ok (true, to_send + 1)%Z, t')
            else fill_window fuel' (to_send + 1) t'
        | (Err _, (window', file')) =>
            (Err (TFTPErr.undefined (str "Read file error occurred")),
             mkTransfer file' window' (link t) (bytes_sent t) (blocks_sent t)
               (last_acknowledged_index t) last_read)
        | (Stop h, (window', file')) =>
            (Stop h, mkTransfer file' window' (link t) (bytes_sent t) (blocks_sent t)
                       (last_acknowledged_index t) last_read)
        end
    end.

Definition with_link (t : Transfer) (l : Link) : Transfer :=
  mkTransfer (opened_file t) (window t) l (bytes_sent t) (blocks_sent t)
    (last_acknowledged_index t) (last_read_index t).

Definition acknowledged (t : Transfer) (l : Link) (index : Z) : Transfer :=
  mkTransfer (opened_file t) (window t) l (bytes_sent t) (blocks_sent t) index (last_read_index t).

(** The outer [while !done].  [debug] is the build profile: with it [debug_assert!] is
    checked.  A round that goes on has consumed an arrival, the acknowledgement. *)
Fixpoint send_loop (debug : bool) (ack_timeout : AckTimeout.t) (fuel : nat) (done : bool)
    (t : Transfer) : res TFTPError (nat * nat) * Transfer :=
  if done then (Ok (bytes_sent t, blocks_sent t), t)
  else
    match fuel with
    | O => (Stop OutOfFuel, t)
    | S fuel' =>
        let unacknowledged_count :=
          wrapping_sub (last_read_index t) (last_acknowledged_index t) in
        if debug && negb (unacknowledged_count <=? Window.size (window t))%Z
        then (Stop Panicked, t)
        else
          match fill_window (Z.to_nat (Window.size (window t))) unacknowledged_count t with
          | (Stop h, t') => (Stop h, t')
          | (Err e, t') => (Err e, t')
          | (Ok (done', to_send), t') =>
              if debug && negb (to_send <=? Window.size (window t'))%Z
              then (Stop Panicked, t')
              else
                match send_reliably (window t') ack_timeout
                        (wrapping_add (last_acknowledged_index t') 1) to_send (link t') with
                | (Ok received_acknowledged, l) =>
                    send_loop debug ack_timeout fuel' done' (acknowledged t' l received_acknowledged)
                | (Err SendError.Timeout, l) =>
                    (Err (TFTPErr.undefined (str "Send timeout occurred")), with_link t' l)
                | (Err (SendError.ClientError _code _string), l) =>
                    (Ok (bytes_sent t', blocks_sent t' + Z.to_nat to_send), with_link t' l)
                | (Err _, l) =>
                    (Err (TFTPErr.undefined (str "Unknown error occurred")), with_link t' l)
                | (Stop h, l) => (Stop h, with_link t' l)
                end
          end
    end.

Definition send_file (debug : bool) (opened_file : F) (window : Window.t)
    (ack_timeout : AckTimeout.t) (l : Link) : res TFTPError (nat * nat) * Transfer :=
  send_loop debug ack_timeout (S (length (arrivals_of (stream l)))) false
    (mkTransfer opened_file window l 0 0 0 0).

End transfer.
#[global] Arguments Transfer F : clear implicits.

(** ** Option negotiation *)

Fixpoint oack_attempts (attempts : nat) (oack_size : nat) (ack_timeout : AckTimeout.t) (l : Link)
  : res ErrorKind unit * Link :=
  match attempts with
  | O =>
      match fire_error (TFTPErr.undefined (str "Send timeout occurred")) l with
      | (Stop h, l') => (Stop h, l')
      | (_, l') => (Err TimedOut, l')
      end
  | S attempts' =>
      match range 0 oack_size (buf l) with
      | None => (Stop Panicked, l)
      | Some bytes =>
          match DatagramStream.send bytes (stream l) with
          | (Stop h, s) => (Stop h, mkLink s (buf l))
          | (Err e, s) => (Err e, mkLink s (buf l))
          | (Ok _, s) =>
              match read_acknowledge ack_timeout (mkLink s (buf l)) with
              | (Ok ack_num, l') =>
                  if (ack_num =? 0)%Z then (Ok tt, l')
                  else
                    match fire_error (TFTPErr.undefined (str "Unexpected non-zero ACK")) l' with
                    | (Stop h, l'') => (Stop h, l'')
                    | (_, l'') => (Err Other, l'')
                    end
              | (Err RecvError.Timeout, l') => oack_attempts attempts' oack_size ack_timeout l'
              | (Err (RecvError.ClientError _code _string), l') => (Err Other, l')
              | (Err _, l') => (Err Other, l')
              | (Stop h, l') => (Stop h, l')
              end
          end
      end
  end.

Definition send_oack_reliably (oack : OptionsAcknowledge.t) (ack_timeout : AckTimeout.t) (l : Link)
  : res ErrorKind unit * Link :=
  match OptionsAcknowledge.serialize oack (buf l) with
  | (Ok oack_size, buffer) =>
      oack_attempts SEND_ATTEMPTS oack_size ack_timeout (mkLink (stream l) buffer)
  | (Err _, buffer) =>
      match fire_error (TFTPErr.undefined (str "OACK build error")) (mkLink (stream l) buffer) with
      | (Stop h, l') => (Stop h, l')
      | (_, l') => (Err Other, l')
      end
  | (Stop h, buffer) => (Stop h, mkLink (stream l) buffer)
  end.

Section negotiate.
Context {F : Type} `{OpenedFile F}.

(** The options acknowledged, in the order of the source: timeout, blksize, tsize,
    windowsize.  Asking for the size may move the file. *)
Definition collect_options (opened_file : F) (options : options_map)
  : res Empty_set (OptionsAcknowledge.t * AckTimeout.t * Blksize.t * WindowSize.t) * F :=
  let oack := OptionsAcknowledge.new in
  let '(oack, ack_timeout) :=
    match AckTimeout.find_in options with
    | Some timeout => (OptionsAcknowledge.push oack (AckTimeout.as_key_pair timeout), timeout)
    | None => (oack, AckTimeout.default)
    end in
  let '(oack, block_size) :=
    match Blksize.find_in options with
    | Some block_size => (OptionsAcknowledge.push oack (Blksize.as_key_pair block_size), block_size)
    | None => (oack, Blksize.default)
    end in
  let '(oack_or_stop, opened_file) :=
    if TSize.is_requested options then
      match TSize.obtain opened_file with
      | (Ok tsize, f) => (Ok (OptionsAcknowledge.push oack (TSize.as_key_pair tsize)), f)
      | (Err _, f) => (Ok oack, f)
      | (Stop h, f) => (Stop h, f)
      end
    else (Ok oack, opened_file) in
  match oack_or_stop with
  | Stop h => (Stop h, opened_file)
  | Err e => (Err e, opened_file)
  | Ok oack =>
      let '(oack, window_size) :=
        match WindowSize.find_in options with
        | Some window_size =>
            (OptionsAcknowledge.push oack (WindowSize.as_key_pair window_size), window_size)
        | None => (oack, WindowSize.default)
        end in
      (Ok (oack, ack_timeout, block_size, window_size), opened_file)
  end.

Definition negotiate_options (opened_file : F) (options : options_map) (l : Link)
  : res Empty_set (option (Window.t * AckTimeout.t)) * (Link * F) :=
  match collect_options opened_file options with
  | (Stop h, f) => (Stop h, (l, f))
  | (Err e, f) => (Err e, (l, f))
  | (Ok (oack, ack_timeout, block_size, window_size), f) =>
      let window :=
        Window.new (as_u16 (Blksize.get_size block_size)) (as_u16 (WindowSize.get_size window_size)) in
      if OptionsAcknowledge.has_options oack then
        match send_oack_reliably oack ack_timeout l with
        | (Ok _, l') => (Ok (Some (window, ack_timeout)), (l', f))
        | (Err _, l') => (Ok None, (l', f))
        | (Stop h, l') => (Stop h, (l', f))
        end
      else (Ok (Some (window, ack_timeout)), (l, f))
  end.

(** The task of one accepted request. *)
Definition send (debug : bool) (opened_file : F) (options : options_map) (l : Link)
  : res Empty_set unit * Link :=
  match negotiate_options opened_file options l with
  | (Stop h, (l', _)) => (Stop h, l')
  | (Err e, (l', _)) => (Err e, l')
  | (Ok None, (l', _)) => (Ok tt, l')
  | (Ok (Some (window, ack_timeout)), (l', f)) =>
      match send_file debug f window ack_timeout l' with
      | (Ok _, t) => (Ok tt, link t)
      | (Err tftp_error, t) => fire_error tftp_error (link t)
      | (Stop h, t) => (Stop h, link t)
      end
  end.

End negotiate.
