(* ===== verification/Transfer.v ===== *)
(** * Transfer: what a session sends, whatever the network does

    Facts about the functions of Session that hold for every script of arrivals and
    every outcome of the sends: the transfer returns, and every datagram it hands to
    the socket is a block of the file or an error report. *)

From S2P Require Import Prelude Text Cursor Errors Fs Options Messages Net Window Session.

(** ** How a link evolves

    [evolves P l l']: from [l] to [l'] the buffer kept its length and the stream its
    peer, no arrival was added, and the datagrams sent in between satisfy [P]. *)

Record evolves (P : list byte → Prop) (l l' : Link) : Prop := mkEvolves {
  ev_buf : length (buf l') = length (buf l);
  ev_peer : DatagramStream.peer_address (stream l') = DatagramStream.peer_address (stream l);
  ev_arrivals : length (arrivals_of (stream l')) ≤ length (arrivals_of (stream l));
  ev_sent : ∃ new, sent_by (stream l') = sent_by (stream l) ++ new ∧ Forall P new;
}.

#[global] Instance evolves_preorder P : PreOrder (evolves P).
Proof.
  split.
  - intros l. split; [done..|]. exists []. by rewrite app_nil_r.
  - intros l1 l2 l3 [H1 H2 H3 (n1 & H4 & H5)] [H1' H2' H3' (n2 & H4' & H5')].
    split; [congruence..|lia|]. exists (n1 ++ n2).
    rewrite H4', H4, app_assoc. split; [done|by apply Forall_app].
Qed.

Lemma evolves_impl (P Q : list byte → Prop) l l' :
  (∀ d, P d → Q d) → evolves P l l' → evolves Q l l'.
Proof.
  intros HPQ [? ? ? (new & Hn & HF)]. split; [done..|]. exists new. split; [done|].
  eapply Forall_impl; [exact HF|auto].
Qed.

(** A datagram as the socket may have taken it: whole, or cut short. *)
Definition cut_of (d whole : list byte) : Prop := ∃ n, d = take n whole.

Lemma cut_of_whole d : cut_of d d.
Proof. exists (length d). by rewrite take_ge. Qed.

(** An error report, with the byte that ended up in the terminator's place. *)
Definition error_datagram (d : list byte) : Prop := ∃ e x, cut_of d (TFTPErr.wire e x).

Lemma stream_send_evolves (P : list byte → Prop) bytes l r s' b :
  DatagramStream.send bytes (stream l) = (r, s') → length b = length (buf l) →
  (∀ n, P (take n bytes)) →
  returns r ∧ evolves P l (mkLink s' b).
Proof.
  intros (Hr & Ha & Hp & Hs)%send_any Hb HP. split; [done|]. split; simpl; [done..| |].
  - by rewrite Ha.
  - destruct Hs as [->|[n ->]].
    + exists []. by rewrite app_nil_r.
    + eexists. split; [done|]. constructor; [apply HP|done].
Qed.

Lemma fire_error_evolves e l :
  length (TFTPErr.wire e zero) < length (buf l) →
  ∃ l', fire_error e l = (Ok tt, l') ∧ evolves error_datagram l l' ∧
        arrivals_of (stream l') = arrivals_of (stream l).
Proof.
  rewrite TFTPErr.length_wire. intros Hlen. unfold fire_error.
  destruct (lookup_lt_is_Some_2 (buf l) (4 + length (TFTPErr.parse e).2)) as [x Hx]; [lia|].
  destruct (TFTPErr.error_serialize_fits e (buf l) x) as (b & -> & Hb & Hw); [done..|].
  rewrite range_prefix, Hw by lia.
  destruct (DatagramStream.send _ _) as [r s'] eqn:Hs.
  pose proof (send_any _ _ _ _ Hs) as (_ & Ha & _).
  destruct (stream_send_evolves error_datagram _ _ _ _ b Hs) as [Hr Hev]; [done| |].
  { intros n. exists e, x. by exists n. }
  destruct r; (done || (eexists; done)).
Qed.

(** With a byte to spare and a working network, the report goes out; its last byte is
    what the buffer held there. *)
Lemma fire_error_sends e peer arrs sent b :
  length (TFTPErr.wire e zero) < length b →
  ∃ x b', b !! (4 + length (TFTPErr.parse e).2) = Some x ∧ length b' = length b ∧
    fire_error e (mkLink (stream_of peer arrs sent) b) =
    (Ok tt, mkLink (stream_of peer arrs (sent ++ [TFTPErr.wire e x])) b').
Proof.
  rewrite TFTPErr.length_wire. intros Hlen.
  destruct (lookup_lt_is_Some_2 b (4 + length (TFTPErr.parse e).2)) as [x Hx]; [lia|].
  destruct (TFTPErr.error_serialize_fits e b x) as (b' & Hs & Hb & Hw); [done..|].
  exists x, b'. split; [done|]. split; [done|].
  unfold fire_error. cbn [buf stream]. by rewrite Hs, range_prefix, Hw, send_stream_of by lia.
Qed.

Lemma parse_acknowledge_spec buffer :
  returns (parse_acknowledge buffer) ∧ ∀ n, parse_acknowledge buffer = Ok n → is_u16 n.
Proof.
  unfold parse_acknowledge. rewrite ReadCursor.extract_ushort_rest.
  destruct (ReadCursor.rest (ReadCursor.new buffer)) as [|h0 [|l0 r0]]; [by split..|].
  repeat case_match; try by split.
  - split; [done|]. intros n [= <-].
    match goal with H : ReadCursor.extract_ushort _ = _ |- _ =>
      rewrite ReadCursor.extract_ushort_rest in H end.
    repeat (case_match; simplify_eq; try done). auto with rtftp.
  - match goal with H : ReadCursor.extract_ushort _ = _ |- _ =>
      rewrite ReadCursor.extract_ushort_rest in H end. by repeat case_match.
  - match goal with H : ReadCursor.extract_string _ = _ |- _ =>
      by apply ReadRequest.extract_string_stop in H end.
  - match goal with H : ReadCursor.extract_ushort _ = _ |- _ =>
      rewrite ReadCursor.extract_ushort_rest in H end. by repeat case_match.
Qed.

(** Waiting for an acknowledgement sends nothing; if one is read, an arrival is gone. *)
Lemma read_acknowledge_evolves a l r l' :
  read_acknowledge a l = (r, l') →
  returns r ∧ (∀ P, evolves P l l') ∧
  ∀ n, r = Ok n → is_u16 n ∧ length (arrivals_of (stream l')) < length (arrivals_of (stream l)).
Proof.
  unfold read_acknowledge, AckTimeout_timeout, DatagramStream.recv.
  pose proof (recv_loop_consumes (DatagramStream.peer_address (stream l)) 4
                (arrivals_of (stream l)) (buf l)) as Hc.
  pose proof (recv_loop_length (DatagramStream.peer_address (stream l)) 4
                (arrivals_of (stream l)) (buf l)) as Hl.
  unfold arrivals_of in *.
  destruct (DatagramStream.recv_loop _ _ _ _) as [o [arrs b]]. simpl in Hl.
  destruct Hc as (Hle & Hlt & Hns).
  assert (∀ P, evolves P l (mkLink (DatagramStream.mk (UdpSocket.mk arrs
            (UdpSocket.outcomes (DatagramStream.local_socket (stream l)))
            (UdpSocket.sent (DatagramStream.local_socket (stream l))))
            (DatagramStream.peer_address (stream l))) b)) as Hev.
  { intros P. split; [done..|]. exists []. by rewrite app_nil_r. }
  destruct (parse_acknowledge_spec b) as [Hpr Hpu].
  destruct o as [[k|k|h]|]; intros [= <- <-].
  - split; [done|]. split; [done|]. intros n Hn. split; [by apply Hpu|]. simpl. apply Hlt. eauto.
  - split; [done|]. by split.
  - by destruct (Hns h).
  - split; [done|]. by split.
Qed.

(** ** The retransmission loop *)

(** What the window would send for [index] satisfies [P], also when cut short. *)
Definition slot_sends (P : list byte → Prop) (W : Window.t) (index : Z) : Prop :=
  ∃ s v, Window.slot W index = Some s ∧ Window.buffers W !! s = Some v ∧
         ∀ n, P (take n (vec_bytes v)).

Lemma send_blocks_evolves P W indices l :
  Forall (slot_sends P W) indices →
  ∃ r s, send_blocks W indices (stream l) = (r, s) ∧ returns r ∧ evolves P l (mkLink s (buf l)).
Proof.
  intros HF. revert l. induction HF as [|i indices (s & v & Hs & Hv & HP) _ IH]; intros l; simpl.
  - destruct l. eexists _, _. split; [done|]. by split.
  - unfold Window.send. rewrite Hs. simpl. rewrite Hv.
    destruct (DatagramStream.send _ _) as [r s'] eqn:Hsend.
    destruct (stream_send_evolves P _ _ _ _ (buf l) Hsend) as [Hr Hev]; [done..|].
    destruct r as [[]|e|h]; [|eauto|done].
    destruct (IH (mkLink s' (buf l))) as (r & s'' & Hrun & ? & ?). simpl in Hrun.
    exists r, s''. split; [done|]. split; [done|]. by etrans.
Qed.

Lemma send_attempts_evolves (P : list byte → Prop) n W a i count l :
  (∀ d, error_datagram d → P d) → 37 ≤ length (buf l) →
  Forall (slot_sends P W) (block_indices i count) →
  ∃ r l', send_attempts n W a i count l = (r, l') ∧ returns r ∧ evolves P l l' ∧
    ∀ k, r = Ok k → is_u16 k ∧ (i ≤ k)%Z ∧
                    length (arrivals_of (stream l')) < length (arrivals_of (stream l)).
Proof.
  intros HPe Hlen HF. revert l Hlen. induction n as [|n IH]; intros l Hlen; simpl.
  { eexists _, _. split; [done|]. by split. }
  destruct (send_blocks_evolves P W _ l HF) as (r & s & -> & Hr & Hev).
  destruct r as [[]|e|h]; [|eexists _, _; split; [done|]; by split|done].
  destruct (read_acknowledge a _) as [r l1] eqn:Hack.
  destruct (read_acknowledge_evolves _ _ _ _ Hack) as (Hr1 & Hev1 & Hok).
  assert (evolves P l l1) as Hev2 by (etrans; [exact Hev|apply Hev1]).
  pose proof (ev_arrivals _ _ _ Hev) as Hle. pose proof (ev_buf _ _ _ Hev2) as Hb.
  destruct r as [k|[| | |]|h]; try (eexists _, _; split; [done|]; by split).
  - destruct (Hok k eq_refl) as [? Hlt]. simpl in *. case_match; to_prop.
    + eexists _, _. split; [done|]. split; [done|]. split; [done|]. intros ? [= <-].
      split; [done|]. split; [done|lia].
    + destruct (fire_error_evolves (TFTPErr.undefined (str "Received ACK from the past")) l1)
        as (l2 & -> & Hev3 & _); [rewrite TFTPErr.length_wire; simpl; unfold str; simpl; lia|].
      eexists _, _. split; [done|]. split; [done|]. split; [|done]. etrans; [done|].
      by eapply evolves_impl.
  - destruct (IH l1) as (r & l2 & -> & ? & Hev3 & Hk); [lia|].
    eexists _, _. split; [done|]. split; [done|]. split; [by etrans|].
    intros k (?&?&?)%Hk. split; [done|]. split; [done|]. pose proof (ev_arrivals _ _ _ Hev2). lia.
Qed.

(** ** Reading blocks into the window *)

(** The block numbers [send_reliably] steps through, wrapping as the source does. *)
Lemma block_indices_range A m :
  block_indices (as_u16 (Z.of_nat (S A))) (Z.of_nat m) = (as_u16 ∘ Z.of_nat) <$> seq (S A) m.
Proof.
  unfold block_indices. apply list_eq. intros i. rewrite !list_lookup_fmap.
  destruct (decide (i < m)).
  - rewrite lookup_seqZ_lt, lookup_seq_lt by lia. simpl. f_equal. unfold wrapping_add, as_u16.
    rewrite Zplus_mod_idemp_l. f_equal. lia.
  - rewrite lookup_seqZ_ge, lookup_seq_ge by lia. done.
Qed.

Section file.
Context {F} `{OpenedFileSpec F}.
Context (bs w : nat) (data : list byte).
Context (Hbs : 0 < bs) (Hbs16 : (Z.of_nat bs < 65536)%Z) (Hw : 0 < w) (Hw16 : (Z.of_nat w < 65536)%Z).

Abbreviation n := (n_blocks bs data).

(** The slot of every block read so far holds that block, or a later one that took its
    place. *)
Definition ring (R : nat) (W : Window.t) : Prop :=
  ∀ j, 1 ≤ j ≤ R → ∃ k v, j ≤ k ≤ R ∧ slot_of w k = slot_of w j ∧
    Window.buffers W !! slot_of w j = Some v ∧ vec_bytes v = packet bs data k.

(** [R] blocks of the file have been read. *)
Record at_block (R : nat) (t : Transfer F) : Prop := mkAtBlock {
  ab_win : win_ok bs w (window t);
  ab_ring : ring R (window t);
  ab_readable : readable (opened_file t);
  ab_remaining : remaining (opened_file t) = drop (R * bs) data;
  ab_index : last_read_index t = as_u16 (Z.of_nat R);
  ab_count : R ≤ n;
  ab_bytes : bytes_sent t = (R * bs) `min` length data;
}.

Lemma ring_push R W v :
  win_ok bs w W → ring R W → vec_bytes v = packet bs data (S R) →
  ring (S R) (Window.set_buffer W (slot_of w (S R)) v).
Proof using Type*.
  intros (_ & Hl & _) Hring Hv j Hj. simpl.
  destruct (decide (slot_of w (S R) = slot_of w j)) as [Heq|Hne].
  - exists (S R), v. split; [lia|]. split; [done|]. split; [|done]. rewrite Heq.
    apply list_lookup_insert_eq. rewrite Hl. by apply slot_of_lt.
  - assert (j ≠ S R) by (intros ->; done).
    destruct (Hring j) as (k & v' & ? & ? & ? & ?); [lia|].
    exists k, v'. split; [lia|]. rewrite list_lookup_insert_ne by done. done.
Qed.

(** One more block. *)
Lemma at_block_push R t :
  at_block R t → R < n →
  ∃ W' f', Window.push_block (window t) (opened_file t) (wrapping_add (last_read_index t) 1) =
      (Ok (length (block bs data (S R)), bool_decide (S R = n)), (W', f')) ∧
    ∀ l bl la, at_block (S R) (mkTransfer f' W' l (bytes_sent t + length (block bs data (S R)))
                                 bl la (wrapping_add (last_read_index t) 1)).
Proof using Type*.
  intros [Hwin Hring Hread Hrem Hidx Hc Hb] HR. rewrite Hidx, wrapping_succ.
  destruct (push_block_spec bs w data Hbs Hw (window t) (opened_file t) R)
    as (v & f' & -> & Hv & Hst & Hread' & Hrem'); [done..|].
  do 2 eexists. split.
  - do 2 f_equal. f_equal. pose proof (block_short bs data Hbs (S R)) as Hs.
    destruct (decide (S R = n)) as [He|He].
    + rewrite bool_decide_eq_true_2 by done. apply Z.ltb_lt. apply Hs in He; [lia|lia|lia].
    + rewrite bool_decide_eq_false_2 by done. apply Z.ltb_ge. enough (bs ≤ length (block bs data (S R))) by lia.
      destruct (decide (length (block bs data (S R)) < bs)); [|lia]. exfalso. apply He, Hs; lia.
  - intros l bl la. split; simpl; try done.
    + by apply set_buffer_ok.
    + by apply ring_push.
    + rewrite Hb, length_block by lia. simpl. lia.
Qed.

Lemma fill_window_spec fuel to_send R t :
  at_block R t → R < n → (0 ≤ to_send)%Z → Z.to_nat (Z.of_nat w - to_send) ≤ fuel →
  let m := Z.to_nat (Z.of_nat w - to_send) `min` (n - R) in
  ∃ t', fill_window fuel to_send t = (Ok (bool_decide (R + m = n), (to_send + Z.of_nat m)%Z), t') ∧
        at_block (R + m) t' ∧ link t' = link t ∧ blocks_sent t' = blocks_sent t ∧
        last_acknowledged_index t' = last_acknowledged_index t.
Proof using Type*.
  revert to_send R t. induction fuel as [|fuel IH]; intros to_send R t Hat HR Hts Hf m.
  - assert (m = 0) as -> by lia. simpl. rewrite (win_size bs w) by (done || apply Hat).
    settle_all. rewrite Nat.add_0_r, Z.add_0_r, bool_decide_eq_false_2 by lia. eauto 10.
  - simpl. rewrite (win_size bs w) by (done || apply Hat).
    destruct (decide (to_send < Z.of_nat w)%Z) as [Hlt|Hge].
    + settle_all. destruct (at_block_push R t Hat HR) as (W' & f' & -> & Hat').
      case_bool_decide as Hlast.
      * assert (m = 1) as -> by lia. rewrite bool_decide_eq_true_2, Nat.add_1_r by lia.
        eexists. split; [done|]. by split.
      * destruct (IH (to_send + 1)%Z (S R) _ (Hat' (link t) (blocks_sent t) (last_acknowledged_index t)))
          as (t' & -> & Hat'' & ? & ? & ?); [lia..|].
        exists t'. replace (Z.to_nat (Z.of_nat w - (to_send + 1)) `min` (n - S R)) with (m - 1) in * by lia.
        replace (S R + (m - 1)) with (R + m) in * by lia.
        replace (to_send + 1 + Z.of_nat (m - 1))%Z with (to_send + Z.of_nat m)%Z by lia. done.
    + settle_all. assert (m = 0) as -> by lia.
      rewrite Nat.add_0_r, Z.add_0_r, bool_decide_eq_false_2 by lia. eauto 10.
Qed.

(** A datagram a session may send: a block of the file with its own number, or an error. *)
Definition legitimate (d : list byte) : Prop :=
  (∃ k, 1 ≤ k ≤ n ∧ cut_of d (packet bs data k)) ∨ error_datagram d.

Lemma ring_slot_sends R W j :
  win_ok bs w W → ring R W → R ≤ n → 1 ≤ j ≤ R → slot_sends legitimate W (as_u16 (Z.of_nat j)).
Proof using Type*.
  intros Hok Hring HR Hj. destruct (Hring j Hj) as (k & v & ? & _ & Hv & Hp).
  exists (slot_of w j), v. rewrite (win_slot bs w) by done. split; [done|]. split; [done|].
  intros m. left. exists k. split; [lia|]. exists m. by rewrite Hp.
Qed.

(** Once the window has been filled, every slot holds a block. *)
Lemma ring_all_slots R W i :
  win_ok bs w W → ring R W → R ≤ n → w ≤ R → slot_sends legitimate W i.
Proof using Type*.
  intros Hok Hring HR HwR. pose proof Hok as (_ & Hl & _).
  set (s := Z.to_nat i mod w). assert (s < w) by (apply Nat.mod_upper_bound; lia).
  assert (∃ j, 1 ≤ j ≤ w ∧ slot_of w j = s) as (j & Hj & Hs).
  { exists (if decide (s = 0) then w else s). unfold slot_of.
    case_decide; (split; [lia|]); rewrite as_u16_small by (split; lia); rewrite Nat2Z.id.
    - by rewrite Nat.Div0.mod_same.
    - by apply Nat.mod_small. }
  destruct (Hring j) as (k & v & ? & _ & Hv & Hp); [lia|].
  exists s, v. split; [|split].
  - unfold Window.slot. rewrite Hl. by destruct w; [lia|].
  - by rewrite <- Hs.
  - intros m. left. exists k. split; [lia|]. exists m. by rewrite Hp.
Qed.

(** The state at the head of a round that is not the last. *)
Record underway (R : nat) (t : Transfer F) : Prop := mkUnderway {
  uw_at : at_block R t;
  uw_more : R < n;
  uw_filled : R = 0 ∧ last_acknowledged_index t = 0%Z ∨ w ≤ R;
  uw_ack : is_u16 (last_acknowledged_index t);
  uw_buf : 37 ≤ length (buf (link t));
}.

(** What a round sends is legitimate, whatever was acknowledged before. *)
Lemma round_slots R t t' m to_send :
  underway R t → to_send = wrapping_sub (last_read_index t) (last_acknowledged_index t) →
  m = Z.to_nat (Z.of_nat w - to_send) `min` (n - R) →
  at_block (R + m) t' → last_acknowledged_index t' = last_acknowledged_index t →
  Forall (slot_sends legitimate (window t'))
    (block_indices (wrapping_add (last_acknowledged_index t') 1) (to_send + Z.of_nat m)).
Proof using Type*.
  intros [Hat HR Hfill Hu _] Hts Hm Hat' Hla. pose proof (ab_count _ _ Hat') as Hc.
  destruct (decide (w ≤ R + m)).
  - apply Forall_forall. intros i _. eapply ring_all_slots; eauto using ab_win, ab_ring.
  - destruct Hfill as [[-> Hz]|?]; [|lia]. simpl in *.
    rewrite (ab_index _ _ Hat), Hz in Hts. change (to_send = 0%Z) in Hts. subst to_send.
    rewrite Hla, Hz, Z.add_0_l. change (wrapping_add 0 1) with 1%Z.
    change 1%Z with (as_u16 (Z.of_nat 1)). rewrite block_indices_range. apply Forall_fmap, Forall_forall.
    intros j Hj%elem_of_seq. simpl. eapply ring_slot_sends; eauto using ab_win, ab_ring. lia.
Qed.

Lemma send_loop_safe debug a fuel R t :
  underway R t → length (arrivals_of (stream (link t))) < fuel →
  ∃ r t', send_loop debug a fuel false t = (r, t') ∧ evolves legitimate (link t) (link t') ∧
          r ≠ Stop OutOfFuel ∧ (debug = false → returns r) ∧
          ∀ e, r = Err e → length (TFTPErr.wire e zero) < 37.
Proof using Type*.
  revert R t. induction fuel as [|fuel IH]; intros R t Hu Hf; [lia|]. simpl.
  set (u := wrapping_sub (last_read_index t) (last_acknowledged_index t)).
  assert (is_u16 u) as Hu16 by apply as_u16_range.
  destruct (debug && negb (u <=? Window.size (window t))%Z) eqn:Hd1.
  { eexists _, _. split; [done|]. split; [done|]. split; [done|]. by split; [intros ->|]. }
  pose proof (fill_window_spec (Z.to_nat (Window.size (window t))) u R t) as Hfw.
  rewrite (win_size bs w) in * by (done || apply Hu).
  destruct Hfw as (t1 & -> & Hat1 & Hl1 & Hbl1 & Hla1);
    [apply Hu|apply Hu|apply Hu16|unfold is_u16 in *; lia|].
  set (m := Z.to_nat (Z.of_nat w - u) `min` (n - R)) in *.
  destruct (debug && negb (u + Z.of_nat m <=? Window.size (window t1))%Z) eqn:Hd2.
  { eexists _, _. split; [done|]. split; [by rewrite Hl1|]. split; [done|]. by split; [intros ->|]. }
  pose proof (round_slots R t t1 m u Hu eq_refl eq_refl Hat1 Hla1) as HF.
  unfold send_reliably. destruct (send_attempts_evolves legitimate SEND_ATTEMPTS (window t1) a
    (wrapping_add (last_acknowledged_index t1) 1) (u + Z.of_nat m) (link t1))
    as (r & l2 & -> & Hr & Hev & Hok); [by right|rewrite Hl1; apply Hu|done|]. rewrite Hl1 in *.
  destruct r as [k|e|h].
  2: destruct e; (eexists _, _; split; [done|]; split; [done|]; split; [done|]; split; [done|];
       intros ? [= <-]; vm_compute; lia).
  2: done.
  destruct (Hok k eq_refl) as (Hk16 & _ & Hlt).
  case_bool_decide as Hdone; [destruct fuel; (eexists _, _; split; [done|]; by split_and!)|].
  destruct (IH (R + m) (acknowledged t1 l2 k)) as (r & t' & Hrun & Hev' & ? & ? & ?).
  - pose proof (ab_count _ _ Hat1). destruct Hat1 as [].
    split; simpl; [split; done|lia| |done|by rewrite (ev_buf _ _ _ Hev); apply Hu].
    right. destruct Hu as [Hat _ [[-> Hz]|?] _ _]; [|lia].
    assert (u = 0%Z) as Hu0. { unfold u. by rewrite (ab_index _ _ Hat), Hz. }
    lia.
  - simpl. lia.
  - exists r, t'. split; [done|]. split; [|done]. by etrans.
Qed.

Lemma at_block_start (f : F) (l : Link) :
  readable f → remaining f = data →
  at_block 0 (mkTransfer f (Window.new (Z.of_nat bs) (Z.of_nat w)) l 0 0 0 0).
Proof using Type*.
  intros Hr Hd. split; simpl; try done; [apply win_ok_new|intros j Hj; lia|lia].
Qed.

Lemma transfer_start (f : F) (l : Link) :
  readable f → remaining f = data → 37 ≤ length (buf l) →
  underway 0 (mkTransfer f (Window.new (Z.of_nat bs) (Z.of_nat w)) l 0 0 0 0).
Proof using Type*.
  intros Hr Hd Hb. split; simpl; [by apply at_block_start|unfold n_blocks; lia|by left|done|done].
Qed.

End file.

(** C6: for every network, every file and every window, [send_file] returns: its loops
    end, and in a release build it does not panic.  Every datagram it hands to the socket
    is a block of the file under the block's own number (modulo 2^16), or an error
    report; at worst the socket cuts one short. *)
Theorem send_file_only_sends_the_file {F} `{OpenedFileSpec F} (debug : bool) (bs w : nat)
    (data : list byte) (f : F) (a : AckTimeout.t) (l : Link) :
  0 < bs → (Z.of_nat bs < 65536)%Z → 0 < w → (Z.of_nat w < 65536)%Z →
  readable f → remaining f = data → 37 ≤ length (buf l) →
  ∃ r t, send_file debug f (Window.new (Z.of_nat bs) (Z.of_nat w)) a l = (r, t) ∧
    r ≠ Stop OutOfFuel ∧ (debug = false → returns r) ∧
    ∃ new, sent_by (stream (link t)) = sent_by (stream l) ++ new ∧
           Forall (legitimate bs data) new.
Proof.
  intros. unfold send_file.
  destruct (send_loop_safe bs w data ltac:(done) ltac:(done) ltac:(done) ltac:(done) debug a
    (S (length (arrivals_of (stream l)))) 0
    (mkTransfer f (Window.new (Z.of_nat bs) (Z.of_nat w)) l 0 0 0 0))
    as (r & t & -> & Hev & Hfuel & Hret & _); [by apply transfer_start|simpl; lia|].
  exists r, t. split; [done|]. split; [done|]. split; [done|]. apply (ev_sent _ _ _ Hev).
Qed.

Lemma send_file_only_sends_the_file_witness :
  ∃ r t, send_file true (VirtualOpenedFile.new [zero; zero]) (Window.new 1 2) AckTimeout.default
           (mkLink (stream_of (SocketAddr_new (V4 1) 2) [TimerElapsed] []) (replicate 64 zero)) = (r, t) ∧
    r ≠ Stop OutOfFuel ∧ (true = false → returns r) ∧
    ∃ new, sent_by (stream (link t)) = [] ++ new ∧ Forall (legitimate 1 [zero; zero]) new.
Proof.
  apply (send_file_only_sends_the_file true 1 2 [zero; zero]
    (VirtualOpenedFile.new [zero; zero])); vm_compute; (done || lia).
Defined.
