(* ===== verification/Delivery.v ===== *)
(** * Delivery: a cooperating client gets the file

    The converse of Transfer: when the client acknowledges what it is sent, possibly
    late, partially, and among datagrams of others, the transfer succeeds, and a TFTP
    client that takes blocks in order ends up with exactly the file. *)

From S2P Require Import Prelude Text Cursor Errors Fs Options Messages Net Window Session Transfer.

(** ** The client's side of RFC 1350 *)

Record Client : Type := mkClient {
  received : list byte;
  next_block : Z;
  finished : bool;
}.

(** A block is taken if it is the next one; a short block is the last. *)
Definition client_step (bs : nat) (c : Client) (d : list byte) : Client :=
  match d with
  | o1 :: o2 :: h :: l :: payload =>
      if negb (finished c) && (from_be_bytes o1 o2 =? DATA)%Z && (from_be_bytes h l =? next_block c)%Z
      then mkClient (received c ++ payload) (wrapping_add (next_block c) 1) (length payload <? bs)
      else c
  | _ => c
  end.

Definition client_run (bs : nat) (datagrams : list (list byte)) : Client :=
  foldl (client_step bs) (mkClient [] 1 false) datagrams.

(** ** What a cooperating client's network looks like *)

Definition ack_payload (number : Z) (tail : list byte) : list byte :=
  [as_u8 0; as_u8 ACK; as_u8 (Z.shiftr number 8); as_u8 number] ++ tail.

(** The arrivals of one round: some expiries of the timer, each after some datagrams
    that are not the peer's or too short, then more such datagrams and the peer's
    acknowledgement. *)
Record Round : Type := mkRound {
  waits : list (list arrival);
  last_wait : list arrival;
  ack_tail : list byte;
}.

Definition round_arrivals (peer : SocketAddr) (r : Round) (ack : Z) : list arrival :=
  concat ((λ pre, pre ++ [TimerElapsed]) <$> waits r)
  ++ last_wait r ++ [Datagram peer (ack_payload ack (ack_tail r))].

Definition round_ok (peer : SocketAddr) (r : Round) : Prop :=
  length (waits r) < SEND_ATTEMPTS ∧ Forall (Forall (noise peer 4)) (waits r) ∧
  Forall (noise peer 4) (last_wait r).

(** [cooperative peer w n A arrs]: with [A] of [n] blocks acknowledged, the script [arrs]
    answers each window of up to [w] blocks with the number of one of its blocks, until
    the window that holds the last block has been answered. *)
Inductive cooperative (peer : SocketAddr) (w n : nat) : nat → list arrival → Prop :=
| coop_last A r k arrs :
    A < n → n ≤ A + w → A < k ≤ n → round_ok peer r →
    cooperative peer w n A (round_arrivals peer r (as_u16 (Z.of_nat k)) ++ arrs)
| coop_more A r k arrs :
    A + w < n → A < k ≤ A + w → round_ok peer r → cooperative peer w n k arrs →
    cooperative peer w n A (round_arrivals peer r (as_u16 (Z.of_nat k)) ++ arrs).

(** ** One round *)

Lemma parse_ack_payload buffer number tail m :
  is_u16 number → take m buffer = take (length buffer) (ack_payload number tail) →
  4 ≤ length buffer → 4 ≤ m → parse_acknowledge buffer = Ok number.
Proof.
  intros Hn Htake Hl Hm.
  assert (∃ r, buffer = ack_payload number [] ++ r) as [r ->].
  { exists (drop 4 buffer). rewrite <- (take_drop 4 buffer) at 1. f_equal.
    transitivity (take 4 (take m buffer)); [rewrite take_take; f_equal; lia|].
    rewrite Htake, take_take, Nat.min_l by lia. done. }
  transitivity (Ok (E := RecvError.t) (from_be_bytes (as_u8 (Z.shiftr number 8)) (as_u8 number)));
    [reflexivity|by rewrite be_bytes_roundtrip].
Qed.

Section ack.
Context (peer : SocketAddr) (a : AckTimeout.t).

Lemma read_acknowledge_timer pre arrs sent b :
  Forall (noise peer 4) pre →
  ∃ b', read_acknowledge a (mkLink (stream_of peer (pre ++ TimerElapsed :: arrs) sent) b) =
        (Err RecvError.Timeout, mkLink (stream_of peer arrs sent) b') ∧ length b' = length b.
Proof.
  intros Hpre. unfold read_acknowledge, DatagramStream.recv. simpl.
  destruct (recv_loop_timer peer 4 pre arrs b Hpre) as (b' & -> & Hl). simpl. eauto.
Qed.

Lemma read_acknowledge_ack pre number tail arrs sent b :
  Forall (noise peer 4) pre → is_u16 number → 4 ≤ length b →
  ∃ b', read_acknowledge a
          (mkLink (stream_of peer (pre ++ Datagram peer (ack_payload number tail) :: arrs) sent) b) =
        (Ok number, mkLink (stream_of peer arrs sent) b') ∧ length b' = length b.
Proof.
  intros Hpre Hn Hb. unfold read_acknowledge, DatagramStream.recv. simpl.
  destruct (recv_loop_datagram peer 4 pre (ack_payload number tail) arrs b Hpre)
    as (b' & -> & Hl & Ht); [simpl; lia|done|].
  unfold AckTimeout_timeout. cbv beta iota. rewrite (parse_ack_payload b' number tail (length (ack_payload number tail) `min` length b));
    [eauto|done|by rewrite Hl|lia|].
  unfold ack_payload. rewrite length_app. change (length [_; _; _; _]) with 4. lia.
Qed.

Lemma round_arrivals_nil last tail ack arrs :
  round_arrivals peer (mkRound [] last tail) ack ++ arrs =
  last ++ Datagram peer (ack_payload ack tail) :: arrs.
Proof. unfold round_arrivals. simpl. by rewrite <- app_assoc. Qed.

Lemma round_arrivals_cons pre ws last tail ack arrs :
  round_arrivals peer (mkRound (pre :: ws) last tail) ack ++ arrs =
  pre ++ TimerElapsed :: round_arrivals peer (mkRound ws last tail) ack ++ arrs.
Proof. unfold round_arrivals. simpl. by rewrite <- !app_assoc. Qed.

(** A window is sent once more than the timer expires before its acknowledgement. *)
Lemma send_attempts_round W i count pkts r ack arrs sent b n :
  (∀ arrs sent, send_blocks W (block_indices i count) (stream_of peer arrs sent) =
                (Ok tt, stream_of peer arrs (sent ++ pkts))) →
  length (waits r) < n → Forall (Forall (noise peer 4)) (waits r) →
  Forall (noise peer 4) (last_wait r) → is_u16 ack → (i ≤ ack)%Z → 4 ≤ length b →
  ∃ b', send_attempts n W a i count
          (mkLink (stream_of peer (round_arrivals peer r ack ++ arrs) sent) b) =
        (Ok ack, mkLink (stream_of peer arrs (sent ++ concat (replicate (S (length (waits r))) pkts))) b')
        ∧ length b' = length b.
Proof.
  intros Hsend. destruct r as [ws last tail]. cbn [waits last_wait]. revert sent b n.
  induction ws as [|pre ws IH]; intros sent b [|n] Hn Hws Hlast Hack Hi Hb; simpl in Hn; try lia;
    cbn [send_attempts stream buf length]; rewrite Hsend.
  - rewrite round_arrivals_nil.
    destruct (read_acknowledge_ack last ack tail arrs (sent ++ pkts) b) as (b' & -> & Hl); [done..|].
    settle_all. rewrite app_nil_r. eauto.
  - apply Forall_cons in Hws as [Hpre Hws]. rewrite round_arrivals_cons.
    destruct (read_acknowledge_timer pre (round_arrivals peer (mkRound ws last tail) ack ++ arrs)
      (sent ++ pkts) b Hpre) as (b1 & -> & Hl1).
    destruct (IH (sent ++ pkts) b1 n) as (b' & -> & Hl); [lia|done..|by rewrite Hl1|].
    exists b'. split; [|lia]. by rewrite (replicate_S (S _)), <- app_assoc.
Qed.

End ack.

(** ** The client and the blocks *)

Section delivery.
Context {F} `{OpenedFileSpec F}.
Context (bs w : nat) (data : list byte).
Context (Hbs : 0 < bs) (Hbs16 : (Z.of_nat bs < 65536)%Z) (Hw : 0 < w) (Hw16 : (Z.of_nat w < 65536)%Z).

Abbreviation n := (n_blocks bs data).

(** The client has taken the first [R] blocks. *)
Definition client_at (R : nat) (c : Client) : Prop :=
  received c = take (R * bs) data ∧ next_block c = as_u16 (Z.of_nat (S R)) ∧
  finished c = bool_decide (R = n).

Lemma client_step_packet c k :
  client_step bs c (packet bs data k) =
  if negb (finished c) && (as_u16 (Z.of_nat k) =? next_block c)%Z
  then mkClient (received c ++ block bs data k) (wrapping_add (next_block c) 1)
         (length (block bs data k) <? bs)
  else c.
Proof.
  unfold packet, data_packet. cbn [app client_step].
  rewrite be_bytes_roundtrip by apply as_u16_range.
  change (from_be_bytes (as_u8 0) (as_u8 DATA) =? DATA)%Z with true. by rewrite andb_true_r.
Qed.

Lemma client_takes R c : client_at R c → R < n → client_at (S R) (client_step bs c (packet bs data (S R))).
Proof using All.
  intros (Hr & Hx & Hf) HR. rewrite client_step_packet, Hx, Hf, Z.eqb_refl.
  rewrite bool_decide_eq_false_2 by lia. simpl. split; [|split]; simpl.
  - rewrite Hr. unfold block. simpl. rewrite Nat.sub_0_r, (Nat.add_comm bs). apply take_take_drop.
  - apply wrapping_succ.
  - clear Hf. pose proof (block_short bs data Hbs (S R)) as Hs. case_bool_decide as He.
    + apply Nat.ltb_lt, Hs; lia.
    + apply Nat.ltb_ge. destruct (decide (bs ≤ length (block bs data (S R)))); [done|].
      exfalso. apply He, Hs; lia.
Qed.

Lemma client_ignores R c k :
  client_at R c → k ≤ R → (Z.of_nat R + 1 - Z.of_nat k < 65536)%Z →
  client_step bs c (packet bs data k) = c.
Proof.
  intros (_ & Hx & _) Hk Hd. rewrite client_step_packet, Hx.
  assert (as_u16 (Z.of_nat k) ≠ as_u16 (Z.of_nat (S R))) as Hne.
  { unfold as_u16. intros E. apply Z.cong_iff_0 in E. rewrite Zmod_divides in E by lia.
    destruct E as [c0 Hc0]. lia. }
  apply Z.eqb_neq in Hne. by rewrite Hne, andb_false_r.
Qed.

(** The packets [A+1 .. A+m] of a window bring the client to block [A+m]; blocks it has
    already are ignored. *)
Lemma client_window R A m c :
  client_at R c → A ≤ R → R ≤ A + w → A + m ≤ n →
  client_at (R `max` (A + m)) (foldl (client_step bs) c (packet bs data <$> seq (S A) m)).
Proof using All.
  intros Hc HA HR. induction m as [|m IH]; intros Hm.
  - simpl. by rewrite Nat.max_l by lia.
  - rewrite seq_S, fmap_app, foldl_app. cbn [foldl fmap list_fmap]. specialize (IH ltac:(lia)).
    destruct (decide (A + S m ≤ R)).
    + rewrite Nat.max_l in * by lia. rewrite (client_ignores R); [done|done|lia|lia].
    + rewrite Nat.max_r in * by lia. replace (A + S m) with (S (A + m)) by lia.
      apply client_takes; [done|lia].
Qed.

Lemma client_copies R A m c copies :
  client_at R c → A ≤ R → R ≤ A + w → R ≤ A + m → m ≤ w → A + m ≤ n →
  client_at (A + m)
    (foldl (client_step bs) c (concat (replicate (S copies) (packet bs data <$> seq (S A) m)))).
Proof using All.
  intros Hc HA HR HRm Hm Hn. revert R c Hc HA HR HRm.
  induction copies as [|copies IH]; intros R c Hc HA HR HRm;
    rewrite replicate_S; simpl concat; rewrite foldl_app.
  - simpl. rewrite <- (Nat.max_r R (A + m)) by lia. by apply client_window.
  - apply (IH (A + m)); [|lia..]. rewrite <- (Nat.max_r R (A + m)) by lia. by apply client_window.
Qed.

(** ** The window and the blocks *)

Lemma ring_holds A R W j :
  w = 1 ∨ (Z.of_nat R < 65536)%Z →
  ring bs w data R W → R ≤ n → R ≤ A + w → A < j ≤ R → holds bs w data W j.
Proof using All.
  intros Hroll Hring HR HA Hj. destruct (Hring j) as (k & v & Hk & Hs & Hv & Hp); [lia|].
  assert (k = j) as ->; [|by exists v].
  destruct (decide (k = j)); [done|]. exfalso. destruct Hroll as [->|Hn]; [lia|].
  apply (slot_of_inj w j k); [done|lia..|done].
Qed.

Lemma send_blocks_holds peer W ks arrs sent :
  win_ok bs w W → Forall (holds bs w data W) ks →
  send_blocks W ((as_u16 ∘ Z.of_nat) <$> ks) (stream_of peer arrs sent) =
  (Ok tt, stream_of peer arrs (sent ++ (packet bs data <$> ks))).
Proof using All.
  intros Hok HF. revert sent. induction HF as [|k ks Hk _ IH]; intros sent; simpl.
  - by rewrite app_nil_r.
  - rewrite (window_send bs w data) by done. rewrite send_stream_of, IH. by rewrite <- app_assoc.
Qed.

(** The state at the head of a round: [A] blocks acknowledged, [R] read and taken by the
    client. *)
Record in_step (peer : SocketAddr) (A R : nat) (arrs : list arrival) (old : list (list byte))
    (t : Transfer F) : Prop := mkInStep {
  is_at : at_block bs w data R t;
  is_more : R < n;
  is_window : A ≤ R ≤ A + w;
  is_ack : last_acknowledged_index t = as_u16 (Z.of_nat A);
  is_blocks : blocks_sent t = 0;
  is_link : ∃ new b, link t = mkLink (stream_of peer arrs (old ++ new)) b ∧ 37 ≤ length b ∧
                     client_at R (client_run bs new);
}.

Lemma unacknowledged A R :
  A ≤ R ≤ A + w → wrapping_sub (as_u16 (Z.of_nat R)) (as_u16 (Z.of_nat A)) = Z.of_nat (R - A).
Proof using All.
  intros. unfold wrapping_sub, as_u16. rewrite <- Zminus_mod. rewrite Z.mod_small; lia.
Qed.

(** What [send_loop] does with the answer of [send_reliably]. *)
Definition after_send (debug : bool) (a : AckTimeout.t) (fuel : nat) (done' : bool) (to_send : Z)
    (t : Transfer F) (r : res SendError.t Z * Link) : res TFTPError (nat * nat) * Transfer F :=
  match r with
  | (Ok k, l) => send_loop debug a fuel done' (acknowledged t l k)
  | (Err SendError.Timeout, l) =>
      (Err (TFTPErr.undefined (str "Send timeout occurred")), with_link t l)
  | (Err (SendError.ClientError _ _), l) =>
      (Ok (bytes_sent t, blocks_sent t + Z.to_nat to_send), with_link t l)
  | (Err _, l) => (Err (TFTPErr.undefined (str "Unknown error occurred")), with_link t l)
  | (Stop h, l) => (Stop h, with_link t l)
  end.

(** A round with [A] blocks acknowledged and [R] read: the window is filled up, and its
    blocks are sent from [A+1] on. *)
Lemma send_loop_round debug a fuel A R t :
  at_block bs w data R t → R < n → A ≤ R ≤ A + w →
  last_acknowledged_index t = as_u16 (Z.of_nat A) →
  let R' := (A + w) `min` n in
  ∃ t1, at_block bs w data R' t1 ∧ link t1 = link t ∧ blocks_sent t1 = blocks_sent t ∧
    send_loop debug a (S fuel) false t =
    after_send debug a fuel (bool_decide (R' = n)) (Z.of_nat (R' - A)) t1
      (send_attempts SEND_ATTEMPTS (window t1) a (as_u16 (Z.of_nat (S A))) (Z.of_nat (R' - A)) (link t)).
Proof using All.
  intros Hat HR HA Hack R'. cbn [send_loop].
  rewrite (ab_index _ _ _ _ _ Hat), Hack, unacknowledged by done.
  rewrite (win_size bs w) by (done || apply Hat). settle_all. rewrite andb_false_r.
  destruct (fill_window_spec bs w data Hbs Hbs16 Hw Hw16 (Z.to_nat (Z.of_nat w)) (Z.of_nat (R - A)) R t)
    as (t1 & -> & Hat1 & Hl1 & Hb1 & Ha1); [done..|lia|lia|].
  replace (R + _) with R' in * by lia. replace (_ + Z.of_nat _)%Z with (Z.of_nat (R' - A)) by lia.
  rewrite (win_size bs w) by (done || apply Hat1). settle_all. rewrite andb_false_r.
  rewrite Ha1, Hack, wrapping_succ, Hl1. eauto 10.
Qed.

(** Up to block 65535, or with a window of one block, what is sent is the window. *)
Lemma window_blocks_sent A R t :
  at_block bs w data R t → A ≤ R ≤ A + w → w = 1 ∨ (Z.of_nat R < 65536)%Z →
  ∀ peer arrs sent,
    send_blocks (window t) (block_indices (as_u16 (Z.of_nat (S A))) (Z.of_nat (R - A)))
      (stream_of peer arrs sent) =
    (Ok tt, stream_of peer arrs (sent ++ (packet bs data <$> seq (S A) (R - A)))).
Proof using All.
  intros Hat HA Hroll peer arrs sent. rewrite block_indices_range.
  apply send_blocks_holds; [apply Hat|]. apply Forall_forall. intros j Hj%elem_of_seq.
  eapply (ring_holds A R); [done|apply Hat|apply Hat|lia..].
Qed.

(** What a round sends, with [A] blocks acknowledged: its window, once more for every expiry. *)
Definition round_sends (A : nat) (r : Round) : list (list byte) :=
  concat (replicate (S (length (waits r))) (packet bs data <$> seq (S A) ((A + w) `min` n - A))).

(** One round: the window is filled, sent and answered with block [k]. *)
Lemma round_runs peer debug a A R r k arrs sent b t fuel :
  at_block bs w data R t → R < n → A ≤ R ≤ A + w →
  last_acknowledged_index t = as_u16 (Z.of_nat A) → blocks_sent t = 0 → round_ok peer r →
  link t = mkLink (stream_of peer (round_arrivals peer r (as_u16 (Z.of_nat k)) ++ arrs) sent) b → 37 ≤ length b →
  let R' := (A + w) `min` n in
  w = 1 ∨ (Z.of_nat R' < 65536)%Z → A < k ≤ R' →
  ∃ (t' : Transfer F) b', send_loop debug a (S fuel) false t = send_loop debug a fuel (bool_decide (R' = n)) t' ∧
    at_block bs w data R' t' ∧ last_acknowledged_index t' = as_u16 (Z.of_nat k) ∧ blocks_sent t' = 0 ∧
    link t' = mkLink (stream_of peer arrs (sent ++ round_sends A r)) b' ∧ 37 ≤ length b'.
Proof using All.
  intros Hat HR HA Hack Hbl (Hwl & Hws & Hlast) Hlink Hb R' Hroll Hk.
  destruct (send_loop_round debug a fuel A R t) as (t1 & Hat1 & Hl1 & Hb1 & ->); [done..|].
  fold R' in Hat1 |- *. rewrite Hlink.
  destruct (send_attempts_round peer a (window t1) (as_u16 (Z.of_nat (S A))) (Z.of_nat (R' - A))
    (packet bs data <$> seq (S A) (R' - A)) r (as_u16 (Z.of_nat k)) arrs sent b SEND_ATTEMPTS)
    as (b' & -> & Hb'); [|done..|apply as_u16_range| |lia|].
  - apply (window_blocks_sent A R'); [done|lia|done].
  - destruct Hroll as [->|Hn]; [|rewrite !as_u16_small by (split; lia); lia].
    by replace k with (S A) by lia.
  - eexists _, b'. split; [done|]. split; [by destruct Hat1; split|]. split; [done|].
    split; [simpl; congruence|]. split; [done|lia].
Qed.

(** The same with what the client makes of it. *)
Lemma round_step peer debug a A R r k arrs old t fuel :
  in_step peer A R (round_arrivals peer r (as_u16 (Z.of_nat k)) ++ arrs) old t → round_ok peer r →
  let R' := (A + w) `min` n in
  w = 1 ∨ (Z.of_nat R' < 65536)%Z → A < k ≤ R' →
  ∃ t', send_loop debug a (S fuel) false t =
          send_loop debug a fuel (bool_decide (R' = n)) (t' : Transfer F) ∧
        at_block bs w data R' t' ∧ last_acknowledged_index t' = as_u16 (Z.of_nat k) ∧
        blocks_sent t' = 0 ∧
        ∃ new b, link t' = mkLink (stream_of peer arrs (old ++ new)) b ∧ 37 ≤ length b ∧
                 client_at R' (client_run bs new).
Proof using All.
  intros [Hat HR HA Hack Hbl (new & b & Hlink & Hb & Hcl)] Hok R' Hroll Hk.
  destruct (round_runs peer debug a A R r k arrs (old ++ new) b t fuel)
    as (t' & b' & Hrun & Hat' & Hack' & Hbl' & Hlink' & Hb'); [done..|].
  fold R' in Hrun, Hat'. exists t'. do 4 (split; [done|]). rewrite <- app_assoc in Hlink'.
  exists (new ++ round_sends A r), b'. split; [done|]. split; [done|].
  unfold client_run. rewrite foldl_app.
  pose proof (client_copies R A (R' - A) (client_run bs new) (length (waits r))) as Hc.
  replace (A + (R' - A)) with R' in Hc by lia. apply Hc; [done|lia..].
Qed.

Lemma in_step_start peer arrs old (f : F) buffer :
  readable f → remaining f = data → 37 ≤ length buffer →
  in_step peer 0 0 arrs old
    (mkTransfer f (Window.new (Z.of_nat bs) (Z.of_nat w)) (mkLink (stream_of peer arrs old) buffer) 0 0 0 0).
Proof using All.
  intros Hread Hrem Hb.
  assert (0 < n) by (unfold n_blocks; lia).
  split; simpl; [|done|lia|done|done|].
  - by apply at_block_start.
  - exists [], buffer. rewrite app_nil_r. split; [done|]. split; [done|]. split; [done|].
    split; [done|]. by rewrite bool_decide_eq_false_2 by lia.
Qed.

Context (Hroll : w = 1 ∨ (Z.of_nat n < 65536)%Z).

Lemma send_loop_delivers peer debug a A R arrs old t fuel :
  cooperative peer w n A arrs → in_step peer A R arrs old t → length arrs < fuel →
  ∃ t', send_loop debug a fuel false t = (Ok (length data, 0), t') ∧
        ∃ new, sent_by (stream (link t')) = old ++ new ∧ client_at n (client_run bs new).
Proof using All.
  intros Hco. revert R t fuel.
  induction Hco as [A r k arrs HA Hn Hk Hr|A r k arrs HA Hk Hr Hco IH];
    intros R t [|fuel] Hin Hfuel; try lia;
    (destruct (round_step peer debug a A R r k arrs old t fuel) as
       (t' & -> & Hat & Hack & Hbl & new & b & Hlink & Hb & Hcl);
     [done|done|destruct Hroll; [by left|right; lia]|lia|]).
  - rewrite Nat.min_r in * by lia. rewrite bool_decide_eq_true_2 by done.
    exists t'. rewrite Hlink. split.
    + destruct fuel; simpl; rewrite Hbl, (ab_bytes _ _ _ _ _ Hat), Nat.min_r by
        (pose proof (n_blocks_bound bs data Hbs); lia); done.
    + exists new. split; [|done]. unfold sent_by. simpl. by rewrite <- list_fmap_compose, list_fmap_id.
  - rewrite Nat.min_l in * by lia. rewrite bool_decide_eq_false_2 by lia.
    apply (IH (A + w)).
    + split; [done|lia|lia|done|done|]. by exists new, b.
    + unfold round_arrivals in Hfuel. rewrite !length_app in Hfuel. simpl in Hfuel. lia.
Qed.

Lemma send_file_runs peer debug a arrs old (f : F) buffer :
  readable f → remaining f = data → 37 ≤ length buffer → cooperative peer w n 0 arrs →
  ∃ t, send_file debug f (Window.new (Z.of_nat bs) (Z.of_nat w)) a
         (mkLink (stream_of peer arrs old) buffer) = (Ok (length data, 0), t) ∧
       ∃ new, sent_by (stream (link t)) = old ++ new ∧ client_at n (client_run bs new).
Proof using All.
  intros. unfold send_file. eapply send_loop_delivers; [done|by apply in_step_start|].
  change (arrivals_of _) with arrs. lia.
Qed.

(** A client that has taken every block has the file. *)
Lemma client_at_end c : client_at n c → received c = data ∧ finished c = true.
Proof using Hbs.
  intros (Hr & _ & Hf). rewrite Hr, Hf. split; [|by apply bool_decide_eq_true_2].
  apply take_ge, Nat.lt_le_incl, n_blocks_bound, Hbs.
Qed.

End delivery.

(** A file of any size is delivered to a cooperating client.  With a window of one
    block, or a file of fewer than 65536 blocks, and a client that answers every window
    with the number of one of its blocks before the timer has expired five times (whatever
    strangers and runts send meanwhile), [send_file] ends with [Ok] and the file's length,
    and a client that takes the blocks sent in order has the whole file and has seen its
    end. *)
Theorem send_file_delivers {F} `{OpenedFileSpec F} (debug : bool) (bs w : nat) (data : list byte)
    (f : F) (a : AckTimeout.t) (peer : SocketAddr) (arrs : list arrival)
    (old : list (list byte)) (buffer : list byte) :
  0 < bs → (Z.of_nat bs < 65536)%Z → 0 < w → (Z.of_nat w < 65536)%Z →
  w = 1 ∨ (Z.of_nat (n_blocks bs data) < 65536)%Z →
  readable f → remaining f = data → 37 ≤ length buffer →
  cooperative peer w (n_blocks bs data) 0 arrs →
  ∃ t, send_file debug f (Window.new (Z.of_nat bs) (Z.of_nat w)) a
         (mkLink (stream_of peer arrs old) buffer) = (Ok (length data, 0), t) ∧
       ∃ new, sent_by (stream (link t)) = old ++ new ∧
              received (client_run bs new) = data ∧ finished (client_run bs new) = true.
Proof.
  intros. destruct (send_file_runs bs w data ltac:(done) ltac:(done) ltac:(done) ltac:(done)
    ltac:(done) peer debug a arrs old f buffer) as (t & Hrun & new & Hnew & Hc); [done..|].
  exists t. split; [done|]. exists new. split; [done|]. by apply (client_at_end bs data).
Qed.

(** Twenty bytes in blocks of eight, two to a window: the client reports the first block
    only, lets the timer expire once, then reports the last. *)
Definition sample_peer : SocketAddr := SocketAddr_new (V4 0x0A000001) 4000.
Definition sample_alien : arrival := Datagram (SocketAddr_new (V4 0x0A000002) 4000) [zero].
Definition sample_bytes : list byte := as_u8 <$> seqZ 0 20.
Definition sample_file : VirtualOpenedFile.t := VirtualOpenedFile.new sample_bytes.
Definition sample_arrivals : list arrival :=
  round_arrivals sample_peer (mkRound [[]; [sample_alien]] [] []) 1
  ++ round_arrivals sample_peer (mkRound [[sample_alien]] [] []) 3.

Lemma send_file_delivers_witness :
  ∃ t, send_file true sample_file (Window.new 8 2) AckTimeout.default
         (mkLink (stream_of sample_peer sample_arrivals []) (replicate 64 zero)) = (Ok (20, 0), t) ∧
       ∃ new, sent_by (stream (link t)) = [] ++ new ∧
              received (client_run 8 new) = sample_bytes ∧ finished (client_run 8 new) = true.
Proof.
  apply (send_file_delivers true 8 2 sample_bytes sample_file); [lia|done|lia|done|by right|vm_compute; lia|done|vm_compute; lia|].
  change sample_arrivals with
    (round_arrivals sample_peer (mkRound [[]; [sample_alien]] [] []) (as_u16 (Z.of_nat 1))
     ++ (round_arrivals sample_peer (mkRound [[sample_alien]] [] []) (as_u16 (Z.of_nat 3)) ++ [])).
  change (n_blocks 8 sample_bytes) with 3.
  apply coop_more; [lia|lia| |apply coop_last; [lia|lia|lia|]];
    (split; [vm_compute; lia|]); repeat constructor; by left.
Defined.
