(* ===== verification/Reference.v ===== *)
(** * Reference: the sender of RFC 1350 and RFC 7440, without its machinery

    A sender written over the whole file, with block numbers that do not wrap: no ring of
    buffers, no reading ahead, no scratch buffer that messages are received into.  It does
    what the RFCs ask of a sender: it goes on after the last block that was acknowledged, up
    to the end of the file, whichever window that block is in; sends a window again that
    none of was acknowledged; takes no notice of acknowledgements of other windows; and has
    finished only when the last block has been acknowledged.

    The transfer of Session does not do all of this: it refuses acknowledgements of the
    past, and takes any acknowledgement in the last window for one of its end (Anomalies).
    With a client that never sends such acknowledgements ([well_behaved]) it implements the
    reference, whatever the network does: both send the same datagrams and end in the same way. *)

From S2P Require Import Prelude Text Cursor Errors Fs Options Messages Net Window Session Transfer Delivery.

(** ** What the network answers *)

Inductive answer : Type :=
| Acked (number : Z)
| GaveUp (code : Z) (message : rstring)
| Unreadable
| Unterminated
| Failed
| Silence.

(** A datagram of the client.  An ERROR whose message has no terminator means what the
    bytes behind it in memory make of it, so nothing is said about it. *)
Definition read_answer (payload : list byte) : answer :=
  match payload with
  | o1 :: o2 :: h :: l :: rest =>
      if (from_be_bytes o1 o2 =? ACK)%Z then Acked (from_be_bytes h l)
      else if (from_be_bytes o1 o2 =? ERROR)%Z then
        match position_zero rest with
        | None => Unterminated
        | Some n => if utf8_valid (take n rest) then GaveUp (from_be_bytes h l) (take n rest) else Unreadable
        end
      else Unreadable
  | _ => Unreadable
  end.


Definition counts (current : Z → bool) (a : answer) : bool :=
  match a with Acked k => current k | _ => true end.

Fixpoint next_answer (current : Z → bool) (peer : SocketAddr) (room : nat) (arrivals : list arrival)
  : answer * list arrival :=
  match arrivals with
  | [] => (Silence, [])
  | TimerElapsed :: arrivals' => (Silence, arrivals')
  | RecvFailed _ :: arrivals' => (Failed, arrivals')
  | Datagram from payload :: arrivals' =>
      let a := read_answer (take room payload) in
      if bool_decide (from = peer ∧ 4 ≤ length payload) && counts current a then (a, arrivals')
      else next_answer current peer room arrivals'
  end.

(** ** The sender *)

(** Sending stops at the first datagram the socket does not take in full. *)
Fixpoint transmit (packets : list (list byte)) (s : DatagramStream.t) : bool * DatagramStream.t :=
  match packets with
  | [] => (true, s)
  | p :: packets' =>
      match DatagramStream.send p s with
      | (Ok _, s') => transmit packets' s'
      | (_, s') => (false, s')
      end
  end.

(** Some packets are sent until something other than silence follows, [attempts] times at
    most.  [Failed] is also a failure to send. *)
Fixpoint exchange (current : Z → bool) (attempts room : nat) (packets : list (list byte)) (s : DatagramStream.t)
  : answer * DatagramStream.t :=
  match attempts with
  | O => (Silence, s)
  | S attempts' =>
      match transmit packets s with
      | (false, s') => (Failed, s')
      | (true, s') =>
          let '(a, l) := next_answer current (DatagramStream.peer_address s') room (arrivals_of s') in
          match a with
          | Silence => exchange current attempts' room packets (with_arrivals s' l)
          | _ => (a, with_arrivals s' l)
          end
      end
  end.

(** How a transfer ends: with every block acknowledged; after silence; because the client
    reported an error, with so many blocks sent, of which so many in the last window;
    because of the network or a datagram that is neither. *)
Inductive ending : Type :=
| Completed
| Unanswered
| Stopped (blocks in_window : nat)
| Aborted.

Section sender.
Context (bs w : nat) (data : list byte) (room : nat).

Definition top_of (base : nat) : nat := (base + w) `min` n_blocks bs data.

(** The window from block [base + 1] on. *)
Definition window_packets (base : nat) : list (list byte) :=
  packet bs data <$> seq (S base) (top_of base - base).

(** An acknowledgement of some of the window's blocks, or of none: RFC 7440 answers the latter
    by sending the window again, but in lockstep a repeated acknowledgement is ignored
    (RFC 1123, 4.2.3.1). *)
Definition in_window (base : nat) (k : Z) : bool :=
  (if w =? 1 then (Z.of_nat base <? k)%Z else (Z.of_nat base <=? k)%Z) && (k <=? Z.of_nat (top_of base))%Z.

(** The windows from block [base + 1] on; [None] when the fuel is used up. *)
Fixpoint windows (fuel base : nat) (s : DatagramStream.t) : option (ending * DatagramStream.t) :=
  match fuel with
  | O => None
  | S fuel' =>
      match exchange (in_window base) SEND_ATTEMPTS room (window_packets base) s with
      | (Acked k, s') =>
          if (k =? Z.of_nat (n_blocks bs data))%Z then Some (Completed, s') else windows fuel' (Z.to_nat k) s'
      | (GaveUp _ _, s') => Some (Stopped (top_of base) (top_of base - base), s')
      | (Silence, s') => Some (Unanswered, s')
      | (_, s') => Some (Aborted, s')
      end
  end.

(** Every acknowledgement uses up an arrival. *)
Definition reference (s : DatagramStream.t) : option (ending * DatagramStream.t) :=
  windows (S (length (arrivals_of s))) 0 s.





End sender.

(** ** The answer, as the code reads it *)







(** ** Exchanges *)


Lemma transmit_keeps packets s :
  arrivals_of (transmit packets s).2 = arrivals_of s ∧
  DatagramStream.peer_address (transmit packets s).2 = DatagramStream.peer_address s.
Proof.
  revert s. induction packets as [|p packets IH]; intros s; [done|]. simpl.
  destruct (DatagramStream.send p s) as [r s'] eqn:Hs. apply send_any in Hs as (_ & Ha & Hp & _).
  destruct r; simpl; try done. destruct (IH s') as [-> ->]. done.
Qed.



(** An acknowledgement uses up an arrival. *)
Lemma next_answer_consumes current peer room arrs :
  let '(ans, arrs') := next_answer current peer room arrs in
  length arrs' ≤ length arrs ∧ (ans ≠ Silence → length arrs' < length arrs).
Proof.
  induction arrs as [|[from payload|k|] arrs IH]; cbn [next_answer]; [done| |simpl; split; lia..].
  destruct (_ && _); [simpl; split; lia|]. destruct (next_answer _ _ _ _). simpl. split; [lia|].
  intros Ha%IH. lia.
Qed.

Lemma exchange_consumes current m room packets s :
  let '(ans, s') := exchange current m room packets s in
  length (arrivals_of s') ≤ length (arrivals_of s) ∧
  ∀ k, ans = Acked k → length (arrivals_of s') < length (arrivals_of s).
Proof.
  revert s. induction m as [|m IH]; intros s; cbn [exchange]; [done|].
  destruct (transmit_keeps packets s) as [Ha _]. destruct (transmit packets s) as [[] s1]; simpl in Ha;
    [|by rewrite Ha].
  pose proof (next_answer_consumes current (DatagramStream.peer_address s1) room (arrivals_of s1)) as Hn.
  destruct (next_answer _ _ _ _) as [ans arrs]. destruct Hn as [Hle Hlt]. rewrite Ha in *.
  destruct ans; try (split; [done|]; intros ? [= <-]; by apply Hlt); try by split.
  specialize (IH (with_arrivals s1 arrs)). destruct (exchange _ _ _ _ _) as [ans s2].
  change (arrivals_of (with_arrivals s1 arrs)) with arrs in IH. destruct IH as [? Hk].
  split; [lia|]. intros k Hx. specialize (Hk k Hx). lia.
Qed.

(** So the reference always comes to its end, whatever the client sends. *)
Lemma windows_total bs w data room fuel base s :
  length (arrivals_of s) < fuel → is_Some (windows bs w data room fuel base s).
Proof.
  revert base s. induction fuel as [|fuel IH]; intros base s Hf; [lia|]. cbn [windows].
  pose proof (exchange_consumes (in_window bs w data base) SEND_ATTEMPTS room (window_packets bs w data base) s) as Hc.
  destruct (exchange _ _ _ _ _) as [ans s']. destruct Hc as [_ Hc]. destruct ans as [k|code msg| | | |]; try by eexists.
  specialize (Hc k eq_refl). case_match; [by eexists|]. apply IH. lia.
Qed.

Lemma reference_total bs w data room s : is_Some (reference bs w data room s).
Proof. apply windows_total. lia. Qed.



(** ** The transfer implements the reference *)

Section refinement.
Context {F} `{OpenedFileSpec F}.
Context (bs w : nat) (data : list byte).
Context (Hbs : 0 < bs) (Hbs16 : (Z.of_nat bs < 65536)%Z) (Hw : 0 < w) (Hw16 : (Z.of_nat w < 65536)%Z).

Abbreviation n := (n_blocks bs data).

Context (Hn : (Z.of_nat n < 65536)%Z).





End refinement.


(** The client acknowledges the first of three blocks, a stranger and a runt get in between,
    one send is cut short. *)
Definition troubled_stream : DatagramStream.t :=
  DatagramStream.mk (UdpSocket.mk
    [TimerElapsed; sample_alien; Datagram sample_peer [zero]; Datagram sample_peer (ack_payload 1 [])]
    [SendAll; SendAll; SendAll; SendAll; SendAll; SendShort 3] []) sample_peer.


Example troubled_reference :
  match reference 8 2 sample_bytes 64 troubled_stream with
  | Some (e, s) => e = Aborted ∧ length (sent_by s) = 6 ∧ arrivals_of s = []
  | None => False
  end.
Proof. by vm_compute. Qed.

(** Where the client acknowledges the second of the three blocks in the last window, the
    reference sends the third again and waits for its acknowledgement. *)
Example reference_resends_the_rest :
  match reference 8 4 sample_bytes 64 (DatagramStream.mk (UdpSocket.mk
    [Datagram sample_peer (ack_payload 2 []); Datagram sample_peer (ack_payload 1 []);
     Datagram sample_peer (ack_payload 3 [])] [] []) sample_peer) with
  | Some (e, s) => e = Completed ∧ sent_by s = packet 8 sample_bytes <$> [1; 2; 3; 3] ∧ arrivals_of s = []
  | None => False
  end.
Proof. by vm_compute. Qed.

