(* ===== verification/Anomalies.v ===== *)
(** * Anomalies: clients that are silent, give up, or acknowledge the wrong block

    What [send_file] does when the acknowledgements are not those of Delivery: it gives
    up on a silent client after five transmissions, stops when the client reports an
    error, refuses a number below the window even where numbers wrap, takes a number
    beyond the window as an acknowledgement, and ends on a partial acknowledgement of
    the last window. *)

From S2P Require Import Prelude Text Cursor Errors Fs Options Messages Net Window Session Transfer Delivery.

(** ** The retransmission loop under a script *)

Section loop.
Context (peer : SocketAddr) (a : AckTimeout.t) (W : Window.t) (i count : Z) (pkts : list (list byte)).
Context (Hsend : ∀ arrs sent,
  send_blocks W (block_indices i count) (stream_of peer arrs sent) =
  (Ok tt, stream_of peer arrs (sent ++ pkts))).

(** Nothing ever arrives: [m] attempts, then [Timeout]. *)
Lemma send_attempts_silent m sent b :
  send_attempts m W a i count (mkLink (stream_of peer [] sent) b) =
  (Err SendError.Timeout, mkLink (stream_of peer [] (sent ++ concat (replicate m pkts))) b).
Proof using All.
  revert sent. induction m as [|m IH]; intros sent; cbn [send_attempts stream buf].
  - simpl. by rewrite app_nil_r.
  - rewrite Hsend. change (read_acknowledge a _) with
      (Err (A := Z) RecvError.Timeout, mkLink (stream_of peer [] (sent ++ pkts)) b).
    cbv beta iota. rewrite IH. simpl. by rewrite <- app_assoc.
Qed.

(** A number below the window is refused with an error report, and the transfer fails. *)
Lemma send_attempts_past m pre ack tail arrs sent b :
  Forall (noise peer 4) pre → is_u16 ack → (ack < i)%Z → 37 ≤ length b →
  ∃ report b',
    send_attempts (S m) W a i count
      (mkLink (stream_of peer (pre ++ Datagram peer (ack_payload ack tail) :: arrs) sent) b) =
    (Err SendError.ACKError, mkLink (stream_of peer arrs ((sent ++ pkts) ++ [report])) b') ∧
    ∃ x, report = TFTPErr.wire (UndefinedError (str "Received ACK from the past")) x.
Proof using All.
  intros Hpre Hack Hlt Hb. cbn [send_attempts stream buf]. rewrite Hsend.
  destruct (read_acknowledge_ack peer a pre ack tail arrs (sent ++ pkts) b) as (b1 & -> & Hb1);
    [done..|lia|]. settle_all.
  destruct (fire_error_sends (TFTPErr.undefined (str "Received ACK from the past")) peer arrs
    (sent ++ pkts) b1) as (x & b2 & _ & _ & ->); [change (31 < length b1); lia|].
  eexists _, _. split; [done|]. by exists x.
Qed.

End loop.

(** An ERROR datagram of the peer, in full. *)
Definition client_error (code : Z) (message tail : list byte) : list byte :=
  [as_u8 0; as_u8 ERROR; as_u8 (Z.shiftr code 8); as_u8 code] ++ message ++ zero :: tail.

Lemma client_error_app code message tail :
  client_error code message tail = client_error code message [] ++ tail.
Proof. unfold client_error. by rewrite <- !app_assoc. Qed.

Lemma parse_client_error buffer code message tail m :
  is_u16 code → nul_free message → utf8_valid message = true →
  take m buffer = take (length buffer) (client_error code message tail) →
  4 + length message + 1 ≤ m → 4 + length message + 1 ≤ length buffer →
  parse_acknowledge buffer = Err (RecvError.ClientError code message).
Proof.
  intros Hc Hn Hu Ht Hm Hl.
  assert (∃ r, buffer = client_error code message r) as [r ->].
  { exists (drop (4 + length message + 1) buffer).
    rewrite <- (take_drop (4 + length message + 1) buffer) at 1.
    transitivity (take (4 + length message + 1) (take m buffer) ++ drop (4 + length message + 1) buffer);
      [rewrite take_take; do 2 f_equal; lia|].
    rewrite Ht, take_take, Nat.min_l by lia. rewrite (client_error_app _ _ tail).
    rewrite (client_error_app _ _ (drop _ _)). f_equal. apply take_app_length'.
    unfold client_error. rewrite !length_app. simpl. lia. }
  transitivity (match ReadCursor.extract_string
      (ReadCursor.mk (client_error code message r) 4) with
    | (Ok error_message, _) => Err (RecvError.ClientError
        (from_be_bytes (as_u8 (Z.shiftr code 8)) (as_u8 code)) error_message)
    | (Err _, _) => Err RecvError.ACKError
    | (Stop h, _) => Stop (A := Z) h
    end); [reflexivity|].
  destruct (ReadRequest.extract_zstring (ReadCursor.mk (client_error code message r) 4) message r)
    as (c & -> & _); [done| |by rewrite be_bytes_roundtrip].
  unfold ReadCursor.rest, client_error, ReadRequest.zstring. simpl. by rewrite drop_0, <- app_assoc.
Qed.

(** ** The first window *)

Section first.
Context {F} `{OpenedFileSpec F}.
Context (bs w : nat) (data : list byte).
Context (Hbs : 0 < bs) (Hbs16 : (Z.of_nat bs < 65536)%Z) (Hw : 0 < w) (Hw16 : (Z.of_nat w < 65536)%Z).
Context (debug : bool) (a : AckTimeout.t) (f : F) (Hread : readable f) (Hrem : remaining f = data).

Abbreviation n := (n_blocks bs data).
Abbreviation first_count := (w `min` n).
Abbreviation first_packets := (packet bs data <$> seq 1 first_count).

Lemma first_window fuel l :
  37 ≤ length (buf l) →
  ∃ t1, at_block bs w data first_count t1 ∧ link t1 = l ∧ blocks_sent t1 = 0 ∧
    (∀ peer arrs sent,
       send_blocks (window t1) (block_indices 1 (Z.of_nat first_count)) (stream_of peer arrs sent) =
       (Ok tt, stream_of peer arrs (sent ++ first_packets))) ∧
    send_loop debug a (S fuel) false
      (mkTransfer f (Window.new (Z.of_nat bs) (Z.of_nat w)) l 0 0 0 0) =
    after_send debug a fuel (bool_decide (first_count = n)) (Z.of_nat first_count) t1
      (send_attempts SEND_ATTEMPTS (window t1) a 1 (Z.of_nat first_count) l).
Proof using All.
  intros Hb.
  destruct (transfer_start bs w data Hbs Hbs16 Hw Hw16 f l) as [Hat Hmore _ _ _]; [done..|].
  destruct (send_loop_round bs w data Hbs Hbs16 Hw Hw16 debug a fuel 0 0 _ Hat)
    as (t1 & Hat1 & Hl1 & Hb1 & ->); [done|lia|done|].
  rewrite Nat.add_0_l, Nat.sub_0_r in *.
  exists t1. split; [done|]. split; [done|]. split; [done|]. split; [|done].
  pose proof (window_blocks_sent bs w data Hbs Hbs16 Hw Hw16 0 first_count t1 Hat1) as Hs.
  rewrite Nat.sub_0_r in Hs. apply Hs; [lia|right; lia].
Qed.

End first.

(** A client that never answers is sent the first window exactly five times, nothing
    else, and then the transfer fails with "Send timeout occurred". *)
Theorem silent_client_times_out {F} `{OpenedFileSpec F} (debug : bool) (bs w : nat)
    (data : list byte) (f : F) (a : AckTimeout.t) (peer : SocketAddr) (old : list (list byte))
    (buffer : list byte) :
  0 < bs → (Z.of_nat bs < 65536)%Z → 0 < w → (Z.of_nat w < 65536)%Z →
  readable f → remaining f = data → 37 ≤ length buffer →
  ∃ t, send_file debug f (Window.new (Z.of_nat bs) (Z.of_nat w)) a
         (mkLink (stream_of peer [] old) buffer) =
         (Err (UndefinedError (str "Send timeout occurred")), t) ∧
       stream (link t) = stream_of peer []
         (old ++ concat (replicate 5 (packet bs data <$> seq 1 (w `min` n_blocks bs data)))).
Proof.
  intros. unfold send_file.
  destruct (first_window bs w data ltac:(done) ltac:(done) ltac:(done) ltac:(done) debug a f
    ltac:(done) ltac:(done) 0 (mkLink (stream_of peer [] old) buffer))
    as (t1 & Hat & Hl & Hb & Hsend & Hrun); [done|].
  change (S (length _)) with 1. rewrite Hrun.
  rewrite (send_attempts_silent peer a _ _ _ _ (Hsend peer)). by eexists.
Qed.

(** When the client answers the first window with an ERROR datagram, the transfer ends
    at once and successfully: no error is reported back, and nothing is sent after the
    window. *)
Theorem client_error_ends_transfer {F} `{OpenedFileSpec F} (debug : bool) (bs w : nat)
    (data : list byte) (f : F) (a : AckTimeout.t) (peer : SocketAddr) (old : list (list byte))
    (buffer : list byte) (pre arrs : list arrival) (code : Z) (message tail : list byte) :
  0 < bs → (Z.of_nat bs < 65536)%Z → 0 < w → (Z.of_nat w < 65536)%Z →
  readable f → remaining f = data → 37 ≤ length buffer →
  Forall (noise peer 4) pre → is_u16 code → nul_free message → utf8_valid message = true →
  4 + length message + 1 ≤ length buffer →
  let m := w `min` n_blocks bs data in
  ∃ t, send_file debug f (Window.new (Z.of_nat bs) (Z.of_nat w)) a
         (mkLink (stream_of peer (pre ++ Datagram peer (client_error code message tail) :: arrs) old) buffer) =
         (Ok ((m * bs) `min` length data, m), t) ∧
       stream (link t) = stream_of peer arrs (old ++ (packet bs data <$> seq 1 m)).
Proof.
  intros ??????? Hpre Hcode Hnul Hutf Hfit m. unfold send_file.
  set (l := mkLink _ buffer). generalize (length (arrivals_of (stream l))). intros fuel.
  destruct (first_window bs w data ltac:(done) ltac:(done) ltac:(done) ltac:(done) debug a f
    ltac:(done) ltac:(done) fuel l)
    as (t1 & Hat & Hl & Hb & Hsend & Hrun); [done|]. rewrite Hrun.
  subst l. change SEND_ATTEMPTS with (S 4). cbn [send_attempts stream buf]. rewrite Hsend.
  unfold read_acknowledge, DatagramStream.recv. cbn [stream buf].
  destruct (recv_loop_datagram peer 4 pre (client_error code message tail) arrs buffer Hpre)
    as (b' & Hrecv & Hb' & Ht); [unfold client_error; simpl; lia|lia|].
  change (DatagramStream.recv_loop _ 4 _ buffer) with
    (DatagramStream.recv_loop peer 4 (pre ++ Datagram peer (client_error code message tail) :: arrs) buffer).
  rewrite Hrecv. unfold AckTimeout_timeout. cbv beta iota.
  rewrite (parse_client_error b' code message tail
    (length (client_error code message tail) `min` length buffer));
    [|done..|by rewrite Hb'| |by rewrite Hb'].
  - unfold after_send. rewrite (ab_bytes _ _ _ _ _ Hat), Hb, Nat2Z.id. by eexists.
  - apply Nat.min_glb; [|done]. unfold client_error. rewrite !length_app. simpl. lia.
Qed.

(** ** Acknowledgements beyond the window *)

(** A window all of whose slots exist sends one datagram per index. *)
Lemma send_blocks_count peer W indices :
  Forall (slot_sends (λ _, True) W) indices →
  ∃ pkts, length pkts = length indices ∧ ∀ arrs sent,
    send_blocks W indices (stream_of peer arrs sent) = (Ok tt, stream_of peer arrs (sent ++ pkts)).
Proof.
  intros HF. induction HF as [|i indices (s & v & Hs & Hv & _) _ (pkts & Hlen & IH)].
  - exists []. split; [done|]. intros. simpl. by rewrite app_nil_r.
  - exists (vec_bytes v :: pkts). split; [simpl; lia|]. intros arrs sent.
    cbn [send_blocks]. unfold Window.send. rewrite Hs. simpl. rewrite Hv, send_stream_of, IH.
    by rewrite <- app_assoc.
Qed.

Lemma slots_filled {F} `{OpenedFileSpec F} bs w data R (t : Transfer F) indices :
  0 < bs → (Z.of_nat bs < 65536)%Z → 0 < w → (Z.of_nat w < 65536)%Z →
  at_block bs w data R t → w ≤ R → Forall (slot_sends (λ _, True) (window t)) indices.
Proof.
  intros ???? Hat HR. apply Forall_forall. intros i _.
  destruct (ring_all_slots bs w data ltac:(done) ltac:(done) ltac:(done) ltac:(done) R (window t) i)
    as (s & v & Hs & Hv & _); [apply Hat|apply Hat|apply Hat|done|].
  by exists s, v.
Qed.

(** After a number beyond the first window the counts no longer fit it. *)
Lemma future_unacknowledged (w : nat) (k : Z) :
  is_u16 k → (Z.of_nat w < 65536)%Z → (Z.of_nat w < k)%Z → wrapping_sub (as_u16 (Z.of_nat w)) k = (65536 + Z.of_nat w - k)%Z.
Proof.
  intros. unfold is_u16 in *. unfold wrapping_sub.
  rewrite (as_u16_small (Z.of_nat w)) by (split; lia). unfold as_u16.
  rewrite <- (Z.mod_add _ 1) by lia. rewrite Z.mod_small; lia.
Qed.

Section future.
Context {F} `{OpenedFileSpec F}.
Context (bs w : nat) (data : list byte).
Context (Hbs : 0 < bs) (Hbs16 : (Z.of_nat bs < 65536)%Z) (Hw : 0 < w) (Hw16 : (Z.of_nat w < 65536)%Z).
Context (debug : bool) (a : AckTimeout.t) (f : F) (Hread : readable f) (Hrem : remaining f = data).
Context (peer : SocketAddr) (k : Z) (arrs : list arrival) (old : list (list byte)) (b : list byte).
Context (Hk : is_u16 k) (Hb : 37 ≤ length b).

Abbreviation n := (n_blocks bs data).
Abbreviation first_packets := (packet bs data <$> seq 1 (w `min` n)).

(** The first window answered with any number from 1 on. *)
Lemma first_window_answered fuel :
  (1 ≤ k)%Z →
  ∃ t1 b', at_block bs w data (w `min` n) t1 ∧ blocks_sent t1 = 0 ∧ last_acknowledged_index t1 = k ∧
    length b' = length b ∧
    link t1 = mkLink (stream_of peer arrs (old ++ first_packets)) b' ∧
    send_loop debug a (S fuel) false
      (mkTransfer f (Window.new (Z.of_nat bs) (Z.of_nat w))
         (mkLink (stream_of peer (Datagram peer (ack_payload k []) :: arrs) old) b) 0 0 0 0) =
    send_loop debug a fuel (bool_decide (w `min` n = n)) t1.
Proof using All.
  intros Hk1. set (l := mkLink _ _).
  destruct (first_window bs w data Hbs Hbs16 Hw Hw16 debug a f Hread Hrem fuel l)
    as (t1 & Hat & Hl & Hb1 & Hsend & ->); [done|].
  destruct (send_attempts_round peer a (window t1) 1 (Z.of_nat (w `min` n)) first_packets
    (mkRound [] [] []) k arrs old b SEND_ATTEMPTS) as (b' & Hrun & Hb');
    [done|vm_compute; lia|done..|lia|].
  rewrite round_arrivals_nil, app_nil_l in Hrun. unfold l. rewrite Hrun.
  rewrite replicate_S. simpl concat. rewrite app_nil_r.
  eexists (acknowledged t1 _ k), b'. split; [by destruct Hat; split|]. by split_and!.
Qed.

End future.

(** ** Windows that are acknowledged *)

(** [acked_to A arrs sent A']: with the arrivals [arrs] the client takes the transfer from
    [A] acknowledged blocks to [A'], a block of each window at least, and before its last
    window; [sent] is what is sent meanwhile. *)
Inductive acked_to (peer : SocketAddr) (bs w : nat) (data : list byte)
  : nat → list arrival → list (list byte) → nat → Prop :=
| acked_none A : acked_to peer bs w data A [] [] A
| acked_round A r k arrs sent A' :
    A + w < n_blocks bs data → w = 1 ∨ (Z.of_nat (A + w) < 65536)%Z → A < k ≤ A + w → round_ok peer r →
    acked_to peer bs w data k arrs sent A' →
    acked_to peer bs w data A (round_arrivals peer r (as_u16 (Z.of_nat k)) ++ arrs)
      (round_sends bs w data A r ++ sent) A'.

Section acked.
Context {F} `{OpenedFileSpec F}.
Context (bs w : nat) (data : list byte).
Context (Hbs : 0 < bs) (Hbs16 : (Z.of_nat bs < 65536)%Z) (Hw : 0 < w) (Hw16 : (Z.of_nat w < 65536)%Z).
Context (debug : bool) (a : AckTimeout.t) (peer : SocketAddr).

Abbreviation n := (n_blocks bs data).

(** The state at the head of a round, with [A] blocks acknowledged and [R] read. *)
Record in_round (A R : nat) (arrs : list arrival) (sent : list (list byte)) (t : Transfer F) : Prop := mkInRound {
  ir_at : at_block bs w data R t;
  ir_more : R < n;
  ir_window : A ≤ R ≤ A + w;
  ir_ack : last_acknowledged_index t = as_u16 (Z.of_nat A);
  ir_blocks : blocks_sent t = 0;
  ir_link : ∃ b, link t = mkLink (stream_of peer arrs sent) b ∧ 37 ≤ length b;
}.

Lemma in_round_start arrs old (f : F) b :
  readable f → remaining f = data → 37 ≤ length b →
  in_round 0 0 arrs old
    (mkTransfer f (Window.new (Z.of_nat bs) (Z.of_nat w)) (mkLink (stream_of peer arrs old) b) 0 0 0 0).
Proof using All.
  intros Hread Hrem Hb. assert (0 < n) by (unfold n_blocks; lia).
  split; simpl; [by apply at_block_start|done|lia|done|done|by exists b].
Qed.

Lemma acked_runs A arrs sent A' : acked_to peer bs w data A arrs sent A' →
  ∀ R rest old t fuel, in_round A R (arrs ++ rest) old t → length (arrs ++ rest) < fuel →
  ∃ t' fuel' R', send_loop debug a fuel false t = send_loop debug a fuel' false t' ∧
    in_round A' R' rest (old ++ sent) t' ∧ length rest < fuel'.
Proof using All.
  induction 1 as [A|A r k arrs sent A' Hn Hroll Hk Hok _ IH]; intros R rest old t fuel Hin Hfuel.
  { exists t, fuel, R. by rewrite app_nil_r. }
  destruct Hin as [Hat HR HA Hack Hbl (b & Hlink & Hb)]. rewrite <- app_assoc in Hlink.
  destruct fuel as [|fuel]; [lia|].
  destruct (round_runs bs w data Hbs Hbs16 Hw Hw16 peer debug a A R r k (arrs ++ rest) old b t fuel)
    as (t1 & b1 & -> & Hat1 & Hack1 & Hbl1 & Hlink1 & Hb1); [done..|rewrite Nat.min_l by lia; done|lia|].
  rewrite (bool_decide_eq_false_2 (_ = _)) by lia. rewrite Nat.min_l in Hat1 by lia.
  rewrite app_assoc. apply (IH (A + w)).
  - split; [done|lia|lia|done|done|by exists b1].
  - unfold round_arrivals in Hfuel. rewrite !length_app in *. simpl in Hfuel. lia.
Qed.

(** The last window, acknowledged up to any of its blocks. *)
Lemma last_round_ends A R r k rest old t fuel :
  in_round A R (round_arrivals peer r (as_u16 (Z.of_nat k)) ++ rest) old t → round_ok peer r →
  n ≤ A + w → A < k ≤ n → w = 1 ∨ (Z.of_nat n < 65536)%Z →
  ∃ t', send_loop debug a (S fuel) false t = (Ok (length data, 0), t') ∧
    stream (link t') = stream_of peer rest (old ++ round_sends bs w data A r).
Proof using All.
  intros [Hat HR HA Hack Hbl (b & Hlink & Hb)] Hok Hn Hk Hroll.
  destruct (round_runs bs w data Hbs Hbs16 Hw Hw16 peer debug a A R r k rest old b t fuel)
    as (t1 & b1 & -> & Hat1 & Hack1 & Hbl1 & Hlink1 & Hb1); [done..|rewrite Nat.min_r by lia; done|lia|].
  rewrite Nat.min_r in * by lia. rewrite bool_decide_eq_true_2 by done.
  exists t1. rewrite Hlink1. split; [|done]. pose proof (n_blocks_bound bs data Hbs).
  destruct fuel; simpl; rewrite Hbl1, (ab_bytes _ _ _ _ _ Hat1), Nat.min_r by lia; done.
Qed.

End acked.

(** C38: in a transfer of any length, an acknowledgement of any block of the last window, not
    only of its last block, ends the transfer with [Ok].  However the windows before were
    acknowledged, nothing is sent after it: the last window has gone out once, and once
    more for every expiry of the timer before the acknowledgement, and the blocks after the
    acknowledged one are not sent again, although the client has not reported them.  What
    the client sends next is not read. *)
Theorem last_window_not_resent {F} `{OpenedFileSpec F} (debug : bool) (bs w : nat)
    (data : list byte) (f : F) (a : AckTimeout.t) (peer : SocketAddr) (A k : nat) (r : Round)
    (arrs rest : list arrival) (old sent : list (list byte)) (b : list byte) :
  0 < bs → (Z.of_nat bs < 65536)%Z → 0 < w → (Z.of_nat w < 65536)%Z →
  readable f → remaining f = data → 37 ≤ length b →
  acked_to peer bs w data 0 arrs sent A → n_blocks bs data ≤ A + w →
  round_ok peer r → A < k ≤ n_blocks bs data → w = 1 ∨ (Z.of_nat (n_blocks bs data) < 65536)%Z →
  ∃ t, send_file debug f (Window.new (Z.of_nat bs) (Z.of_nat w)) a
         (mkLink (stream_of peer (arrs ++ round_arrivals peer r (as_u16 (Z.of_nat k)) ++ rest) old) b) =
         (Ok (length data, 0), t) ∧
       stream (link t) = stream_of peer rest
         (old ++ sent ++ concat (replicate (S (length (waits r)))
            (packet bs data <$> seq (S A) (n_blocks bs data - A)))).
Proof.
  intros Hbs Hbs16 Hw Hw16 Hread Hrem Hb Hacked Hlast Hok Hk Hroll. unfold send_file. set (all := arrs ++ _).
  change (arrivals_of _) with all.
  destruct (acked_runs bs w data Hbs Hbs16 Hw Hw16 debug a peer 0 arrs sent A Hacked 0
    (round_arrivals peer r (as_u16 (Z.of_nat k)) ++ rest) old
    (mkTransfer f (Window.new (Z.of_nat bs) (Z.of_nat w)) (mkLink (stream_of peer all old) b) 0 0 0 0)
    (S (length all))) as (t1 & [|fuel] & R & -> & Hin & Hfuel); [by apply in_round_start|unfold all; lia|lia|].
  destruct (last_round_ends bs w data Hbs Hbs16 Hw Hw16 debug a peer A R r k rest (old ++ sent) t1 fuel)
    as (t2 & Hrun & Hs); [done..|].
  exists t2. split; [exact Hrun|]. rewrite Hs. unfold round_sends.
  by rewrite Nat.min_r, <- app_assoc by lia.
Qed.

(** A client that answers the first window with a number beyond it brings down the task
    of its session in a debug build: the assertion that no more blocks are outstanding than
    the window holds fails. *)
Theorem future_ack_panics {F} `{OpenedFileSpec F} (bs w : nat)
    (data : list byte) (f : F) (a : AckTimeout.t) (peer : SocketAddr) (k : Z)
    (arrs : list arrival) (old : list (list byte)) (b : list byte) :
  0 < bs → (Z.of_nat bs < 65536)%Z → 0 < w → (Z.of_nat w < 65536)%Z →
  readable f → remaining f = data → 37 ≤ length b →
  w < n_blocks bs data → (Z.of_nat w < k < 65536)%Z →
  ∃ t, send_file true f (Window.new (Z.of_nat bs) (Z.of_nat w)) a
         (mkLink (stream_of peer (Datagram peer (ack_payload k []) :: arrs) old) b) =
       (Stop Panicked, t).
Proof.
  intros. unfold send_file. change (length (arrivals_of _)) with (S (length arrs)).
  destruct (first_window_answered bs w data ltac:(done) ltac:(done) ltac:(done) ltac:(done) true a f
    ltac:(done) ltac:(done) peer k arrs old b ltac:(split; lia) ltac:(done) (S (length arrs)))
    as (t1 & b' & Hat & _ & Hack & _ & _ & ->); [lia|].
  rewrite Nat.min_l in * by lia. rewrite bool_decide_eq_false_2 by lia.
  cbn [send_loop]. rewrite (ab_index _ _ _ _ _ Hat), Hack.
  rewrite future_unacknowledged by (lia || split; lia).
  rewrite (win_size bs w) by (done || apply Hat). settle_all. by eexists.
Qed.

(** C37: in a release build the same number makes the server send: the count of outstanding
    blocks wraps, and the blocks from [k+1] up to the window's end modulo 2^16 go out, five
    times if the client stays silent, before the transfer fails.  One datagram of four bytes
    that acknowledges block [w+1] is answered with 327675 datagrams. *)
Theorem future_ack_floods {F} `{OpenedFileSpec F} (bs w : nat)
    (data : list byte) (f : F) (a : AckTimeout.t) (peer : SocketAddr) (k : Z)
    (old : list (list byte)) (b : list byte) :
  0 < bs → (Z.of_nat bs < 65536)%Z → 0 < w → (Z.of_nat w < 65536)%Z →
  readable f → remaining f = data → 37 ≤ length b →
  w < n_blocks bs data → (Z.of_nat w < k < 65536)%Z →
  ∃ t new, send_file false f (Window.new (Z.of_nat bs) (Z.of_nat w)) a
         (mkLink (stream_of peer [Datagram peer (ack_payload k [])] old) b) =
         (Err (UndefinedError (str "Send timeout occurred")), t) ∧
       stream (link t) = stream_of peer [] (old ++ new) ∧
       length new = w + 5 * Z.to_nat (65536 + Z.of_nat w - k).
Proof.
  intros. unfold send_file. change (length (arrivals_of _)) with 1.
  destruct (first_window_answered bs w data ltac:(done) ltac:(done) ltac:(done) ltac:(done) false a f
    ltac:(done) ltac:(done) peer k [] old b ltac:(split; lia) ltac:(done) 1)
    as (t1 & b' & Hat & _ & Hack & Hb' & Hl & ->); [lia|].
  rewrite Nat.min_l in * by lia. rewrite bool_decide_eq_false_2 by lia.
  cbn [send_loop]. rewrite (ab_index _ _ _ _ _ Hat), Hack.
  rewrite future_unacknowledged by (lia || split; lia). simpl andb. cbv iota.
  set (m := (65536 + Z.of_nat w - k)%Z).
  destruct (fill_window_spec bs w data ltac:(done) ltac:(done) ltac:(done) ltac:(done)
    (Z.to_nat (Window.size (window t1))) m w t1) as (t2 & -> & Hat2 & Hl2 & _ & Ha2);
    [done|lia|unfold m; lia|rewrite (win_size bs w) by (done || apply Hat); lia|].
  replace (Z.to_nat (Z.of_nat w - m) `min` (n_blocks bs data - w)) with 0 in * by (unfold m; lia).
  rewrite Nat.add_0_r, Z.add_0_r in *. rewrite Ha2, Hack, Hl2, Hl. unfold send_reliably.
  destruct (send_blocks_count peer (window t2) (block_indices (wrapping_add k 1) m))
    as (pkts & Hlen & Hsend); [by apply (slots_filled bs w data w)|].
  rewrite (send_attempts_silent peer a _ _ _ pkts Hsend).
  eexists _, _. split; [done|]. split; [simpl; by rewrite <- app_assoc|].
  unfold block_indices in Hlen. rewrite length_fmap, length_seqZ in Hlen.
  change SEND_ATTEMPTS with 5. simpl. rewrite !length_app, length_fmap, length_seq. simpl. lia.
Qed.

(** ** Block numbers that wrap *)

(** The client that answers every full window at once: acknowledgements of the windows
    [q+1 .. q+m]. *)
Definition full_acks (peer : SocketAddr) (w q m : nat) : list arrival :=
  (λ i, Datagram peer (ack_payload (as_u16 (Z.of_nat (i * w))) [])) <$> seq (S q) m.

Lemma full_acks_acked bs w data peer m q :
  0 < w → (q + m) * w < n_blocks bs data → (Z.of_nat ((q + m) * w) < 65536)%Z →
  acked_to peer bs w data (q * w) (full_acks peer w q m) (packet bs data <$> seq (S (q * w)) (m * w)) ((q + m) * w).
Proof.
  intros Hw. revert q. induction m as [|m IH]; intros q Hn Hu.
  { rewrite Nat.add_0_r. constructor. }
  assert ((q + 1) * w ≤ (q + S m) * w) by (apply Nat.mul_le_mono_r; lia).
  pose proof (acked_round peer bs w data (q * w) (mkRound [] [] []) (S q * w) (full_acks peer w (S q) m)
    (packet bs data <$> seq (S (S q * w)) (m * w)) ((q + S m) * w)) as Hr.
  rewrite round_arrivals_nil in Hr. unfold round_sends in Hr. simpl concat in Hr.
  rewrite app_nil_r, Nat.min_l, <- fmap_app in Hr by lia.
  replace (seq (S (q * w)) (S m * w)) with (seq (S (q * w)) (q * w + w - q * w) ++ seq (S (S q * w)) (m * w)).
  - apply Hr; [lia|right; lia|lia|split; [vm_compute; lia|by split]|].
    replace (q + S m) with (S q + m) in * by lia. by apply (IH (S q)).
  - replace (S (S q * w)) with (S (q * w) + (q * w + w - q * w)) by lia. rewrite <- seq_app. f_equal. lia.
Qed.

Section rollover.
Context {F} `{OpenedFileSpec F}.
Context (bs w : nat) (data : list byte).
Context (Hbs : 0 < bs) (Hbs16 : (Z.of_nat bs < 65536)%Z) (Hw : 0 < w) (Hw16 : (Z.of_nat w < 65536)%Z).
Context (debug : bool) (a : AckTimeout.t) (peer : SocketAddr).

(** The window that wraps is answered with the number of its last block. *)
Lemma wrapping_window_refused A R (t : Transfer F) fuel arrs old :
  let k := (A + w) `min` n_blocks bs data in
  in_round bs w data peer A R (Datagram peer (ack_payload (as_u16 (Z.of_nat k)) []) :: arrs) old t →
  (Z.of_nat A < 65535)%Z → (65536 ≤ Z.of_nat (A + w))%Z → (65536 ≤ Z.of_nat (n_blocks bs data))%Z →
  ∃ t' pkts x, send_loop debug a (S fuel) false t = (Err (UndefinedError (str "Unknown error occurred")), t') ∧
    length pkts = k - A ∧
    stream (link t') = stream_of peer arrs
      (old ++ pkts ++ [TFTPErr.wire (UndefinedError (str "Received ACK from the past")) x]).
Proof using All.
  intros k [Hat Hn HA Hack Hbl (b & Hlink & Hb)] HA16 Hw' Hn'.
  destruct (send_loop_round bs w data Hbs Hbs16 Hw Hw16 debug a fuel A R t)
    as (t1 & Hat1 & Hl1 & Hb1 & ->); [done..|].
  destruct (send_blocks_count peer (window t1) (block_indices (as_u16 (Z.of_nat (S A)))
    (Z.of_nat ((A + w) `min` n_blocks bs data - A)))) as (pkts & Hlen & Hsend).
  { eapply (slots_filled bs w data); [done..|lia]. }
  assert (as_u16 (Z.of_nat k) < as_u16 (Z.of_nat (S A)))%Z as Hk.
  { rewrite (as_u16_small (Z.of_nat (S A))) by (split; lia). unfold as_u16.
    rewrite <- (Z.mod_add _ (-1)) by lia. rewrite Z.mod_small; lia. }
  rewrite Hlink in *.
  destruct (send_attempts_past peer a (window t1) _ _ pkts Hsend 4 [] (as_u16 (Z.of_nat k)) [] arrs old b)
    as (report & b' & Hrun & x & ->); [done|apply as_u16_range|done|done|].
  rewrite app_nil_l in Hrun. change SEND_ATTEMPTS with 5. rewrite Hrun.
  eexists _, pkts, x. split; [done|]. split; [|simpl; by rewrite <- app_assoc].
  rewrite Hlen. unfold block_indices. rewrite length_fmap, length_seqZ. lia.
Qed.

End rollover.

(** C36: block numbers may not wrap within a window.  For a file of 65536 blocks or more
    and a window that does not divide 65535, the client that answers every window with the
    number of its last block is served up to the window in which the numbers wrap: the
    [q * w] blocks before it have been sent, once each, and acknowledged.  [k - q * w] more
    datagrams go out, and the answer to them, the number [k] modulo 2^16, which is smaller than
    the first of the window, is refused: the client is told "Received ACK from the past" and the
    transfer fails with "Unknown error occurred". *)
Theorem rollover_refused {F} `{OpenedFileSpec F} (debug : bool) (bs w : nat)
    (data : list byte) (f : F) (a : AckTimeout.t) (peer : SocketAddr) (old : list (list byte))
    (b : list byte) :
  0 < bs → (Z.of_nat bs < 65536)%Z → 0 < w → (Z.of_nat w < 65536)%Z →
  readable f → remaining f = data → 37 ≤ length b →
  (65536 ≤ Z.of_nat (n_blocks bs data))%Z → (65535 mod Z.of_nat w ≠ 0)%Z →
  let q := Z.to_nat (65535 / Z.of_nat w) in
  let k := (q * w + w) `min` n_blocks bs data in
  (Z.of_nat (q * w) < 65535 < Z.of_nat k)%Z ∧
  ∃ t window x, send_file debug f (Window.new (Z.of_nat bs) (Z.of_nat w)) a
         (mkLink (stream_of peer (full_acks peer w 0 q ++
            [Datagram peer (ack_payload (as_u16 (Z.of_nat k)) [])]) old) b) =
       (Err (UndefinedError (str "Unknown error occurred")), t) ∧
       length window = k - q * w ∧
       stream (link t) = stream_of peer []
         (old ++ (packet bs data <$> seq 1 (q * w)) ++ window ++
          [TFTPErr.wire (UndefinedError (str "Received ACK from the past")) x]).
Proof.
  intros Hbs Hbs16 Hw Hw16 Hread Hrem Hb Hn Hdiv q k.
  assert (Z.of_nat (q * w) < 65535 ∧ 65535 < Z.of_nat (q * w) + Z.of_nat w)%Z as [Hq1 Hq2].
  { pose proof (Z.div_mod 65535 (Z.of_nat w)). pose proof (Z.mod_pos_bound 65535 (Z.of_nat w)).
    pose proof (Z.div_pos 65535 (Z.of_nat w)). unfold q. lia. }
  split; [lia|]. unfold send_file. set (arrs := _ ++ _). change (arrivals_of _) with arrs.
  pose proof (full_acks_acked bs w data peer q 0 Hw) as Hacked. rewrite Nat.add_0_l, Nat.mul_0_l in Hacked.
  destruct (acked_runs bs w data Hbs Hbs16 Hw Hw16 debug a peer _ _ _ _ (Hacked ltac:(lia) ltac:(lia)) 0
    [Datagram peer (ack_payload (as_u16 (Z.of_nat k)) [])] old
    (mkTransfer f (Window.new (Z.of_nat bs) (Z.of_nat w)) (mkLink (stream_of peer arrs old) b) 0 0 0 0)
    (S (length arrs))) as (t1 & [|fuel] & R & -> & Hin & Hfuel); [by apply in_round_start|unfold arrs; lia|simpl in Hfuel; lia|].
  destruct (wrapping_window_refused bs w data Hbs Hbs16 Hw Hw16 debug a peer (q * w) R t1 fuel []
    (old ++ (packet bs data <$> seq 1 (q * w)))) as (t' & window & x & Hrun & Hlen & Hs); [done|lia..|].
  exists t', window, x. rewrite Hrun, Hs. by rewrite <- app_assoc.
Qed.

(** ** The hypotheses can hold *)

Lemma silent_client_times_out_witness :
  ∃ t, send_file true sample_file (Window.new 8 2) AckTimeout.default
         (mkLink (stream_of sample_peer [] []) (replicate 64 zero)) =
         (Err (UndefinedError (str "Send timeout occurred")), t) ∧
       stream (link t) = stream_of sample_peer []
         ([] ++ concat (replicate 5 (packet 8 sample_bytes <$> seq 1 2))).
Proof.
  apply (silent_client_times_out true 8 2 sample_bytes sample_file);
    [lia|done|lia|done|vm_compute; lia|done|vm_compute; lia].
Defined.

Lemma client_error_ends_transfer_witness :
  ∃ t, send_file true sample_file (Window.new 8 2) AckTimeout.default
         (mkLink (stream_of sample_peer ([sample_alien] ++
            [Datagram sample_peer (client_error 3 (str "Disk full") [])]) []) (replicate 64 zero)) =
         (Ok (16, 2), t) ∧
       stream (link t) = stream_of sample_peer [] ([] ++ (packet 8 sample_bytes <$> seq 1 2)).
Proof.
  apply (client_error_ends_transfer true 8 2 sample_bytes sample_file);
    [lia|done|lia|done|vm_compute; lia|done|vm_compute; lia| |done| |done|vm_compute; lia].
  - repeat constructor; done.
  - by apply (bool_decide_unpack _).
Defined.

(** Three blocks, two to a window: the client acknowledges the first window's first block,
    and then, after an expiry of the timer, the second block of three. *)
Lemma last_window_not_resent_witness :
  let r := mkRound [[]] [sample_alien] [] in
  ∃ t, send_file true sample_file (Window.new 8 2) AckTimeout.default
         (mkLink (stream_of sample_peer
            ((round_arrivals sample_peer (mkRound [] [] []) 1 ++ []) ++ round_arrivals sample_peer r 2 ++ [TimerElapsed]) [])
            (replicate 64 zero)) = (Ok (20, 0), t) ∧
       stream (link t) = stream_of sample_peer [TimerElapsed]
         ([] ++ (round_sends 8 2 sample_bytes 0 (mkRound [] [] []) ++ []) ++
          concat (replicate 2 (packet 8 sample_bytes <$> seq 2 2))).
Proof.
  apply (last_window_not_resent true 8 2 sample_bytes sample_file AckTimeout.default sample_peer 1 2
    (mkRound [[]] [sample_alien] []));
    [lia|done|lia|done|vm_compute; lia|done|vm_compute; lia| |vm_compute; lia| |vm_compute; lia|by right].
  - apply (acked_round sample_peer 8 2 sample_bytes 0 (mkRound [] [] []) 1 [] [] 1);
      [vm_compute; lia|by right|lia|split; [vm_compute; lia|by split]|constructor].
  - split; [vm_compute; lia|]. split; repeat constructor; by left.
Defined.

Lemma future_ack_panics_witness :
  ∃ t, send_file true sample_file (Window.new 8 2) AckTimeout.default
         (mkLink (stream_of sample_peer [Datagram sample_peer (ack_payload 3 [])] [])
            (replicate 64 zero)) = (Stop Panicked, t).
Proof.
  apply (future_ack_panics 8 2 sample_bytes sample_file);
    [lia|done|lia|done|vm_compute; lia|done|vm_compute; lia|vm_compute; lia|lia].
Defined.

Lemma future_ack_floods_witness :
  ∃ t new, send_file false sample_file (Window.new 8 2) AckTimeout.default
         (mkLink (stream_of sample_peer [Datagram sample_peer (ack_payload 3 [])] [])
            (replicate 64 zero)) = (Err (UndefinedError (str "Send timeout occurred")), t) ∧
       stream (link t) = stream_of sample_peer [] ([] ++ new) ∧
       length new = 2 + 5 * Z.to_nat (65536 + 2 - 3).
Proof.
  apply (future_ack_floods 8 2 sample_bytes sample_file);
    [lia|done|lia|done|vm_compute; lia|done|vm_compute; lia|vm_compute; lia|lia].
Defined.

(** A file of 65536 bytes in blocks of one byte, two to a window. *)
Definition long_bytes : list byte := replicate (Z.to_nat 65536) zero.

Lemma rollover_refused_witness :
  let q := Z.to_nat (65535 / Z.of_nat 2) in
  let k := (q * 2 + 2) `min` n_blocks 1 long_bytes in
  (Z.of_nat (q * 2) < 65535 < Z.of_nat k)%Z ∧
  ∃ t window x, send_file true (VirtualOpenedFile.new long_bytes) (Window.new (Z.of_nat 1) (Z.of_nat 2))
         AckTimeout.default
         (mkLink (stream_of sample_peer (full_acks sample_peer 2 0 q ++
            [Datagram sample_peer (ack_payload (as_u16 (Z.of_nat k)) [])]) []) (replicate 64 zero)) =
       (Err (UndefinedError (str "Unknown error occurred")), t) ∧
       length window = k - q * 2 ∧
       stream (link t) = stream_of sample_peer []
         ([] ++ (packet 1 long_bytes <$> seq 1 (q * 2)) ++ window ++
          [TFTPErr.wire (UndefinedError (str "Received ACK from the past")) x]).
Proof.
  refine (rollover_refused true 1 2 long_bytes (VirtualOpenedFile.new long_bytes) _ _ _ _
    _ _ _ _ (Nat.le_0_l _) (drop_0 _) _ _ _); [lia|done|lia|done|vm_compute; lia| |done].
  unfold n_blocks, long_bytes. rewrite length_replicate, Nat.div_1_r. lia.
Defined.
