(* ===== verification/Negotiation.v ===== *)
(** * Negotiation: the options of a request, from the OACK to the first block

    What [negotiate_options] makes of a request, how [send_oack_reliably] gets it
    acknowledged, and the session as a whole: negotiation, then the transfer. *)

From S2P Require Import Prelude Text Cursor Errors Fs Options Messages Net Window Session Transfer Delivery.

(** ** What is granted *)

Definition granted_timeout (o : options_map) : AckTimeout.t :=
  default AckTimeout.default (AckTimeout.find_in o).
Definition granted_block_size (o : options_map) : nat :=
  Z.to_nat (Blksize.block_size (default Blksize.default (Blksize.find_in o))).
Definition granted_window_size (o : options_map) : nat :=
  Z.to_nat (WindowSize.blocks_count (default WindowSize.default (WindowSize.find_in o))).

(** The acknowledgement of RFC 2347 for a file of [size] bytes. *)
Definition offered (size : Z) (o : options_map) : list (rstring * rstring) :=
  from_option (λ v, [AckTimeout.as_key_pair v]) [] (AckTimeout.find_in o)
  ++ from_option (λ v, [Blksize.as_key_pair v]) [] (Blksize.find_in o)
  ++ (if TSize.is_requested o then [TSize.as_key_pair (TSize.mk size)] else [])
  ++ from_option (λ v, [WindowSize.as_key_pair v]) [] (WindowSize.find_in o).

Lemma granted_block_size_bounds o :
  0 < granted_block_size o ∧ (Z.of_nat (granted_block_size o) < 65536)%Z ∧
  as_u16 (Blksize.get_size (default Blksize.default (Blksize.find_in o))) =
  Z.of_nat (granted_block_size o).
Proof.
  unfold granted_block_size. rewrite Blksize_find_capped.
  assert (8 ≤ default 512 (find_capped BLKSIZE BLOCK_SIZE_BOTTOM_CAP BLOCK_SIZE_UPPER_CAP o) ≤ 65535)%Z
    as Hb.
  { destruct (find_capped _ _ _ o) eqn:E; simpl; [|lia]. by apply find_capped_bounds in E. }
  destruct (find_capped _ _ _ o) as [z|]; simpl in *; [|by split_and!; [lia|..]].
  split; [lia|]. split; [lia|]. rewrite Z2Nat.id by lia. apply as_u16_small. split; lia.
Qed.

Lemma granted_window_size_bounds o :
  0 < granted_window_size o ∧ (Z.of_nat (granted_window_size o) < 65536)%Z ∧
  as_u16 (WindowSize.get_size (default WindowSize.default (WindowSize.find_in o))) =
  Z.of_nat (granted_window_size o).
Proof.
  unfold granted_window_size. rewrite WindowSize_find_capped.
  assert (1 ≤ default 1 (find_capped WINDOW_SIZE WINDOW_SIZE_BOTTOM_CAP WINDOW_SIZE_UPPER_CAP o) ≤ 65535)%Z
    as Hb.
  { destruct (find_capped _ _ _ o) eqn:E; simpl; [|lia]. by apply find_capped_bounds in E. }
  destruct (find_capped _ _ _ o) as [z|]; simpl in *; [|by split_and!; [lia|..]].
  split; [lia|]. split; [lia|]. rewrite Z2Nat.id by lia. apply as_u16_small. split; lia.
Qed.

(** The datagram has at most 119 bytes: four names, and four values of at most 20 digits. *)
Lemma length_offered size o :
  length (OptionsAcknowledge.wire (OptionsAcknowledge.mk (offered size o))) ≤ 119.
Proof.
  unfold OptionsAcknowledge.wire, offered, ReadRequest.options_wire.
  cbn [OptionsAcknowledge.options]. rewrite !bind_app, !length_app.
  assert (∀ k n, length (([(k, to_string n)] : list (rstring * rstring)) ≫=
    λ '(k, v), ReadRequest.zstring k ++ ReadRequest.zstring v) ≤ length k + 22) as Hp.
  { intros k n. simpl. unfold ReadRequest.zstring. rewrite !length_app. simpl.
    pose proof (length_to_string n). lia. }
  assert (∀ {V} (mk : V → rstring * rstring) (k : rstring) (num : V → Z) (v : option V),
    (∀ x, mk x = (k, to_string (num x))) →
    length (from_option (λ x, [mk x]) [] v ≫= λ '(k, v), ReadRequest.zstring k ++ ReadRequest.zstring v)
    ≤ length k + 22) as Ho.
  { intros V mk k num [x|] Hmk; [cbn [from_option]; rewrite Hmk; apply Hp|simpl; lia]. }
  pose proof (Ho _ AckTimeout.as_key_pair TIMEOUT AckTimeout.timeout (AckTimeout.find_in o) (λ x, eq_refl)) as H1.
  pose proof (Ho _ Blksize.as_key_pair BLKSIZE Blksize.block_size (Blksize.find_in o) (λ x, eq_refl)) as H2.
  pose proof (Ho _ WindowSize.as_key_pair WINDOW_SIZE WindowSize.blocks_count (WindowSize.find_in o) (λ x, eq_refl)) as H3.
  pose proof (Ho _ TSize.as_key_pair TSIZE TSize.file_size (if TSize.is_requested o then Some (TSize.mk size) else None)
    (λ x, eq_refl)) as H4.
  change (length TIMEOUT) with 7 in H1. change (length BLKSIZE) with 7 in H2.
  change (length WINDOW_SIZE) with 10 in H3. change (length TSIZE) with 5 in H4.
  change (length [as_u8 0; as_u8 OACK]) with 2.
  destruct (TSize.is_requested o); cbn [from_option] in H4; lia.
Qed.

Section granted.
Context {F} `{OpenedFileSpec F}.

Lemma collect_options_spec (f : F) (o : options_map) :
  readable f → fresh f →
  ∃ f', collect_options f o =
          (Ok (OptionsAcknowledge.mk (offered (Z.of_nat (length (remaining f))) o), granted_timeout o,
               default Blksize.default (Blksize.find_in o),
               default WindowSize.default (WindowSize.find_in o)), f') ∧
        remaining f' = remaining f ∧ readable f'.
Proof.
  intros Hr Hf. unfold collect_options, TSize.obtain, granted_timeout, offered.
  destruct (get_size_spec f Hr Hf) as (f' & -> & Hrem & Hr' & _).
  destruct (AckTimeout.find_in o), (Blksize.find_in o), (TSize.is_requested o),
    (WindowSize.find_in o); simpl; eauto.
Qed.

End granted.

(** ** Getting the acknowledgement acknowledged *)

Section oack.
Context (peer : SocketAddr) (a : AckTimeout.t).

Lemma read_acknowledge_expired arrs sent b :
  read_acknowledge a (mkLink (stream_of peer (TimerElapsed :: arrs) sent) b) =
  (Err RecvError.Timeout, mkLink (stream_of peer arrs sent) b).
Proof. done. Qed.

Lemma oack_attempt n size datagram arrs sent b :
  range 0 size b = Some datagram →
  oack_attempts (S n) size a (mkLink (stream_of peer arrs sent) b) =
  match read_acknowledge a (mkLink (stream_of peer arrs (sent ++ [datagram])) b) with
  | (Ok ack_num, l') =>
      if (ack_num =? 0)%Z then (Ok tt, l')
      else
        match fire_error (TFTPErr.undefined (str "Unexpected non-zero ACK")) l' with
        | (Stop h, l'') => (Stop h, l'')
        | (_, l'') => (Err Other, l'')
        end
  | (Err RecvError.Timeout, l') => oack_attempts n size a l'
  | (Err _, l') => (Err Other, l')
  | (Stop h, l') => (Stop h, l')
  end.
Proof.
  intros Hr. cbn [oack_attempts buf stream]. rewrite Hr, send_stream_of.
  by destruct (read_acknowledge _ _) as [[?|[]|?] ?].
Qed.

(** Expiries of the timer with nothing in between: the same datagram again. *)
Lemma oack_attempts_expired n m size datagram arrs sent b :
  range 0 size b = Some datagram →
  oack_attempts (m + n) size a (mkLink (stream_of peer (replicate m TimerElapsed ++ arrs) sent) b) =
  oack_attempts n size a (mkLink (stream_of peer arrs (sent ++ replicate m datagram)) b).
Proof.
  intros Hr. revert sent. induction m as [|m IH]; intros sent; [by rewrite app_nil_r|].
  rewrite Nat.add_succ_l, (oack_attempt _ _ datagram) by done.
  rewrite replicate_S. cbn [app]. rewrite read_acknowledge_expired, IH. by rewrite <- app_assoc.
Qed.

Lemma oack_attempts_silent n size datagram sent b :
  range 0 size b = Some datagram →
  oack_attempts n size a (mkLink (stream_of peer [] sent) b) =
  oack_attempts 0 size a (mkLink (stream_of peer [] (sent ++ replicate n datagram)) b).
Proof.
  intros Hr. revert sent. induction n as [|n IH]; intros sent; [by rewrite app_nil_r|].
  rewrite (oack_attempt _ _ datagram) by done.
  change (read_acknowledge a _) with
    (Err (A := Z) RecvError.Timeout, mkLink (stream_of peer [] (sent ++ [datagram])) b).
  cbv beta iota. rewrite IH. by rewrite <- app_assoc.
Qed.

(** The acknowledgement as it lies in the session's zeroed buffer. *)
Lemma oack_serialized oack n :
  length (OptionsAcknowledge.wire oack) < n → OptionsAcknowledge.has_options oack = true →
  ∃ b, length b = n ∧
       range 0 (length (OptionsAcknowledge.wire oack)) b = Some (OptionsAcknowledge.wire oack) ∧
       ∀ s, send_oack_reliably oack a (mkLink s (replicate n zero)) =
            oack_attempts 5 (length (OptionsAcknowledge.wire oack)) a (mkLink s b).
Proof.
  intros Hn Hh. destruct (OptionsAcknowledge.oack_serialize_zeroed oack n) as (b & Hs & Hb & Hw);
    [done|by unfold OptionsAcknowledge.has_options in Hh; destruct (OptionsAcknowledge.options oack)|].
  exists b. split; [done|]. split; [rewrite range_prefix by lia; by rewrite Hw|].
  intros s. unfold send_oack_reliably. cbn [buf stream]. by rewrite Hs.
Qed.

(** A client that acknowledges the options after [m] expiries of the timer. *)
Lemma send_oack_acknowledged oack n m pre tail arrs sent :
  length (OptionsAcknowledge.wire oack) < n → OptionsAcknowledge.has_options oack = true →
  m < 5 → Forall (noise peer 4) pre → 4 ≤ n →
  ∃ b', length b' = n ∧
    send_oack_reliably oack a
      (mkLink (stream_of peer (replicate m TimerElapsed ++ pre
                ++ Datagram peer (ack_payload 0 tail) :: arrs) sent) (replicate n zero)) =
    (Ok tt, mkLink (stream_of peer arrs
              (sent ++ replicate (S m) (OptionsAcknowledge.wire oack))) b').
Proof.
  intros Hn Hh Hm Hpre H4. destruct (oack_serialized oack n Hn Hh) as (b & Hb & Hr & ->).
  replace 5 with (m + S (4 - m)) by lia.
  rewrite (oack_attempts_expired _ _ _ _ _ _ _ Hr), (oack_attempt _ _ _ _ _ _ Hr).
  destruct (read_acknowledge_ack peer a pre 0 tail arrs
    ((sent ++ replicate m (OptionsAcknowledge.wire oack)) ++ [OptionsAcknowledge.wire oack]) b)
    as (b' & -> & Hb'); [done|done|lia|].
  exists b'. split; [lia|]. by rewrite replicate_S_end, app_assoc.
Qed.

End oack.

(** A client that does not answer the OACK gets it five times, then the error "Send
    timeout occurred", and no block: the negotiation is over. *)
Theorem unanswered_oack (peer : SocketAddr) (a : AckTimeout.t) (oack : OptionsAcknowledge.t) (n : nat)
    (sent : list (list byte)) :
  length (OptionsAcknowledge.wire oack) < n → OptionsAcknowledge.has_options oack = true → 37 ≤ n →
  ∃ x b', send_oack_reliably oack a (mkLink (stream_of peer [] sent) (replicate n zero)) =
    (Err TimedOut, mkLink (stream_of peer [] (sent ++ replicate 5 (OptionsAcknowledge.wire oack)
       ++ [TFTPErr.wire (UndefinedError (str "Send timeout occurred")) x])) b').
Proof.
  intros Hn Hh H37. destruct (oack_serialized a oack n Hn Hh) as (b & Hb & Hr & ->).
  rewrite (oack_attempts_silent peer a _ _ _ _ _ Hr).
  destruct (fire_error_sends (TFTPErr.undefined (str "Send timeout occurred")) peer []
    (sent ++ replicate 5 (OptionsAcknowledge.wire oack)) b) as (x & b' & _ & _ & Hf);
    [change (26 < length b); lia|].
  exists x, b'. cbn [oack_attempts]. rewrite Hf. by rewrite <- app_assoc.
Qed.

(** A client that answers the OACK with a block number other than 0 is refused: one
    OACK, the error "Unexpected non-zero ACK", and no block. *)
Theorem nonzero_ack_refused (peer : SocketAddr) (a : AckTimeout.t) (oack : OptionsAcknowledge.t)
    (n : nat) (k : Z) (tail : list byte) (arrs : list arrival) (sent : list (list byte)) :
  length (OptionsAcknowledge.wire oack) < n → OptionsAcknowledge.has_options oack = true → 37 ≤ n →
  (0 < k < 65536)%Z →
  ∃ x b', send_oack_reliably oack a
      (mkLink (stream_of peer (Datagram peer (ack_payload k tail) :: arrs) sent) (replicate n zero)) =
    (Err Other, mkLink (stream_of peer arrs (sent ++ [OptionsAcknowledge.wire oack]
       ++ [TFTPErr.wire (UndefinedError (str "Unexpected non-zero ACK")) x])) b').
Proof.
  intros Hn Hh H37 Hk. destruct (oack_serialized a oack n Hn Hh) as (b & Hb & Hr & ->).
  rewrite (oack_attempt _ _ _ _ _ _ _ _ Hr).
  destruct (read_acknowledge_ack peer a [] k tail arrs (sent ++ [OptionsAcknowledge.wire oack]) b)
    as (b1 & Hack & Hb1); [done|split; lia|lia|].
  rewrite app_nil_l in Hack. rewrite Hack. settle_all.
  destruct (fire_error_sends (TFTPErr.undefined (str "Unexpected non-zero ACK")) peer arrs
    (sent ++ [OptionsAcknowledge.wire oack]) b1) as (x & b' & _ & _ & Hf);
    [change (28 < length b1); lia|].
  exists x, b'. rewrite Hf. by rewrite <- app_assoc.
Qed.

(** C21: the OACK is repeated from the buffer the answers are received into.  A datagram of
    a stranger that arrives while the server waits is ignored, but it has overwritten the
    beginning of the OACK: from then on the client is sent the stranger's bytes followed by
    what is left of the OACK. *)
Theorem stranger_corrupts_oack (peer stranger : SocketAddr) (a : AckTimeout.t)
    (oack : OptionsAcknowledge.t) (n : nat) (d : list byte) (sent : list (list byte)) :
  length (OptionsAcknowledge.wire oack) < n → OptionsAcknowledge.has_options oack = true → 37 ≤ n →
  stranger ≠ peer → length d ≤ length (OptionsAcknowledge.wire oack) →
  let corrupted := d ++ drop (length d) (OptionsAcknowledge.wire oack) in
  ∃ x b', send_oack_reliably oack a
      (mkLink (stream_of peer [Datagram stranger d; TimerElapsed] sent) (replicate n zero)) =
    (Err TimedOut, mkLink (stream_of peer [] (sent ++ [OptionsAcknowledge.wire oack]
       ++ replicate 4 corrupted
       ++ [TFTPErr.wire (UndefinedError (str "Send timeout occurred")) x])) b').
Proof.
  intros Hn Hh H37 Hs Hd corrupted. destruct (oack_serialized a oack n Hn Hh) as (b & Hb & Hr & ->).
  set (wire := OptionsAcknowledge.wire oack) in *.
  rewrite (oack_attempt _ _ _ _ _ _ _ _ Hr).
  assert (range 0 (length wire) (d ++ drop (length d) b) = Some corrupted) as Hr'.
  { rewrite range_prefix in * by (rewrite ?length_app, ?length_drop; lia).
    apply (inj Some) in Hr. unfold corrupted.
    rewrite take_app_ge, <- skipn_firstn_comm by lia. by rewrite Hr. }
  assert (read_acknowledge a (mkLink (stream_of peer [Datagram stranger d; TimerElapsed] (sent ++ [wire])) b)
    = (Err RecvError.Timeout, mkLink (stream_of peer [] (sent ++ [wire])) (d ++ drop (length d) b)))
    as ->.
  { unfold read_acknowledge, DatagramStream.recv. simpl. rewrite decide_True by done.
    rewrite Nat.min_l by lia. by rewrite take_ge by done. }
  rewrite (oack_attempts_silent peer a _ _ _ _ _ Hr').
  destruct (fire_error_sends (TFTPErr.undefined (str "Send timeout occurred")) peer []
    ((sent ++ [wire]) ++ replicate 4 corrupted) (d ++ drop (length d) b)) as (x & b' & _ & _ & Hf);
    [change (26 < length (d ++ drop (length d) b)); rewrite length_app, length_drop; lia|].
  exists x, b'. cbn [oack_attempts]. rewrite Hf. by rewrite <- !app_assoc.
Qed.

(** ** The session *)

Section session.
Context {F} `{OpenedFileSpec F}.

(** Negotiation with a client that acknowledges: the file is as it was, the window and
    the timeout are the granted ones, and the OACK went out unless nothing was granted. *)
Lemma negotiate_options_granted (f : F) (o : options_map) peer n m pre tail arrs sent :
  readable f → fresh f → 128 ≤ n → m < 5 → Forall (noise peer 4) pre →
  let oack := OptionsAcknowledge.mk (offered (Z.of_nat (length (remaining f))) o) in
  let answered := if OptionsAcknowledge.has_options oack
    then replicate m TimerElapsed ++ pre ++ Datagram peer (ack_payload 0 tail) :: arrs else arrs in
  let oacks := if OptionsAcknowledge.has_options oack
    then replicate (S m) (OptionsAcknowledge.wire oack) else [] in
  ∃ f' b', negotiate_options f o (mkLink (stream_of peer answered sent) (replicate n zero)) =
      (Ok (Some (Window.new (Z.of_nat (granted_block_size o)) (Z.of_nat (granted_window_size o)),
                 granted_timeout o)), (mkLink (stream_of peer arrs (sent ++ oacks)) b', f')) ∧
    length b' = n ∧ remaining f' = remaining f ∧ readable f'.
Proof using All.
  intros Hr Hf Hn Hm Hpre oack answered oacks. unfold negotiate_options.
  destruct (collect_options_spec f o Hr Hf) as (f' & -> & Hrem & Hr').
  destruct (granted_block_size_bounds o) as (_ & _ & ->).
  destruct (granted_window_size_bounds o) as (_ & _ & ->). fold oack.
  unfold answered, oacks. destruct (OptionsAcknowledge.has_options oack) eqn:Hh.
  - pose proof (length_offered (Z.of_nat (length (remaining f))) o) as Hlen. fold oack in Hlen.
    destruct (send_oack_acknowledged peer (granted_timeout o) oack n m pre tail arrs sent)
      as (b' & Hb & ->); [lia|done|lia|done|lia|]. eauto 10.
  - rewrite app_nil_r. do 2 eexists. split; [done|]. by rewrite length_replicate.
Qed.

(** The OACK loop under any network. *)
Lemma oack_attempts_returns n size a l :
  37 ≤ length (buf l) → size ≤ length (buf l) →
  ∃ r l', oack_attempts n size a l = (r, l') ∧ returns r ∧ evolves (λ _, True) l l'.
Proof.
  intros Hl Hs. revert l Hl Hs. induction n as [|n IH]; intros l Hl Hs; cbn [oack_attempts].
  - destruct (fire_error_evolves (TFTPErr.undefined (str "Send timeout occurred")) l)
      as (l' & -> & Hev & _); [change (26 < length (buf l)); lia|].
    eexists _, _. split; [done|]. split; [done|]. by eapply evolves_impl.
  - rewrite range_prefix by done. destruct (DatagramStream.send _ _) as [r s] eqn:Hsend.
    destruct (stream_send_evolves (λ _, True) _ _ _ _ (buf l) Hsend) as [Hr Hev]; [done..|].
    destruct r as [[]|e|h]; [|by eexists _, _|done].
    destruct (read_acknowledge a _) as [r l1] eqn:Hack.
    destruct (read_acknowledge_evolves _ _ _ _ Hack) as (Hr1 & Hev1 & _).
    assert (evolves (λ _, True) l l1) as Hev2 by (etrans; [exact Hev|apply Hev1]).
    pose proof (ev_buf _ _ _ Hev2) as Hb.
    destruct r as [k|[| | |]|h]; try done; try by eexists _, _.
    + case_match; [by eexists _, _|].
      destruct (fire_error_evolves (TFTPErr.undefined (str "Unexpected non-zero ACK")) l1)
        as (l' & -> & Hev3 & _); [change (28 < length (buf l1)); lia|].
      eexists _, _. split; [done|]. split; [done|]. etrans; [done|]. by eapply evolves_impl.
    + destruct (IH l1) as (r & l2 & -> & ? & ?); [lia..|].
      eexists _, _. split; [done|]. split; [done|]. by etrans.
Qed.

Lemma negotiate_options_returns (f : F) (o : options_map) s n :
  readable f → fresh f → 128 ≤ n →
  ∃ r l f', negotiate_options f o (mkLink s (replicate n zero)) = (r, (l, f')) ∧
    returns r ∧ length (buf l) = n ∧ remaining f' = remaining f ∧ readable f' ∧
    ∀ W a, r = Ok (Some (W, a)) →
      W = Window.new (Z.of_nat (granted_block_size o)) (Z.of_nat (granted_window_size o)).
Proof using All.
  intros Hr Hf Hn. unfold negotiate_options.
  destruct (collect_options_spec f o Hr Hf) as (f' & -> & Hrem & Hr').
  destruct (granted_block_size_bounds o) as (_ & _ & ->).
  destruct (granted_window_size_bounds o) as (_ & _ & ->). set (oack := OptionsAcknowledge.mk _).
  destruct (OptionsAcknowledge.has_options oack) eqn:Hh.
  - pose proof (length_offered (Z.of_nat (length (remaining f))) o) as Hlen. fold oack in Hlen.
    destruct (oack_serialized (granted_timeout o) oack n) as (b & Hb & _ & ->); [lia|done|].
    destruct (oack_attempts_returns 5 (length (OptionsAcknowledge.wire oack)) (granted_timeout o)
      (mkLink s b)) as (r & l & -> & Hret & Hev); [cbn [buf]; lia..|].
    pose proof (ev_buf _ _ _ Hev) as Hl. simpl in Hl. rewrite Hb in Hl.
    destruct r as [[]|e|h]; [|by eexists _, _, _|done].
    eexists _, _, _. split; [done|]. split_and!; try done. by intros W a [= <- <-].
  - eexists _, _, _. split; [done|]. split_and!; try done; [apply length_replicate|].
    by intros W a [= <- <-].
Qed.

End session.

(** A client's part in a session: how often the timer expires before the OACK is
    acknowledged, what else arrives before that, and the answers to the windows. *)
Record Script : Type := mkScript {
  expiries : nat;
  strays : list arrival;
  ack_extra : list byte;
  answers : list arrival;
}.

Definition oack_of (o : options_map) (data : list byte) : OptionsAcknowledge.t :=
  OptionsAcknowledge.mk (offered (Z.of_nat (length data)) o).

Definition script_arrivals (peer : SocketAddr) (o : options_map) (data : list byte) (c : Script)
  : list arrival :=
  if OptionsAcknowledge.has_options (oack_of o data)
  then replicate (expiries c) TimerElapsed ++ strays c
       ++ Datagram peer (ack_payload 0 (ack_extra c)) :: answers c
  else answers c.

(** The client acknowledges the OACK and every window in time; a window of one block or a
    file of fewer than 65536 blocks. *)
Definition cooperates (peer : SocketAddr) (o : options_map) (data : list byte) (c : Script) : Prop :=
  let n := n_blocks (granted_block_size o) data in
  expiries c < SEND_ATTEMPTS ∧ Forall (noise peer 4) (strays c) ∧
  (granted_window_size o = 1 ∨ (Z.of_nat n < 65536)%Z) ∧
  cooperative peer (granted_window_size o) n 0 (answers c).

(** The OACK, as often as needed, if there are options to acknowledge, and then blocks from
    which the client assembles exactly the file and sees its end. *)
Definition delivered (o : options_map) (data : list byte) (c : Script) (sent : list (list byte)) : Prop :=
  ∃ blocks,
    sent = (if OptionsAcknowledge.has_options (oack_of o data)
            then replicate (S (expiries c)) (OptionsAcknowledge.wire (oack_of o data)) else []) ++ blocks ∧
    received (client_run (granted_block_size o) blocks) = data ∧
    finished (client_run (granted_block_size o) blocks) = true.

Lemma session_runs {F} `{OpenedFileSpec F} (debug : bool) (f : F) (o : options_map)
    (peer : SocketAddr) (n : nat) (c : Script) (old : list (list byte)) :
  readable f → fresh f → 128 ≤ n → cooperates peer o (remaining f) c →
  ∃ l new, send debug f o (mkLink (stream_of peer (script_arrivals peer o (remaining f) c) old)
                             (replicate n zero)) = (Ok tt, l) ∧
    sent_by (stream l) = old ++ new ∧ delivered o (remaining f) c new.
Proof.
  intros Hr Hf Hn (Hm & Hpre & Hroll & Hco). unfold send.
  destruct (negotiate_options_granted f o peer n (expiries c) (strays c) (ack_extra c) (answers c) old
    Hr Hf Hn Hm Hpre) as (f' & b' & Hneg & Hb & Hrem & Hr').
  fold (oack_of o (remaining f)) (script_arrivals peer o (remaining f) c) in Hneg. rewrite Hneg.
  destruct (granted_block_size_bounds o) as (? & ? & _).
  destruct (granted_window_size_bounds o) as (? & ? & _).
  match goal with |- context [stream_of peer _ (old ++ ?oacks)] =>
    destruct (send_file_runs (granted_block_size o) (granted_window_size o) (remaining f)
      ltac:(done) ltac:(done) ltac:(done) ltac:(done) Hroll peer debug (granted_timeout o) (answers c)
      (old ++ oacks) f' b') as (t & -> & blocks & Hsent & Hc); [done|done|lia|done|];
    exists (link t), (oacks ++ blocks) end.
  rewrite Hsent, <- app_assoc. split; [done|]. split; [done|]. exists blocks. split; [done|].
  by apply (client_at_end (granted_block_size o) (remaining f)).
Qed.

(** C2: a session, from the request's options on, delivers the file to a cooperating
    client: the OACK, repeated when the timer expires, carries exactly the options granted
    (none is sent if none are), block size, window and timeout are the granted ones, and a
    client that takes the blocks that follow in order has the whole file and has seen its
    end. *)
Theorem session_delivers {F} `{OpenedFileSpec F} (debug : bool) (f : F) (o : options_map)
    (peer : SocketAddr) (n : nat) (c : Script) (old : list (list byte)) :
  readable f → fresh f → 128 ≤ n → cooperates peer o (remaining f) c →
  ∃ l new blocks,
    send debug f o (mkLink (stream_of peer (script_arrivals peer o (remaining f) c) old)
                      (replicate n zero)) = (Ok tt, l) ∧
    sent_by (stream l) = old ++ new ∧
    new = (if OptionsAcknowledge.has_options (oack_of o (remaining f))
           then replicate (S (expiries c)) (OptionsAcknowledge.wire (oack_of o (remaining f))) else [])
          ++ blocks ∧
    received (client_run (granted_block_size o) blocks) = remaining f ∧
    finished (client_run (granted_block_size o) blocks) = true.
Proof.
  intros Hr Hf Hn Hc.
  destruct (session_runs debug f o peer n c old Hr Hf Hn Hc) as (l & new & ? & ? & blocks & ?).
  by exists l, new, blocks.
Qed.

(** Whatever the client and the network do, the task of a session ends, and in a
    release build without a panic. *)
Theorem session_returns {F} `{OpenedFileSpec F} (debug : bool) (f : F) (o : options_map)
    (s : DatagramStream.t) (n : nat) :
  readable f → fresh f → 128 ≤ n →
  ∃ r l, send debug f o (mkLink s (replicate n zero)) = (r, l) ∧
    r ≠ Stop OutOfFuel ∧ (debug = false → r = Ok tt).
Proof.
  intros Hr Hf Hn. unfold send.
  destruct (negotiate_options_returns f o s n Hr Hf Hn) as (r & l & f' & -> & Hret & Hl & Hrem & Hr' & HW).
  destruct r as [[[W a]|]|[]|h]; [|by eexists _, _|done].
  rewrite (HW W a eq_refl).
  destruct (granted_block_size_bounds o) as (? & ? & _).
  destruct (granted_window_size_bounds o) as (? & ? & _).
  unfold send_file. destruct (send_loop_safe (granted_block_size o) (granted_window_size o) (remaining f)
    ltac:(done) ltac:(done) ltac:(done) ltac:(done) debug a (S (length (arrivals_of (stream l)))) 0
    (mkTransfer f' (Window.new (Z.of_nat (granted_block_size o)) (Z.of_nat (granted_window_size o))) l 0 0 0 0))
    as (r & t & -> & Hev & Hfuel & Hdbg & Herr); [apply transfer_start; (done || lia)|simpl; lia|].
  pose proof (ev_buf _ _ _ Hev) as Hb. simpl in Hb.
  destruct r as [x|e|h].
  - by eexists _, _.
  - destruct (fire_error_evolves e (link t)) as (l' & -> & _); [specialize (Herr e eq_refl); lia|].
    by eexists _, _.
  - eexists _, _. split; [done|]. split; [by intros [= ->]|]. by intros ?%Hdbg.
Qed.

(** ** The client's reading of the OACK *)

Lemma offered_lookup size o :
  let m := ReadRequest.options_of (offered size o) in
  m !! TIMEOUT = to_string ∘ AckTimeout.timeout <$> AckTimeout.find_in o ∧
  m !! BLKSIZE = to_string ∘ Blksize.block_size <$> Blksize.find_in o ∧
  m !! TSIZE = (if TSize.is_requested o then Some (to_string size) else None) ∧
  m !! WINDOW_SIZE = to_string ∘ WindowSize.blocks_count <$> WindowSize.find_in o ∧
  ∀ k, k ∉ [TIMEOUT; BLKSIZE; TSIZE; WINDOW_SIZE] → m !! k = None.
Proof.
  intros m. unfold m, ReadRequest.options_of, offered.
  destruct (AckTimeout.find_in o), (Blksize.find_in o), (TSize.is_requested o),
    (WindowSize.find_in o); simpl; unfold ReadRequest.insert_option; simpl;
    (split_and!; [..|intros k Hk; rewrite !not_elem_of_cons in Hk; destruct Hk as (?&?&?&?&_)]);
    repeat (rewrite lookup_insert_eq || rewrite lookup_insert_ne by done); done.
Qed.

(** What a client finds in such a list is what the request asked for. *)
Lemma offered_found size o :
  let m := ReadRequest.options_of (offered size o) in
  dom m ⊆ dom o ∧ Blksize.find_in m = Blksize.find_in o ∧ AckTimeout.find_in m = AckTimeout.find_in o ∧
  WindowSize.find_in m = WindowSize.find_in o.
Proof.
  intros m. destruct (offered_lookup size o) as (Ht & Hb & Hs & Hw & Hk). fold m in Ht, Hb, Hs, Hw, Hk.
  clearbody m.
  rewrite Blksize_find_capped in Hb. rewrite AckTimeout_find_capped in Ht. rewrite WindowSize_find_capped in Hw.
  split; [|rewrite !Blksize_find_capped, !AckTimeout_find_capped, !WindowSize_find_capped; split_and!; f_equal].
  2: by apply (find_capped_same Blksize.mk Blksize.block_size).
  2: by apply (find_capped_same AckTimeout.mk AckTimeout.timeout).
  2: by apply (find_capped_same WindowSize.mk WindowSize.blocks_count).
  intros k [v Hv]%elem_of_dom. apply elem_of_dom. destruct (o !! k) eqn:Ho; [done|]. exfalso.
  destruct (decide (k ∈ [TIMEOUT; BLKSIZE; TSIZE; WINDOW_SIZE])) as [Hin|Hin]; [|by rewrite Hk in Hv].
  rewrite !elem_of_cons in Hin. destruct Hin as [->|[->|[->|[->|?%elem_of_nil]]]]; [..|done].
  - rewrite find_capped_absent in Ht by exact Ho. by rewrite Ht in Hv.
  - rewrite find_capped_absent in Hb by exact Ho. by rewrite Hb in Hv.
  - assert (TSize.is_requested o = false) as Hr by (unfold TSize.is_requested; by destruct (o !! TSIZE)).
    rewrite Hr in Hs. by rewrite Hs in Hv.
  - rewrite find_capped_absent in Hw by exact Ho. by rewrite Hw in Hv.
Qed.

Lemma offered_wire_strings size o :
  (0 ≤ size)%Z →
  Forall (λ kv, ReadRequest.wire_string kv.1 ∧ ReadRequest.wire_string kv.2) (offered size o).
Proof.
  intros Hs. set (P := λ kv : rstring * rstring, ReadRequest.wire_string kv.1 ∧ ReadRequest.wire_string kv.2).
  assert (∀ k n, ReadRequest.wire_string k → (0 ≤ n)%Z → P (k, to_string n)) as Hpair.
  { intros k n Hk Hn. split; [done|]. split; [by apply to_string_nul_free|].
    by apply ascii_utf8, to_string_ascii. }
  assert (∀ {V} (mk : V → rstring * rstring) k (num : Z → V) lo hi, ReadRequest.wire_string k → (0 ≤ lo)%Z →
    (∀ n, mk (num n) = (k, to_string n)) →
    Forall P (from_option (λ v, [mk v]) [] (num <$> find_capped k lo hi o))) as Hfind.
  { intros V mk k num lo hi Hk Hlo Hmk. destruct (find_capped k lo hi o) as [n|] eqn:E; simpl; [|constructor].
    constructor; [|constructor]. rewrite Hmk. apply find_capped_bounds in E. apply Hpair; [done|lia]. }
  unfold offered. rewrite AckTimeout_find_capped, Blksize_find_capped, WindowSize_find_capped.
  repeat (apply Forall_app; split).
  2: by apply Hfind; [by split; [apply (bool_decide_unpack _)|]|..].
  1: by apply Hfind; [by split; [apply (bool_decide_unpack _)|]|..].
  2: by apply Hfind; [by split; [apply (bool_decide_unpack _)|]|..].
  destruct (TSize.is_requested o); [|constructor]. constructor; [|constructor].
  apply Hpair; [by split; [apply (bool_decide_unpack _)|]|done].
Qed.

Lemma offered_names size o : NoDup (offered size o).*1.
Proof.
  unfold offered. destruct (AckTimeout.find_in o), (Blksize.find_in o), (TSize.is_requested o), (WindowSize.find_in o);
    cbn [from_option app fmap list_fmap fst]; by apply (bool_decide_unpack _).
Qed.

(** The size the file tells; without one, the option is left out as if it were not asked for. *)
Definition told_size {F} `{OpenedFile F} (f : F) (o : options_map) : option Z :=
  if TSize.is_requested o then match (get_size f).1 with Ok size => Some size | _ => None end else None.

Definition if_told (size : option Z) (o : options_map) : options_map :=
  match size with Some _ => o | None => delete TSIZE o end.

Lemma if_told_found size o :
  Blksize.find_in (if_told size o) = Blksize.find_in o ∧ AckTimeout.find_in (if_told size o) = AckTimeout.find_in o ∧
  WindowSize.find_in (if_told size o) = WindowSize.find_in o ∧ dom (if_told size o) ⊆ dom o.
Proof.
  destruct size; [done|]. simpl. unfold Blksize.find_in, AckTimeout.find_in, WindowSize.find_in.
  rewrite !lookup_delete_ne by done. split_and!; [done..|]. rewrite dom_delete. set_solver.
Qed.

Lemma if_told_requested {F} `{OpenedFile F} (f : F) o :
  TSize.is_requested (if_told (told_size f o) o) = match told_size f o with Some _ => true | None => false end.
Proof.
  unfold told_size. destruct (TSize.is_requested o) eqn:Hr; [destruct (get_size f).1|]; simpl;
    unfold TSize.is_requested in *; rewrite ?lookup_delete_eq; done.
Qed.

Lemma collect_options_any {F} `{OpenedFile F} (f : F) (o : options_map) :
  (∀ h, TSize.is_requested o = true → (get_size f).1 ≠ Stop h) →
  (collect_options f o).1 =
  Ok (OptionsAcknowledge.mk (offered (default 0%Z (told_size f o)) (if_told (told_size f o) o)), granted_timeout o,
      default Blksize.default (Blksize.find_in o), default WindowSize.default (WindowSize.find_in o)).
Proof.
  intros Hstop. destruct (if_told_found (told_size f o) o) as (Hb & Ht & Hw & _).
  unfold offered. rewrite Hb, Ht, Hw. unfold collect_options, granted_timeout, TSize.obtain.
  rewrite if_told_requested.
  unfold told_size. destruct (TSize.is_requested o); [specialize (λ h, Hstop h eq_refl) as Hstop';
    destruct (get_size f) as [[size|e|h] f']; [..|by destruct (Hstop' h)]|]; simpl;
    destruct (AckTimeout.find_in o), (Blksize.find_in o), (WindowSize.find_in o); done.
Qed.

(** The datagram, read as RFC 2347 says. *)
Lemma oack_read_back size o n :
  (0 ≤ size)%Z → 128 ≤ n → OptionsAcknowledge.has_options (OptionsAcknowledge.mk (offered size o)) = true →
  ∃ len b, OptionsAcknowledge.serialize (OptionsAcknowledge.mk (offered size o)) (replicate n zero) = (Ok len, b) ∧
    ReadCursor.extract_ushort (ReadCursor.new (take len b)) = (Ok OACK, ReadCursor.mk (take len b) 2) ∧
    ReadRequest.parse_options (S len) (ReadCursor.mk (take len b) 2) ∅ = Ok (ReadRequest.options_of (offered size o)).
Proof.
  intros Hs Hn Hh. set (oack := OptionsAcknowledge.mk _) in *. pose proof (length_offered size o) as Hlen.
  destruct (OptionsAcknowledge.oack_serialize_zeroed oack n) as (b & Hser & _ & Hw);
    [fold oack in Hlen; lia|by unfold OptionsAcknowledge.has_options in Hh; destruct (OptionsAcknowledge.options oack)|].
  exists (length (OptionsAcknowledge.wire oack)), b. rewrite Hw. split; [done|].
  split; [by rewrite ReadCursor.extract_ushort_rest|].
  apply ReadRequest.parse_options_complete; [by apply offered_wire_strings|done|].
  pose proof (ReadRequest.options_wire_length (offered size o)). unfold OptionsAcknowledge.wire.
  rewrite length_app. simpl. lia.
Qed.

(** C26: the OACK answers the request.  What [collect_options] pushes, for any file, holds
    each option once and only options of the request; read back from the datagram's bytes it
    has the block size, timeout and window found in the request, which are also what
    the session uses, and the transfer size if it was asked for and the file tells one. *)
Theorem oack_answers_request {F} `{OpenedFile F} (f : F) (o : options_map) (n : nat) :
  128 ≤ n → (∀ h, TSize.is_requested o = true → (get_size f).1 ≠ Stop h) →
  (∀ size, (get_size f).1 = Ok size → 0 ≤ size ≤ usize_max)%Z →
  ∃ oack m,
    (collect_options f o).1 =
      Ok (oack, default AckTimeout.default (AckTimeout.find_in o), default Blksize.default (Blksize.find_in o),
          default WindowSize.default (WindowSize.find_in o)) ∧
    NoDup (OptionsAcknowledge.options oack).*1 ∧
    (OptionsAcknowledge.has_options oack = true →
     ∃ size b, OptionsAcknowledge.serialize oack (replicate n zero) = (Ok size, b) ∧
       ReadCursor.extract_ushort (ReadCursor.new (take size b)) = (Ok OACK, ReadCursor.mk (take size b) 2) ∧
       ReadRequest.parse_options (S size) (ReadCursor.mk (take size b) 2) ∅ = Ok m) ∧
    (OptionsAcknowledge.has_options oack = false → m = ∅) ∧
    dom m ⊆ dom o ∧ Blksize.find_in m = Blksize.find_in o ∧ AckTimeout.find_in m = AckTimeout.find_in o ∧
    WindowSize.find_in m = WindowSize.find_in o ∧
    (m !! TSIZE ≫= parse_usize) =
      (if TSize.is_requested o then match (get_size f).1 with Ok size => Some size | _ => None end else None).
Proof.
  intros Hn Hstop Hsize. fold (told_size f o). set (told := told_size f o).
  assert (∀ size, told = Some size → 0 ≤ size ≤ usize_max)%Z as Htold.
  { unfold told, told_size. intros size. destruct (TSize.is_requested o); [|done].
    destruct (get_size f).1 eqn:E; [|done..]. intros [= ->]. by apply Hsize. }
  set (opts := offered (default 0%Z told) (if_told told o)).
  exists (OptionsAcknowledge.mk opts), (ReadRequest.options_of opts).
  split; [by apply collect_options_any|]. split; [apply offered_names|].
  split; [apply oack_read_back; [destruct told; simpl; [naive_solver lia|lia]|done]|].
  split; [by unfold OptionsAcknowledge.has_options; simpl; destruct opts|].
  destruct (offered_found (default 0%Z told) (if_told told o)) as (Hd & Hb & Ht & Hw).
  fold opts in Hd, Hb, Ht, Hw. destruct (if_told_found told o) as (Hb' & Ht' & Hw' & Hd').
  split_and!; [by etrans|congruence..|].
  destruct (offered_lookup (default 0%Z told) (if_told told o)) as (_ & _ & Hs & _).
  fold opts in Hs. pose proof (if_told_requested f o) as Hreq. fold told in Hreq. rewrite Hs, Hreq. destruct told as [size|]; [|done].
  by apply parse_to_string, Htold.
Qed.

Lemma oack_answers_request_witness :
  let o := <[TSIZE := str "0"]> sample_options in
  ∃ oack (m : options_map), (collect_options sample_file o).1 =
      Ok (oack, AckTimeout.mk 3, Blksize.mk 1024, WindowSize.mk 16) ∧
    WindowSize.find_in m = Some (WindowSize.mk 16) ∧ (m !! TSIZE ≫= parse_usize) = Some 20%Z.
Proof.
  intros o. destruct (oack_answers_request sample_file o 128)
    as (oack & m & Hc & _ & _ & _ & _ & _ & _ & Hw & Hs); [lia|by vm_compute|by intros size [= <-]|].
  exists oack, m. split; [exact Hc|]. split; [exact Hw|exact Hs].
Defined.

(** ** The hypotheses can hold *)

Definition sample_oack : OptionsAcknowledge.t :=
  OptionsAcknowledge.push OptionsAcknowledge.new (BLKSIZE, str "1024").

Lemma unanswered_oack_witness :
  ∃ x b', send_oack_reliably sample_oack AckTimeout.default
      (mkLink (stream_of sample_peer [] []) (replicate 128 zero)) =
    (Err TimedOut, mkLink (stream_of sample_peer [] ([] ++ replicate 5 (OptionsAcknowledge.wire sample_oack)
       ++ [TFTPErr.wire (UndefinedError (str "Send timeout occurred")) x])) b').
Proof.
  apply (unanswered_oack sample_peer AckTimeout.default sample_oack 128 []);
    [vm_compute; lia|reflexivity|lia].
Defined.

Lemma nonzero_ack_refused_witness :
  ∃ x b', send_oack_reliably sample_oack AckTimeout.default
      (mkLink (stream_of sample_peer [Datagram sample_peer (ack_payload 1 [])] []) (replicate 128 zero)) =
    (Err Other, mkLink (stream_of sample_peer [] ([] ++ [OptionsAcknowledge.wire sample_oack]
       ++ [TFTPErr.wire (UndefinedError (str "Unexpected non-zero ACK")) x])) b').
Proof.
  apply (nonzero_ack_refused sample_peer AckTimeout.default sample_oack 128 1 [] []);
    [vm_compute; lia|reflexivity|lia|lia].
Defined.

Lemma stranger_corrupts_oack_witness :
  ∃ x b', send_oack_reliably sample_oack AckTimeout.default
      (mkLink (stream_of sample_peer [Datagram (SocketAddr_new (V4 7) 7) (str "junk"); TimerElapsed] [])
         (replicate 128 zero)) =
    (Err TimedOut, mkLink (stream_of sample_peer [] ([] ++ [OptionsAcknowledge.wire sample_oack]
       ++ replicate 4 (str "junk" ++ drop 4 (OptionsAcknowledge.wire sample_oack))
       ++ [TFTPErr.wire (UndefinedError (str "Send timeout occurred")) x])) b').
Proof.
  apply (stranger_corrupts_oack sample_peer (SocketAddr_new (V4 7) 7) AckTimeout.default sample_oack
    128 (str "junk") []); [vm_compute; lia|reflexivity|lia|done|vm_compute; lia].
Defined.

(** Blocks of eight bytes and windows of two, negotiated. *)
Definition small_options : options_map := <[BLKSIZE := str "8"]> {[WINDOW_SIZE := str "2"]}.

Definition two_acks : list arrival :=
  round_arrivals sample_peer (mkRound [] [] []) (as_u16 (Z.of_nat 2))
  ++ (round_arrivals sample_peer (mkRound [] [] []) (as_u16 (Z.of_nat 3)) ++ []).

Definition small_script : Script := mkScript 1 [sample_alien] [] two_acks.

Lemma small_script_cooperates : cooperates sample_peer small_options sample_bytes small_script.
Proof.
  split; [vm_compute; lia|]. split; [by repeat constructor|]. split; [by right|].
  change (n_blocks _ _) with 3. change (granted_window_size small_options) with 2.
  apply coop_more; [lia|lia| |apply coop_last; [lia|lia|lia|]];
    (split; [vm_compute; lia|]); by repeat constructor.
Qed.

Lemma session_delivers_witness :
  ∃ l new blocks,
    send true sample_file small_options
      (mkLink (stream_of sample_peer (script_arrivals sample_peer small_options sample_bytes small_script) [])
         (replicate 128 zero)) = (Ok tt, l) ∧
    sent_by (stream l) = [] ++ new ∧
    new = replicate 2 (OptionsAcknowledge.wire (oack_of small_options sample_bytes)) ++ blocks ∧
    received (client_run 8 blocks) = sample_bytes ∧ finished (client_run 8 blocks) = true.
Proof.
  refine (session_delivers true sample_file small_options sample_peer 128 small_script [] _ _ _ _);
    [vm_compute; lia|reflexivity|lia|exact small_script_cooperates].
Defined.

Lemma session_returns_witness :
  ∃ r l, send false sample_file small_options (mkLink (stream_of sample_peer [RecvFailed Other] [])
      (replicate 128 zero)) = (r, l) ∧
    r ≠ Stop OutOfFuel ∧ (false = false → r = Ok tt).
Proof.
  apply (session_returns false sample_file small_options); [vm_compute; lia|reflexivity|lia].
Defined.
