(* ===== verification/AsyncSession.v ===== *)
(** * AsyncSession: the task of a session as it suspends, src/src/peer_handler/mod.rs

    Session gives the functions of a session's task as they act on a file and a stream from
    beginning to end.  Here the same functions are interaction trees: programs that stop at
    every call of the opened file and at every [await], and go on with the answer.  Loops are
    loops, without fuel.  The theorem is that a tree, run on its own, comes to an end, and to
    the end that Session computes; LocalSet then runs many of them side by side. *)

From S2P Require Import Prelude Text Cursor Errors Fs Options Messages Net Window Session Transfer Delivery Negotiation.
From ITree Require Import Basics.Basics Core.ITreeDefinition Eq.Shallow.

(** ** Where a task stops *)

Variant sessionE : Type → Type :=
| ReadTo (buffer : list byte) : sessionE (res ErrorKind nat * list byte)
| GetSize : sessionE (res ErrorKind Z)
| SendBytes (bytes : list byte) : sessionE (res ErrorKind unit)
| RecvWithin (ack_timeout : AckTimeout.t) (buffer : list byte) (min_size : nat)
  : sessionE (res Elapsed (res ErrorKind nat) * list byte).

Declare Scope async_scope.
Open Scope async_scope.
Notation "'await!' x := t 'in' k" := (ITree.bind t (λ x, k))
  (at level 10, x pattern, t at level 100, k at level 200) : async_scope.

(** ** The functions *)

Section task.
Local Abbreviation task := (itree sessionE).

Definition fire_error_task (error : TFTPError) (buffer : list byte) : task (res Empty_set unit * list byte) :=
  match TFTPErr.serialize error buffer with
  | (Ok to_send, buffer') =>
      match range 0 to_send buffer' with
      | None => Ret (Stop Panicked, buffer')
      | Some bytes =>
          await! sent := ITree.trigger (SendBytes bytes) in
          Ret (match sent with Stop h => Stop h | _ => Ok tt end, buffer')
      end
  | (Err _, buffer') => Ret (Ok tt, buffer')
  | (Stop h, buffer') => Ret (Stop h, buffer')
  end.

Definition read_acknowledge_task (ack_timeout : AckTimeout.t) (buffer : list byte)
  : task (res RecvError.t Z * list byte) :=
  await! (received, buffer') := ITree.trigger (RecvWithin ack_timeout buffer 4) in
  Ret (match received with
       | Ok (Ok _) => parse_acknowledge buffer'
       | Ok (Err _) => Err RecvError.Network
       | Ok (Stop h) => Stop h
       | Err _elapsed => Err RecvError.Timeout
       | Stop h => Stop h
       end, buffer').

Definition window_send_task (window : Window.t) (index : Z) : task (res ErrorKind unit) :=
  match Window.slot window index ≫= λ s, Window.buffers window !! s with
  | None => Ret (Stop Panicked)
  | Some v => ITree.trigger (SendBytes (vec_bytes v))
  end.

Fixpoint send_blocks_task (window : Window.t) (indices : list Z) : task (res ErrorKind unit) :=
  match indices with
  | [] => Ret (Ok tt)
  | block_index :: indices' =>
      await! sent := window_send_task window block_index in
      match sent with
      | Ok _ => send_blocks_task window indices'
      | Err e => Ret (Err e)
      | Stop h => Ret (Stop h)
      end
  end.

Fixpoint send_attempts_task (attempts : nat) (window : Window.t) (ack_timeout : AckTimeout.t)
    (window_index count : Z) (buffer : list byte) : task (res SendError.t Z * list byte) :=
  match attempts with
  | O => Ret (Err SendError.Timeout, buffer)
  | S attempts' =>
      await! sent := send_blocks_task window (block_indices window_index count) in
      match sent with
      | Stop h => Ret (Stop h, buffer)
      | Err _ => Ret (Err SendError.Network, buffer)
      | Ok _ =>
          await! (acknowledged, buffer') := read_acknowledge_task ack_timeout buffer in
          match acknowledged with
          | Ok received_ack =>
              if (window_index <=? received_ack)%Z then Ret (Ok received_ack, buffer')
              else
                await! (fired, buffer'') :=
                  fire_error_task (TFTPErr.undefined (str "Received ACK from the past")) buffer' in
                Ret (match fired with Stop h => Stop h | _ => Err SendError.ACKError end, buffer'')
          | Err RecvError.Timeout =>
              send_attempts_task attempts' window ack_timeout window_index count buffer'
          | Err (RecvError.ClientError error_code error_message) =>
              Ret (Err (SendError.ClientError error_code error_message), buffer')
          | Err _ => Ret (Err SendError.Network, buffer')
          | Stop h => Ret (Stop h, buffer')
          end
      end
  end.

Definition push_block_task (window : Window.t) (index : Z) : task (res ErrorKind (nat * bool) * Window.t) :=
  match Window.buffer window index with
  | None => Ret (Stop Panicked, window)
  | Some (s, bytes) =>
      match Window.write_header index bytes with
      | None => Ret (Stop Panicked, window)
      | Some bytes' =>
          await! (result, tail) := ITree.trigger (ReadTo (drop 4 bytes')) in
          let bytes'' := take 4 bytes' ++ tail in
          match result with
          | Ok read_bytes =>
              Ret (Ok (read_bytes, (Z.of_nat read_bytes <? Window.block_size window)%Z),
                   Window.set_buffer window s (mkVec bytes'' ((read_bytes + 4) `min` length bytes'')))
          | Err e => Ret (Err e, Window.set_buffer window s (mkVec bytes'' (length bytes'')))
          | Stop h => Ret (Stop h, window)
          end
      end
  end.

(** The local variables of [send_file]: a [Transfer] without what is outside the task. *)
Record Locals : Type := mkLocals {
  l_window : Window.t;
  l_buffer : list byte;
  l_bytes_sent : nat;
  l_blocks_sent : nat;
  l_last_acknowledged : Z;
  l_last_read : Z;
}.

Definition locals {F} (t : Transfer F) : Locals :=
  mkLocals (window t) (buf (link t)) (bytes_sent t) (blocks_sent t)
    (last_acknowledged_index t) (last_read_index t).

(** The inner [while], over [to_send] and the local variables. *)
Definition fill_window_round (s : Z * Locals)
  : task (Z * Locals + res TFTPError (bool * Z) * Locals) :=
  let '(to_send, t) := s in
  if negb (to_send <? Window.size (l_window t))%Z then Ret (inr (Ok (false, to_send), t))
  else
    let last_read := wrapping_add (l_last_read t) 1 in
    await! (pushed, window') := push_block_task (l_window t) last_read in
    let stopped := mkLocals window' (l_buffer t) (l_bytes_sent t) (l_blocks_sent t)
                     (l_last_acknowledged t) last_read in
    Ret (match pushed with
         | Ok (read_bytes, is_last) =>
             let t' := mkLocals window' (l_buffer t) (l_bytes_sent t + read_bytes) (l_blocks_sent t)
                         (l_last_acknowledged t) last_read in
             if is_last then inr (Ok (true, to_send + 1)%Z, t') else inl ((to_send + 1)%Z, t')
         | Err _ => inr (Err (TFTPErr.undefined (str "Read file error occurred")), stopped)
         | Stop h => inr (Stop h, stopped)
         end).

Definition fill_window_task (to_send : Z) (t : Locals) : task (res TFTPError (bool * Z) * Locals) :=
  ITree.iter fill_window_round (to_send, t).

Definition after_exchange (t : Locals) (buffer : list byte) : Locals :=
  mkLocals (l_window t) buffer (l_bytes_sent t) (l_blocks_sent t) (l_last_acknowledged t) (l_last_read t).

(** The outer [while !done]. *)
Definition send_loop_round (debug : bool) (ack_timeout : AckTimeout.t) (s : bool * Locals)
  : task (bool * Locals + res TFTPError (nat * nat) * Locals) :=
  let '(done, t) := s in
  if done then Ret (inr (Ok (l_bytes_sent t, l_blocks_sent t), t))
  else
    let unacknowledged_count := wrapping_sub (l_last_read t) (l_last_acknowledged t) in
    if debug && negb (unacknowledged_count <=? Window.size (l_window t))%Z
    then Ret (inr (Stop Panicked, t))
    else
      await! (filled, t') := fill_window_task unacknowledged_count t in
      match filled with
      | Stop h => Ret (inr (Stop h, t'))
      | Err e => Ret (inr (Err e, t'))
      | Ok (done', to_send) =>
          if debug && negb (to_send <=? Window.size (l_window t'))%Z
          then Ret (inr (Stop Panicked, t'))
          else
            await! (result, buffer) :=
              send_attempts_task SEND_ATTEMPTS (l_window t') ack_timeout
                (wrapping_add (l_last_acknowledged t') 1) to_send (l_buffer t') in
            let t'' := after_exchange t' buffer in
            Ret (match result with
                 | Ok received_acknowledged =>
                     inl (done', mkLocals (l_window t') buffer (l_bytes_sent t') (l_blocks_sent t')
                                   received_acknowledged (l_last_read t'))
                 | Err SendError.Timeout =>
                     inr (Err (TFTPErr.undefined (str "Send timeout occurred")), t'')
                 | Err (SendError.ClientError _code _string) =>
                     inr (Ok (l_bytes_sent t', l_blocks_sent t' + Z.to_nat to_send), t'')
                 | Err _ => inr (Err (TFTPErr.undefined (str "Unknown error occurred")), t'')
                 | Stop h => inr (Stop h, t'')
                 end)
      end.

Definition send_file_task (debug : bool) (window : Window.t) (ack_timeout : AckTimeout.t)
    (buffer : list byte) : task (res TFTPError (nat * nat) * Locals) :=
  ITree.iter (send_loop_round debug ack_timeout) (false, mkLocals window buffer 0 0 0 0).

(** *** Negotiation *)

Fixpoint oack_attempts_task (attempts oack_size : nat) (ack_timeout : AckTimeout.t) (buffer : list byte)
  : task (res ErrorKind unit * list byte) :=
  match attempts with
  | O =>
      await! (fired, buffer') := fire_error_task (TFTPErr.undefined (str "Send timeout occurred")) buffer in
      Ret (match fired with Stop h => Stop h | _ => Err TimedOut end, buffer')
  | S attempts' =>
      match range 0 oack_size buffer with
      | None => Ret (Stop Panicked, buffer)
      | Some bytes =>
          await! sent := ITree.trigger (SendBytes bytes) in
          match sent with
          | Stop h => Ret (Stop h, buffer)
          | Err e => Ret (Err e, buffer)
          | Ok _ =>
              await! (acknowledged, buffer') := read_acknowledge_task ack_timeout buffer in
              match acknowledged with
              | Ok ack_num =>
                  if (ack_num =? 0)%Z then Ret (Ok tt, buffer')
                  else
                    await! (fired, buffer'') :=
                      fire_error_task (TFTPErr.undefined (str "Unexpected non-zero ACK")) buffer' in
                    Ret (match fired with Stop h => Stop h | _ => Err Other end, buffer'')
              | Err RecvError.Timeout => oack_attempts_task attempts' oack_size ack_timeout buffer'
              | Err _ => Ret (Err Other, buffer')
              | Stop h => Ret (Stop h, buffer')
              end
          end
      end
  end.

Definition send_oack_task (oack : OptionsAcknowledge.t) (ack_timeout : AckTimeout.t) (buffer : list byte)
  : task (res ErrorKind unit * list byte) :=
  match OptionsAcknowledge.serialize oack buffer with
  | (Ok oack_size, buffer') => oack_attempts_task SEND_ATTEMPTS oack_size ack_timeout buffer'
  | (Err _, buffer') =>
      await! (fired, buffer'') := fire_error_task (TFTPErr.undefined (str "OACK build error")) buffer' in
      Ret (match fired with Stop h => Stop h | _ => Err Other end, buffer'')
  | (Stop h, buffer') => Ret (Stop h, buffer')
  end.

Definition collect_options_task (options : options_map)
  : task (res Empty_set (OptionsAcknowledge.t * AckTimeout.t * Blksize.t * WindowSize.t)) :=
  let oack := OptionsAcknowledge.new in
  let '(oack, ack_timeout) :=
    match AckTimeout.find_in options with
    | Some timeout => (OptionsAcknowledge.push oack (AckTimeout.as_key_pair timeout), timeout)
    | None => (oack, AckTimeout.default)
    end in
  let '(oack, block_size) :=
    match Blksize.find_in options with
    | Some block_size => (OptionsAcknowledge.push oack (Blksize.as_key_pair block_size), block_size)
    | None => (oack, Blksize.default)
    end in
  await! with_tsize :=
    (if TSize.is_requested options then
       await! file_size := ITree.trigger GetSize in
       Ret (match file_size with
            | Ok file_size => Ok (OptionsAcknowledge.push oack (TSize.as_key_pair (TSize.mk file_size)))
            | Err _ => Ok oack
            | Stop h => Stop h
            end)
     else Ret (Ok oack)) in
  Ret (match with_tsize with
       | Stop h => Stop h
       | Err e => Err e
       | Ok oack =>
           let '(oack, window_size) :=
             match WindowSize.find_in options with
             | Some window_size =>
                 (OptionsAcknowledge.push oack (WindowSize.as_key_pair window_size), window_size)
             | None => (oack, WindowSize.default)
             end in
           Ok (oack, ack_timeout, block_size, window_size)
       end).

Definition negotiate_task (options : options_map) (buffer : list byte)
  : task (res Empty_set (option (Window.t * AckTimeout.t)) * list byte) :=
  await! collected := collect_options_task options in
  match collected with
  | Stop h => Ret (Stop h, buffer)
  | Err e => Ret (Err e, buffer)
  | Ok (oack, ack_timeout, block_size, window_size) =>
      let window :=
        Window.new (as_u16 (Blksize.get_size block_size)) (as_u16 (WindowSize.get_size window_size)) in
      if OptionsAcknowledge.has_options oack then
        await! (acknowledged, buffer') := send_oack_task oack ack_timeout buffer in
        Ret (match acknowledged with
             | Ok _ => Ok (Some (window, ack_timeout))
             | Err _ => Ok None
             | Stop h => Stop h
             end, buffer')
      else Ret (Ok (Some (window, ack_timeout)), buffer)
  end.

(** The task that is spawned for an accepted request. *)
Definition send_task (debug : bool) (options : options_map) (buffer : list byte)
  : task (res Empty_set unit * list byte) :=
  await! (negotiated, buffer') := negotiate_task options buffer in
  match negotiated with
  | Stop h => Ret (Stop h, buffer')
  | Err e => Ret (Err e, buffer')
  | Ok None => Ret (Ok tt, buffer')
  | Ok (Some (window, ack_timeout)) =>
      await! (sent, t) := send_file_task debug window ack_timeout buffer' in
      match sent with
      | Ok _ => Ret (Ok tt, l_buffer t)
      | Err tftp_error => fire_error_task tftp_error (l_buffer t)
      | Stop h => Ret (Stop h, l_buffer t)
      end
  end.

End task.

(** ** Running a tree on its own *)

(** A handler answers the calls of a task out of a state. *)
Definition handler (S : Type) : Type := ∀ X, sessionE X → S → X * S.

(** The file and the stream that belong to the task. *)
Definition answer {F} `{OpenedFile F} : handler (F * DatagramStream.t) := λ X e '(f, s),
  match e in sessionE X return X * (F * DatagramStream.t) with
  | ReadTo buffer => let '(r, (buffer', f')) := read_to f buffer in (r, buffer', (f', s))
  | GetSize => let '(r, f') := get_size f in (r, (f', s))
  | SendBytes bytes => let '(r, s') := DatagramStream.send bytes s in (r, (f, s'))
  | RecvWithin ack_timeout buffer min_size =>
      let '(r, (buffer', s')) := AckTimeout_timeout ack_timeout (DatagramStream.recv buffer min_size s) in
      (r, buffer', (f, s'))
  end.

Section runs.
Context {S : Type} (h : handler S).

(** [runs t s n a s']: from [s] the tree returns [a] after [n] steps, leaving [s']. *)
Inductive runs {A} : itree' sessionE A → S → nat → A → S → Prop :=
| runs_ret a s : runs (RetF a) s 0 a s
| runs_tau t s n a s' : runs (observe t) s n a s' → runs (TauF t) s (Datatypes.S n) a s'
| runs_vis {X} (e : sessionE X) k s n a s' :
    runs (observe (k (h X e s).1)) (h X e s).2 n a s' → runs (VisF e k) s (Datatypes.S n) a s'.

Definition does {A} (t : itree sessionE A) (s : S) (a : A) (s' : S) : Prop := ∃ n, runs (observe t) s n a s'.

Lemma does_ret {A} (a : A) s : does (Ret a) s a s.
Proof. exists 0. constructor. Qed.

Lemma runs_bind {A B} (t : itree sessionE A) (k : A → itree sessionE B) s n a s' m b s'' :
  runs (observe t) s n a s' → runs (observe (k a)) s' m b s'' →
  runs (observe (ITree.bind t k)) s (n + m) b s''.
Proof.
  intros Ht Hk. remember (observe t) as ot eqn:Hot. revert t Hot.
  induction Ht as [a s|u s n a s' _ IH|X e ke s n a s' _ IH]; intros t Hot;
    rewrite observe_bind, <- Hot; [done| |]; constructor; by apply IH.
Qed.

Lemma does_bind {A B} (t : itree sessionE A) (k : A → itree sessionE B) s a s' b s'' :
  does t s a s' → does (k a) s' b s'' → does (ITree.bind t k) s b s''.
Proof. intros [n Ht] [m Hk]. exists (n + m). by eapply runs_bind. Qed.

Lemma does_trigger {X} (e : sessionE X) s : does (ITree.trigger e) s (h X e s).1 (h X e s).2.
Proof. exists 1. constructor. constructor. Qed.

Lemma does_iter_again {I A} (body : I → itree sessionE (I + A)) i j s s' a s'' :
  does (body i) s (inl j) s' → does (ITree.iter body j) s' a s'' → does (ITree.iter body i) s a s''.
Proof.
  intros [n Hb] [m Hi]. exists (n + Datatypes.S m).
  change (observe (ITree.iter body i)) with
    (observe (ITree.bind (body i) (λ lr, match lr with inl l => Tau (ITree.iter body l) | inr r => Ret r end))).
  eapply runs_bind; [done|]. by constructor.
Qed.

Lemma does_iter_done {I A} (body : I → itree sessionE (I + A)) i s s' a :
  does (body i) s (inr a) s' → does (ITree.iter body i) s a s'.
Proof.
  intros [n Hb]. exists (n + 0).
  change (observe (ITree.iter body i)) with
    (observe (ITree.bind (body i) (λ lr, match lr with inl l => Tau (ITree.iter body l) | inr r => Ret r end))).
  eapply runs_bind; [done|]. constructor.
Qed.

(** A burst that succeeds without the tree does so out of any state that keeps what is sent. *)
Lemma burst_does (st : list (list byte) → S) W indices peer arrs sent s' new :
  (∀ new bytes, does (ITree.trigger (SendBytes bytes)) (st new) (Ok tt) (st (new ++ [bytes]))) →
  send_blocks W indices (stream_of peer arrs sent) = (Ok tt, s') →
  ∃ packets, s' = stream_of peer arrs (sent ++ packets) ∧
    does (send_blocks_task W indices) (st new) (Ok tt) (st (new ++ packets)).
Proof.
  intros Hst. revert sent new. induction indices as [|i indices IH]; intros sent new; simpl.
  - intros [= <-]. exists []. rewrite !app_nil_r. split; [done|]. apply does_ret.
  - unfold window_send_task, Window.send. destruct (_ ≫= _) as [v|]; [|done].
    rewrite send_stream_of. intros Hr.
    destruct (IH (sent ++ [vec_bytes v]) (new ++ [vec_bytes v]) Hr) as (packets & -> & Hd).
    exists (vec_bytes v :: packets). rewrite <- !app_assoc in Hd. rewrite <- app_assoc. split; [done|].
    eapply does_bind; [apply Hst|]. exact Hd.
Qed.

(** One step; a tree that has returned stays as it is. *)
Definition step_tree {A} (ot : itree' sessionE A) (s : S) : itree' sessionE A * S :=
  match ot with
  | RetF a => (RetF a, s)
  | TauF t => (observe t, s)
  | @VisF _ _ _ X e k => let '(a, s') := h X e s in (observe (k a), s')
  end.

Lemma runs_step {A} (ot : itree' sessionE A) s n a s' :
  runs ot s n a s' → let '(ot1, s1) := step_tree ot s in runs ot1 s1 (pred n) a s'.
Proof.
  intros [a0 s0|t s0 n0 a0 s1 Ht|X e k s0 n0 a0 s1 Ht]; simpl; [constructor|done|]. by destruct (h X e s0).
Qed.

(** [n] steps. *)
Fixpoint after {A} (n : nat) (ot : itree' sessionE A) (s : S) : itree' sessionE A * S :=
  match n with
  | 0 => (ot, s)
  | Datatypes.S n' => let '(ot', s') := step_tree ot s in after n' ot' s'
  end.

Lemma after_ret {A} n (a : A) s : after n (RetF a) s = (RetF a, s).
Proof. by induction n. Qed.

Lemma runs_after {A} (ot : itree' sessionE A) s n a s' m :
  runs ot s n a s' → n ≤ m → after m ot s = (RetF a, s').
Proof.
  intros Hr. revert m. induction Hr as [a s|t s n a s' _ IH|X e k s n a s' _ IH]; intros m Hm.
  - apply after_ret.
  - destruct m as [|m]; [lia|]. simpl. apply IH. lia.
  - destruct m as [|m]; [lia|]. simpl. destruct (h X e s) as [x s1]. apply IH. lia.
Qed.

(** A task has one outcome. *)
Lemma does_deterministic {A} (t : itree sessionE A) s a s' b s'' :
  does t s a s' → does t s b s'' → a = b ∧ s' = s''.
Proof.
  intros [n Hn] [m Hm]. pose proof (runs_after _ _ _ _ _ (n + m) Hn ltac:(lia)) as E.
  rewrite (runs_after _ _ _ _ _ (n + m) Hm) in E by lia. by injection E.
Qed.

End runs.

(** ** The trees do what Session computes *)

(** A handler that answers the calls of the file out of the file, with anything beside it. *)
Class FileHandler {F S} `{OpenedFile F} (h : handler (F * S)) : Prop := {
  handles_read buffer f s : h _ (ReadTo buffer) (f, s) =
    let '(r, (buffer', f')) := read_to f buffer in ((r, buffer'), (f', s));
  handles_size f s : h _ GetSize (f, s) = let '(r, f') := get_size f in (r, (f', s));
}.

#[global] Instance answer_files {F} `{OpenedFile F} : FileHandler answer.
Proof. by split. Qed.

Local Ltac unfold_round :=
  cbn [fill_window_round send_loop_round locals l_window l_buffer l_bytes_sent l_blocks_sent
       l_last_acknowledged l_last_read].

(** What the functions that use only the file do, whatever the network is. *)
Section files.
Context {F S : Type} `{OpenedFile F} (answers : handler (F * S)) `{!FileHandler answers}.
Implicit Types (f : F) (s : S).

Lemma does_read f s buffer r buffer' f' :
  read_to f buffer = (r, (buffer', f')) →
  does answers (ITree.trigger (ReadTo buffer)) (f, s) (r, buffer') (f', s).
Proof.
  intros E. pose proof (does_trigger answers (ReadTo buffer) (f, s)) as Hd. by rewrite handles_read, E in Hd.
Qed.

Lemma does_size f s r f' :
  get_size f = (r, f') → does answers (ITree.trigger GetSize) (f, s) r (f', s).
Proof. intros E. pose proof (does_trigger answers GetSize (f, s)) as Hd. by rewrite handles_size, E in Hd. Qed.

Lemma push_block_does W f s index r W' f' :
  Window.push_block W f index = (r, (W', f')) →
  does answers (push_block_task W index) (f, s) (r, W') (f', s).
Proof.
  unfold Window.push_block, push_block_task.
  destruct (Window.buffer W index) as [[slot bytes]|]; [|intros [= <- <- <-]; apply does_ret].
  destruct (Window.write_header index bytes) as [bytes'|]; [|intros [= <- <- <-]; apply does_ret].
  destruct (read_to f _) as [result [tail f1]] eqn:E. intros Hr.
  eapply does_bind; [by apply does_read|].
  destruct result; injection Hr as <- <- <-; apply does_ret.
Qed.

Lemma fill_window_does fuel to_send (t t' : Transfer F) r s :
  fill_window fuel to_send t = (r, t') → r ≠ Stop OutOfFuel →
  link t' = link t ∧
  does answers (fill_window_task to_send (locals t)) (opened_file t, s) (r, locals t') (opened_file t', s).
Proof.
  revert to_send t. induction fuel as [|fuel IH]; intros to_send t; cbn [fill_window];
    destruct (negb (to_send <? Window.size (window t))%Z) eqn:Hfull.
  1, 3: intros [= <- <-] _; split; [done|]; apply does_iter_done; unfold_round; rewrite Hfull; apply does_ret.
  { by intros [= <- <-]. }
  destruct (Window.push_block _ _ _) as [pushed [W' f']] eqn:Hpush. intros Hr Hne.
  pose proof (push_block_does _ _ s _ _ _ _ Hpush) as Hp.
  destruct pushed as [[n []]|e|x]; cbn zeta iota in Hr.
  2: { destruct (IH _ _ Hr Hne) as [Hl Hd]. split; [done|]. eapply does_iter_again; [|exact Hd].
       unfold_round. rewrite Hfull. eapply does_bind; [exact Hp|]. apply does_ret. }
  all: injection Hr as <- <-; split; [done|]; apply does_iter_done; unfold_round; rewrite Hfull;
    (eapply does_bind; [exact Hp|]); apply does_ret.
Qed.

Lemma collect_options_does f f' s o r :
  collect_options f o = (r, f') → does answers (collect_options_task o) (f, s) r (f', s).
Proof.
  unfold collect_options, collect_options_task, TSize.obtain.
  destruct (AckTimeout.find_in o), (Blksize.find_in o), (TSize.is_requested o);
    destruct (get_size f) as [[size|e|h] f1] eqn:Hsize; intros Hr;
    (eapply does_bind;
     [first [eapply does_bind; [by apply does_size|apply does_ret]|apply does_ret]|]);
    destruct (WindowSize.find_in o); injection Hr as <- <-; apply does_ret.
Qed.

End files.

Section correct.
Context {F : Type} `{OpenedFile F}.
Implicit Types (f : F) (s : DatagramStream.t).

Lemma does_send f s bytes r s' :
  DatagramStream.send bytes s = (r, s') → does answer (ITree.trigger (SendBytes bytes)) (f, s) r (f, s').
Proof. intros E. pose proof (does_trigger answer (SendBytes bytes) (f, s)) as Hd. simpl in Hd. by rewrite E in Hd. Qed.

Lemma does_recv f s a buffer m r buffer' s' :
  AckTimeout_timeout a (DatagramStream.recv buffer m s) = (r, (buffer', s')) →
  does answer (ITree.trigger (RecvWithin a buffer m)) (f, s) (r, buffer') (f, s').
Proof. intros E. pose proof (does_trigger answer (RecvWithin a buffer m) (f, s)) as Hd. simpl in Hd. by rewrite E in Hd. Qed.

Lemma fire_error_does e f l r l' :
  fire_error e l = (r, l') → does answer (fire_error_task e (buf l)) (f, stream l) (r, buf l') (f, stream l').
Proof.
  unfold fire_error, fire_error_task.
  destruct (TFTPErr.serialize e (buf l)) as [[n|err|h] b]; [|intros [= <- <-]; apply does_ret..].
  destruct (range 0 n b) as [bytes|]; [|intros [= <- <-]; apply does_ret].
  destruct (DatagramStream.send bytes (stream l)) as [sent s'] eqn:E. intros Hr.
  eapply does_bind; [by apply does_send|]. destruct sent; injection Hr as <- <-; apply does_ret.
Qed.

Lemma read_acknowledge_does a f l r l' :
  read_acknowledge a l = (r, l') →
  does answer (read_acknowledge_task a (buf l)) (f, stream l) (r, buf l') (f, stream l').
Proof.
  unfold read_acknowledge, read_acknowledge_task.
  destruct (AckTimeout_timeout _ _) as [received [b s']] eqn:E. intros Hr.
  eapply does_bind; [by apply does_recv|].
  destruct received as [[n|e|h]|e|h]; injection Hr as <- <-; apply does_ret.
Qed.

Lemma send_blocks_does W indices f s r s' :
  send_blocks W indices s = (r, s') → does answer (send_blocks_task W indices) (f, s) r (f, s').
Proof.
  revert s. induction indices as [|i indices IH]; intros s; simpl; [intros [= <- <-]; apply does_ret|].
  unfold window_send_task, Window.send. destruct (_ ≫= _) as [v|].
  - destruct (DatagramStream.send _ s) as [sent s1] eqn:E. intros Hr.
    eapply does_bind; [by apply does_send|]. destruct sent; [by apply IH|injection Hr as <- <-; apply does_ret..].
  - intros [= <- <-]. eapply does_bind; [apply does_ret|]. apply does_ret.
Qed.

Lemma send_attempts_does n W a i count f l r l' :
  send_attempts n W a i count l = (r, l') →
  does answer (send_attempts_task n W a i count (buf l)) (f, stream l) (r, buf l') (f, stream l').
Proof.
  revert l. induction n as [|n IH]; intros l; cbn [send_attempts send_attempts_task];
    [intros [= <- <-]; apply does_ret|].
  destruct (send_blocks _ _ _) as [sent s] eqn:Hsend. intros Hr.
  eapply does_bind; [by apply send_blocks_does|].
  destruct sent as [[]|e|h]; [|injection Hr as <- <-; apply does_ret..].
  destruct (read_acknowledge a _) as [r1 l1] eqn:Hack.
  eapply does_bind; [by apply (read_acknowledge_does a f (mkLink s (buf l)))|]. cbv beta iota.
  destruct r1 as [k|[| |code m|]|h]; try (injection Hr as <- <-; apply does_ret).
  - destruct (i <=? k)%Z; [injection Hr as <- <-; apply does_ret|].
    destruct (fire_error _ l1) as [r2 l2] eqn:Hf. eapply does_bind; [by apply fire_error_does|].
    destruct r2 as [|[]|]; injection Hr as <- <-; apply does_ret.
  - by apply IH.
Qed.

(** What a function over a [Transfer] leaves, as its tree sees it. *)
Definition computes {A} (tr : itree sessionE (A * Locals)) (t : Transfer F) (r : A) (t' : Transfer F) : Prop :=
  does answer tr (opened_file t, stream (link t)) (r, locals t') (opened_file t', stream (link t')).

Lemma send_loop_does debug a fuel fin (t t' : Transfer F) r :
  send_loop debug a fuel fin t = (r, t') → r ≠ Stop OutOfFuel →
  computes (ITree.iter (send_loop_round debug a) (fin, locals t)) t r t'.
Proof.
  revert fin t. induction fuel as [|fuel IH]; intros [] t; cbn [send_loop].
  1, 3: intros [= <- <-] _; apply does_iter_done; apply does_ret.
  { by intros [= <- <-]. }
  destruct (debug && _) eqn:Hdbg.
  { intros [= <- <-] _. apply does_iter_done. unfold_round. rewrite Hdbg. apply does_ret. }
  destruct (fill_window _ _ t) as [filled t1] eqn:Hfill. intros Hr Hne.
  assert (filled ≠ Stop OutOfFuel) as Hf by (intros ->; injection Hr as <- <-; done).
  destruct (fill_window_does answer _ _ _ _ _ (stream (link t)) Hfill Hf) as [Hlink Hfd].
  rewrite <- Hlink in Hfd at 2.
  destruct filled as [[fin' to_send]|e|h].
  2, 3: injection Hr as <- <-; apply does_iter_done; unfold_round; rewrite Hdbg;
    (eapply does_bind; [exact Hfd|]); apply does_ret.
  destruct (debug && negb (to_send <=? Window.size (window t1))%Z) eqn:Hdbg'.
  { injection Hr as <- <-. apply does_iter_done. unfold_round. rewrite Hdbg.
    eapply does_bind; [exact Hfd|]. cbv beta iota. unfold_round. rewrite Hdbg'. apply does_ret. }
  destruct (send_reliably _ _ _ _ _) as [result l] eqn:Hsend.
  pose proof (send_attempts_does _ _ _ _ _ (opened_file t1) _ _ _ Hsend) as Hs.
  destruct result as [k|[| |code m|]|h].
  1: { eapply does_iter_again; [|by apply (IH _ _ Hr)]. unfold_round. rewrite Hdbg.
       eapply does_bind; [exact Hfd|]. cbv beta iota. unfold_round. rewrite Hdbg'.
       eapply does_bind; [exact Hs|]. apply does_ret. }
  all: injection Hr as <- <-; apply does_iter_done; unfold_round; rewrite Hdbg;
    (eapply does_bind; [exact Hfd|]); cbv beta iota; unfold_round; rewrite Hdbg';
    (eapply does_bind; [exact Hs|]); apply does_ret.
Qed.

Lemma oack_attempts_does n size a f l r l' :
  oack_attempts n size a l = (r, l') →
  does answer (oack_attempts_task n size a (buf l)) (f, stream l) (r, buf l') (f, stream l').
Proof.
  revert l. induction n as [|n IH]; intros l; cbn [oack_attempts oack_attempts_task].
  { destruct (fire_error _ l) as [r1 l1] eqn:Hf. intros Hr. eapply does_bind; [by apply fire_error_does|].
    destruct r1 as [|[]|]; injection Hr as <- <-; apply does_ret. }
  destruct (range 0 size (buf l)) as [bytes|]; [|intros [= <- <-]; apply does_ret].
  destruct (DatagramStream.send _ _) as [sent s] eqn:Hsend. intros Hr.
  eapply does_bind; [by apply does_send|]. destruct sent as [u|e|h]; [|injection Hr as <- <-; apply does_ret..].
  destruct (read_acknowledge a _) as [r1 l1] eqn:Hack.
  eapply does_bind; [by apply (read_acknowledge_does a f (mkLink s (buf l)))|]. cbv beta iota.
  destruct r1 as [k|[| |code m|]|h]; try (injection Hr as <- <-; apply does_ret).
  - destruct (k =? 0)%Z; [injection Hr as <- <-; apply does_ret|].
    destruct (fire_error _ l1) as [r2 l2] eqn:Hf. eapply does_bind; [by apply fire_error_does|].
    destruct r2 as [|[]|]; injection Hr as <- <-; apply does_ret.
  - by apply IH.
Qed.

Lemma send_oack_does oack a f l r l' :
  send_oack_reliably oack a l = (r, l') →
  does answer (send_oack_task oack a (buf l)) (f, stream l) (r, buf l') (f, stream l').
Proof.
  unfold send_oack_reliably, send_oack_task.
  destruct (OptionsAcknowledge.serialize oack (buf l)) as [[n|e|h] b].
  - apply (oack_attempts_does _ _ _ _ (mkLink (stream l) b)).
  - destruct (fire_error _ _) as [r1 l1] eqn:Hf. intros Hr.
    eapply does_bind; [by apply (fire_error_does _ f (mkLink (stream l) b))|].
    destruct r1 as [|[]|]; injection Hr as <- <-; apply does_ret.
  - intros [= <- <-]. apply does_ret.
Qed.

Lemma negotiate_does f f' o l l' r :
  negotiate_options f o l = (r, (l', f')) →
  does answer (negotiate_task o (buf l)) (f, stream l) (r, buf l') (f', stream l').
Proof.
  unfold negotiate_options, negotiate_task.
  destruct (collect_options f o) as [collected f1] eqn:Hc. intros Hr.
  eapply does_bind; [by apply collect_options_does|].
  destruct collected as [[[[oack a] block_size] window_size]|e|h]; [|injection Hr as <- <- <-; apply does_ret..].
  destruct (OptionsAcknowledge.has_options oack); [|injection Hr as <- <- <-; apply does_ret].
  destruct (send_oack_reliably oack a l) as [r1 l1] eqn:Hs.
  eapply does_bind; [by apply send_oack_does|].
  destruct r1; injection Hr as <- <- <-; apply does_ret.
Qed.

Lemma send_does debug f o l r l' :
  send debug f o l = (r, l') → r ≠ Stop OutOfFuel →
  ∃ f', does answer (send_task debug o (buf l)) (f, stream l) (r, buf l') (f', stream l').
Proof.
  unfold send, send_task. destruct (negotiate_options f o l) as [negotiated [l1 f1]] eqn:Hn. intros Hr Hne.
  pose proof (negotiate_does _ _ _ _ _ _ Hn) as Hnd.
  destruct negotiated as [[[W a]|]|e|h].
  2, 3, 4: injection Hr as <- <-; exists f1; (eapply does_bind; [exact Hnd|]); apply does_ret.
  destruct (send_file debug f1 W a l1) as [sent t] eqn:Hs. unfold send_file in Hs.
  assert (sent ≠ Stop OutOfFuel) as Hf by (intros ->; injection Hr as <- <-; done).
  pose proof (send_loop_does _ _ _ _ _ _ _ Hs Hf) as Hsd. exists (opened_file t).
  eapply does_bind; [exact Hnd|]. cbv beta iota. eapply does_bind; [exact Hsd|]. cbv beta iota.
  destruct sent as [x|e|h]; [injection Hr as <- <-; apply does_ret|by apply fire_error_does|
    injection Hr as <- <-; apply does_ret].
Qed.

End correct.

(** C13: the task of a session, with its loops and its awaits as they are in the source and
    no bound on either, comes to an end for every client and every network, and its outcome,
    the datagrams it sends and the arrivals it takes are those of Session's [send]. *)
Theorem session_task_ends {F} `{OpenedFileSpec F} (debug : bool) (f : F) (o : options_map)
    (s : DatagramStream.t) (n : nat) :
  readable f → fresh f → 128 ≤ n →
  ∃ steps r l f', send debug f o (mkLink s (replicate n zero)) = (r, l) ∧
    (debug = false → r = Ok tt) ∧
    runs answer (observe (send_task debug o (replicate n zero))) (f, s) steps (r, buf l) (f', stream l).
Proof.
  intros Hr Hf Hn. destruct (session_returns debug f o s n Hr Hf Hn) as (r & l & Hs & Hne & Hok).
  destruct (send_does debug f o _ r l Hs Hne) as (f' & steps & Hruns).
  by exists steps, r, l, f'.
Qed.

Lemma session_task_ends_witness :
  ∃ steps r l f', send false sample_file small_options
      (mkLink (stream_of sample_peer [RecvFailed Other] []) (replicate 128 zero)) = (r, l) ∧
    (false = false → r = Ok tt) ∧
    runs answer (observe (send_task false small_options (replicate 128 zero)))
      (sample_file, stream_of sample_peer [RecvFailed Other] []) steps (r, buf l) (f', stream l).
Proof.
  apply (session_task_ends false sample_file small_options); [vm_compute; lia|reflexivity|lia].
Defined.
