(* ===== verification/Timed.v ===== *)
(** * Timed: the clock of a session, src/src/options/mod.rs, AckTimeout::timeout

    Net leaves the expiry of a read's timer to a script.  Here datagrams carry the instants
    at which they come in, a read under [AckTimeout::timeout] has a deadline, and what a
    task sends is stamped.  Time passes only while a task waits.  Whatever the instants,
    what the task does is what it does under some script of the same arrivals, so that all
    that is proved for every script holds for every clock; the instants themselves say how
    long a client that does not answer keeps its session. *)

From S2P Require Import Prelude Text Cursor Errors Fs Options Messages Net Window Session Transfer Delivery Negotiation AsyncSession.
From ITree Require Import Core.ITreeDefinition.

(** [Duration::from_secs], in nanoseconds. *)
Definition from_secs (secs : Z) : Z := (secs * 1000000000)%Z.

Inductive happening : Type :=
| CameIn (from : SocketAddr) (payload : list byte)
| Failed (kind : ErrorKind).

Definition arrival_of (ev : happening) : arrival :=
  match ev with CameIn from payload => Datagram from payload | Failed kind => RecvFailed kind end.

Module TimedStream.

(** What will come in and when, and when each of the datagrams in the socket was sent; the
    script of the socket itself is not used. *)
Record t : Type := mk {
  now : Z;
  incoming : list (Z * happening);
  inner : DatagramStream.t;
  stamps : list Z;
}.

(** The same stream over a script. *)
Definition scripted (self : t) (script : list arrival) : DatagramStream.t := with_arrivals (inner self) script.

Definition send (buffer : list byte) (self : t) : res ErrorKind unit * t :=
  let '(r, s') := DatagramStream.send buffer (inner self) in
  (r, mk (now self) (incoming self) s'
         (stamps self ++ replicate (length (sent_by s') - length (sent_by (inner self))) (now self))).

(** [recv] until the deadline: a datagram that comes in later is left in the socket. *)
Fixpoint recv_until (deadline now : Z) (peer_address : SocketAddr) (min_size : nat)
    (incoming : list (Z * happening)) (buffer : list byte)
  : option (res ErrorKind nat) * (Z * list (Z * happening) * list byte) :=
  match incoming with
  | [] => (None, (deadline, [], buffer))
  | (instant, ev) :: incoming' =>
      if (deadline <? instant)%Z then (None, (deadline, incoming, buffer))
      else
        let now' := Z.max now instant in
        match ev with
        | Failed error => (Some (Err error), (now', incoming', buffer))
        | CameIn remote_address payload =>
            let '(recv_size, buffer') := UdpSocket.receive payload buffer in
            if decide (remote_address ≠ peer_address)
            then recv_until deadline now' peer_address min_size incoming' buffer'
            else if recv_size <? min_size
            then recv_until deadline now' peer_address min_size incoming' buffer'
            else (Some (Ok recv_size), (now', incoming', buffer'))
        end
  end.

(** [AckTimeout::timeout] over [DatagramStream::recv]. *)
Definition recv_within (ack_timeout : AckTimeout.t) (buffer : list byte) (min_size : nat) (self : t)
  : res Elapsed (res ErrorKind nat) * (list byte * t) :=
  let deadline := (now self + from_secs (AckTimeout.timeout ack_timeout))%Z in
  let '(r, (now', incoming', buffer')) :=
    recv_until deadline (now self) (DatagramStream.peer_address (inner self)) min_size (incoming self) buffer in
  AckTimeout_timeout ack_timeout (r, (buffer', mk now' incoming' (inner self) (stamps self))).

End TimedStream.

(** A task over a stream with a clock. *)
Definition answer_timed {F} `{OpenedFile F} : handler (F * TimedStream.t) := λ X e '(f, s),
  match e in sessionE X return X * (F * TimedStream.t) with
  | ReadTo buffer => let '(r, (buffer', f')) := read_to f buffer in (r, buffer', (f', s))
  | GetSize => let '(r, f') := get_size f in (r, (f', s))
  | SendBytes bytes => let '(r, s') := TimedStream.send bytes s in (r, (f, s'))
  | RecvWithin ack_timeout buffer min_size =>
      let '(r, (buffer', s')) := TimedStream.recv_within ack_timeout buffer min_size s in
      (r, buffer', (f, s'))
  end.

#[global] Instance answer_timed_files {F} `{OpenedFile F} : FileHandler answer_timed.
Proof. by split. Qed.

(** ** A clock is a script *)

Definition not_timer (a : arrival) : bool := match a with TimerElapsed => false | _ => true end.

(** What was received of what came in. *)
Definition heard (script : list arrival) : list arrival := filter (λ a, not_timer a = true) script.

Definition events (l : list (Z * happening)) : list arrival := arrival_of <$> l.*2.

Lemma recv_until_script deadline now peer m inc buffer :
  let '(r, (now', inc', buffer')) := TimedStream.recv_until deadline now peer m inc buffer in
  ∃ script, heard script ++ events inc' = events inc ∧
    (∀ tail, DatagramStream.recv_loop peer m (script ++ tail) buffer = (r, (tail, buffer'))) ∧
    (inc' = inc ∧ r = None ∧ buffer' = buffer ∨ length inc' < length inc).
Proof.
  revert now buffer. induction inc as [|[instant ev] inc IH]; intros now buffer; simpl.
  { exists [TimerElapsed]. split; [done|]. split; [done|]. by left. }
  destruct (Z.ltb_spec deadline instant).
  { exists [TimerElapsed]. split; [done|]. split; [done|]. by left. }
  destruct ev as [from payload|kind].
  - set (b' := take _ _ ++ drop _ _). specialize (IH (Z.max now instant) b').
    destruct (TimedStream.recv_until _ _ _ _ inc b') as [r [[now' inc'] buffer']].
    destruct IH as (script & Hh & Hs & Hl).
    assert (length inc' ≤ length inc) by (destruct Hl as [(-> & _)|]; lia).
    case_decide as Hf; [|destruct (_ <? m) eqn:Hm].
    1, 2: exists (Datagram from payload :: script); split;
      [change (Datagram from payload :: (heard script ++ events inc') = Datagram from payload :: events inc);
       by rewrite Hh|];
      split; [intros tail; simpl|right; lia].
    + rewrite decide_True by done. apply Hs.
    + case_decide; [done|]. rewrite Hm. apply Hs.
    + exists [Datagram from payload]. split; [done|]. split; [|right; lia].
      intros tail. simpl. case_decide; [done|]. by rewrite Hm.
  - exists [RecvFailed kind]. split; [done|]. split; [done|right; lia].
Qed.

Section refined.
Context {F : Type} `{OpenedFile F}.
Implicit Types (f : F) (s : TimedStream.t).

(** One call: the same answer as under a script of what it takes.  It takes nothing of what
    comes in only if silence gives the same answer. *)
Lemma answer_scripted {X} (e : sessionE X) f s :
  let '(x, (f', s')) := answer_timed X e (f, s) in
  ∃ script, heard script ++ events (TimedStream.incoming s') = events (TimedStream.incoming s) ∧
    (∀ tail, answer X e (f, TimedStream.scripted s (script ++ tail)) = (x, (f', TimedStream.scripted s' tail))) ∧
    (length (TimedStream.incoming s') < length (TimedStream.incoming s) ∨
     TimedStream.incoming s' = TimedStream.incoming s ∧
     answer X e (f, TimedStream.scripted s []) = (x, (f', TimedStream.scripted s' []))).
Proof.
  destruct e as [buffer| |bytes|a buffer m]; simpl.
  - destruct (read_to f buffer) as [r [b f']]. exists []. split_and!; [done..|by right].
  - destruct (get_size f) as [r f']. exists []. split_and!; [done..|by right].
  - unfold TimedStream.send, TimedStream.scripted.
    assert (∀ l, DatagramStream.send bytes (with_arrivals (TimedStream.inner s) l) =
      let '(r, s') := DatagramStream.send bytes (TimedStream.inner s) in (r, with_arrivals s' l)) as Hs
      by apply send_with_arrivals.
    destruct (DatagramStream.send bytes (TimedStream.inner s)) as [r s']. simpl.
    exists []. split; [done|]. split; [intros tail; by rewrite app_nil_l, Hs|]. right. by rewrite Hs.
  - unfold TimedStream.recv_within, DatagramStream.recv.
    pose proof (recv_until_script (TimedStream.now s + from_secs (AckTimeout.timeout a))%Z (TimedStream.now s)
      (DatagramStream.peer_address (TimedStream.inner s)) m (TimedStream.incoming s) buffer) as Hr.
    destruct (TimedStream.recv_until _ _ _ _ _ _) as [r [[now' inc'] b']].
    cbv beta iota in Hr. destruct Hr as (script & Hh & Hs & Hl).
    destruct r as [out|]; simpl; exists script.
    + split; [done|]. split; [intros tail; by rewrite Hs|]. left. by destruct Hl as [(_ & Hl & _)|Hl].
    + split; [done|]. split; [intros tail; by rewrite Hs|].
      destruct Hl as [(-> & _ & ->)|]; [by right|by left].
Qed.

Lemma runs_scripted {A} (ot : itree' sessionE A) f s n a f' s' :
  runs answer_timed ot (f, s) n a (f', s') →
  ∃ script, heard script ++ events (TimedStream.incoming s') = events (TimedStream.incoming s) ∧
    ∀ tail, runs answer ot (f, TimedStream.scripted s (script ++ tail)) n a (f', TimedStream.scripted s' tail).
Proof.
  intros Hr. remember (f, s) as st eqn:Hst. remember (f', s') as st' eqn:Hst'. revert f s Hst.
  induction Hr as [a st|t st n a st' Hr IH|X e k st n a st' Hr IH]; intros f s ->.
  - injection Hst' as -> ->. exists []. split; [done|]. intros tail. constructor.
  - destruct (IH Hst' f s eq_refl) as (script & Hh & Hs). exists script. split; [done|].
    intros tail. constructor. apply Hs.
  - pose proof (answer_scripted e f s) as He. destruct (answer_timed X e (f, s)) as [x [f1 s1]].
    destruct He as (script1 & Hh1 & Hs1 & _). destruct (IH Hst' f1 s1 eq_refl) as (script & Hh & Hs).
    exists (script1 ++ script). split; [unfold heard in *; by rewrite filter_app, <- app_assoc, Hh|].
    intros tail. rewrite <- app_assoc. constructor. rewrite Hs1. apply Hs.
Qed.

(** A task that ends under every script ends under every clock. *)
Definition ends (ot : itree' sessionE (res Empty_set unit * list byte)) f s : Prop :=
  ∀ script, ∃ n a st, runs answer ot (f, TimedStream.scripted s script) n a st.

Lemma ends_on_clock ot f s :
  ends ot f s → ∃ n a f' s', runs answer_timed ot (f, s) n a (f', s').
Proof.
  remember (length (TimedStream.incoming s)) as k eqn:Hk. revert ot f s Hk.
  induction (lt_wf k) as [k _ IHk]. intros ot f s -> Hall.
  destruct (Hall []) as (n & a & st & Hr). remember (f, TimedStream.scripted s []) as st0 eqn:Hst0.
  revert f s Hst0 IHk Hall.
  induction Hr as [a st|t st n a st' Hr IH|X e k st n a st' Hr IH]; intros f s -> IHk Hall.
  - exists 0, a, f, s. constructor.
  - destruct (IH f s eq_refl IHk) as (m & a' & f' & s' & Hm).
    { intros script. destruct (Hall script) as (m & a' & st & Hm%runs_step). by exists (pred m), a', st. }
    exists (S m), a', f', s'. by constructor.
  - pose proof (answer_scripted e f s) as He. destruct (answer_timed X e (f, s)) as [x [f1 s1]] eqn:Hx.
    destruct He as (script1 & Hh1 & Hs1 & Hl).
    assert (ends (observe (k x)) f1 s1) as Hall1.
    { intros script. destruct (Hall (script1 ++ script)) as (m & a' & st & Hm%runs_step).
      cbn [step_tree] in Hm. rewrite Hs1 in Hm. by exists (pred m), a', st. }
    assert (∃ m a' f' s', runs answer_timed (observe (k x)) (f1, s1) m a' (f', s')) as (m & a' & f' & s' & Hm).
    { destruct Hl as [Hl|[Hinc Hsil]]; [by eapply IHk|]. rewrite Hsil in IH.
      apply (IH f1 s1 eq_refl); [by rewrite Hinc|done]. }
    exists (S m), a', f', s'. constructor. by rewrite Hx.
Qed.

End refined.

(** A session's task comes to an end under every script, and under every clock. *)
Lemma session_scripted {F} `{OpenedFileSpec F} (debug : bool) (f : F) (o : options_map)
    (s : TimedStream.t) (n : nat) (script : list arrival) :
  readable f → fresh f → 128 ≤ n →
  ∃ r l f', send debug f o (mkLink (TimedStream.scripted s script) (replicate n zero)) = (r, l) ∧
    does answer (send_task debug o (replicate n zero)) (f, TimedStream.scripted s script) (r, buf l)
      (f', stream l).
Proof.
  intros Hr Hf Hn.
  destruct (session_returns debug f o (TimedStream.scripted s script) n Hr Hf Hn) as (r & l & Hs & Hne & _).
  destruct (send_does debug f o _ r l Hs Hne) as [f' Hd]. by exists r, l, f'.
Qed.

Lemma session_ends_on_clock {F} `{OpenedFileSpec F} (debug : bool) (f : F) (o : options_map)
    (s : TimedStream.t) (n : nat) :
  readable f → fresh f → 128 ≤ n →
  ∃ steps a f' s', runs answer_timed (observe (send_task debug o (replicate n zero))) (f, s) steps a (f', s').
Proof.
  intros Hr Hf Hn. apply ends_on_clock. intros script.
  destruct (session_scripted debug f o s n script Hr Hf Hn) as (r & l & f' & _ & m & Hm).
  by exists m, (r, buf l), (f', stream l).
Qed.

(** C15: whatever the instants at which datagrams and failures come in, a session's task comes
    to an end, and there is a script of what it heard of them, in their order, with expiries
    of the timer in between, under which [send] has the same outcome and sends the same
    datagrams: what is proved for every script holds for every clock. *)
Theorem clock_is_a_script {F} `{OpenedFileSpec F} (debug : bool) (f : F) (o : options_map)
    (s : TimedStream.t) (n : nat) :
  readable f → fresh f → 128 ≤ n →
  ∃ steps script r l f' s',
    runs answer_timed (observe (send_task debug o (replicate n zero))) (f, s) steps (r, buf l) (f', s') ∧
    send debug f o (mkLink (TimedStream.scripted s script) (replicate n zero)) = (r, l) ∧
    heard script ++ events (TimedStream.incoming s') = events (TimedStream.incoming s) ∧
    sent_by (stream l) = sent_by (TimedStream.inner s').
Proof.
  intros Hr Hf Hn. destruct (session_ends_on_clock debug f o s n Hr Hf Hn) as (steps & a & f' & s' & Hclock).
  destruct (runs_scripted _ _ _ _ _ _ _ Hclock) as (script & Hh & Hs). specialize (Hs []).
  rewrite app_nil_r in Hs.
  destruct (session_scripted debug f o s n script Hr Hf Hn) as (r & l & f1 & Hsend & Hd).
  destruct (does_deterministic answer _ _ _ _ _ _ Hd (ex_intro _ steps Hs)) as [<- [= -> Hl]].
  exists steps, script, r, l, f', s'. by rewrite Hl.
Qed.

(** ** A client that does not answer *)

(** A stream on which nothing comes in any more and sends succeed. *)
Definition quiet (peer : SocketAddr) (now : Z) (sent : list (list byte)) (stamps : list Z) : TimedStream.t :=
  TimedStream.mk now [] (stream_of peer [] sent) stamps.

(** [n] instants, one every [period]. *)
Definition instants (start period : Z) (n : nat) : list Z := (λ i, start + Z.of_nat i * period)%Z <$> seq 0 n.

(** A burst of [size] datagrams at each of them. *)
Definition bursts (start period : Z) (n size : nat) : list Z := instants start period n ≫= replicate size.

Lemma instants_S start period n :
  instants start period (S n) = start :: instants (start + period) period n.
Proof.
  unfold instants. cbn [seq fmap list_fmap]. f_equal; [lia|]. rewrite <- fmap_S_seq, <- list_fmap_compose.
  apply list_fmap_ext. intros _ i _. simpl. lia.
Qed.

Lemma bursts_S start period n size :
  bursts start period (S n) size = replicate size start ++ bursts (start + period) period n size.
Proof. unfold bursts. by rewrite instants_S. Qed.

Section quiet.
Context {F : Type} `{OpenedFile F} (peer : SocketAddr) (a : AckTimeout.t).
Abbreviation period := (from_secs (AckTimeout.timeout a)).

Lemma quiet_sends (f : F) now sent stamps bytes :
  does answer_timed (ITree.trigger (SendBytes bytes)) (f, quiet peer now sent stamps) (Ok tt)
    (f, quiet peer now (sent ++ [bytes]) (stamps ++ [now])).
Proof.
  pose proof (does_trigger answer_timed (SendBytes bytes) (f, quiet peer now sent stamps)) as Hd.
  unfold answer_timed, quiet, TimedStream.send in Hd. cbn [TimedStream.inner TimedStream.now] in Hd.
  rewrite send_stream_of in Hd. unfold sent_by in Hd. simpl in Hd.
  rewrite !fmap_app, !length_app, !length_fmap in Hd. simpl in Hd. by rewrite Nat.add_sub_swap, Nat.sub_diag in Hd.
Qed.

Lemma quiet_awaits (f : F) now sent stamps b :
  does answer_timed (read_acknowledge_task a b) (f, quiet peer now sent stamps) (Err RecvError.Timeout, b)
    (f, quiet peer (now + period) sent stamps).
Proof.
  eapply does_bind; [apply (does_trigger answer_timed (RecvWithin a b 4))|]. apply does_ret.
Qed.

Lemma quiet_fires (f : F) e now sent stamps b :
  length (TFTPErr.wire e zero) < length b →
  ∃ x b', does answer_timed (fire_error_task e b) (f, quiet peer now sent stamps) (Ok tt, b')
    (f, quiet peer now (sent ++ [TFTPErr.wire e x]) (stamps ++ [now])).
Proof.
  rewrite TFTPErr.length_wire. intros Hlen.
  destruct (lookup_lt_is_Some_2 b (4 + length (TFTPErr.parse e).2)) as [x Hx]; [lia|].
  destruct (TFTPErr.error_serialize_fits e b x) as (b' & Hs & Hb & Hw); [done..|].
  exists x, b'. unfold fire_error_task. rewrite Hs, range_prefix, Hw by lia.
  eapply does_bind; [apply quiet_sends|]. apply does_ret.
Qed.

Lemma quiet_oack (f : F) n size wire now sent stamps b :
  range 0 size b = Some wire → 37 ≤ length b →
  ∃ x b', does answer_timed (oack_attempts_task n size a b) (f, quiet peer now sent stamps)
    (Err TimedOut, b')
    (f, quiet peer (now + Z.of_nat n * period)
          (sent ++ replicate n wire ++ [TFTPErr.wire (UndefinedError (str "Send timeout occurred")) x])
          (stamps ++ bursts now period n 1 ++ [now + Z.of_nat n * period]%Z)).
Proof.
  intros Hr Hb. revert now sent stamps. induction n as [|n IH]; intros now sent stamps; cbn [oack_attempts_task].
  - destruct (quiet_fires f (TFTPErr.undefined (str "Send timeout occurred")) now sent stamps b)
      as (x & b' & Hf); [change (26 < length b); lia|].
    exists x, b'. rewrite Z.mul_0_l, Z.add_0_r. eapply does_bind; [exact Hf|]. apply does_ret.
  - destruct (IH (now + period)%Z (sent ++ [wire]) (stamps ++ [now])) as (x & b' & Hd). exists x, b'.
    rewrite Hr. eapply does_bind; [apply quiet_sends|]. cbv beta iota.
    eapply does_bind; [apply quiet_awaits|]. cbv beta iota.
    rewrite bursts_S. replace (now + Z.of_nat (S n) * period)%Z with (now + period + Z.of_nat n * period)%Z by lia.
    rewrite <- !app_assoc in Hd. exact Hd.
Qed.

(** A burst that succeeds without a clock. *)
Lemma quiet_burst (f : F) W indices now sent stamps s' :
  send_blocks W indices (stream_of peer [] sent) = (Ok tt, s') →
  ∃ packets, s' = stream_of peer [] (sent ++ packets) ∧
    does answer_timed (send_blocks_task W indices) (f, quiet peer now sent stamps) (Ok tt)
      (f, quiet peer now (sent ++ packets) (stamps ++ replicate (length packets) now)).
Proof.
  intros Hs.
  destruct (burst_does answer_timed
    (λ new, (f, quiet peer now (sent ++ new) (stamps ++ replicate (length new) now))) W indices peer [] sent s' [])
    as (packets & -> & Hd); [|done|].
  - intros new bytes. pose proof (quiet_sends f now (sent ++ new) (stamps ++ replicate (length new) now) bytes) as Hd.
    rewrite length_app, replicate_add, !app_assoc. exact Hd.
  - exists packets. simpl in Hd. by rewrite !app_nil_r in Hd.
Qed.

(** A window is sent again at every expiry, and the exchange fails with the last. *)
Lemma quiet_attempts (f : F) W i count packets n now sent stamps b :
  (∀ sent, send_blocks W (block_indices i count) (stream_of peer [] sent) =
     (Ok tt, stream_of peer [] (sent ++ packets))) →
  does answer_timed (send_attempts_task n W a i count b) (f, quiet peer now sent stamps)
    (Err SendError.Timeout, b)
    (f, quiet peer (now + Z.of_nat n * period) (sent ++ concat (replicate n packets))
          (stamps ++ bursts now period n (length packets))).
Proof.
  intros Hw. revert now sent stamps. induction n as [|n IH]; intros now sent stamps; cbn [send_attempts_task].
  - rewrite Z.mul_0_l, Z.add_0_r, !app_nil_r. apply does_ret.
  - destruct (quiet_burst f W _ now sent stamps _ (Hw sent)) as (packets' & Heq & Hd).
    apply (f_equal sent_by) in Heq. rewrite !sent_by_stream_of in Heq. apply (inj (app sent)) in Heq as <-.
    eapply does_bind; [exact Hd|]. cbv beta iota. eapply does_bind; [apply quiet_awaits|]. cbv beta iota.
    rewrite bursts_S. replace (now + Z.of_nat (S n) * period)%Z with (now + period + Z.of_nat n * period)%Z by lia.
    specialize (IH (now + period)%Z (sent ++ packets) (stamps ++ replicate (length packets) now)).
    rewrite <- !app_assoc in IH. exact IH.
Qed.

End quiet.

Section quiet_session.
Context {F : Type} `{OpenedFileSpec F} (peer : SocketAddr) (debug : bool).

(** The first window, five times. *)
Lemma quiet_send_file (f : F) bs w data a now sent stamps b :
  0 < bs → (Z.of_nat bs < 65536)%Z → 0 < w → (Z.of_nat w < 65536)%Z →
  readable f → remaining f = data → 37 ≤ length b →
  let packets := packet bs data <$> seq 1 (w `min` n_blocks bs data) in
  let period := from_secs (AckTimeout.timeout a) in
  ∃ f' t, l_buffer t = b ∧
    does answer_timed (send_file_task debug (Window.new (Z.of_nat bs) (Z.of_nat w)) a b)
      (f, quiet peer now sent stamps) (Err (UndefinedError (str "Send timeout occurred")), t)
      (f', quiet peer (now + 5 * period) (sent ++ concat (replicate 5 packets))
             (stamps ++ bursts now period 5 (length packets))).
Proof.
  intros Hbs Hbs16 Hw Hw16 Hr Hrem Hb packets period.
  set (t0 := mkTransfer f (Window.new (Z.of_nat bs) (Z.of_nat w)) (mkLink (stream_of peer [] sent) b) 0 0 0 0).
  destruct (transfer_start bs w data Hbs Hbs16 Hw Hw16 f (mkLink (stream_of peer [] sent) b)) as [Hat Hmore _ _ _];
    [done..|]. fold t0 in Hat.
  destruct (fill_window_spec bs w data Hbs Hbs16 Hw Hw16 (Z.to_nat (Z.of_nat w)) 0 0 t0)
    as (t1 & Hfill & Hat1 & Hl1 & Hb1 & Ha1); [done|lia|lia|lia|].
  rewrite Z.sub_0_r, Nat2Z.id, Nat.sub_0_r, Nat.add_0_l, Z.add_0_l in *.
  destruct (fill_window_does answer_timed _ _ _ _ _ (quiet peer now sent stamps) Hfill) as [_ Hd]; [done|].
  pose proof (window_blocks_sent bs w data Hbs Hbs16 Hw Hw16 0 _ t1 Hat1 ltac:(lia)) as Hs.
  rewrite Nat.sub_0_r in Hs. fold packets in Hs.
  exists (opened_file t1), (after_exchange (locals t1) b).
  assert (buf (link t1) = b) as Hb1' by (by rewrite Hl1). split; [done|].
  apply does_iter_done. cbn [send_loop_round l_last_read l_last_acknowledged l_window].
  change (wrapping_sub 0 0) with 0%Z. rewrite (win_size bs w) by (done || apply Hat). settle_all.
  rewrite andb_false_r. eapply does_bind; [exact Hd|]. cbv beta iota.
  cbn [locals l_window l_last_acknowledged l_buffer].
  rewrite (win_size bs w) by (done || apply Hat1). settle_all. rewrite andb_false_r.
  rewrite Ha1, Hb1'. eapply does_bind;
    [apply (quiet_attempts peer a _ _ _ _ packets SEND_ATTEMPTS); intros sent'; apply Hs; right; lia|].
  apply does_ret.
Qed.

(** The datagrams that a session sends before it first waits for its client. *)
Definition first_burst (o : options_map) (data : list byte) : list (list byte) :=
  let oack := OptionsAcknowledge.mk (offered (Z.of_nat (length data)) o) in
  if OptionsAcknowledge.has_options oack then [OptionsAcknowledge.wire oack]
  else packet (granted_block_size o) data <$>
         seq 1 (granted_window_size o `min` n_blocks (granted_block_size o) data).

Definition timeout_report (filler : byte) : list byte :=
  TFTPErr.wire (UndefinedError (str "Send timeout occurred")) filler.

(** What a session without an answer has sent, and when, once it is over. *)
Definition given_up (o : options_map) (data : list byte) (start : Z) (filler : byte) : TimedStream.t :=
  let period := from_secs (AckTimeout.timeout (granted_timeout o)) in
  let burst := first_burst o data in
  quiet peer (start + 5 * period) (concat (replicate 5 burst) ++ [timeout_report filler])
    (bursts start period 5 (length burst) ++ [start + 5 * period]%Z).

Lemma quiet_negotiate (f : F) o now n :
  readable f → fresh f → 128 ≤ n →
  let oack := OptionsAcknowledge.mk (offered (Z.of_nat (length (remaining f))) o) in
  ∃ f' x b, remaining f' = remaining f ∧ readable f' ∧
    if OptionsAcknowledge.has_options oack
    then does answer_timed (negotiate_task o (replicate n zero)) (f, quiet peer now [] []) (Ok None, b)
           (f', given_up o (remaining f) now x)
    else does answer_timed (negotiate_task o (replicate n zero)) (f, quiet peer now [] [])
           (Ok (Some (Window.new (Z.of_nat (granted_block_size o)) (Z.of_nat (granted_window_size o)),
                      granted_timeout o)), replicate n zero)
           (f', quiet peer now [] []).
Proof.
  intros Hr Hf Hn oack. unfold negotiate_task.
  destruct (collect_options_spec f o Hr Hf) as (f' & Hc & Hrem & Hr'). fold oack in Hc.
  pose proof (collect_options_does answer_timed f f' (quiet peer now [] []) o _ Hc) as Hd.
  exists f'. unfold given_up, first_burst. fold oack.
  destruct (OptionsAcknowledge.has_options oack) eqn:Hh.
  - pose proof (length_offered (Z.of_nat (length (remaining f))) o) as Hlen. fold oack in Hlen.
    destruct (OptionsAcknowledge.oack_serialize_zeroed oack n) as (b & Hs & Hb & Hw);
      [lia|by unfold OptionsAcknowledge.has_options in Hh; destruct (OptionsAcknowledge.options oack)|].
    destruct (quiet_oack peer (granted_timeout o) f' SEND_ATTEMPTS (length (OptionsAcknowledge.wire oack))
      (OptionsAcknowledge.wire oack) now [] [] b) as (x & b' & Ho);
      [rewrite range_prefix by lia; by rewrite Hw|lia|].
    exists x, b'. do 2 (split; [done|]). eapply does_bind; [exact Hd|]. cbv beta iota. rewrite Hh.
    eapply does_bind; [unfold send_oack_task; rewrite Hs; exact Ho|]. apply does_ret.
  - exists zero, []. do 2 (split; [done|]). eapply does_bind; [exact Hd|]. cbv beta iota zeta. rewrite Hh.
    destruct (granted_block_size_bounds o) as (_ & _ & ->).
    destruct (granted_window_size_bounds o) as (_ & _ & ->). apply does_ret.
Qed.

Lemma quiet_send (f : F) o now n :
  readable f → fresh f → 128 ≤ n →
  ∃ x b f', does answer_timed (send_task debug o (replicate n zero)) (f, quiet peer now [] []) (Ok tt, b)
    (f', given_up o (remaining f) now x).
Proof.
  intros Hr Hf Hn. unfold send_task.
  destruct (quiet_negotiate f o now n Hr Hf Hn) as (f1 & x & b & Hrem & Hr1 & Hd).
  unfold given_up, first_burst in *.
  destruct (OptionsAcknowledge.has_options _); [exists x, b, f1; eapply does_bind; [exact Hd|apply does_ret]|].
  destruct (granted_block_size_bounds o) as (? & ? & _).
  destruct (granted_window_size_bounds o) as (? & ? & _).
  destruct (quiet_send_file f1 (granted_block_size o) (granted_window_size o) (remaining f) (granted_timeout o)
    now [] [] (replicate n zero)) as (f2 & t & Hb & Hs); [done..|rewrite length_replicate; lia|].
  destruct (quiet_fires peer f2 (UndefinedError (str "Send timeout occurred"))
    (now + 5 * from_secs (AckTimeout.timeout (granted_timeout o)))
    (concat (replicate 5 (packet (granted_block_size o) (remaining f) <$>
       seq 1 (granted_window_size o `min` n_blocks (granted_block_size o) (remaining f)))))
    (bursts now (from_secs (AckTimeout.timeout (granted_timeout o))) 5
       (length (packet (granted_block_size o) (remaining f) <$>
          seq 1 (granted_window_size o `min` n_blocks (granted_block_size o) (remaining f)))))
    (l_buffer t)) as (y & b' & Hfire).
  { rewrite Hb, length_replicate. change (26 < n). lia. }
  exists y, b', f2. eapply does_bind; [exact Hd|]. cbv beta iota. eapply does_bind; [exact Hs|].
  exact Hfire.
Qed.

End quiet_session.

(** C17: a client that does not answer keeps its session for five times the timeout it was
    granted, no less and no more: what the session sends first, the OACK or the first window,
    goes out at the beginning and then again each time a timeout has passed, five times in
    all, and one timeout after the fifth the client is told "Send timeout occurred" and the
    task is over. *)
Theorem silent_client_timed {F} `{OpenedFileSpec F} (peer : SocketAddr) (debug : bool) (f : F)
    (o : options_map) (start : Z) (n : nat) :
  readable f → fresh f → 128 ≤ n →
  ∃ filler steps b f',
    runs answer_timed (observe (send_task debug o (replicate n zero))) (f, quiet peer start [] []) steps
      (Ok tt, b) (f', given_up peer o (remaining f) start filler).
Proof.
  intros Hr Hf Hn. destruct (quiet_send peer debug f o start n Hr Hf Hn) as (x & b & f' & steps & Hd).
  by exists x, steps, b, f'.
Qed.

(** ** The hypotheses can hold *)

(** A stranger's datagram at once, the acknowledgement of the OACK after a second. *)
Definition sample_clock : TimedStream.t :=
  TimedStream.mk 0 [(1%Z, CameIn (SocketAddr_new (V4 7) 9) (str "xyz"));
                    (from_secs 1, CameIn sample_peer (ack_payload 0 []))] (stream_of sample_peer [] []) [].

Lemma clock_is_a_script_witness :
  ∃ steps script r l f' s',
    runs answer_timed (observe (send_task true small_options (replicate 128 zero))) (sample_file, sample_clock)
      steps (r, buf l) (f', s') ∧
    send true sample_file small_options (mkLink (TimedStream.scripted sample_clock script) (replicate 128 zero))
      = (r, l) ∧
    heard script ++ events (TimedStream.incoming s') = events (TimedStream.incoming sample_clock) ∧
    sent_by (stream l) = sent_by (TimedStream.inner s').
Proof.
  apply (clock_is_a_script true sample_file small_options); [vm_compute; lia|reflexivity|lia].
Defined.

Lemma silent_client_timed_witness :
  ∃ filler steps b f',
    runs answer_timed (observe (send_task true small_options (replicate 128 zero)))
      (sample_file, quiet sample_peer 0 [] []) steps (Ok tt, b)
      (f', given_up sample_peer small_options (remaining sample_file) 0 filler).
Proof.
  apply (silent_client_timed sample_peer true sample_file small_options); [vm_compute; lia|reflexivity|lia].
Defined.

(** With the clock of the sample: the OACK, the first window as soon as it is acknowledged,
    and four more times. *)
Example sample_clock_stamps :
  let '(ot, (_, s)) := after answer_timed 200 (observe (send_task true small_options (replicate 128 zero)))
    (sample_file, sample_clock) in
  match ot with RetF (r, _) => r = Ok tt | _ => False end ∧
  TimedStream.stamps s = 0%Z :: bursts (from_secs 1) (from_secs 5) 5 2 ++ [from_secs 26].
Proof. vm_compute. done. Qed.
