(* ===== verification/Duration.v ===== *)
(** * Duration: how long a session can last, src/src/peer_handler/mod.rs

    Over the clock of Timed: a session waits for its client five timeouts at most, and only
    what it receives can make it wait again. *)

From S2P Require Import Prelude Text Cursor Errors Fs Options Messages Net Window Session Transfer Delivery Negotiation AsyncSession Timed.
From ITree Require Import Basics.Basics Core.ITreeDefinition Eq.Shallow.

(** ** A run of a sequence is a run of each *)

Section inversion.
Context {S : Type} (h : handler S).

Lemma runs_ret_inv {A} (ot : itree' sessionE A) s n b s' :
  runs h ot s n b s' → match ot with RetF a => n = 0 ∧ b = a ∧ s' = s | _ => 0 < n end.
Proof. destruct 1; [done|lia..]. Qed.

Lemma runs_bind_inv {A B} (k : A → itree sessionE B) n : ∀ (t : itree sessionE A) s b s'',
  runs h (observe (ITree.bind t k)) s n b s'' →
  ∃ n1 a s' n2, n = n1 + n2 ∧ runs h (observe t) s n1 a s' ∧ runs h (observe (k a)) s' n2 b s''.
Proof.
  induction n as [|n IH]; intros t s b s'' Hr; rewrite observe_bind in Hr;
    destruct (observe t) as [a|u|X e ke].
  1, 4: exists 0, a, s; eexists; (split; [reflexivity|]); (split; [constructor|exact Hr]).
  1, 2: apply runs_ret_inv in Hr; simpl in Hr; lia.
  - apply runs_step in Hr. destruct (IH u s b s'' Hr) as (n1 & a & s1 & n2 & -> & H1 & H2).
    exists (Datatypes.S n1), a, s1, n2. split; [done|]. split; [by constructor|done].
  - apply runs_step in Hr. cbn [step_tree observe _observe] in Hr. destruct (h X e s) as [x s1] eqn:E.
    destruct (IH (ke x) s1 b s'' Hr) as (n1 & a & s2 & n2 & -> & H1 & H2).
    exists (Datatypes.S n1), a, s2, n2. split; [done|]. split; [constructor; by rewrite E|done].
Qed.

Lemma runs_trigger_inv {X} (e : sessionE X) s n x s' :
  runs h (observe (ITree.trigger e)) s n x s' → h X e s = (x, s').
Proof.
  intros Hr%runs_step. cbn [step_tree observe _observe ITree.trigger] in Hr. destruct (h X e s) as [y s1].
  apply runs_ret_inv in Hr as (_ & -> & ->). done.
Qed.

End inversion.

(** ** What a task spends *)

(** The same relation of the same sums. *)
Local Ltac same_account Hk :=
  cbv beta in Hk; match goal with |- ?Q _ ?x ?y =>
    match type of Hk with Q _ ?x' ?y' => replace x with x' by lia; replace y with y' by lia; exact Hk end
  end.

Section costs.
Context {F : Type} `{OpenedFile F}.

(** However the task is run, its outcome, the time that passes and the number of datagrams
    and failures it receives are in the given relation. *)
Definition costs {A} (t : itree sessionE A) (Q : A → Z → Z → Prop) : Prop :=
  ∀ (f : F) s n a f' s', runs answer_timed (observe t) (f, s) n a (f', s') →
    Q a (TimedStream.now s' - TimedStream.now s)%Z
      (Z.of_nat (length (TimedStream.incoming s)) - Z.of_nat (length (TimedStream.incoming s')))%Z.

Lemma costs_ret {A} (a : A) (Q : A → Z → Z → Prop) : Q a 0%Z 0%Z → costs (Ret a) Q.
Proof. intros HQ f s n b f' s' (_ & -> & [= -> ->])%runs_ret_inv. by rewrite !Z.sub_diag. Qed.

Lemma costs_mono {A} (t : itree sessionE A) (P Q : A → Z → Z → Prop) :
  costs t P → (∀ a e k, P a e k → Q a e k) → costs t Q.
Proof. intros Ht HPQ f s n a f' s' Hr. by eapply HPQ, Ht. Qed.

Lemma costs_bind {A B} (t : itree sessionE A) (k : A → itree sessionE B) P (Q : B → Z → Z → Prop) :
  costs t P → (∀ a e1 k1, P a e1 k1 → costs (k a) (λ b e2 k2, Q b (e1 + e2) (k1 + k2))%Z) →
  costs (ITree.bind t k) Q.
Proof.
  intros Ht Hk f s n b f' s' (n1 & a & [f1 s1] & n2 & _ & H1 & H2)%runs_bind_inv.
  specialize (Hk _ _ _ (Ht _ _ _ _ _ _ H1) _ _ _ _ _ _ H2).
  same_account Hk.
Qed.

(** A loop spends what its rounds spend, for an account that rounds add up in. *)
Lemma costs_iter {I A} (body : I → itree sessionE (I + A)) (Inv : Z → Z → Prop) (Q : A → Z → Z → Prop) :
  (∀ i e1 k1, Inv e1 k1 →
     costs (body i) (λ r e2 k2, match r with inl _ => Inv (e1 + e2) (k1 + k2)
                                | inr a => Q a (e1 + e2) (k1 + k2) end)%Z) →
  ∀ i e1 k1, Inv e1 k1 → costs (ITree.iter body i) (λ a e2 k2, Q a (e1 + e2) (k1 + k2))%Z.
Proof.
  intros Hbody i e1 k1 Hi f s n. revert i e1 k1 Hi f s.
  induction (lt_wf n) as [n _ IH]. intros i e1 k1 Hi f s a f' s' Hr.
  change (observe (ITree.iter body i)) with
    (observe (ITree.bind (body i) (λ lr, match lr with inl l => Tau (ITree.iter body l) | inr r => Ret r end))) in Hr.
  apply runs_bind_inv in Hr as (n1 & r & [f1 s1] & n2 & -> & H1 & H2).
  specialize (Hbody i e1 k1 Hi f s n1 r f1 s1 H1). cbv beta in Hbody. destruct r as [j|b].
  - assert (0 < n2) as Hn by (by apply runs_ret_inv in H2). apply runs_step in H2.
    specialize (IH (pred n2) ltac:(lia) j _ _ Hbody f1 s1 a f' s' H2).
    same_account IH.
  - apply runs_ret_inv in H2 as (_ & -> & [= -> ->]). done.
Qed.

End costs.

(** ** The functions *)

Lemma recv_until_costs deadline now peer m inc buffer r now' inc' buffer' :
  TimedStream.recv_until deadline now peer m inc buffer = (r, (now', inc', buffer')) → (now ≤ deadline)%Z →
  (now ≤ now' ≤ deadline)%Z ∧ length inc' ≤ length inc ∧ (is_Some r → length inc' < length inc).
Proof.
  revert now buffer. induction inc as [|[instant ev] inc IH]; intros now buffer; simpl.
  { intros [= <- <- <- <-] Hn. simpl. split; [lia|]. split; [lia|by intros [? ?]]. }
  destruct (Z.ltb_spec deadline instant).
  { intros [= <- <- <- <-] Hn. split; [lia|]. split; [simpl; lia|by intros [? ?]]. }
  destruct ev as [from payload|kind].
  - set (b' := take _ _ ++ drop _ _). intros Hr Hn.
    assert (r = Some (Ok (length payload `min` length buffer)) ∧ now' = Z.max now instant ∧ inc' = inc ∨
      TimedStream.recv_until deadline (Z.max now instant) peer m inc b' = (r, (now', inc', buffer')))
      as [(-> & -> & ->)|Hr'].
    { destruct (decide _); [by right|]. destruct (_ <? m); [by right|]. left. by injection Hr as <- <- <- <-. }
    + split; [lia|]. simpl. split; [lia|intros; lia].
    + destruct (IH _ _ Hr') as (? & ? & Hlt); [lia|]. split; [lia|]. simpl. split; [lia|]. intros Hs%Hlt. lia.
  - intros [= <- <- <- <-] Hn. split; [lia|]. simpl. split; [lia|intros; lia].
Qed.

Section duration.
Context {F : Type} `{OpenedFile F}.
Local Abbreviation costs := (costs (F := F)).

(** No time passes and nothing is received. *)
Definition free {A} (t : itree sessionE A) : Prop := costs t (λ _ e k, e = 0 ∧ k = 0)%Z.

Lemma free_trigger {X} (e : sessionE X) :
  match e with RecvWithin _ _ _ => False | _ => True end → free (ITree.trigger e).
Proof.
  intros He f s n x f' s' Hr%runs_trigger_inv. destruct e as [buffer| |bytes|]; [..|done]; simpl in Hr.
  - destruct (read_to f buffer) as [r [b f1]]. injection Hr as <- <- <-. by rewrite !Z.sub_diag.
  - destruct (get_size f) as [r f1]. injection Hr as <- <- <-. by rewrite !Z.sub_diag.
  - unfold TimedStream.send in Hr. destruct (DatagramStream.send _ _) as [r s1]. injection Hr as <- <- <-.
    simpl. by rewrite !Z.sub_diag.
Qed.

Lemma free_ret {A} (a : A) : free (Ret a).
Proof. by apply costs_ret. Qed.

(** What comes after a call that is free. *)
Lemma free_bind {A B} (t : itree sessionE A) (k : A → itree sessionE B) (Q : B → Z → Z → Prop) :
  free t → (∀ a, costs (k a) Q) → costs (ITree.bind t k) Q.
Proof. intros Ht Hk. eapply costs_bind; [exact Ht|]. intros a e k1 [-> ->]. apply Hk. Qed.

Lemma fire_error_free e b : free (fire_error_task e b).
Proof.
  unfold fire_error_task. destruct (TFTPErr.serialize e b) as [[n|err|h] b']; [|apply free_ret..].
  destruct (range 0 n b'); [|apply free_ret]. apply free_bind; [by apply free_trigger|]. intros. apply free_ret.
Qed.

Lemma send_blocks_free W indices : free (send_blocks_task W indices).
Proof.
  induction indices as [|i indices IH]; simpl; [apply free_ret|]. apply free_bind.
  - unfold window_send_task. destruct (_ ≫= _); [by apply free_trigger|apply free_ret].
  - intros [u|err|h]; [exact IH|apply free_ret..].
Qed.

Lemma push_block_free W i : free (push_block_task W i).
Proof.
  unfold push_block_task. destruct (Window.buffer W i) as [[slot bytes]|]; [|apply free_ret].
  destruct (Window.write_header i bytes); [|apply free_ret]. apply free_bind; [by apply free_trigger|].
  intros [[r|err|h] tail]; apply free_ret.
Qed.

Lemma fill_window_free to_send t : free (fill_window_task to_send t).
Proof.
  apply (costs_iter _ (λ e k, e = 0 ∧ k = 0)%Z (λ _ e k, e = 0 ∧ k = 0)%Z) with (e1 := 0%Z) (k1 := 0%Z); [|done].
  intros [to t'] e1 k1 [-> ->]. unfold fill_window_round.
  destruct (negb _); [by apply costs_ret|]. apply free_bind; [apply push_block_free|].
  intros [[[n []]|err|h] W']; by apply costs_ret.
Qed.

(** At most [n] timeouts, and a success is something received. *)
Definition within (T : Z) (n : nat) {E A B} (r : res E A * B) (e k : Z) : Prop :=
  (0 ≤ e ≤ Z.of_nat n * T ∧ 0 ≤ k ∧ ∀ v, r.1 = Ok v → 1 ≤ k)%Z.

Context (a : AckTimeout.t) (Ha : (0 ≤ AckTimeout.timeout a)%Z).
Abbreviation period := (from_secs (AckTimeout.timeout a)).

Lemma period_nonneg : (0 ≤ period)%Z.
Proof using Ha. unfold from_secs. lia. Qed.

Lemma recv_costs buffer m : costs (ITree.trigger (RecvWithin a buffer m)) (within period 1).
Proof using Ha.
  intros f s n x f' s' Hr%runs_trigger_inv. simpl in Hr. unfold TimedStream.recv_within in Hr.
  destruct (TimedStream.recv_until _ _ _ _ _ _) as [r [[now' inc'] b']] eqn:E.
  apply recv_until_costs in E as (? & ? & Hlt); [|pose proof period_nonneg; lia].
  destruct r as [out|]; injection Hr as <- <- <-; unfold within; simpl.
  - specialize (Hlt ltac:(by eexists)). split; [lia|]. split; [lia|]. intros. lia.
  - split; [lia|]. split; [lia|done].
Qed.

Lemma read_acknowledge_costs b : costs (read_acknowledge_task a b) (within period 1).
Proof using Ha.
  unfold read_acknowledge_task. eapply costs_bind; [apply recv_costs|]. intros [r b'] e1 k1 (? & ? & Hok).
  apply costs_ret. unfold within in *. rewrite !Z.add_0_r. simpl in *. split; [done|]. split; [done|].
  intros v. destruct r as [x|err|h]; [|done..]. intros _. by apply (Hok x).
Qed.

Lemma send_attempts_costs n W i count b :
  costs (send_attempts_task n W a i count b) (within period n).
Proof using Ha.
  pose proof period_nonneg. revert b. induction n as [|n IH]; intros b; cbn [send_attempts_task];
    [by apply costs_ret|].
  apply free_bind; [apply send_blocks_free|]. intros [u|err|h]; [|apply costs_ret; split_and!; done || lia..].
  eapply costs_bind; [apply read_acknowledge_costs|]. intros [r b'] e1 k1 (? & ? & Hok). simpl in Hok.
  destruct r as [v|[| |code m|]|h]; try (apply costs_ret; split; [lia|]; split; [lia|done]).
  - specialize (Hok v eq_refl). destruct (i <=? v)%Z; [apply costs_ret; split; [lia|]; split; [lia|intros; lia]|].
    apply free_bind; [apply fire_error_free|]. intros [r2 b2]. apply costs_ret. split; [lia|]. split; [lia|intros; lia].
  - eapply costs_mono; [apply IH|]. intros [r2 b2] e2 k2 (? & ? & Hok2). split; [lia|]. split; [lia|].
    intros v Hv. specialize (Hok2 v Hv). lia.
Qed.

Lemma oack_attempts_costs n size b : costs (oack_attempts_task n size a b) (within period n).
Proof using Ha.
  pose proof period_nonneg. revert b. induction n as [|n IH]; intros b; cbn [oack_attempts_task].
  { apply free_bind; [apply fire_error_free|]. intros [[]  b2]; by apply costs_ret. }
  destruct (range 0 size b); [|apply costs_ret; split; [lia|done]].
  apply free_bind; [by apply free_trigger|]. intros [u|err|h]; [|apply costs_ret; split; [lia|done]..].
  eapply costs_bind; [apply read_acknowledge_costs|]. intros [r b'] e1 k1 (? & ? & Hok). simpl in Hok.
  destruct r as [v|[| |code m|]|h]; try (apply costs_ret; split; [lia|]; split; [lia|done]).
  - specialize (Hok v eq_refl). destruct (v =? 0)%Z; [apply costs_ret; split; [lia|]; split; [lia|intros; lia]|].
    apply free_bind; [apply fire_error_free|]. intros [r2 b2]. apply costs_ret. split; [lia|]. split; [lia|intros; lia].
  - eapply costs_mono; [apply IH|]. intros [r2 b2] e2 k2 (? & ? & Hok2). split; [lia|]. split; [lia|].
    intros v Hv. specialize (Hok2 v Hv). lia.
Qed.

(** Five timeouts, and five more for everything received. *)
Definition bounded (e k : Z) : Prop := (0 ≤ e ≤ 5 * period * (k + 1) ∧ 0 ≤ k)%Z.

(** With nothing left over from what was received. *)
Definition paid (e k : Z) : Prop := (0 ≤ e ≤ 5 * period * k ∧ 0 ≤ k)%Z.

Lemma paid_bounded e k : paid e k → bounded e k.
Proof using Ha. pose proof period_nonneg. unfold paid, bounded. lia. Qed.

Lemma paid_success {E A B} (r : res E A * B) e1 k1 e2 k2 :
  paid e1 k1 → within period 5 r e2 k2 →
  bounded (e1 + e2) (k1 + k2) ∧ ((∃ v, r.1 = Ok v) → paid (e1 + e2) (k1 + k2)).
Proof using Ha.
  pose proof period_nonneg. unfold paid, bounded, within. intros (? & ?) (? & ? & Hok). split; [nia|].
  intros [v Hv]. specialize (Hok v Hv). nia.
Qed.

Lemma send_file_costs debug W b e1 k1 :
  paid e1 k1 → costs (send_file_task debug W a b) (λ _ e k, bounded (e1 + e) (k1 + k)).
Proof using Ha.
  intros Hpaid. apply (costs_iter _ paid (λ _, bounded)); [|done]. clear e1 k1 Hpaid.
  intros [fin t] e1 k1 Hpaid. pose proof (paid_bounded _ _ Hpaid) as Hb. unfold send_loop_round.
  destruct fin; [apply costs_ret; by rewrite !Z.add_0_r|].
  destruct (debug && _); [apply costs_ret; by rewrite !Z.add_0_r|].
  apply free_bind; [apply fill_window_free|].
  intros [[[fin' to_send]|err|h] t']; [|apply costs_ret; by rewrite !Z.add_0_r..].
  destruct (debug && _); [apply costs_ret; by rewrite !Z.add_0_r|].
  eapply costs_bind; [apply (send_attempts_costs SEND_ATTEMPTS)|].
  intros [r b'] e2 k2 Hr. destruct (paid_success _ _ _ _ _ Hpaid Hr) as [Hall Hok].
  destruct r as [v|[| |code m|]|h]; apply costs_ret; rewrite !Z.add_0_r; try done. apply Hok. by exists v.
Qed.

Lemma send_oack_costs oack b : costs (send_oack_task oack a b) (within period 5).
Proof using Ha.
  pose proof period_nonneg. unfold send_oack_task.
  destruct (OptionsAcknowledge.serialize oack b) as [[n|err|h] b'].
  - apply (oack_attempts_costs SEND_ATTEMPTS).
  - apply free_bind; [apply fire_error_free|]. intros [[] b2]; apply costs_ret; (split; [lia|done]).
  - apply costs_ret. split; [lia|done].
Qed.

End duration.

Section session_duration.
Context {F : Type} `{OpenedFile F} (o : options_map).
Local Abbreviation costs := (costs (F := F)).

Lemma collect_options_costs :
  costs (collect_options_task o)
    (λ r e k, e = 0 ∧ k = 0 ∧ ∀ oack a b w, r = Ok (oack, a, b, w) → a = granted_timeout o)%Z.
Proof.
  unfold collect_options_task, granted_timeout.
  destruct (AckTimeout.find_in o), (Blksize.find_in o), (TSize.is_requested o);
    (apply free_bind;
     [first [apply free_ret|apply free_bind; [by apply free_trigger|intros [?|?|?]; apply free_ret]]|]);
    intros [oack|err|h]; destruct (WindowSize.find_in o); apply costs_ret; (split; [done|]); (split; [done|]);
    intros; by simplify_eq/=.
Qed.

Lemma granted_timeout_nonneg : (0 ≤ AckTimeout.timeout (granted_timeout o))%Z.
Proof. destruct (find_in_bounds o) as (_ & ? & _). unfold granted_timeout. lia. Qed.

Lemma send_task_costs debug b :
  costs (send_task debug o b) (λ _, bounded (granted_timeout o)).
Proof.
  pose proof granted_timeout_nonneg as Ha. set (T := granted_timeout o) in *.
  assert (paid T 0 0) as H0 by (pose proof (period_nonneg T Ha); unfold paid; lia).
  pose proof (paid_bounded T Ha _ _ H0) as H0b.
  unfold send_task. apply costs_bind with (P := λ r e k, match r.1 with Ok (Some (W, a)) => a = T ∧ paid T e k
                                                         | _ => bounded T e k end).
  - unfold negotiate_task. eapply costs_bind; [apply collect_options_costs|].
    intros [[[[oack a] block_size] window_size]|err|h] e k (-> & -> & Hg); [|apply costs_ret; done..].
    specialize (Hg _ _ _ _ eq_refl). subst a. fold T.
    destruct (OptionsAcknowledge.has_options oack); [|apply costs_ret; by split].
    eapply costs_bind; [by apply send_oack_costs|]. intros [r b'] e k Hr.
    destruct (paid_success T Ha (r, b') _ _ _ _ H0 Hr) as [Hall Hok].
    destruct r as [u|err|h]; apply costs_ret; rewrite ?Z.add_0_r; simpl; try done. split; [done|]. apply Hok. by exists u.
  - intros [r b'] e1 k1 Hr. destruct r as [[[W a]|]|err|h]; simpl in Hr; try (apply costs_ret; by rewrite !Z.add_0_r).
    destruct Hr as [-> Hpaid]. eapply costs_bind; [by apply send_file_costs|].
    intros [sent t] e2 k2 Hall. cbv beta in Hall. destruct sent as [x|err|h]; [apply costs_ret; by rewrite !Z.add_0_r| |
      apply costs_ret; by rewrite !Z.add_0_r].
    eapply costs_mono; [apply fire_error_free|]. intros u e3 k3 [-> ->]. by rewrite !Z.add_0_r.
Qed.

End session_duration.

(** C10: a session ends in time.  Whatever comes in and when, the task of an accepted request
    comes to an end, and from its start to its end no more than five times the granted
    timeout has passed for each datagram or failure that it has received meanwhile, strangers'
    included, and five times the timeout once more: who wants to keep a session has to keep
    sending. *)
Theorem session_duration {F} `{OpenedFileSpec F} (debug : bool) (f : F) (o : options_map)
    (s : TimedStream.t) (n : nat) :
  readable f → fresh f → 128 ≤ n →
  ∃ steps r b f' s' received,
    runs answer_timed (observe (send_task debug o (replicate n zero))) (f, s) steps (r, b) (f', s') ∧
    length (TimedStream.incoming s) = received + length (TimedStream.incoming s') ∧
    (TimedStream.now s ≤ TimedStream.now s' ≤
     TimedStream.now s + 5 * from_secs (AckTimeout.timeout (granted_timeout o)) * (Z.of_nat received + 1))%Z.
Proof.
  intros Hr Hf Hn. destruct (session_ends_on_clock debug f o s n Hr Hf Hn) as (steps & [r b] & f' & s' & Hruns).
  destruct (send_task_costs o debug (replicate n zero) f s steps _ f' s' Hruns) as [Htime Hreceived].
  exists steps, r, b, f', s', (length (TimedStream.incoming s) - length (TimedStream.incoming s')).
  split; [done|]. split; [lia|]. rewrite Nat2Z.inj_sub by lia. lia.
Qed.

Lemma session_duration_witness :
  ∃ steps r b f' s' received,
    runs answer_timed (observe (send_task true small_options (replicate 128 zero))) (sample_file, sample_clock)
      steps (r, b) (f', s') ∧
    length (TimedStream.incoming sample_clock) = received + length (TimedStream.incoming s') ∧
    (TimedStream.now sample_clock ≤ TimedStream.now s' ≤
     TimedStream.now sample_clock +
       5 * from_secs (AckTimeout.timeout (granted_timeout small_options)) * (Z.of_nat received + 1))%Z.
Proof.
  apply (session_duration true sample_file small_options); [vm_compute; lia|reflexivity|lia].
Defined.
