(* ===== verification/Paths.v ===== *)
(** * Paths: what the program uses of [std::path] on Unix

    A path is its bytes.  [join] appends a relative path, and replaces the whole by an
    absolute one; [starts_with] compares component by component, where empty components
    and dots are not components, and a parent directory [..] is one like any other. *)

From S2P Require Import Prelude Text.

Inductive component : Type :=
| RootDir
| CurDir
| ParentDir
| Normal (name : rstring).

#[global] Instance component_eq_dec : EqDecision component.
Proof. solve_decision. Defined.

Fixpoint split_slash (p : rstring) : list rstring :=
  match p with
  | [] => [[]]
  | b :: p' =>
      if decide (b = slash) then [] :: split_slash p'
      else match split_slash p' with
           | s :: ss => (b :: s) :: ss
           | [] => [[b]]
           end
  end.

Definition has_root (p : rstring) : bool :=
  match p with b :: _ => bool_decide (b = slash) | [] => false end.

(** A leading dot is a component, a later one is not. *)
Definition segment (leading : bool) (s : rstring) : list component :=
  if decide (s = []) then []
  else if decide (s = str ".") then (if leading then [CurDir] else [])
  else if decide (s = str "..") then [ParentDir]
  else [Normal s].

Definition components (p : rstring) : list component :=
  (if has_root p then [RootDir] else []) ++
  match split_slash p with
  | [] => []
  | s :: ss => segment true s ++ (ss ≫= segment false)
  end.

(** [PathBuf::push] on a copy. *)
Definition join (base p : rstring) : rstring :=
  if has_root p then p
  else if decide (base = [] ∨ last base = Some slash) then base ++ p
  else base ++ slash :: p.

Definition path_starts_with (p base : rstring) : bool :=
  bool_decide (take (length (components base)) (components p) = components base).

(** [Path::file_name]: the last component, if it is a name. *)
Definition file_name (p : rstring) : option rstring :=
  match last (components p) with
  | Some (Normal name) => Some name
  | _ => None
  end.

Lemma split_slash_cons p : ∃ s ss, split_slash p = s :: ss.
Proof.
  induction p as [|b p (s & ss & IH)]; simpl; [eauto|]. case_decide; [eauto|]. rewrite IH. eauto.
Qed.

Lemma split_slash_app a b : split_slash (a ++ slash :: b) = split_slash a ++ split_slash b.
Proof.
  induction a as [|x a IH]; simpl; [done|].
  case_decide; [by rewrite IH|]. rewrite IH.
  destruct (split_slash_cons a) as (s & ss & ->). done.
Qed.

(** What is appended after a slash leaves the components before it alone. *)
Lemma components_app a b :
  a ≠ [] → components (a ++ slash :: b) = components a ++ (split_slash b ≫= segment false).
Proof.
  intros Ha. unfold components. rewrite split_slash_app.
  replace (has_root (a ++ slash :: b)) with (has_root a) by (by destruct a).
  destruct (split_slash_cons a) as (s & ss & ->). simpl. by rewrite bind_app, !app_assoc.
Qed.

Lemma components_trailing_slash a : a ≠ [] → components (a ++ [slash]) = components a.
Proof. intros Ha. rewrite components_app by done. simpl. by rewrite app_nil_r. Qed.

Lemma components_root p : components (slash :: p) = RootDir :: (split_slash p ≫= segment false).
Proof. done. Qed.

(** A relative path joined to a base adds its components to those of the base. *)
Lemma components_join base p :
  base ≠ [] → has_root p = false →
  components (join base p) = components base ++ (split_slash p ≫= segment false).
Proof.
  intros Hb Hp. unfold join. rewrite Hp. case_decide as Hd; [|by apply components_app].
  destruct Hd as [->|Hl]; [done|]. apply last_Some in Hl as [base' ->].
  rewrite <- app_assoc. simpl. destruct base' as [|x base']; [done|].
  by rewrite components_trailing_slash, components_app by done.
Qed.

Lemma join_starts_with base p : has_root p = false → path_starts_with (join base p) base = true.
Proof.
  intros Hp. apply bool_decide_eq_true.
  destruct (decide (base = [])) as [->|Hb]; [by rewrite take_0|].
  by rewrite components_join, take_app_length by done.
Qed.

Lemma trim_start_relative s : has_root (trim_start_slashes s) = false.
Proof.
  induction s as [|b s IH]; simpl; [done|]. case_decide; [done|]. simpl. by apply bool_decide_eq_false.
Qed.

(** ** Lexical resolution

    What a path names once [.] and [..] are followed, in a tree without symbolic links:
    the parent of the root is the root. *)

Definition resolve_step (at_dir : list component) (c : component) : list component :=
  match c with
  | CurDir => at_dir
  | ParentDir => match at_dir with [] | [RootDir] => at_dir | _ => take (length at_dir - 1) at_dir end
  | _ => at_dir ++ [c]
  end.

Definition resolve (cs : list component) : list component := foldl resolve_step [] cs.

(** [dots k t] climbs [k] directories and then follows [t]. *)
Definition dots (k : nat) (t : rstring) : rstring := concat (replicate k (str "../")) ++ t.

Lemma split_dots k t : split_slash (dots k t) = replicate k (str "..") ++ split_slash t.
Proof.
  induction k as [|k IH]; [done|].
  change (dots (S k) t) with (str ".." ++ slash :: dots k t). by rewrite split_slash_app, IH.
Qed.

Lemma dots_relative k t : 0 < k → has_root (dots k t) = false.
Proof. by destruct k; [lia|]. Qed.

Lemma replicate_parents k : (replicate k (str "..") ≫= segment false) = replicate k ParentDir.
Proof.
  induction k as [|k IH]; [done|]. rewrite !replicate_S, bind_cons, IH. done.
Qed.

(** Resolution of an absolute path stays below the root and never gets longer than its
    components; enough parents lead back to the root. *)
Lemma resolve_rooted cs :
  ∃ rest, foldl resolve_step [RootDir] cs = RootDir :: rest ∧ length rest ≤ length cs.
Proof.
  induction cs as [|c cs (rest & IH & Hl)] using rev_ind; [by exists []|].
  rewrite foldl_app, IH, length_app. simpl. destruct c; simpl.
  - exists (rest ++ [RootDir]). rewrite length_app. simpl. split; [done|lia].
  - exists rest. split; [done|lia].
  - destruct rest as [|r rest]; [exists []; simpl; split; [done|lia]|]. exists (take (length rest) (r :: rest)).
    split; [by rewrite Nat.sub_0_r|]. rewrite length_take. simpl in *. lia.
  - exists (rest ++ [Normal name]). rewrite length_app. simpl. split; [done|lia].
Qed.

Lemma resolve_parents k rest :
  length rest ≤ k → foldl resolve_step (RootDir :: rest) (replicate k ParentDir) = [RootDir].
Proof.
  revert rest. induction k as [|k IH]; intros rest Hk; simpl; [by destruct rest; [|simpl in *; lia]|].
  destruct rest as [|r rest]; [apply (IH []); simpl; lia|]. rewrite Nat.sub_0_r. simpl.
  apply IH. rewrite length_take. simpl in *. lia.
Qed.

Lemma resolve_escapes base t :
  has_root base = true →
  resolve (components (join base (dots (length (components base)) t))) =
  resolve (components (slash :: t)).
Proof.
  intros Hb. destruct base as [|b base]; [done|].
  assert (∃ cs, components (b :: base) = RootDir :: cs) as [cs Hcs].
  { unfold components. rewrite Hb. eauto. }
  rewrite components_join; [|done|apply dots_relative; rewrite Hcs; simpl; lia].
  rewrite split_dots, bind_app, replicate_parents, components_root, Hcs.
  unfold resolve. rewrite foldl_app. cbn [foldl]. change (resolve_step [] RootDir) with [RootDir].
  destruct (resolve_rooted cs) as (rest & -> & Hl).
  rewrite foldl_app, resolve_parents; [done|simpl; lia].
Qed.
