(* ===== verification/LocalFs.v ===== *)
(** * LocalFs: src/src/local_fs/mod.rs

    Files of the server's own file system.  What the operating system does is a
    parameter: [os_open] opens a path for reading, and the [File] it returns carries the
    script of its reads and seeks, as a socket does in Net.  With the script used up a
    read returns as much as is left and a seek succeeds, as on a regular file. *)

From S2P Require Import Prelude Text Errors Fs Options Paths Messages Net Window Session Delivery.

Inductive read_outcome : Type :=
| ReadFull
| ReadShort (most : nat)
| ReadFailed (kind : ErrorKind).

Module File.

Record t : Type := mk {
  contents : list byte;
  position : nat;
  reads : list read_outcome;
  seeks : list (option ErrorKind);
}.

(** A read of a regular file returns nothing only at its end. *)
Definition read_upto (most : nat) (buffer : list byte) (self : t) (rest : list read_outcome)
  : res ErrorKind nat * (list byte * t) :=
  let n := (length buffer `min` length (drop (position self) (contents self))) `min` most in
  (Ok n, (take n (drop (position self) (contents self)) ++ drop n buffer,
          mk (contents self) (position self + n) rest (seeks self))).

Definition read (self : t) (buffer : list byte) : res ErrorKind nat * (list byte * t) :=
  match reads self with
  | [] => read_upto (length buffer) buffer self []
  | ReadFull :: rest => read_upto (length buffer) buffer self rest
  | ReadShort most :: rest => read_upto (S most) buffer self rest
  | ReadFailed kind :: rest =>
      (Err kind, (buffer, mk (contents self) (position self) rest (seeks self)))
  end.

Inductive SeekFrom : Type :=
| Start (offset : Z)
| End (offset : Z).

Definition seek (self : t) (from : SeekFrom) : res ErrorKind Z * t :=
  match seeks self with
  | Some kind :: rest => (Err kind, mk (contents self) (position self) (reads self) rest)
  | s =>
      let target := match from with
                    | Start offset => offset
                    | End offset => (Z.of_nat (length (contents self)) + offset)%Z
                    end in
      if (target <? 0)%Z
      then (Err InvalidInput, mk (contents self) (position self) (reads self) (tail s))
      else (Ok target, mk (contents self) (Z.to_nat target) (reads self) (tail s))
  end.

End File.

Class FileSystem : Type := { os_open : rstring → res ErrorKind File.t }.

Module LocalOpenedFile.

Record t : Type := mk { rd : File.t; display : rstring }.

Definition read_into (self : t) (buffer : list byte) : res ErrorKind nat * (list byte * t) :=
  match File.read (rd self) buffer with
  | (Ok result, (buffer', rd')) => (Ok result, (buffer', mk rd' (display self)))
  | (Err e, (buffer', rd')) => (Err e, (buffer', mk rd' (display self)))
  | (Stop h, (buffer', rd')) => (Stop h, (buffer', mk rd' (display self)))
  end.

(** The first seek is to the start, so the position it returns, and restores, is 0. *)
Definition size (self : t) : res ErrorKind Z * t :=
  let with_rd '(r, rd') := (r, mk rd' (display self)) in
  with_rd (
    let? (current_pos, rd1) := File.seek (rd self) (File.Start 0) in
    let? (result, rd2) := File.seek rd1 (File.End 0) in
    let? (_, rd3) := File.seek rd2 (File.Start current_pos) in
    (Ok (as_usize result), rd3)).

End LocalOpenedFile.

#[global] Instance LocalOpenedFile_OpenedFile : OpenedFile LocalOpenedFile.t := {
  read_to := LocalOpenedFile.read_into;
  get_size := LocalOpenedFile.size;
}.

Module LocalRoot.

Record t : Type := mk { path : rstring }.

Definition new (path : rstring) : t := mk path.

Definition open_file `{FileSystem} (self : t) (request_path : rstring) : res ErrorKind LocalOpenedFile.t :=
  let file_path := join (path self) (trim_start_slashes request_path) in
  let printable_path := file_path in
  if negb (path_starts_with file_path (path self)) then Err PermissionDenied
  else
    match os_open file_path with
    | Ok result => Ok (LocalOpenedFile.mk result printable_path)
    | Err e => Err e
    | Stop h => Stop h
    end.

End LocalRoot.

#[global] Instance LocalRoot_Root `{FileSystem} : Root LocalRoot.t LocalOpenedFile.t := {
  open := LocalRoot.open_file;
}.

(** ** The contract of an opened file *)

(** A regular file whose reads and seeks do not fail: a file offset is 63 bits wide. *)
Definition regular (f : File.t) : Prop :=
  File.reads f = [] ∧ File.seeks f = [] ∧ (Z.of_nat (length (File.contents f)) < 2 ^ 63)%Z.

Definition rewound (f : LocalOpenedFile.t) : LocalOpenedFile.t :=
  let rd := LocalOpenedFile.rd f in
  LocalOpenedFile.mk (File.mk (File.contents rd) 0 (File.reads rd) (File.seeks rd))
    (LocalOpenedFile.display f).

Lemma size_rewinds (f : LocalOpenedFile.t) :
  regular (LocalOpenedFile.rd f) →
  get_size f = (Ok (Z.of_nat (length (File.contents (LocalOpenedFile.rd f)))), rewound f).
Proof.
  destruct f as [[c p r s] d]. intros (Hr & Hs & Hl). simpl in *. subst r s.
  unfold LocalOpenedFile.size, rewound. simpl.
  unfold File.seek at 1. simpl. unfold File.seek at 1. simpl. settle_all.
  rewrite Z.add_0_r, as_usize_small by lia. done.
Qed.

#[global] Program Instance LocalOpenedFile_spec : OpenedFileSpec LocalOpenedFile.t := {
  remaining f := drop (File.position (LocalOpenedFile.rd f)) (File.contents (LocalOpenedFile.rd f));
  readable f := regular (LocalOpenedFile.rd f);
  fresh f := File.position (LocalOpenedFile.rd f) = 0;
}.
Next Obligation.
  intros [[c p r s] d] buffer (Hr & Hs & Hl) n. simpl in *. subst r s.
  unfold LocalOpenedFile.read_into, File.read, File.read_upto. simpl.
  replace ((length buffer `min` length (drop p c)) `min` length buffer) with n by (unfold n; lia).
  eexists. split; [done|]. simpl. rewrite drop_drop. by split.
Qed.
Next Obligation.
  intros f Hf Hp. rewrite size_rewinds by done. destruct f as [[c p r s] d]. simpl in *. subst p.
  rewrite drop_0. eauto.
Qed.

(** Asking for the size gives the file's length, and always moves the reading position
    to the start, wherever it was: only before the first read is it harmless. *)
Theorem get_size_rewinds (f : LocalOpenedFile.t) :
  regular (LocalOpenedFile.rd f) →
  ∃ f', get_size f = (Ok (Z.of_nat (length (File.contents (LocalOpenedFile.rd f)))), f') ∧
        remaining f' = File.contents (LocalOpenedFile.rd f).
Proof. intros Hf. exists (rewound f). split; [by apply size_rewinds|done]. Qed.

Lemma get_size_rewinds_witness :
  ∃ f', get_size (LocalOpenedFile.mk (File.mk [zero; zero; zero] 2 [] []) (str "f")) = (Ok 3%Z, f') ∧
        remaining f' = [zero; zero; zero].
Proof.
  apply (get_size_rewinds (LocalOpenedFile.mk (File.mk [zero; zero; zero] 2 [] []) (str "f"))).
  by split.
Defined.

(** ** Where a request leads *)

Section reach.
Context `{FileSystem}.

Lemma open_file_any root request :
  LocalRoot.open_file root request =
  match os_open (join (LocalRoot.path root) (trim_start_slashes request)) with
  | Ok f => Ok (LocalOpenedFile.mk f (join (LocalRoot.path root) (trim_start_slashes request)))
  | Err e => Err e
  | Stop h => Stop h
  end.
Proof.
  unfold LocalRoot.open_file. by rewrite join_starts_with by apply trim_start_relative.
Qed.

Lemma trim_start_relative_id s : has_root s = false → trim_start_slashes s = s.
Proof. destruct s as [|b s]; [done|]. simpl. intros ?%bool_decide_eq_false. by rewrite decide_False. Qed.

(** The request's slashes are trimmed once more by the root. *)
Lemma open_in_any root request :
  let file_path := join (LocalRoot.path root) (trim_start_slashes (ReadRequest.filename request)) in
  ReadRequest.open_in request root =
  match os_open file_path with
  | Ok f => Ok (LocalOpenedFile.mk f file_path)
  | Err e => Err e
  | Stop h => Stop h
  end.
Proof.
  unfold ReadRequest.open_in. simpl. rewrite open_file_any.
  by rewrite (trim_start_relative_id (trim_start_slashes _)) by apply trim_start_relative.
Qed.

End reach.

(** C35: the check that the path stays below the root never fails, since the path is the root
    with something appended.  Every request to every root is answered with what the operating
    system makes of that path; and with enough parent directories in front a request names
    any file [/t] of the system. *)
Theorem requests_escape_root `{FileSystem} (base t : rstring) (options : options_map) :
  has_root base = true →
  (∀ root request,
    let file_path := join (LocalRoot.path root) (trim_start_slashes (ReadRequest.filename request)) in
    ReadRequest.open_in request root =
      match os_open file_path with
      | Ok f => Ok (LocalOpenedFile.mk f file_path)
      | Err e => Err e
      | Stop h => Stop h
      end) ∧
  ∃ file_path,
    ReadRequest.open_in (ReadRequest.mk (dots (length (components base)) t) options)
      (LocalRoot.new base) =
      match os_open file_path with
      | Ok f => Ok (LocalOpenedFile.mk f file_path)
      | Err e => Err e
      | Stop h => Stop h
      end ∧
    resolve (components file_path) = resolve (components (slash :: t)).
Proof.
  intros Hb. split; [intros; apply open_in_any|]. exists (join base (dots (length (components base)) t)).
  split; [|by apply resolve_escapes].
  assert (0 < length (components base)) as Hk by (unfold components; rewrite Hb; simpl; lia).
  rewrite open_in_any. cbn [ReadRequest.filename]. by rewrite trim_start_relative_id by by apply dots_relative.
Qed.

(** A system whose files are found by their resolved path. *)
Definition sample_system : FileSystem := {|
  os_open p := if decide (resolve (components p) = resolve (components (str "/etc/passwd")))
               then Ok (File.mk (str "root:x:0:0") 0 [] []) else Err NotFound;
|}.

Lemma requests_escape_root_witness :
  ReadRequest.open_in (H := LocalRoot_Root (H := sample_system))
    (ReadRequest.mk (str "/../boot") ∅) (LocalRoot.new (str "/srv/tftp/default")) = Err NotFound ∧
  ∃ file_path,
    ReadRequest.open_in (H := LocalRoot_Root (H := sample_system))
      (ReadRequest.mk (str "../../../../etc/passwd") ∅) (LocalRoot.new (str "/srv/tftp/default")) =
      match os_open (FileSystem := sample_system) file_path with
      | Ok f => Ok (LocalOpenedFile.mk f file_path)
      | Err e => Err e
      | Stop h => Stop h
      end ∧
    resolve (components file_path) = resolve (components (str "/etc/passwd")).
Proof.
  destruct (@requests_escape_root sample_system (str "/srv/tftp/default") (str "etc/passwd") ∅ eq_refl)
    as [Hany Hescape].
  split; [|exact Hescape]. rewrite Hany. by vm_compute.
Defined.

Example passwd_is_served :
  ReadRequest.open_in (H := LocalRoot_Root (H := sample_system))
    (ReadRequest.mk (str "../../../etc/passwd") ∅) (LocalRoot.new (str "/srv/tftp/default")) =
  Ok (LocalOpenedFile.mk (File.mk (str "root:x:0:0") 0 [] [])
        (str "/srv/tftp/default/../../../etc/passwd")).
Proof. by vm_compute. Qed.

(** ** Short reads *)

(** C39: a read that returns less than asked for, as the operating system may, is taken for
    the end of the file: the block goes out as the last one and, once it is acknowledged,
    the transfer ends with [Ok], with the rest of the file never sent. *)
Theorem short_read_truncates (debug : bool) (bs m : nat) (c d : list byte) (a : AckTimeout.t)
    (peer : SocketAddr) (old : list (list byte)) (b : list byte) :
  (Z.of_nat bs < 65536)%Z → S m < bs → S m < length c → 37 ≤ length b →
  ∃ t, send_file debug (LocalOpenedFile.mk (File.mk c 0 [ReadShort m] []) d) (Window.new (Z.of_nat bs) 1) a
         (mkLink (stream_of peer [Datagram peer (ack_payload 1 [])] old) b) = (Ok (S m, 0), t) ∧
       stream (link t) = stream_of peer [] (old ++ [data_packet 1 (take (S m) c)]) ∧
       remaining (opened_file t) = drop (S m) c ∧ remaining (opened_file t) ≠ [].
Proof.
  intros Hbs Hm Hc Hb. set (f := LocalOpenedFile.mk _ d).
  destruct (push_block_read bs 1 (Window.new (Z.of_nat bs) 1) f 1 (S m) (take (S m) c)
    (λ f', remaining f' = drop (S m) c)) as (v & f' & Hpush & Hv & Hst & Hrem).
  { lia. } { apply (win_ok_new bs 1). } { rewrite length_take. lia. } { lia. }
  { intros buffer Hbuf. unfold f. simpl. unfold LocalOpenedFile.read_into, File.read, File.read_upto.
    cbn [LocalOpenedFile.rd File.reads File.position File.contents File.seeks].
    rewrite drop_0. replace ((length buffer `min` length c) `min` S m) with (S m) by lia. eauto. }
  pose proof (win_ok_new bs 1) as Hok. change (Z.of_nat 1) with 1%Z in Hok.
  assert (Hok' := set_buffer_ok bs 1 _ 1 v Hok Hst).
  unfold send_file. set (l := mkLink _ b). set (W := Window.new _ _) in *.
  set (W' := Window.set_buffer _ _ _) in *.
  assert (fill_window 1 0 (mkTransfer f W l 0 0 0 0) = (Ok (true, 1%Z), mkTransfer f' W' l (S m) 0 0 1))
    as Hfill.
  { cbn [fill_window window opened_file last_read_index]. rewrite (win_size bs 1) by done.
    change (wrapping_add 0 1) with (as_u16 (Z.of_nat 1)). rewrite Hpush. by settle_all. }
  generalize (length (arrivals_of (stream l))). intros fuel. cbn [send_loop].
  change (wrapping_sub _ _) with 0%Z. rewrite (win_size bs 1) by done.
  change (Z.to_nat (Z.of_nat 1)) with 1. rewrite Hfill. cbn [window].
  rewrite (win_size bs 1) by done. rewrite !andb_false_r.
  cbn [window link last_acknowledged_index]. change (wrapping_add 0 1) with 1%Z.
  destruct (send_attempts_round peer a W' 1 1 [data_packet 1 (take (S m) c)] (mkRound [] [] []) 1 [] old b
    SEND_ATTEMPTS) as (b' & Hrun & _); [|vm_compute; lia|done..|lia|].
  { intros. change (block_indices 1 1) with [as_u16 (Z.of_nat 1)]. cbn [send_blocks].
    unfold Window.send. rewrite (win_slot bs 1) by (done || lia). cbn [mbind option_bind].
    unfold W'. simpl. rewrite Hv, send_stream_of. done. }
  rewrite round_arrivals_nil in Hrun. unfold send_reliably.
  change (send_attempts SEND_ATTEMPTS W' a 1 1 l) with (send_attempts SEND_ATTEMPTS W' a 1 1
    (mkLink (stream_of peer ([] ++ [Datagram peer (ack_payload 1 [])]) old) b)).
  rewrite Hrun. eexists (acknowledged _ _ _). split; [by destruct fuel|]. split; [done|].
  cbn [opened_file acknowledged]. rewrite Hrem. split; [done|].
  intros Hnil. apply (f_equal length) in Hnil. rewrite length_drop in Hnil. simpl in Hnil. lia.
Qed.

Lemma short_read_truncates_witness :
  ∃ t, send_file true (LocalOpenedFile.mk (File.mk sample_bytes 0 [ReadShort 2] []) (str "f"))
         (Window.new (Z.of_nat 8) 1) AckTimeout.default
         (mkLink (stream_of sample_peer [Datagram sample_peer (ack_payload 1 [])] []) (replicate 64 zero)) =
         (Ok (3, 0), t) ∧
       stream (link t) = stream_of sample_peer [] ([] ++ [data_packet 1 (take 3 sample_bytes)]) ∧
       remaining (opened_file t) = drop 3 sample_bytes ∧ remaining (opened_file t) ≠ [].
Proof.
  apply (short_read_truncates true 8 2 sample_bytes (str "f")); [done|lia|vm_compute; lia|vm_compute; lia].
Defined.
