(* ===== verification/GuestFs.v ===== *)
(** * GuestFs: src/src/guestfs/mod.rs

    The safe interface over libguestfs.  The C library is a parameter, the class
    [libguestfs] of its functions over the state [H] of a handle: a call that can change
    the handle, or what [guestfs_last_error] says of it, returns the new state.  A
    null pointer is [None], a C string its bytes.  The appliance's messages reach the
    program through a callback that appends them to a channel; [guestfs_events] is every
    message the callback was called with so far, and a [GuestFS] remembers how much of the
    channel was read.

    The handle is shared by reference counting between a disk, its partitions and the
    files opened on it; its state is threaded through the calls.  SharedDisk models the
    sharing itself. *)

From S2P Require Import Prelude Text.

(** [guestfs_stat], the structure; all its fields are [i64]. *)
Module Stat.

Record t : Type := mk {
  dev : Z; ino : Z; mode : Z; nlink : Z; uid : Z; gid : Z; rdev : Z;
  size : Z;
  blksize : Z; blocks : Z; atime : Z; mtime : Z; ctime : Z;
}.

End Stat.

Class libguestfs (H : Type) : Type := {
  guestfs_create : H;
  guestfs_close : H → H;
  guestfs_pointer : H → rstring;
  guestfs_set_error_handler : H → H;
  guestfs_set_event_callback : H → Z → Z * H;
  guestfs_set_pgroup : H → Z → Z * H;
  guestfs_last_error : H → option rstring;
  guestfs_add_drive_opts : H → rstring → Z → Z * H;
  guestfs_config : H → rstring → rstring → Z * H;
  guestfs_launch : H → Z * H;
  guestfs_list_partitions : H → option (list rstring) * H;
  guestfs_mount_ro : H → rstring → rstring → Z * H;
  guestfs_stat : H → rstring → option Stat.t * H;
  guestfs_set_append : H → rstring → Z * H;
  guestfs_pread : H → rstring → Z → Z → option (list byte) * H;
  guestfs_events : H → list (list byte);
}.

(** The callback: the bytes of the message are copied and sent. *)
Definition guestfs_event_callback (sender : list (list byte)) (buf : list byte) (buf_len : nat)
  : list (list byte) :=
  sender ++ [take buf_len buf].

(** The channel after all the calls. *)
Definition appliance_log {H} `{libguestfs H} (h : H) : list (list byte) :=
  foldl (λ sender event, guestfs_event_callback sender event (length event)) [] (guestfs_events h).

Definition GUEST_FS_EVENT_APPLIANCE : Z := 0x0010.
Definition CHUNK_SIZE : Z := 3 * 1024 * 1024.

Module GuestFSError.
Inductive t : Type :=
| Generic (message : rstring)
| DiskNotFound (message : rstring)
| ConnectionRefused (message : rstring)
| ShareNotFound (message : rstring)
| Unknown.
End GuestFSError.

Module GuestFS.
Section guestfs.
Context {H : Type} `{libguestfs H}.

Record t : Type := mk { handle : H; retrieved : nat }.

Definition with_handle (self : t) (h : H) : t := mk h (retrieved self).

(** [None]: the message is not UTF-8, and [unwrap] panics. *)
Definition get_last_error (h : H) : option GuestFSError.t :=
  match guestfs_last_error h with
  | None => Some GuestFSError.Unknown
  | Some error_message => GuestFSError.Generic <$> from_utf8 error_message
  end.

Definition last_error {A} (self : t) : res GuestFSError.t A * t :=
  match get_last_error (handle self) with
  | Some error => (Err error, self)
  | None => (Stop Panicked, self)
  end.

(** The check of a call that returns zero on success. *)
Definition checked (self : t) (result : Z * H) : res GuestFSError.t unit * t :=
  let '(code, h) := result in
  if (code =? 0)%Z then (Ok tt, with_handle self h) else last_error (with_handle self h).

(** Both failures of the set-up panic. *)
Definition new : res GuestFSError.t t :=
  let h := guestfs_set_error_handler guestfs_create in
  let '(set_callback_result, h) := guestfs_set_event_callback h GUEST_FS_EVENT_APPLIANCE in
  if negb (set_callback_result =? 0)%Z then Stop Panicked
  else
    let '(set_pgroup_result, h) := guestfs_set_pgroup h 1 in
    if (set_pgroup_result =? 0)%Z then Ok (mk h 0) else Stop Panicked.

Definition no_such_file : rstring := str "No such file or directory".

Definition add_disk (self : t) (path : rstring) (read_only : bool) : res GuestFSError.t unit * t :=
  match CString_new path with
  | None => (Stop Panicked, self)
  | Some disk_path =>
      match checked self (guestfs_add_drive_opts (handle self) disk_path (if read_only then 1 else 0)) with
      | (Err (GuestFSError.Generic message), self') =>
          if contains no_such_file message then (Err (GuestFSError.DiskNotFound message), self')
          else (Err (GuestFSError.Generic message), self')
      | r => r
      end
  end.

Definition add_qemu_option (self : t) (key value : rstring) : res GuestFSError.t unit * t :=
  match CString_new key, CString_new value with
  | Some c_key, Some c_value => checked self (guestfs_config (handle self) c_key c_value)
  | _, _ => (Stop Panicked, self)
  end.

Definition launch (self : t) : res GuestFSError.t unit * t :=
  checked self (guestfs_launch (handle self)).

(** The channel is emptied; the non-empty lines of its messages are returned. *)
Definition retrieve_appliance_stderr (self : t) : list rstring * t :=
  let log := appliance_log (handle self) in
  (filter (λ s, s ≠ []) (drop (retrieved self) log ≫= λ event, lines (from_utf8_lossy event)),
   mk (handle self) (length log)).

(** The loop over at most a hundred names; [None]: a name is not UTF-8. *)
Fixpoint collect_names (index : nat) (entries : list rstring) : option (list rstring) :=
  match index, entries with
  | O, _ | _, [] => Some []
  | S index', entry :: entries' =>
      name ← from_utf8 entry; names ← collect_names index' entries'; Some (name :: names)
  end.

Definition list_partitions (self : t) : res GuestFSError.t (list rstring) * t :=
  let '(result, h) := guestfs_list_partitions (handle self) in
  match result with
  | None => last_error (with_handle self h)
  | Some entries =>
      match collect_names 100 entries with
      | Some partitions_list => (Ok partitions_list, with_handle self h)
      | None => (Stop Panicked, with_handle self h)
      end
  end.

Definition mount_ro (self : t) (device mountpoint : rstring) : res GuestFSError.t unit * t :=
  match CString_new device, CString_new mountpoint with
  | Some c_device, Some c_mountpoint =>
      checked self (guestfs_mount_ro (handle self) c_device c_mountpoint)
  | _, _ => (Stop Panicked, self)
  end.

Definition get_size (self : t) (path : rstring) : res GuestFSError.t Z * t :=
  match CString_new path with
  | None => (Stop Panicked, self)
  | Some c_str_path =>
      let '(result, h) := guestfs_stat (handle self) c_str_path in
      match result with
      | None => last_error (with_handle self h)
      | Some stat => (Ok (as_usize (Stat.size stat)), with_handle self h)
      end
  end.

Definition set_append (self : t) (string : rstring) : res GuestFSError.t unit * t :=
  match CString_new string with
  | None => (Stop Panicked, self)
  | Some c_str => checked self (guestfs_set_append (handle self) c_str)
  end.

Definition read_chunk (self : t) (path : rstring) (offset : Z) : res GuestFSError.t (list byte) * t :=
  match CString_new path with
  | None => (Stop Panicked, self)
  | Some c_str_path =>
      let '(read_buffer, h) := guestfs_pread (handle self) c_str_path CHUNK_SIZE (as_i64 offset) in
      match read_buffer with
      | None => last_error (with_handle self h)
      | Some bytes => (Ok bytes, with_handle self h)
      end
  end.

(** [Drop]: the handle is closed, the messages left in the channel are discarded. *)
Definition drop_handle (self : t) : t :=
  let h := guestfs_close (handle self) in mk h (length (appliance_log h)).

(** [Display] *)
Definition to_text (self : t) : rstring := str "<Handle: " ++ guestfs_pointer (handle self) ++ str ">".

End guestfs.
#[global] Arguments t H : clear implicits.
End GuestFS.

(** ** What the files of a mounted image promise

    [file_at h path] is the content of a regular file that can be read through the
    handle.  [guestfs_stat] gives its size; [guestfs_pread] gives, from an offset on, up to
    the number of bytes asked for, perhaps fewer, but none only at the end of the file.
    Neither call changes what the files hold, whether it succeeds or not: the image is
    mounted read-only. *)
Class libguestfs_files (H : Type) `{libguestfs H} : Type := {
  file_at : H → rstring → option (list byte);
  guestfs_stat_file h path bytes :
    file_at h path = Some bytes →
    ∃ stat h', guestfs_stat h path = (Some stat, h') ∧ Stat.size stat = Z.of_nat (length bytes) ∧
      file_at h' = file_at h;
  guestfs_pread_file h path bytes count offset :
    file_at h path = Some bytes → (0 < count)%Z → (0 ≤ offset)%Z →
    ∃ chunk h', guestfs_pread h path count offset = (Some chunk, h') ∧ file_at h' = file_at h ∧
      chunk `prefix_of` drop (Z.to_nat offset) bytes ∧ (Z.of_nat (length chunk) ≤ count)%Z ∧
      (chunk = [] → (Z.of_nat (length bytes) ≤ offset)%Z);
  guestfs_stat_keeps h path : file_at (guestfs_stat h path).2 = file_at h;
  guestfs_pread_keeps h path count offset : file_at (guestfs_pread h path count offset).2 = file_at h;
}.

(** The channel holds the messages, whole and in order. *)
Lemma appliance_log_events {H} `{libguestfs H} (h : H) : appliance_log h = guestfs_events h.
Proof.
  unfold appliance_log. transitivity ([] ++ guestfs_events h); [|done].
  generalize (@nil (list byte)). induction (guestfs_events h) as [|e l IH]; intros sent; simpl.
  - by rewrite app_nil_r.
  - rewrite IH. unfold guestfs_event_callback. by rewrite take_ge, <- app_assoc.
Qed.

Lemma CString_new_nul_free s : nul_free s → CString_new s = Some s.
Proof. intros Hs. unfold CString_new. by rewrite (proj2 (position_zero_None s) Hs). Qed.

(** The channel is read from where the last reading ended: no message is seen twice. *)
Lemma retrieve_twice {H} `{libguestfs H} (g : GuestFS.t H) :
  let '(_, g') := GuestFS.retrieve_appliance_stderr g in
  GuestFS.retrieve_appliance_stderr g' = ([], g').
Proof.
  unfold GuestFS.retrieve_appliance_stderr. simpl. by rewrite drop_ge.
Qed.
