(* ===== verification/RemoteFs.v ===== *)
(** * RemoteFs: src/src/remote_fs.rs

    Files inside a disk image, read through GuestFs in chunks: a [FileReader] keeps the
    last chunk it fetched and hands out its bytes. *)

From S2P Require Import Prelude Text Fs Options Paths Messages GuestFs.

(** ** A chunk in memory *)

Module FileChunk.

Record t : Type := mk { buffer : list byte; offset : nat }.

Definition new (buffer : list byte) : t := mk buffer 0.

(** The count, the content of the caller's buffer, and the chunk; an offset beyond the
    chunk would panic. *)
Definition fill (self : t) (dst : list byte) : res ErrorKind nat * (list byte * t) :=
  match range (offset self) (length (buffer self)) (buffer self) with
  | None => (Stop Panicked, (dst, self))
  | Some [] => (Ok 0, (dst, self))
  | Some available_bytes =>
      if length available_bytes <=? length dst
      then (Ok (length available_bytes),
            (overwrite 0 available_bytes dst, mk (buffer self) (offset self + length available_bytes)))
      else (Ok (length dst),
            (take (length dst) available_bytes, mk (buffer self) (offset self + length dst)))
  end.

Definition available (self : t) : list byte := drop (offset self) (buffer self).

Definition ok (self : t) : Prop := offset self ≤ length (buffer self).

Lemma fill_spec self dst :
  ok self →
  let n := length dst `min` length (available self) in
  ∃ self', fill self dst = (Ok n, (take n (available self) ++ drop n dst, self')) ∧
           available self' = drop n (available self) ∧ ok self'.
Proof.
  intros Ho n. unfold ok, fill, available in *. rewrite range_Some by lia.
  rewrite take_ge by (rewrite length_drop; lia).
  destruct (drop (offset self) (buffer self)) as [|x l] eqn:Hd.
  { unfold n. rewrite Nat.min_r, drop_0 by (simpl; lia). exists self. by rewrite Hd. }
  assert (length (x :: l) = length (buffer self) - offset self) as Hl by (rewrite <- Hd; apply length_drop).
  set (l' := x :: l) in *. destruct (decide (length l' ≤ length dst)) as [Hle|Hgt].
  - settle (length l' <=? length dst). unfold n. rewrite Nat.min_r by done. eexists. split.
    + by rewrite take_ge, overwrite_prefix by done.
    + cbn [buffer offset]. rewrite <- drop_drop, Hd. split; [done|lia].
  - settle (length l' <=? length dst). unfold n. rewrite Nat.min_l by lia. eexists. split.
    + by rewrite drop_ge, app_nil_r by done.
    + cbn [buffer offset]. rewrite <- drop_drop, Hd. split; [done|lia].
Qed.

End FileChunk.

(** ** A file of the image *)

Module FileReader.
Section reader.
Context {H : Type} `{libguestfs H}.

Record t : Type := mk {
  handle : GuestFS.t H;
  path : rstring;
  file_size : Z;
  current_offset : Z;
  chunk : FileChunk.t;
  display : rstring;
}.

Definition open_at (handle : GuestFS.t H) (path : rstring) (file_size : Z) (display : rstring)
  : res GuestFSError.t t * GuestFS.t H :=
  let? (first_chunk, handle') := GuestFS.read_chunk handle path 0 in
  (Ok (mk handle' path file_size 0 (FileChunk.new first_chunk) display), handle').

Definition buffer_new_chunk (self : t) : res GuestFSError.t bool * t :=
  let with_handle g := mk g (path self) (file_size self) (current_offset self) (chunk self) (display self) in
  match GuestFS.read_chunk (handle self) (path self) (current_offset self) with
  | (Ok [], g) => (Ok false, with_handle g)
  | (Ok next_chunk, g) =>
      (Ok true, mk g (path self) (file_size self) (current_offset self) (FileChunk.new next_chunk)
                  (display self))
  | (Err e, g) => (Err e, with_handle g)
  | (Stop h, g) => (Stop h, with_handle g)
  end.

(** The [while] loop of [read_to].  Of two rounds one copies a byte at least, or the loop
    ends: a fuel of twice the buffer's length and one is enough. *)
Fixpoint read_loop (fuel : nat) (self : t) (read : nat) (buffer : list byte)
  : res ErrorKind nat * (list byte * t) :=
  if negb ((current_offset self <? file_size self)%Z && (read <? length buffer))
  then (Ok read, (buffer, self))
  else
    match fuel with
    | O => (Stop OutOfFuel, (buffer, self))
    | S fuel' =>
        match range read (length buffer) buffer with
        | None => (Stop Panicked, (buffer, self))
        | Some dst =>
            match FileChunk.fill (chunk self) dst with
            | (Stop h, (dst', chunk')) => (Stop h, (buffer, self))
            | (Err e, (dst', chunk')) => (Err e, (buffer, self))
            | (Ok copied, (dst', chunk')) =>
                let buffer' := take read buffer ++ dst' in
                let self' := mk (handle self) (path self) (file_size self) (current_offset self)
                               chunk' (display self) in
                if copied =? 0 then
                  match buffer_new_chunk self' with
                  | (Stop h, self'') => (Stop h, (buffer', self''))
                  | (Err _, self'') => (Err Other, (buffer', self''))
                  | (Ok false, self'') => (Ok read, (buffer', self''))
                  | (Ok true, self'') => read_loop fuel' self'' read buffer'
                  end
                else
                  read_loop fuel'
                    (mk (handle self) (path self) (file_size self)
                       (current_offset self + Z.of_nat copied) chunk' (display self))
                    (read + copied) buffer'
            end
        end
    end.

Definition read_into (self : t) (buffer : list byte) : res ErrorKind nat * (list byte * t) :=
  read_loop (2 * length buffer + 1) self 0 buffer.

Definition size (self : t) : res ErrorKind Z * t := (Ok (file_size self), self).

End reader.
#[global] Arguments t H : clear implicits.
End FileReader.

#[global] Instance FileReader_OpenedFile {H} `{libguestfs H} : OpenedFile (FileReader.t H) := {
  read_to := FileReader.read_into;
  get_size := FileReader.size;
}.

(** ** The reader as a stream of the file's bytes *)

Section contract.
Context {H : Type} `{libguestfs_files H}.

Definition file_bytes (r : FileReader.t H) : list byte :=
  default [] (file_at (GuestFS.handle (FileReader.handle r)) (FileReader.path r)).

Definition rest_of (r : FileReader.t H) : list byte :=
  drop (Z.to_nat (FileReader.current_offset r)) (file_bytes r).

(** The chunk holds the bytes that come next. *)
Record reader_ok (r : FileReader.t H) : Prop := mkReaderOk {
  ro_file : is_Some (file_at (GuestFS.handle (FileReader.handle r)) (FileReader.path r));
  ro_path : nul_free (FileReader.path r);
  ro_size : FileReader.file_size r = Z.of_nat (length (file_bytes r));
  ro_small : (FileReader.file_size r < 2 ^ 63)%Z;
  ro_offset : (0 ≤ FileReader.current_offset r ≤ FileReader.file_size r)%Z;
  ro_chunk : FileChunk.ok (FileReader.chunk r);
  ro_next : FileChunk.available (FileReader.chunk r) `prefix_of` rest_of r;
}.

Lemma read_chunk_file (g : GuestFS.t H) path bytes offset :
  file_at (GuestFS.handle g) path = Some bytes → nul_free path → (0 ≤ offset < 2 ^ 63)%Z →
  ∃ chunk g', GuestFS.read_chunk g path offset = (Ok chunk, g') ∧
    file_at (GuestFS.handle g') = file_at (GuestFS.handle g) ∧
    chunk `prefix_of` drop (Z.to_nat offset) bytes ∧
    (chunk = [] → (Z.of_nat (length bytes) ≤ offset)%Z).
Proof.
  intros Hf Hp Ho. unfold GuestFS.read_chunk. rewrite CString_new_nul_free, as_i64_small by done.
  destruct (guestfs_pread_file (GuestFS.handle g) path bytes CHUNK_SIZE offset Hf)
    as (chunk & h' & -> & Hsame & Hpre & _ & Hend); [done|lia|]. eauto 10.
Qed.

(** Fetching the next chunk when the old one is used up. *)
Lemma buffer_new_chunk_spec (r : FileReader.t H) :
  reader_ok r → (FileReader.current_offset r < FileReader.file_size r)%Z →
  ∃ r', FileReader.buffer_new_chunk r = (Ok true, r') ∧ reader_ok r' ∧
        rest_of r' = rest_of r ∧ FileReader.current_offset r' = FileReader.current_offset r ∧
        FileReader.file_size r' = FileReader.file_size r ∧
        FileChunk.available (FileReader.chunk r') ≠ [].
Proof.
  intros [[bytes Hf] Hp Hs Hsm Ho Hc Hn] Hlt. unfold file_bytes in Hs. rewrite Hf in Hs. simpl in Hs.
  destruct (read_chunk_file (FileReader.handle r) (FileReader.path r) bytes (FileReader.current_offset r))
    as (chunk & g' & Hread & Hsame & Hpre & Hend); [done|done|lia|].
  unfold FileReader.buffer_new_chunk. rewrite Hread.
  destruct chunk as [|x chunk]; [specialize (Hend eq_refl); lia|].
  eexists. split; [done|].
  assert (rest_of (FileReader.mk g' (FileReader.path r) (FileReader.file_size r)
    (FileReader.current_offset r) (FileChunk.new (x :: chunk)) (FileReader.display r)) = rest_of r) as Hrest.
  { unfold rest_of, file_bytes. simpl. by rewrite Hsame. }
  split_and!; try done. split; simpl; try done.
  - rewrite Hsame. eauto.
  - unfold file_bytes. simpl. rewrite Hsame, Hf. done.
  - unfold FileChunk.ok. simpl. lia.
  - rewrite Hrest. unfold FileChunk.available, rest_of, file_bytes. simpl. by rewrite Hf.
Qed.

Lemma length_rest (r : FileReader.t H) :
  reader_ok r → Z.of_nat (length (rest_of r)) = (FileReader.file_size r - FileReader.current_offset r)%Z.
Proof. intros [_ _ Hs _ Ho _ _]. unfold rest_of. rewrite length_drop. lia. Qed.

(** The reader after [n] of the bytes in its chunk were handed out. *)
Lemma reader_advance (r : FileReader.t H) chunk' n :
  reader_ok r → n ≤ length (FileChunk.available (FileReader.chunk r)) →
  FileChunk.ok chunk' → FileChunk.available chunk' = drop n (FileChunk.available (FileReader.chunk r)) →
  let r' := FileReader.mk (FileReader.handle r) (FileReader.path r) (FileReader.file_size r)
              (FileReader.current_offset r + Z.of_nat n) chunk' (FileReader.display r) in
  reader_ok r' ∧ rest_of r' = drop n (rest_of r).
Proof.
  intros Hok Hn Hc Ha r'. pose proof (length_rest r Hok) as Hl.
  destruct Hok as [Hf Hp Hs Hsm Ho Hck Hnx]. pose proof (prefix_length _ _ Hnx).
  assert (rest_of r' = drop n (rest_of r)) as Hrest.
  { unfold rest_of, r', file_bytes. simpl. rewrite drop_drop. f_equal. lia. }
  split; [|done]. split; simpl; try done; [lia|]. rewrite Hrest, Ha.
  destruct Hnx as [k ->]. rewrite drop_app_le by done. by exists k.
Qed.

(** A range of a buffer replaced by other bytes. *)
Lemma splice_facts {A} (read n : nat) (s buffer : list A) :
  read + n ≤ length buffer → n ≤ length s →
  let buffer' := take read buffer ++ take n s ++ drop n (drop read buffer) in
  length buffer' = length buffer ∧ take (read + n) buffer' = take read buffer ++ take n s ∧
  ∀ p, read + n ≤ p → drop p buffer' = drop p buffer.
Proof.
  intros Hb Hs buffer'. unfold buffer'. split_and!.
  - rewrite !length_app, !length_take, !length_drop. lia.
  - rewrite app_assoc. apply take_app_length'. rewrite length_app, !length_take. lia.
  - intros p Hp. rewrite app_assoc, drop_app_ge by (rewrite length_app, !length_take; lia).
    rewrite length_app, !length_take, !drop_drop. f_equal. lia.
Qed.

Lemma read_loop_spec fuel (r : FileReader.t H) read buffer :
  reader_ok r → read ≤ length buffer →
  2 * (length buffer - read) +
    (if decide (FileChunk.available (FileReader.chunk r) = []) then 1 else 0) ≤ fuel →
  let m := (length buffer - read) `min` length (rest_of r) in
  ∃ r', FileReader.read_loop fuel r read buffer =
          (Ok (read + m), (take read buffer ++ take m (rest_of r) ++ drop (read + m) buffer, r')) ∧
        reader_ok r' ∧ rest_of r' = drop m (rest_of r).
Proof.
  revert r read buffer. induction fuel as [|fuel IH]; intros r read buffer Hok Hread Hfuel m;
    pose proof (length_rest r Hok) as Hl; cbn [FileReader.read_loop];
    destruct (decide (m = 0)) as [Hm|Hm]; assert (Hm' := Hm); unfold m in Hm'.
  1, 3: assert ((FileReader.current_offset r <? FileReader.file_size r)%Z && (read <? length buffer) = false)
      as -> by (apply andb_false_iff; destruct (decide (length buffer - read = 0));
        [right; apply Nat.ltb_ge; lia|left; apply Z.ltb_ge; lia]);
    exists r; rewrite Hm, Nat.add_0_r, take_0; simpl; by rewrite take_drop.
  { case_decide; lia. }
  settle_all. rewrite range_Some, take_ge by (rewrite ?length_drop; lia).
  destruct (FileChunk.fill_spec (FileReader.chunk r) (drop read buffer) (ro_chunk r Hok))
    as (chunk' & -> & Ha & Hc). rewrite length_drop in *.
  set (avail := FileChunk.available (FileReader.chunk r)) in *.
  set (n := (length buffer - read) `min` length avail) in *.
  destruct (reader_advance r chunk' n) as [Hok1 Hrest1]; [done|fold avail; unfold n; lia|done|done|].
  destruct (decide (avail = [])) as [He|He].
  - assert (n = 0) as Hn by (unfold n; rewrite He; simpl; lia). rewrite Hn in *. simpl.
    rewrite Z.add_0_r in *.
    destruct (buffer_new_chunk_spec _ Hok1) as (r2 & Hnew & Hok2 & Hrest2 & Hoff2 & Hsz2 & Hav2);
      [simpl; lia|]. rewrite Hnew, drop_0, take_drop.
    destruct (IH r2 read buffer) as (r' & -> & ? & Hr'); [done|done|rewrite decide_False by done; lia|].
    rewrite Hrest2, Hrest1, drop_0 in *. by exists r'.
  - assert (0 < n) as Hn by (unfold n; destruct avail; [done|simpl; lia]).
    pose proof (ro_next r Hok) as [k Hk]. fold avail in Hk.
    assert (n ≤ length avail ∧ n ≤ m) as [Hna Hnm].
    { unfold n, m. rewrite Hk, length_app. lia. }
    assert (take n avail = take n (rest_of r)) as Htake by (rewrite Hk, take_app_le; done).
    rewrite Htake. settle (n =? 0). cbv iota.
    destruct (splice_facts read n (rest_of r) buffer) as (Hlb & Htb & Hdb); [lia|lia|].
    set (buffer' := take read buffer ++ take n (rest_of r) ++ drop n (drop read buffer)) in *.
    destruct (IH _ (read + n) buffer' Hok1) as (r' & -> & ? & Hr'); [lia|case_decide; lia|].
    rewrite Hrest1, Hlb, length_drop in *.
    replace ((length buffer - (read + n)) `min` (length (rest_of r) - n)) with (m - n) in * by lia.
    exists r'. replace (read + n + (m - n)) with (read + m) in * by lia. split; [|split; [done|]].
    + rewrite Htb, Hdb by lia. replace (take m (rest_of r)) with (take (n + (m - n)) (rest_of r)) by (f_equal; lia).
      by rewrite <- (take_take_drop (rest_of r) n (m - n)), <- !app_assoc.
    + rewrite Hr', drop_drop. f_equal. lia.
Qed.

Lemma read_into_spec (r : FileReader.t H) (buffer : list byte) :
  reader_ok r →
  let n := length buffer `min` length (rest_of r) in
  ∃ r', FileReader.read_into r buffer = (Ok n, (take n (rest_of r) ++ drop n buffer, r')) ∧
        reader_ok r' ∧ rest_of r' = drop n (rest_of r).
Proof.
  intros Hok n. unfold FileReader.read_into.
  destruct (read_loop_spec (2 * length buffer + 1) r 0 buffer Hok) as (r' & -> & Hok' & Hrest);
    [lia|case_decide; lia|].
  rewrite Nat.sub_0_r in *. eauto.
Qed.

End contract.

#[global] Program Instance FileReader_spec {H} `{libguestfs_files H} : OpenedFileSpec (FileReader.t H) := {
  remaining := rest_of;
  readable := reader_ok;
  fresh r := FileReader.current_offset r = 0%Z;
}.
Next Obligation.
  intros H ? ? r buffer Hok. destruct (read_into_spec r buffer Hok) as (r' & ? & ? & ?). eauto.
Qed.
Next Obligation.
  intros H ? ? r Hok Hfresh. simpl in *. exists r. split_and!; try done. unfold FileReader.size.
  pose proof (length_rest r Hok). do 2 f_equal. lia.
Qed.

(** ** Partitions and mounts *)

(** [Debug] of a string, with which an error is printed before it is searched; its escapes
    depend on Unicode tables and are a parameter. *)
Class DebugStr : Type := { debug_str : rstring → rstring }.

Definition GuestFSError_to_string `{DebugStr} (e : GuestFSError.t) : rstring :=
  let variant name message := str name ++ str "(" ++ debug_str message ++ str ")" in
  str "<GuestFSError: " ++
  match e with
  | GuestFSError.Generic m => variant "Generic" m
  | GuestFSError.DiskNotFound m => variant "DiskNotFound" m
  | GuestFSError.ConnectionRefused m => variant "ConnectionRefused" m
  | GuestFSError.ShareNotFound m => variant "ShareNotFound" m
  | GuestFSError.Unknown => str "Unknown"
  end ++ str ">".

Module VirtualRootError.
Inductive t : Type :=
| ConfigError (message : rstring)
| SetupError (error : GuestFSError.t).
End VirtualRootError.

(** A partition's handle is the one of the disk it belongs to. *)
Module Partition.
Section partition.
Context {H : Type} `{libguestfs H}.

Record t : Type := mk { device : rstring }.

Definition new (device : rstring) : t := mk device.

Definition mount_ro (self : t) (mountpoint : rstring) (handle : GuestFS.t H)
  : res GuestFSError.t unit * GuestFS.t H :=
  GuestFS.mount_ro handle (device self) mountpoint.

End partition.
End Partition.

Module Mount.
Section mount.
Context {H : Type} `{libguestfs H}.

Record t : Type := mk { partition : Z; mountpoint : rstring }.

(** [self.partition - 1]: with overflow checks (a debug build) partition 0 panics, without
    them it is [usize::MAX], which no partition has. *)
Definition mount_suitable (debug : bool) (self : t) (available : list Partition.t) (handle : GuestFS.t H)
  : res VirtualRootError.t unit * GuestFS.t H :=
  if debug && (partition self =? 0)%Z then (Stop Panicked, handle)
  else
    match available !! Z.to_nat (as_usize (partition self - 1)) with
    | Some p =>
        match Partition.mount_ro p (mountpoint self) handle with
        | (Err guestfs_error, handle') => (Err (VirtualRootError.SetupError guestfs_error), handle')
        | (Ok _, handle') => (Ok tt, handle')
        | (Stop h, handle') => (Stop h, handle')
        end
    | None =>
        (Err (VirtualRootError.ConfigError
                (str "Can't find a config for partition " ++ to_string (partition self))), handle)
    end.

End mount.
End Mount.

(** ** The disk and the root *)

Module ConnectedDisk.
Section disk.
Context {H : Type} `{libguestfs H} `{DebugStr}.

Record t : Type := mk { handle : GuestFS.t H; url : rstring }.

Definition new (handle : GuestFS.t H) (url : rstring) : t := mk handle url.

Definition list_partitions (self : t) : res GuestFSError.t (list Partition.t) * t :=
  let with_handle g := mk g (url self) in
  match GuestFS.list_partitions (handle self) with
  | (Ok partitions, g) =>
      let result := Partition.new <$> partitions in
      let '(_, g') := GuestFS.retrieve_appliance_stderr g in
      (Ok result, with_handle g')
  | (Err e, g) => (Err e, with_handle g)
  | (Stop h, g) => (Stop h, with_handle g)
  end.

(** [Display] *)
Definition to_text (self : t) : rstring :=
  str "<NBDDisk: " ++ url self ++ str " [" ++ GuestFS.to_text (handle self) ++ str "]>".

(** [open], with what it leaves of the shared handle. *)
Definition open_shared (self : t) (absolute_path : rstring)
  : res ErrorKind (FileReader.t H) * GuestFS.t H :=
  match GuestFS.get_size (handle self) absolute_path with
  | (Stop h, g) => (Stop h, g)
  | (Err guestfs_error, g) =>
      if contains (str "No such file or directory") (GuestFSError_to_string guestfs_error)
      then (Err NotFound, g) else (Err Other, g)
  | (Ok file_size, g) =>
      let display := str "<" ++ absolute_path ++ str " on " ++ to_text self ++ str ">" in
      match FileReader.open_at g absolute_path file_size display with
      | (Ok file_reader, g') => (Ok file_reader, g')
      | (Err _, g') => (Err Other, g')
      | (Stop h, g') => (Stop h, g')
      end
  end.

Definition open_path (self : t) (absolute_path : rstring) : res ErrorKind (FileReader.t H) :=
  (open_shared self absolute_path).1.

End disk.
#[global] Arguments t H : clear implicits.
End ConnectedDisk.

Module RemoteRoot.
Section root.
Context {H : Type} `{libguestfs H} `{DebugStr}.

Record t : Type := mk { disk : ConnectedDisk.t H; chroot_path : rstring }.

Definition new (disk : ConnectedDisk.t H) (chroot_path : rstring) : t := mk disk chroot_path.

Definition open_file (self : t) (path : rstring) : res ErrorKind (FileReader.t H) :=
  match from_utf8 (join (chroot_path self) path) with
  | None => Stop Panicked
  | Some absolute_path => ConnectedDisk.open_path (disk self) absolute_path
  end.

End root.
#[global] Arguments t H : clear implicits.
End RemoteRoot.

(** The trait [Config]: a value of the decoder may be a configuration, and a configuration may
    lead to a root. *)
Class Config (H Value C : Type) `{libguestfs H} : Type := {
  from_json : Value → option C;
  connect : bool → C → res VirtualRootError.t (RemoteRoot.t H);
}.

#[global] Instance RemoteRoot_Root {H} `{libguestfs H} `{DebugStr}
  : Root (RemoteRoot.t H) (FileReader.t H) := {
  open := RemoteRoot.open_file;
}.

Definition root_handle {H} (root : RemoteRoot.t H) : H :=
  GuestFS.handle (ConnectedDisk.handle (RemoteRoot.disk root)).

(** Opening a file that the image has, below the configured directory, gives a reader at
    its beginning whose stream of bytes is exactly the file, and which keeps the contract of
    an opened file from then on: every read fills the caller's buffer from the chunks of the
    library, whatever their sizes, or reaches the end. *)
Lemma remote_open_reader {H} `{libguestfs_files H} `{DebugStr} (root : RemoteRoot.t H)
    (path bytes : rstring) :
  let absolute_path := join (RemoteRoot.chroot_path root) path in
  file_at (root_handle root) absolute_path = Some bytes →
  utf8_valid absolute_path = true → nul_free absolute_path → (Z.of_nat (length bytes) < 2 ^ 63)%Z →
  ∃ r, open root path = Ok r ∧ reader_ok r ∧ FileReader.current_offset r = 0%Z ∧ rest_of r = bytes.
Proof.
  intros p Hf Hu Hn Hl. simpl. unfold RemoteRoot.open_file, from_utf8. fold p. rewrite Hu.
  unfold ConnectedDisk.open_path, ConnectedDisk.open_shared, GuestFS.get_size. rewrite CString_new_nul_free by done.
  destruct (guestfs_stat_file _ _ _ Hf) as (stat & h1 & Hstat & Hsize & Hsame1). unfold root_handle in Hstat.
  rewrite Hstat, Hsize, as_usize_small by lia. unfold FileReader.open_at, root_handle in *.
  destruct (read_chunk_file (GuestFS.with_handle (ConnectedDisk.handle (RemoteRoot.disk root)) h1)
    p bytes 0) as (chunk & g' & -> & Hsame2 & Hpre & _); [simpl; by rewrite Hsame1|done|lia|].
  simpl in *. rewrite Hsame1 in Hsame2. eexists. split; [done|]. unfold rest_of, file_bytes. simpl.
  rewrite Hsame2, Hf. split_and!; [|done|done].
  split; unfold rest_of, file_bytes; simpl; rewrite ?Hsame2, ?Hf; simpl;
    [eauto|done|done|done|lia|unfold FileChunk.ok; simpl; lia|done].
Qed.

(** A file the library cannot stat is reported as not found, so that the next root is
    tried, exactly when the library's message, as printed, says so; any other failure of the
    library is an error of another kind, which ends the search. *)
Theorem remote_open_fails {H} `{libguestfs H} `{DebugStr} (root : RemoteRoot.t H)
    (path message : rstring) (h : H) :
  let absolute_path := join (RemoteRoot.chroot_path root) path in
  utf8_valid absolute_path = true → nul_free absolute_path →
  guestfs_stat (root_handle root) absolute_path = (None, h) →
  guestfs_last_error h = Some message → utf8_valid message = true →
  open root path =
  if contains (str "No such file or directory") (GuestFSError_to_string (GuestFSError.Generic message))
  then Err NotFound else Err Other.
Proof.
  intros p Hu Hn Hstat Hlast Hm. simpl. unfold RemoteRoot.open_file, from_utf8. fold p. rewrite Hu.
  unfold ConnectedDisk.open_path, ConnectedDisk.open_shared, GuestFS.get_size. rewrite CString_new_nul_free by done.
  unfold root_handle in Hstat. fold p in Hstat. rewrite Hstat.
  unfold GuestFS.last_error, GuestFS.get_last_error. simpl. rewrite Hlast. unfold from_utf8.
  rewrite Hm. simpl. by destruct (contains _ _).
Qed.

(** ** The hypotheses can hold: a library over a map of files, that reads two bytes at a time *)

Record toy : Type := mkToy { toy_files : gmap rstring (list byte); toy_error : option rstring }.

Definition toy_fail {A} (h : toy) : option A * toy :=
  (None, mkToy (toy_files h) (Some (str "stat: No such file or directory"))).

Definition toy_stat (size : Z) : Stat.t := Stat.mk 0 0 0 0 0 0 0 size 512 0 0 0 0.

#[global] Instance toy_libguestfs : libguestfs toy := {
  guestfs_create := mkToy ∅ None;
  guestfs_close h := h;
  guestfs_pointer _ := str "0x1";
  guestfs_set_error_handler h := h;
  guestfs_set_event_callback h _ := (0%Z, h);
  guestfs_set_pgroup h _ := (0%Z, h);
  guestfs_last_error h := toy_error h;
  guestfs_add_drive_opts h _ _ := (0%Z, h);
  guestfs_config h _ _ := (0%Z, h);
  guestfs_launch h := (0%Z, h);
  guestfs_list_partitions h := (Some [str "/dev/sda1"; str "/dev/sda2"], h);
  guestfs_mount_ro h _ _ := (0%Z, h);
  guestfs_stat h p := match toy_files h !! p with
                      | Some bytes => (Some (toy_stat (Z.of_nat (length bytes))), h)
                      | None => toy_fail h
                      end;
  guestfs_set_append h _ := (0%Z, h);
  guestfs_pread h p count offset :=
    match toy_files h !! p with
    | Some bytes => (Some (take (Z.to_nat count `min` 2) (drop (Z.to_nat offset) bytes)), h)
    | None => toy_fail h
    end;
  guestfs_events _ := [];
}.

#[global] Program Instance toy_libguestfs_files : libguestfs_files toy := {
  file_at h p := toy_files h !! p;
}.
Next Obligation. intros h p bytes Hp. simpl in *. rewrite Hp. eauto. Qed.
Next Obligation.
  intros h p bytes count offset Hp Hc Ho. simpl in *. rewrite Hp. do 2 eexists. split; [done|].
  split; [done|]. split; [|split].
  - eexists. symmetry. apply take_drop.
  - rewrite length_take. lia.
  - intros E%(f_equal length). rewrite length_take, length_drop in E. simpl in E. lia.
Qed.
Next Obligation. intros h p. simpl. by destruct (toy_files h !! p). Qed.
Next Obligation. intros h p count offset. simpl. by destruct (toy_files h !! p). Qed.

#[global] Instance toy_debug : DebugStr := { debug_str s := str "'" ++ s ++ str "'" }.

Definition toy_root : RemoteRoot.t toy :=
  RemoteRoot.mk (ConnectedDisk.mk (GuestFS.mk (mkToy {[ str "/tftp/boot.img" := str "kernel" ]} None) 0)
    (str "nbd://10.0.0.1")) (str "/tftp").

Lemma remote_open_fails_witness : open toy_root (str "missing") = Err NotFound.
Proof.
  refine (remote_open_fails toy_root (str "missing") (str "stat: No such file or directory")
    (toy_fail (A := Stat.t) (root_handle toy_root)).2 _ _ _ _ _); [done| |done..].
  by apply (bool_decide_unpack _).
Defined.

(** The reader fetches three chunks to fill a buffer of five bytes. *)
Example toy_reads :
  match open toy_root (str "boot.img") with
  | Ok r => (read_to r (replicate 5 zero)).1 = Ok 5 ∧ (read_to r (replicate 5 zero)).2.1 = str "kerne"
  | _ => False
  end.
Proof. by vm_compute. Qed.

(** C19: a read of an image's file fills the caller's buffer, or reaches the end of the file,
    whatever chunks the library returns, and leaves the reader at the byte after: the loop
    ends within the fuel given and an out-of-range slice never arises. *)
Theorem remote_read_fills {H} `{libguestfs_files H} (r : FileReader.t H) (buffer : list byte) :
  reader_ok r →
  let n := length buffer `min` length (rest_of r) in
  ∃ r', FileReader.read_into r buffer = (Ok n, (take n (rest_of r) ++ drop n buffer, r')) ∧
        reader_ok r' ∧ rest_of r' = drop n (rest_of r).
Proof.
  apply read_into_spec.
Qed.

Definition toy_reader : FileReader.t toy :=
  FileReader.mk (ConnectedDisk.handle (RemoteRoot.disk toy_root)) (str "/tftp/boot.img") 6 1
    (FileChunk.mk (str "ke") 1) (str "boot.img").

Lemma remote_read_fills_witness :
  ∃ r', FileReader.read_into toy_reader (replicate 4 zero) = (Ok 4, (str "erne", r')) ∧
        reader_ok r' ∧ rest_of r' = str "l".
Proof.
  assert (rest_of toy_reader = str "ernel") as E by (by vm_compute).
  destruct (remote_read_fills toy_reader (replicate 4 zero)) as (r' & H1 & H2 & H3).
  - split; [by vm_compute; eexists|by apply (bool_decide_unpack _)|by vm_compute|done|done| |].
    + unfold FileChunk.ok. simpl. lia.
    + rewrite E. by exists (str "rnel").
  - rewrite E in H1, H3. exists r'. split; [exact H1|]. split; [exact H2|exact H3].
Defined.

(** A mount names a partition by its number from 1.  Numbers of existing partitions are
    mounted, larger ones are configuration errors; for partition 0 the index underflows,
    which a debug build turns into a panic and a release build into a configuration error,
    as no disk has 2^64 partitions. *)
Theorem mount_suitable_cases {H} `{libguestfs H} (debug : bool) (m : Mount.t) (available : list Partition.t)
    (g : GuestFS.t H) :
  (0 ≤ Mount.partition m ≤ usize_max)%Z → (Z.of_nat (length available) ≤ usize_max)%Z →
  Mount.mount_suitable debug m available g =
  if decide (Mount.partition m = 0%Z ∧ debug = true) then (Stop Panicked, g)
  else
    match (if decide (Mount.partition m = 0%Z) then None
           else available !! Z.to_nat (Mount.partition m - 1)) with
    | Some p =>
        match GuestFS.mount_ro g (Partition.device p) (Mount.mountpoint m) with
        | (Ok _, g') => (Ok tt, g')
        | (Err e, g') => (Err (VirtualRootError.SetupError e), g')
        | (Stop h, g') => (Stop h, g')
        end
    | None => (Err (VirtualRootError.ConfigError
                 (str "Can't find a config for partition " ++ to_string (Mount.partition m))), g)
    end.
Proof.
  intros Hp Ha. unfold usize_max in *. unfold Mount.mount_suitable.
  destruct (decide (Mount.partition m = 0%Z)) as [Hz|Hz].
  - rewrite Hz. destruct debug; [done|]. cbn [andb].
    rewrite decide_False by naive_solver. change (as_usize (0 - 1)) with 18446744073709551615%Z.
    by rewrite lookup_ge_None_2 by lia.
  - settle (Mount.partition m =? 0)%Z. rewrite andb_false_r, decide_False by naive_solver.
    rewrite as_usize_small by lia.
    destruct (available !! _); [|done]. unfold Partition.mount_ro.
    by destruct (GuestFS.mount_ro _ _ _) as [[]?].
Qed.

Lemma mount_suitable_cases_witness :
  Mount.mount_suitable false (Mount.mk 0 (str "/")) [Partition.mk (str "/dev/sda1")]
    (ConnectedDisk.handle (RemoteRoot.disk toy_root)) =
  (Err (VirtualRootError.ConfigError (str "Can't find a config for partition 0")),
   ConnectedDisk.handle (RemoteRoot.disk toy_root)).
Proof.
  apply (mount_suitable_cases false (Mount.mk 0 (str "/")) [Partition.mk (str "/dev/sda1")]);
    unfold usize_max; simpl; lia.
Defined.
