(* ===== verification/SharedDisk.v ===== *)
(** * SharedDisk: one libguestfs handle, several files

    A disk, its root and every file opened on it share one handle by reference counting
    ([Rc<GuestFS>]).  Here the handle is a store of its own: every operation borrows it and
    leaves it to the next one, in any order.  What the files deliver does not depend on the
    order, and libguestfs is asked to close the handle exactly once, when nothing refers to it
    any more, and for nothing after that ([Traced] records what it is asked). *)

From S2P Require Import Prelude Text Cursor Errors Fs Options Messages Net Window Session Transfer Delivery Negotiation Paths GuestFs RemoteFs.

(** ** A reader borrows the handle *)

Definition with_guest {H} (r : FileReader.t H) (g : GuestFS.t H) : FileReader.t H :=
  FileReader.mk g (FileReader.path r) (FileReader.file_size r) (FileReader.current_offset r)
    (FileReader.chunk r) (FileReader.display r).

(** The files of the image behind a handle. *)
Definition files_of {H} `{libguestfs_files H} (g : GuestFS.t H) : rstring → option (list byte) :=
  file_at (GuestFS.handle g).

Section keeps.
Context {H : Type} `{libguestfs_files H} `{DebugStr}.

Lemma last_error_keeps {A} (g : GuestFS.t H) : (GuestFS.last_error (A := A) g).2 = g.
Proof. unfold GuestFS.last_error. by destruct (GuestFS.get_last_error _). Qed.

Lemma get_size_keeps (g : GuestFS.t H) p : files_of (GuestFS.get_size g p).2 = files_of g.
Proof.
  unfold GuestFS.get_size, files_of. destruct (CString_new p) as [c|]; [|done].
  pose proof (guestfs_stat_keeps (GuestFS.handle g) c) as Hk.
  destruct (guestfs_stat _ _) as [[size|] h]; [done|]. by rewrite last_error_keeps.
Qed.

Lemma read_chunk_keeps (g : GuestFS.t H) p offset : files_of (GuestFS.read_chunk g p offset).2 = files_of g.
Proof.
  unfold GuestFS.read_chunk, files_of. destruct (CString_new p) as [c|]; [|done].
  pose proof (guestfs_pread_keeps (GuestFS.handle g) c CHUNK_SIZE (as_i64 offset)) as Hk.
  destruct (guestfs_pread _ _ _ _) as [[bytes|] h]; [done|]. by rewrite last_error_keeps.
Qed.

Lemma buffer_new_chunk_keeps (r : FileReader.t H) :
  files_of (FileReader.handle (FileReader.buffer_new_chunk r).2) = files_of (FileReader.handle r).
Proof.
  unfold FileReader.buffer_new_chunk.
  pose proof (read_chunk_keeps (FileReader.handle r) (FileReader.path r) (FileReader.current_offset r)) as Hk.
  by destruct (GuestFS.read_chunk _ _ _) as [[[|x l]|e|h] g].
Qed.

(** Reading changes no file, whatever the state of the reader. *)
Lemma read_loop_keeps fuel (r : FileReader.t H) read buffer :
  files_of (FileReader.handle (FileReader.read_loop fuel r read buffer).2.2) = files_of (FileReader.handle r).
Proof.
  revert r read buffer. induction fuel as [|fuel IH]; intros r read buffer; cbn [FileReader.read_loop];
    destruct (negb _); try done.
  destruct (range _ _ _) as [dst|]; [|done].
  destruct (FileChunk.fill _ _) as [[copied|e|h] [dst' chunk']]; try done.
  destruct (copied =? 0); [|by rewrite IH].
  set (r1 := FileReader.mk _ _ _ _ chunk' _). pose proof (buffer_new_chunk_keeps r1) as Hk.
  destruct (FileReader.buffer_new_chunk r1) as [[[]|e|h] r2]; simpl in *; [by rewrite IH|done..].
Qed.

Lemma read_into_keeps (r : FileReader.t H) buffer :
  files_of (FileReader.handle (FileReader.read_into r buffer).2.2) = files_of (FileReader.handle r).
Proof. apply read_loop_keeps. Qed.

Lemma open_shared_keeps (d : ConnectedDisk.t H) p :
  files_of (ConnectedDisk.open_shared d p).2 = files_of (ConnectedDisk.handle d).
Proof.
  unfold ConnectedDisk.open_shared. pose proof (get_size_keeps (ConnectedDisk.handle d) p) as Hk.
  destruct (GuestFS.get_size _ _) as [[size|e|h] g]; simpl in Hk; [|by destruct (contains _ _)|done].
  unfold FileReader.open_at. pose proof (read_chunk_keeps g p 0) as Hk'.
  destruct (GuestFS.read_chunk g p 0) as [[chunk|e|h] g']; simpl in *; congruence.
Qed.

(** A new reader's handle is what its opening left. *)
Lemma open_shared_reader (d : ConnectedDisk.t H) p r :
  (ConnectedDisk.open_shared d p).1 = Ok r →
  FileReader.handle r = (ConnectedDisk.open_shared d p).2.
Proof.
  unfold ConnectedDisk.open_shared.
  destruct (GuestFS.get_size _ _) as [[size|e|h] g]; [|by destruct (contains _ _)|done].
  unfold FileReader.open_at. destruct (GuestFS.read_chunk g p 0) as [[chunk|e|h] g']; simpl; congruence || by intros [= <-].
Qed.

(** A reader in good order stays so when the handle moves on. *)
Lemma reader_ok_with_guest (r : FileReader.t H) g :
  reader_ok r → files_of g = files_of (FileReader.handle r) →
  reader_ok (with_guest r g) ∧ rest_of (with_guest r g) = rest_of r.
Proof.
  unfold files_of. intros [Hf Hp Hs Hsm Ho Hc Hn] Hg.
  assert (rest_of (with_guest r g) = rest_of r) as Hrest by (unfold rest_of, file_bytes; simpl; by rewrite Hg).
  split; [|done]. split; unfold file_bytes in *; simpl; rewrite ?Hg, ?Hrest; done.
Qed.

End keeps.


(** ** The owners of the handle

    [strong] is the reference count of the [Rc].  The root and the readers are owners; the copy of the handle in their records is the one
    they last saw, and is replaced by [guest] whenever they run. *)

Module Disk.
Section disk.
Context {H : Type} `{libguestfs H} `{DebugStr}.

Record t : Type := mk {
  guest : GuestFS.t H;
  strong : nat;
  root : option (RemoteRoot.t H);
  next_file : nat;
  readers : gmap nat (FileReader.t H);
}.

(** A connected disk just handed over as a root. *)
Definition new (r : RemoteRoot.t H) : t :=
  mk (ConnectedDisk.handle (RemoteRoot.disk r)) 1 (Some r) 0 ∅.

(** [Rc::clone] *)
Definition rc_clone (s : t) : t :=
  mk (guest s) (S (strong s)) (root s) (next_file s) (readers s).

(** The drop of an [Rc]: the last one drops the handle. *)
Definition rc_drop (s : t) : t :=
  match strong s with
  | 0 => s
  | 1 => mk (GuestFS.drop_handle (guest s)) 0 (root s) (next_file s) (readers s)
  | S n => mk (guest s) n (root s) (next_file s) (readers s)
  end.

Definition with_guest_of (s : t) (g : GuestFS.t H) : t :=
  mk g (strong s) (root s) (next_file s) (readers s).
Definition with_root (s : t) (r : option (RemoteRoot.t H)) : t :=
  mk (guest s) (strong s) r (next_file s) (readers s).
Definition with_readers (s : t) (m : gmap nat (FileReader.t H)) : t :=
  mk (guest s) (strong s) (root s) (next_file s) m.
Definition next_number (s : t) : t :=
  mk (guest s) (strong s) (root s) (S (next_file s)) (readers s).

(** The root's disk over the handle as it is now. *)
Definition disk_now (s : t) (r : RemoteRoot.t H) : ConnectedDisk.t H :=
  ConnectedDisk.mk (guest s) (ConnectedDisk.url (RemoteRoot.disk r)).

(** What owners do: a request opens a file, which gets the next number; a session reads into
    its buffer; a session ends; the thread drops its roots. *)
Inductive op : Type :=
| OpenFile (path : rstring)
| ReadFile (file : nat) (buffer : list byte)
| DropFile (file : nat)
| DropRoot.

Inductive output : Type :=
| Opened (result : res ErrorKind unit)
| Bytes (result : res ErrorKind nat) (buffer : list byte)
| Nothing.

(** A panic is an outcome like the others; what follows it in a sequence of operations is
    the unwinding, which only drops.  The clone that an unsuccessful [FileReader::open]
    was given is dropped by it. *)
Definition open_file (path : rstring) (s : t) : output * t :=
  match root s with
  | None => (Nothing, next_number s)
  | Some r =>
      match from_utf8 (join (RemoteRoot.chroot_path r) path) with
      | None => (Opened (Stop Panicked), next_number s)
      | Some absolute_path =>
          let '(result, g) := ConnectedDisk.open_shared (disk_now s r) absolute_path in
          let s' := rc_clone (with_guest_of s g) in
          match result with
          | Ok reader => (Opened (Ok tt), next_number (with_readers s' (<[next_file s := reader]> (readers s))))
          | Err e => (Opened (Err e), next_number (rc_drop s'))
          | Stop h => (Opened (Stop h), next_number (rc_drop s'))
          end
      end
  end.

Definition run_op (o : op) (s : t) : output * t :=
  match o with
  | OpenFile path => open_file path s
  | ReadFile file buffer =>
      match readers s !! file with
      | None => (Nothing, s)
      | Some reader =>
          let '(result, (buffer', reader')) := FileReader.read_into (with_guest reader (guest s)) buffer in
          (Bytes result buffer',
           with_readers (with_guest_of s (FileReader.handle reader')) (<[file := reader']> (readers s)))
      end
  | DropFile file =>
      match readers s !! file with
      | None => (Nothing, s)
      | Some _ => (Nothing, rc_drop (with_readers s (delete file (readers s))))
      end
  | DropRoot =>
      match root s with
      | None => (Nothing, s)
      | Some _ => (Nothing, rc_drop (with_root s None))
      end
  end.

Fixpoint run (ops : list op) (s : t) : list output * t :=
  match ops with
  | [] => ([], s)
  | o :: ops' =>
      let '(out, s') := run_op o s in
      let '(outs, s'') := run ops' s' in
      (out :: outs, s'')
  end.

Lemma disk_run_snoc ops o s :
  run (ops ++ [o]) s =
  let '(outs, s') := run ops s in let '(out, s'') := run_op o s' in (outs ++ [out], s'').
Proof.
  revert s. induction ops as [|o' ops IH]; intros s; simpl.
  - by destruct (run_op o s).
  - destruct (run_op o' s) as [out s']. rewrite IH. destruct (run ops s') as [outs s2].
    by destruct (run_op o s2).
Qed.

(** ** Counting *)

Definition owners (s : t) : nat := match root s with Some _ => 1 | None => 0 end + size (readers s).

Record counted (s : t) : Prop := mkCounted {
  cn_strong : strong s = owners s;
  cn_fresh : ∀ i, next_file s ≤ i → readers s !! i = None;
}.

Lemma rc_drop_counted s :
  strong s = S (owners s) → (∀ i, next_file s ≤ i → readers s !! i = None) → counted (rc_drop s).
Proof.
  intros Hs Hf. unfold rc_drop. rewrite Hs. unfold owners in *.
  destruct (match root s with Some _ => 1 | None => 0 end + size (readers s)) eqn:E; split; simpl; unfold owners; simpl; lia || done.
Qed.

Lemma counted_open path s : counted s → counted (open_file path s).2.
Proof.
  intros [Hs Hf]. unfold open_file.
  assert (∀ s', strong s' = strong s → root s' = root s → readers s' = readers s →
    next_file s' = next_file s → counted (next_number s')) as Hnum.
  { intros s' E1 E2 E3 E4. split; unfold owners in *; simpl;
      rewrite ?E1, ?E2, ?E3, ?E4; [done|intros i Hi; apply Hf; lia]. }
  destruct (root s) as [r|] eqn:Hr; [|by apply Hnum].
  destruct (from_utf8 _) as [p|]; [|by apply Hnum].
  destruct (ConnectedDisk.open_shared _ _) as [result g].
  assert (∃ n, strong s = S n) as [n Hn] by (exists (size (readers s)); rewrite Hs; unfold owners; by rewrite Hr).
  assert (counted (next_number (rc_drop (rc_clone (with_guest_of s g))))) as Hback.
  { unfold rc_drop. simpl. rewrite Hn. apply Hnum; simpl; congruence. }
  destruct result as [reader|e|h]; [|done|done]. simpl.
  split; unfold owners in *; simpl.
  - rewrite map_size_insert_None by (apply Hf; done). rewrite Hs, Hr. lia.
  - intros i Hi. rewrite lookup_insert_ne by lia. apply Hf. lia.
Qed.

Lemma counted_op o s : counted s → counted (run_op o s).2.
Proof.
  intros Hcn. pose proof Hcn as [Hs Hf]. destruct o as [path|file buffer|file|]; simpl.
  - by apply counted_open.
  - destruct (readers s !! file) as [reader|] eqn:Hk; [|done].
    destruct (FileReader.read_into _ _) as (result & buffer' & reader'). simpl.
    split; unfold owners in *; simpl.
    + rewrite map_size_insert_Some by by eexists. done.
    + intros i Hi. rewrite lookup_insert_ne by (intros ->; rewrite Hf in Hk; congruence || done). by apply Hf.
  - destruct (readers s !! file) as [reader|] eqn:Hk; [|done].
    assert (strong s = S (owners (with_readers s (delete file (readers s))))) as Hn.
    { rewrite Hs. unfold owners. simpl. rewrite (map_size_delete_Some _ (readers s)) by by eexists.
      assert (size (readers s) ≠ 0) by (intros E%map_size_empty_iff; rewrite E in Hk; done). lia. }
    apply rc_drop_counted; simpl; [done|].
    intros i Hi. rewrite lookup_delete_None. right. by apply Hf.
  - destruct (root s) as [r|] eqn:Hr; [|done].
    assert (strong s = S (owners (with_root s None))) as Hn by (rewrite Hs; unfold owners; by rewrite Hr).
    by apply rc_drop_counted.
Qed.

Lemma run_counted r ops : counted (run ops (new r)).2.
Proof.
  induction ops as [|o ops IH] using rev_ind; [split; unfold owners; simpl; by rewrite ?map_size_empty|].
  rewrite disk_run_snoc. destruct (run ops (new r)) as [outs s]. pose proof (counted_op o s IH) as Ho.
  by destruct (run_op o s).
Qed.

(** ** The abstract specification: independent streams

    Each file that is open is the bytes it has yet to give.  A file of the image can be
    opened while the root is there; what a read gives depends on nothing but the file. *)

Record spec : Type := mkSpec {
  rooted : bool;
  number : nat;
  streams : gmap nat (list byte);
}.

(** The content found under a path, for paths a C string can hold. *)
Definition content (image : rstring → option (list byte)) (chroot path : rstring) : option (list byte) :=
  let p := join chroot path in
  if utf8_valid p && bool_decide (nul_free p) then
    bytes ← image p; if (Z.of_nat (length bytes) <? 2 ^ 63)%Z then Some bytes else None
  else None.

(** [None]: nothing is promised, the path not being a file of the image. *)
Definition spec_op (image : rstring → option (list byte)) (chroot : rstring) (o : op) (s : spec)
  : option output * spec :=
  match o with
  | OpenFile path =>
      if rooted s then
        match content image chroot path with
        | Some bytes =>
            (Some (Opened (Ok tt)), mkSpec (rooted s) (S (number s)) (<[number s := bytes]> (streams s)))
        | None => (None, mkSpec (rooted s) (S (number s)) (streams s))
        end
      else (Some Nothing, mkSpec (rooted s) (S (number s)) (streams s))
  | ReadFile file buffer =>
      match streams s !! file with
      | Some bytes =>
          let n := length buffer `min` length bytes in
          (Some (Bytes (Ok n) (take n bytes ++ drop n buffer)),
           mkSpec (rooted s) (number s) (<[file := drop n bytes]> (streams s)))
      | None => (None, s)
      end
  | DropFile file => (Some Nothing, mkSpec (rooted s) (number s) (delete file (streams s)))
  | DropRoot => (Some Nothing, mkSpec false (number s) (streams s))
  end.

Fixpoint spec_run (image : rstring → option (list byte)) (chroot : rstring) (ops : list op) (s : spec)
  : list (option output) :=
  match ops with
  | [] => []
  | o :: ops' =>
      let '(out, s') := spec_op image chroot o s in
      out :: spec_run image chroot ops' s'
  end.

Definition keeps_promise (promised : option output) (out : output) : Prop :=
  match promised with Some out' => out = out' | None => True end.

End disk.
#[global] Arguments t H : clear implicits.
End Disk.

Section refinement.
Context {H : Type} `{libguestfs_files H} `{DebugStr}.
Import Disk.
Context (image : rstring → option (list byte)) (chroot : rstring).

(** The stream of a file is in good order over every handle that the others may leave. *)
Definition gives (r : FileReader.t H) (bytes : list byte) : Prop :=
  ∀ g, files_of g = image → reader_ok (with_guest r g) ∧ rest_of (with_guest r g) = bytes.

Record simulates (a : spec) (s : Disk.t H) : Prop := mkSimulates {
  sm_counted : counted s;
  sm_rooted : if rooted a then ∃ r, root s = Some r ∧ RemoteRoot.chroot_path r = chroot else root s = None;
  sm_number : number a = next_file s;
  sm_files : strong s ≠ 0 → files_of (guest s) = image;
  sm_streams : ∀ file bytes, streams a !! file = Some bytes →
    ∃ r, readers s !! file = Some r ∧ gives r bytes;
}.

Lemma gives_reader (r : FileReader.t H) :
  reader_ok r → files_of (FileReader.handle r) = image → gives r (rest_of r).
Proof. intros Hok Hf g Hg. apply reader_ok_with_guest; congruence. Qed.

Lemma rc_drop_files (s : Disk.t H) : strong (rc_drop s) ≠ 0 → guest (rc_drop s) = guest s.
Proof. unfold rc_drop. by destruct (strong s) as [|[|n]]. Qed.

Lemma rc_drop_strong (s : Disk.t H) : strong (rc_drop s) ≠ 0 → strong s ≠ 0.
Proof. unfold rc_drop. destruct (strong s) as [|[|n]] eqn:E; simpl; congruence. Qed.

Lemma rc_drop_rest (s : Disk.t H) :
  root (rc_drop s) = root s ∧ next_file (rc_drop s) = next_file s ∧ readers (rc_drop s) = readers s.
Proof. unfold rc_drop. by destruct (strong s) as [|[|n]]. Qed.

(** Opening a file of the image. *)
Lemma content_opens r s path bytes :
  content image chroot path = Some bytes → RemoteRoot.chroot_path r = chroot →
  files_of (guest s) = image →
  ∃ absolute_path reader g, from_utf8 (join chroot path) = Some absolute_path ∧
    ConnectedDisk.open_shared (disk_now s r) absolute_path = (Ok reader, g) ∧
    files_of g = image ∧ gives reader bytes.
Proof.
  unfold content. destruct (utf8_valid _) eqn:Hu; [|done]. destruct (bool_decide _) eqn:Hn; [|done].
  apply bool_decide_eq_true in Hn. intros (b & Hb & Hl)%bind_Some Hr Hg.
  destruct (Z.ltb_spec (Z.of_nat (length b)) (2 ^ 63)); [|done]. injection Hl as ->.
  destruct (remote_open_reader (RemoteRoot.mk (disk_now s r) chroot) path bytes) as (reader & Ho & Hok & _ & Hrest);
    [simpl; unfold root_handle; simpl; by rewrite <- Hb, <- Hg|done..|].
  simpl in Ho. unfold RemoteRoot.open_file, from_utf8 in Ho. simpl in Ho. rewrite Hu in Ho.
  unfold ConnectedDisk.open_path in Ho. unfold from_utf8. rewrite Hu. exists (join chroot path), reader.
  pose proof (open_shared_keeps (disk_now s r) (join chroot path)) as Hk.
  pose proof (open_shared_reader (disk_now s r) (join chroot path)) as Hh.
  destruct (ConnectedDisk.open_shared _ _) as [result g]. simpl in *. subst result.
  exists g. split; [done|]. split; [done|]. split; [congruence|].
  rewrite <- Hrest. apply gives_reader; [done|]. rewrite (Hh reader eq_refl). congruence.
Qed.

Lemma owned_strong (s : Disk.t H) :
  counted s → is_Some (root s) ∨ (∃ file, is_Some (readers s !! file)) → strong s ≠ 0.
Proof.
  intros [-> _] Ho. unfold owners. destruct Ho as [[r ->]|(file & r & Hr)]; [lia|].
  assert (size (readers s) ≠ 0) by (intros E%map_size_empty_iff; by rewrite E in Hr). lia.
Qed.

(** Whatever is opened, the image and the files already open stay what they are. *)
Lemma simulates_opened a s path :
  simulates a s →
  simulates (mkSpec (rooted a) (S (number a)) (streams a)) (open_file path s).2.
Proof.
  intros Hsim. pose proof (counted_open path s (sm_counted _ _ Hsim)) as Hcn. revert Hcn.
  destruct Hsim as [[Hs Hf] Hr Hn Hg Hst].
  unfold open_file. destruct (root s) as [r|] eqn:Hroot;
    [|intros Hcn; split; simpl; try congruence || done; by rewrite Hroot].
  destruct (from_utf8 _) as [p|];
    [|intros Hcn; split; simpl; try congruence || done; by rewrite Hroot].
  pose proof (open_shared_keeps (disk_now s r) p) as Hk.
  destruct (ConnectedDisk.open_shared _ _) as [result g]. simpl in Hk.
  assert (strong s ≠ 0) as Hpos by (apply owned_strong; [done|left; by eexists]).
  destruct (rc_drop_rest (rc_clone (with_guest_of s g))) as (E1 & E2 & E3). simpl in *.
  assert (guest (rc_drop (rc_clone (with_guest_of s g))) = g) as Eg
    by (apply (rc_drop_files (rc_clone (with_guest_of s g))); unfold rc_drop; simpl; by destruct (strong s)).
  destruct result as [reader|e|h]; simpl; intros Hcn; split; simpl;
    rewrite ?E1, ?E2, ?E3, ?Eg, ?Hroot; try congruence || done; [intros _; rewrite Hk; auto| |intros _; rewrite Hk; auto..].
  intros file bytes Hlk. destruct (Hst _ _ Hlk) as (r' & Hr' & Hso). exists r'. split; [|done].
  rewrite lookup_insert_ne; [done|]. intros <-. by rewrite Hf in Hr'.
Qed.

Lemma simulates_read a s file buffer :
  simulates a s →
  let '(promised, a') := spec_op image chroot (ReadFile file buffer) a in
  let '(out, s') := run_op (ReadFile file buffer) s in
  keeps_promise promised out ∧ simulates a' s'.
Proof.
  intros Hsim. pose proof (counted_op (ReadFile file buffer) s (sm_counted _ _ Hsim)) as Hcn. revert Hcn.
  destruct Hsim as [Hcs Hr Hn Hg Hst]. simpl.
  destruct (readers s !! file) as [reader|] eqn:Hlk.
  2: { destruct (streams a !! file) eqn:E; [|done]. destruct (Hst _ _ E) as (r' & ? & _); congruence. }
  assert (strong s ≠ 0) as Hpos by (apply owned_strong; [done|right; by exists file; eexists]).
  pose proof (read_into_keeps (with_guest reader (guest s)) buffer) as Hk. simpl in Hk.
  rewrite (Hg Hpos) in Hk.
  destruct (streams a !! file) as [bytes|] eqn:Hst'.
  - destruct (Hst _ _ Hst') as (r' & Hr' & Hso). rewrite Hlk in Hr'. injection Hr' as <-.
    destruct (Hso (guest s) (Hg Hpos)) as [Hok Hrest].
    destruct (read_into_spec _ buffer Hok) as (reader' & Hread & Hok' & Hrest'). rewrite Hrest in *.
    rewrite Hread in *. simpl in *. intros Hcn. split; [done|]. split; simpl; try done.
    intros f b. rewrite lookup_insert. case_decide as Hfile.
    + subst f. intros [= <-]. exists reader'. rewrite lookup_insert, decide_True by done.
      split; [done|]. rewrite <- Hrest'. by apply gives_reader.
    + intros Hb. rewrite lookup_insert_ne by done. by apply Hst.
  - destruct (FileReader.read_into _ _) as (result & buffer' & reader'). simpl in *. intros Hcn.
    split; [done|]. split; simpl; try done.
    intros f b Hb. rewrite lookup_insert_ne by congruence. by apply Hst.
Qed.

Lemma simulates_op a s o :
  simulates a s →
  let '(promised, a') := spec_op image chroot o a in
  let '(out, s') := run_op o s in
  keeps_promise promised out ∧ simulates a' s'.
Proof.
  intros Hsim. pose proof (counted_op o s (sm_counted _ _ Hsim)) as Hcn.
  destruct o as [path|file buffer|file|]; [|by apply simulates_read| |]; simpl in *.
  - pose proof (simulates_opened a s path Hsim) as Hopen. destruct Hsim as [Hcs Hr Hn Hg Hst].
    destruct (rooted a) eqn:Hra.
    + destruct Hr as (r & Hroot & Hch).
      destruct (content image chroot path) as [bytes|] eqn:Hcon; [|by destruct (open_file path s)].
      destruct (content_opens r s path bytes Hcon Hch) as (p & reader & g & Hp & Ho & Hgi & Hso).
      { apply Hg, owned_strong; [done|left; by eexists]. }
      unfold open_file in *. rewrite Hroot, Hch, Hp, Ho in *. simpl in *. split; [done|].
      destruct Hopen as [_ Hr' Hn' Hg' Hst']. simpl in *. split; simpl; try done. rewrite Hn.
      intros f b. rewrite lookup_insert. case_decide as Hf; [|by apply Hst'].
      intros [= <-]. exists reader. by rewrite Hf, lookup_insert, decide_True.
    + unfold open_file in *. by rewrite Hr in *.
  - destruct Hsim as [Hcs Hr Hn Hg Hst]. destruct (readers s !! file) as [reader|] eqn:Hlk.
    + split; [done|]. destruct (rc_drop_rest (with_readers s (delete file (readers s)))) as (E1 & E2 & E3).
      split; simpl; rewrite ?E1, ?E2, ?E3; simpl; try done.
      * intros Hpos. rewrite rc_drop_files by done. apply Hg. by apply rc_drop_strong in Hpos.
      * intros f b [Hf Hb]%lookup_delete_Some. destruct (Hst _ _ Hb) as (r & ? & ?).
        exists r. by rewrite lookup_delete_ne.
    + split; [done|]. split; simpl; try done. intros f b [_ Hb]%lookup_delete_Some. by apply Hst.
  - destruct Hsim as [Hcs Hr Hn Hg Hst]. destruct (root s) as [r|] eqn:Hroot; [|by split; [|split]].
    split; [done|]. destruct (rc_drop_rest (with_root s None)) as (E1 & E2 & E3).
    split; simpl; rewrite ?E1, ?E2, ?E3; simpl; try done.
    intros Hpos. rewrite rc_drop_files by done. apply Hg. by apply rc_drop_strong in Hpos.
Qed.

Lemma simulates_run ops a s :
  simulates a s → Forall2 keeps_promise (spec_run image chroot ops a) (run ops s).1.
Proof.
  revert a s. induction ops as [|o ops IH]; intros a s Hsim; simpl; [constructor|].
  pose proof (simulates_op a s o Hsim) as Ho.
  destruct (spec_op _ _ o a) as [promised a'], (run_op o s) as [out s'], Ho as [Hp Ha].
  specialize (IH a' s' Ha). destruct (run ops s') as [outs s'']. by constructor.
Qed.

Lemma simulates_new (r : RemoteRoot.t H) :
  files_of (ConnectedDisk.handle (RemoteRoot.disk r)) = image → RemoteRoot.chroot_path r = chroot →
  simulates (mkSpec true 0 ∅) (new r).
Proof.
  intros Hi Hc. split; simpl; [apply (run_counted r [])|by exists r|done|done|done].
Qed.

End refinement.

(** C9: files of one disk do not disturb each other.  For every sequence of openings, reads and
    drops, in any order, by the owners of one shared handle: a file of the image opens while
    the root is there, and every read of it gives the next bytes of that file, exactly as if
    it were an independent stream, however the calls on the other files are interleaved
    with it, whether these succeed or fail. *)
Theorem shared_disk_refines {H} `{libguestfs_files H} `{DebugStr} (r : RemoteRoot.t H) (ops : list Disk.op) :
  Forall2 Disk.keeps_promise
    (Disk.spec_run (files_of (ConnectedDisk.handle (RemoteRoot.disk r))) (RemoteRoot.chroot_path r) ops
       (Disk.mkSpec true 0 ∅))
    (Disk.run ops (Disk.new r)).1.
Proof. apply simulates_run. by apply simulates_new. Qed.

(** ** What libguestfs is asked to do *)

(** libguestfs with a record of the calls it got, those that pass the handle's state;
    [guestfs_last_error] changes nothing and is not recorded. *)
Module Traced.

Inductive call : Type :=
| Create | Close | SetErrorHandler | SetEventCallback | SetPgroup | AddDrive | Config | Launch
| ListPartitions | MountRo | SetAppend
| StatFile (path : rstring)
| Pread (path : rstring) (count offset : Z).

Record t (H : Type) : Type := mk { lib : H; calls : list call }.
Arguments mk {H}.
Arguments lib {H}.
Arguments calls {H}.

Section traced.
Context {H : Type} `{libguestfs H}.

Definition log (c : call) (h : t H) (h' : H) : t H := mk h' (calls h ++ [c]).
Definition logged {A} (c : call) (h : t H) (r : A * H) : A * t H := (r.1, log c h r.2).

#[export] Instance traced : libguestfs (t H) := {
  guestfs_create := mk guestfs_create [Create];
  guestfs_close h := log Close h (guestfs_close (lib h));
  guestfs_pointer h := guestfs_pointer (lib h);
  guestfs_set_error_handler h := log SetErrorHandler h (guestfs_set_error_handler (lib h));
  guestfs_set_event_callback h events := logged SetEventCallback h (guestfs_set_event_callback (lib h) events);
  guestfs_set_pgroup h on := logged SetPgroup h (guestfs_set_pgroup (lib h) on);
  guestfs_last_error h := guestfs_last_error (lib h);
  guestfs_add_drive_opts h path ro := logged AddDrive h (guestfs_add_drive_opts (lib h) path ro);
  guestfs_config h key value := logged Config h (guestfs_config (lib h) key value);
  guestfs_launch h := logged Launch h (guestfs_launch (lib h));
  guestfs_list_partitions h := logged ListPartitions h (guestfs_list_partitions (lib h));
  guestfs_mount_ro h device mountpoint := logged MountRo h (guestfs_mount_ro (lib h) device mountpoint);
  guestfs_stat h path := logged (StatFile path) h (guestfs_stat (lib h) path);
  guestfs_set_append h string := logged SetAppend h (guestfs_set_append (lib h) string);
  guestfs_pread h path count offset := logged (Pread path count offset) h (guestfs_pread (lib h) path count offset);
  guestfs_events h := guestfs_events (lib h);
}.

Definition calls_of (g : GuestFS.t (t H)) : list call := calls (GuestFS.handle g).

(** Only calls that leave the handle open. *)
Definition used_open (g g' : GuestFS.t (t H)) : Prop :=
  ∃ uses, calls_of g' = calls_of g ++ uses ∧ Close ∉ uses.

#[export] Instance used_open_preorder : PreOrder used_open.
Proof.
  split.
  - intros g. exists []. rewrite app_nil_r. split; [done|set_solver].
  - intros g1 g2 g3 (u1 & E1 & N1) (u2 & E2 & N2). exists (u1 ++ u2).
    rewrite E2, E1, app_assoc. split; [done|set_solver].
Qed.

Lemma one_call (g g' : GuestFS.t (t H)) c : calls_of g' = calls_of g ++ [c] → c ≠ Close → used_open g g'.
Proof. intros E N. exists [c]. split; [done|set_solver]. Qed.

Lemma last_error_used {A} (g : GuestFS.t (t H)) : (GuestFS.last_error (A := A) g).2 = g.
Proof. unfold GuestFS.last_error. by destruct (GuestFS.get_last_error _). Qed.

Lemma get_size_used (g : GuestFS.t (t H)) p : used_open g (GuestFS.get_size g p).2.
Proof.
  unfold GuestFS.get_size. destruct (CString_new p) as [c|]; [|done]. cbn [guestfs_stat traced]. unfold logged.
  destruct (guestfs_stat _ _) as [[stat|] h]; cbn [fst snd]; rewrite ?last_error_used; by eapply one_call.
Qed.

Lemma read_chunk_used (g : GuestFS.t (t H)) p offset : used_open g (GuestFS.read_chunk g p offset).2.
Proof.
  unfold GuestFS.read_chunk. destruct (CString_new p) as [c|]; [|done]. cbn [guestfs_pread traced]. unfold logged.
  destruct (guestfs_pread _ _ _ _) as [[bytes|] h]; cbn [fst snd]; rewrite ?last_error_used; by eapply one_call.
Qed.

Context `{DebugStr}.

Lemma buffer_new_chunk_used (r : FileReader.t (t H)) :
  used_open (FileReader.handle r) (FileReader.handle (FileReader.buffer_new_chunk r).2).
Proof.
  unfold FileReader.buffer_new_chunk.
  pose proof (read_chunk_used (FileReader.handle r) (FileReader.path r) (FileReader.current_offset r)) as Hk.
  by destruct (GuestFS.read_chunk _ _ _) as [[[|x l]|e|h] g].
Qed.

Lemma read_loop_used fuel (r : FileReader.t (t H)) read buffer :
  used_open (FileReader.handle r) (FileReader.handle (FileReader.read_loop fuel r read buffer).2.2).
Proof.
  revert r read buffer. induction fuel as [|fuel IH]; intros r read buffer; cbn [FileReader.read_loop];
    destruct (negb _); try done.
  destruct (range _ _ _) as [dst|]; [|done].
  destruct (FileChunk.fill _ _) as [[copied|e|h] [dst' chunk']]; try done.
  destruct (copied =? 0); [|exact (IH _ _ _)].
  set (r1 := FileReader.mk _ _ _ _ chunk' _). pose proof (buffer_new_chunk_used r1) as Hk.
  destruct (FileReader.buffer_new_chunk r1) as [[[]|e|h] r2]; simpl in *; [|done..].
  etransitivity; [exact Hk|exact (IH _ _ _)].
Qed.

Lemma read_into_used (r : FileReader.t (t H)) buffer :
  used_open (FileReader.handle r) (FileReader.handle (FileReader.read_into r buffer).2.2).
Proof. apply read_loop_used. Qed.

Lemma open_shared_used (d : ConnectedDisk.t (t H)) p :
  used_open (ConnectedDisk.handle d) (ConnectedDisk.open_shared d p).2.
Proof.
  unfold ConnectedDisk.open_shared. pose proof (get_size_used (ConnectedDisk.handle d) p) as Hk.
  destruct (GuestFS.get_size _ _) as [[size|e|h] g]; simpl in Hk; [|by destruct (contains _ _)|done].
  unfold FileReader.open_at. pose proof (read_chunk_used g p 0) as Hk'.
  destruct (GuestFS.read_chunk g p 0) as [[chunk|e|h] g']; simpl in *; by etransitivity.
Qed.

End traced.
End Traced.
#[local] Existing Instance Traced.traced.
#[local] Existing Instance Traced.used_open_preorder.

(** ** The owners and the calls *)

Section closing.
Context {H : Type} `{libguestfs H} `{DebugStr}.
Import Disk.

(** After [pre] come calls that leave the handle open, and when the last owner is gone, its
    closing. *)
Definition closed_last (pre : list Traced.call) (s : Disk.t (Traced.t H)) : Prop :=
  ∃ uses, Traced.calls_of (guest s) = pre ++ uses ++ (if decide (strong s = 0) then [Traced.Close] else []) ∧ Traced.Close ∉ uses.

Lemma closed_last_used pre s s' :
  closed_last pre s → strong s ≠ 0 → strong s' ≠ 0 → Traced.used_open (guest s) (guest s') → closed_last pre s'.
Proof.
  unfold closed_last. intros (uses & E & N) Hs Hs' (more & E' & N'). exists (uses ++ more).
  rewrite decide_False, app_nil_r in E by done. rewrite decide_False, app_nil_r by done.
  rewrite E', E, app_assoc. split; [done|set_solver].
Qed.

Lemma closed_last_drop pre s : closed_last pre s → strong s ≠ 0 → closed_last pre (rc_drop s).
Proof.
  intros Hs Hn. unfold rc_drop. destruct (strong s) as [|[|n]] eqn:E; [done| |].
  - destruct Hs as (uses & Ht & N). rewrite E, decide_False, app_nil_r in Ht by done.
    exists uses. split; [|done]. cbn [strong guest]. rewrite decide_True, app_assoc, <- Ht by done. done.
  - eapply closed_last_used; [exact Hs|congruence|done|simpl; done].
Qed.

Lemma closed_last_open pre path s : counted s → closed_last pre s → closed_last pre (open_file path s).2.
Proof.
  intros Hcn Hs. unfold open_file. destruct (root s) as [r|] eqn:Hr; [|exact Hs].
  destruct (from_utf8 _) as [p|]; [|exact Hs].
  assert (strong s ≠ 0) as Hn by (apply owned_strong; [done|left; by eexists]).
  pose proof (Traced.open_shared_used (disk_now s r) p) as Hu. destruct (ConnectedDisk.open_shared _ _) as [result g].
  assert (closed_last pre (rc_clone (with_guest_of s g))) as Hc by by eapply closed_last_used.
  pose proof (closed_last_drop pre _ Hc ltac:(done)) as Hd. by destruct result.
Qed.

Lemma closed_last_op pre o s : counted s → closed_last pre s → closed_last pre (run_op o s).2.
Proof.
  intros Hcn Hs. destruct o as [path|file buffer|file|]; simpl; [by apply closed_last_open|..].
  - destruct (readers s !! file) as [reader|] eqn:Hk; [|exact Hs].
    assert (strong s ≠ 0) as Hn by (apply owned_strong; [done|right; eexists; by eexists]).
    pose proof (Traced.read_into_used (with_guest reader (guest s)) buffer) as Hu.
    destruct (FileReader.read_into _ _) as (result & buffer' & reader').
    by eapply closed_last_used.
  - destruct (readers s !! file) as [reader|] eqn:Hk; [|exact Hs].
    apply closed_last_drop; [exact Hs|]. change (strong s ≠ 0). apply owned_strong; [done|right; eexists; by eexists].
  - destruct (root s) as [r|] eqn:Hr; [|exact Hs].
    apply closed_last_drop; [exact Hs|]. change (strong s ≠ 0). apply owned_strong; [done|left; by eexists].
Qed.

Lemma run_closed_last r ops :
  closed_last (Traced.calls_of (ConnectedDisk.handle (RemoteRoot.disk r))) (run ops (new r)).2.
Proof.
  induction ops as [|o ops IH] using rev_ind; [exists []; simpl; rewrite app_nil_r; split; [done|set_solver]|].
  rewrite disk_run_snoc. pose proof (run_counted r ops) as Hcn.
  destruct (run ops (new r)) as [outs s]. pose proof (closed_last_op _ o s Hcn IH) as Ho. by destruct (run_op o s).
Qed.

End closing.

(** C14: [guestfs_close] is called once, and last.  After every sequence of operations of
    the owners, over libguestfs with a record of its calls: while the root or a file is
    there, no call since the disk was handed over has closed the handle; once all are gone,
    the last call has closed it, and none before it. *)
Theorem handle_closed_once {H} `{libguestfs H} `{DebugStr} (r : RemoteRoot.t (Traced.t H)) (ops : list Disk.op) :
  let s := (Disk.run ops (Disk.new r)).2 in
  Disk.strong s = Disk.owners s ∧
  ∃ uses, Traced.Close ∉ uses ∧
    Traced.calls_of (Disk.guest s) =
      Traced.calls_of (ConnectedDisk.handle (RemoteRoot.disk r)) ++
      (uses ++ if decide (Disk.root s = None ∧ Disk.readers s = ∅) then [Traced.Close] else []).
Proof.
  intros s. pose proof (Disk.run_counted r ops) as [Hs _]. fold s in Hs. split; [done|].
  destruct (run_closed_last r ops) as (uses & Hc & Hn). fold s in Hc. exists uses. split; [done|].
  rewrite Hc. do 2 f_equal. pose proof (map_size_empty_iff (Disk.readers s)) as [He1 He2].
  rewrite Hs. unfold Disk.owners. destruct (Disk.root s); repeat case_decide; naive_solver lia.
Qed.

(** ** A session beside others *)

(** What other requests and sessions do with the handle between two reads of a file. *)
Inductive use (H : Type) : Type :=
| OtherRead (reader : FileReader.t H) (buffer : list byte)
| OtherOpen (disk : ConnectedDisk.t H) (absolute_path : rstring).
Arguments OtherRead {H}.
Arguments OtherOpen {H}.

Definition used {H} `{libguestfs H} `{DebugStr} (g : GuestFS.t H) (u : use H) : GuestFS.t H :=
  match u with
  | OtherRead reader buffer =>
      FileReader.handle (FileReader.read_into (with_guest reader g) buffer).2.2
  | OtherOpen disk absolute_path =>
      (ConnectedDisk.open_shared (ConnectedDisk.mk g (ConnectedDisk.url disk)) absolute_path).2
  end.

(** A file with what happens to its handle before each of its reads. *)
Module SharedFile.

Record t (H : Type) : Type := mk { reader : FileReader.t H; others : list (list (use H)) }.
Arguments mk {H}.
Arguments reader {H}.
Arguments others {H}.

Definition read_into {H} `{libguestfs H} `{DebugStr} (self : t H) (buffer : list byte)
  : res ErrorKind nat * (list byte * t H) :=
  let g := foldl used (FileReader.handle (reader self)) (hd [] (others self)) in
  let '(result, (buffer', reader')) := FileReader.read_into (with_guest (reader self) g) buffer in
  (result, (buffer', mk reader' (tl (others self)))).

Definition size {H} `{libguestfs H} (self : t H) : res ErrorKind Z * t H :=
  let '(result, reader') := FileReader.size (reader self) in (result, mk reader' (others self)).

End SharedFile.

#[global] Instance SharedFile_OpenedFile {H} `{libguestfs H} `{DebugStr} : OpenedFile (SharedFile.t H) := {
  read_to := SharedFile.read_into;
  get_size := SharedFile.size;
}.

Lemma used_keeps {H} `{libguestfs_files H} `{DebugStr} us (g : GuestFS.t H) :
  files_of (foldl used g us) = files_of g.
Proof.
  revert g. induction us as [|u us IH]; intros g; simpl; [done|]. rewrite IH.
  destruct u as [reader buffer|disk p]; simpl; [by rewrite read_into_keeps|by rewrite open_shared_keeps].
Qed.

#[global] Program Instance SharedFile_spec {H} `{libguestfs_files H} `{DebugStr} : OpenedFileSpec (SharedFile.t H) := {
  remaining f := rest_of (SharedFile.reader f);
  readable f := reader_ok (SharedFile.reader f);
  fresh f := FileReader.current_offset (SharedFile.reader f) = 0%Z;
}.
Next Obligation.
  intros H ? ? ? [r others] buffer Hok n. simpl in *. unfold SharedFile.read_into. simpl.
  destruct (reader_ok_with_guest r (foldl used (FileReader.handle r) (hd [] others)) Hok) as [Hok' Hrest];
    [apply used_keeps|].
  destruct (read_into_spec _ buffer Hok') as (r' & -> & Hr' & Hrest'). rewrite Hrest in *.
  eexists. split; [done|]. by split.
Qed.
Next Obligation.
  intros H ? ? ? [r others] Hok Hfresh. simpl in *. exists (SharedFile.mk r others). split_and!; try done.
  unfold SharedFile.size, FileReader.size. simpl.
  pose proof (length_rest r Hok). do 2 f_equal. lia.
Qed.

(** A session on a file of a disk that other sessions and requests use at the same time
    delivers the file: whatever they read and open between any two of its reads, a client that
    cooperates is sent the whole content found under the request's path. *)
Theorem shared_session_delivers {H} `{libguestfs_files H} `{DebugStr} (debug : bool) (root : RemoteRoot.t H)
    (path bytes : rstring) (others : list (list (use H))) (o : options_map) (peer : SocketAddr)
    (n : nat) (c : Script) :
  let absolute_path := join (RemoteRoot.chroot_path root) path in
  file_at (root_handle root) absolute_path = Some bytes →
  utf8_valid absolute_path = true → nul_free absolute_path → (Z.of_nat (length bytes) < 2 ^ 63)%Z →
  128 ≤ n → cooperates peer o bytes c →
  ∃ reader l,
    open root path = Ok reader ∧
    send debug (SharedFile.mk reader others) o
      (mkLink (stream_of peer (script_arrivals peer o bytes c) []) (replicate n zero)) = (Ok tt, l) ∧
    delivered o bytes c (sent_by (stream l)).
Proof.
  intros p Hf Hu Hnul Hl Hn Hc.
  destruct (remote_open_reader root path bytes Hf Hu Hnul Hl) as (reader & Ho & Hok & Hfresh & Hrest).
  subst bytes. destruct (session_runs (F := SharedFile.t H) debug (SharedFile.mk reader others) o peer n c [])
    as (l & new & Hsend & Hsent & Hd); [done..|].
  exists reader, l. split; [done|]. split; [done|]. by rewrite Hsent.
Qed.

(** ** The hypotheses can hold *)

Definition two_files : RemoteRoot.t toy :=
  RemoteRoot.mk (ConnectedDisk.mk (GuestFS.mk
    (mkToy {[ str "/tftp/a" := str "first"; str "/tftp/b" := str "second" ]} None) 0)
    (str "nbd://10.0.0.1")) (str "/tftp").

(** Two files read in turns, while the root goes and a missing file is asked for. *)
Definition in_turns : list Disk.op :=
  [Disk.OpenFile (str "a"); Disk.OpenFile (str "b"); Disk.ReadFile 0 (replicate 3 zero);
   Disk.OpenFile (str "c"); Disk.ReadFile 1 (replicate 4 zero); Disk.DropRoot;
   Disk.ReadFile 0 (replicate 3 zero); Disk.DropFile 0; Disk.ReadFile 1 (replicate 2 zero); Disk.DropFile 1].

Example in_turns_outputs :
  (Disk.run in_turns (Disk.new two_files)).1 =
  [Disk.Opened (Ok tt); Disk.Opened (Ok tt); Disk.Bytes (Ok 3) (str "fir"); Disk.Opened (Err NotFound);
   Disk.Bytes (Ok 4) (str "seco"); Disk.Nothing; Disk.Bytes (Ok 2) (str "st" ++ [zero]); Disk.Nothing;
   Disk.Bytes (Ok 2) (str "nd"); Disk.Nothing].
Proof. by vm_compute. Qed.

Lemma shared_session_delivers_witness :
  let root := RemoteRoot.mk (ConnectedDisk.mk (GuestFS.mk
      (mkToy {[ str "/tftp/a" := sample_bytes; str "/tftp/b" := str "second" ]} None) 0)
      (str "nbd://10.0.0.1")) (str "/tftp") in
  let others := [[OtherOpen (RemoteRoot.disk root) (str "/tftp/c"); OtherRead toy_reader [zero]]] in
  ∃ reader l,
    open root (str "a") = Ok reader ∧
    send true (SharedFile.mk reader others) small_options
      (mkLink (stream_of sample_peer (script_arrivals sample_peer small_options sample_bytes small_script) [])
         (replicate 128 zero)) = (Ok tt, l) ∧
    delivered small_options sample_bytes small_script (sent_by (stream l)).
Proof.
  intros root others. apply (shared_session_delivers true root (str "a") sample_bytes others).
  - reflexivity.
  - reflexivity.
  - by apply (bool_decide_unpack _).
  - reflexivity.
  - lia.
  - exact small_script_cooperates.
Defined.

(** What is promised of these turns; nothing of the missing file. *)
Definition promised_turns : list (option Disk.output) :=
  [Some (Disk.Opened (Ok tt)); Some (Disk.Opened (Ok tt)); Some (Disk.Bytes (Ok 3) (str "fir")); None;
   Some (Disk.Bytes (Ok 4) (str "seco")); Some Disk.Nothing; Some (Disk.Bytes (Ok 2) (str "st" ++ [zero]));
   Some Disk.Nothing; Some (Disk.Bytes (Ok 2) (str "nd")); Some Disk.Nothing].

Lemma shared_disk_refines_witness :
  Forall2 Disk.keeps_promise promised_turns (Disk.run in_turns (Disk.new two_files)).1.
Proof.
  replace promised_turns with
    (Disk.spec_run (files_of (ConnectedDisk.handle (RemoteRoot.disk two_files))) (RemoteRoot.chroot_path two_files)
       in_turns (Disk.mkSpec true 0 ∅)) by (by vm_compute).
  apply (shared_disk_refines two_files in_turns).
Defined.

(** The same disk, with a record of the calls. *)
Definition two_files_traced : RemoteRoot.t (Traced.t toy) :=
  let g := root_handle two_files in
  RemoteRoot.mk (ConnectedDisk.mk (GuestFS.mk (Traced.mk g [Traced.Launch]) 0) (str "nbd://10.0.0.1")) (str "/tftp").

Example handle_closed_in_turns :
  Traced.calls_of (Disk.guest (Disk.run in_turns (Disk.new two_files_traced)).2) =
  [Traced.Launch; Traced.StatFile (str "/tftp/a"); Traced.Pread (str "/tftp/a") CHUNK_SIZE 0;
   Traced.StatFile (str "/tftp/b"); Traced.Pread (str "/tftp/b") CHUNK_SIZE 0;
   Traced.Pread (str "/tftp/a") CHUNK_SIZE 2; Traced.StatFile (str "/tftp/c");
   Traced.Pread (str "/tftp/b") CHUNK_SIZE 2; Traced.Pread (str "/tftp/a") CHUNK_SIZE 4;
   Traced.Pread (str "/tftp/b") CHUNK_SIZE 4; Traced.Close].
Proof. by vm_compute. Qed.
