(* ===== verification/TestsCommon.v ===== *)
(** * TestsCommon: src/src/tests_common.rs

    The two helpers that the tests of the disk files compare with each other: the payload
    they expect, and the loop that reads a file of an image to its end. *)

From S2P Require Import Prelude Text Fs GuestFs RemoteFs.

Definition DATA_PATTERN : rstring := str "ARBITRARY DATA".

(** [pattern.iter().copied().cycle().take(size)]: [size] turns are more than enough. *)
Definition make_payload (size : nat) : list byte := take size (concat (replicate size DATA_PATTERN)).

Section read_file.
Context {H : Type} `{libguestfs H}.

(** The [loop]; a failing read panics in [unwrap]. *)
Fixpoint read_file_loop (fuel : nat) (opened : FileReader.t H) (chunk buffer : list byte)
  : res Empty_set (list byte) * FileReader.t H :=
  match fuel with
  | O => (Stop OutOfFuel, opened)
  | S fuel' =>
      match FileReader.read_into opened chunk with
      | (Ok read_size, (chunk', opened')) =>
          if read_size =? 0 then (Ok buffer, opened')
          else
            match range 0 read_size chunk' with
            | None => (Stop Panicked, opened')
            | Some bytes => read_file_loop fuel' opened' chunk' (buffer ++ bytes)
            end
      | (Err _, (_, opened')) => (Stop Panicked, opened')
      | (Stop h, (_, opened')) => (Stop h, opened')
      end
  end.

(** Every round but the last takes a byte of the file. *)
Definition read_file (opened : FileReader.t H) : res Empty_set (list byte) * FileReader.t H :=
  read_file_loop (S (Z.to_nat (FileReader.file_size opened))) opened (replicate 512 zero) [].

End read_file.

Lemma read_file_loop_spec {H} `{libguestfs_files H} fuel (r : FileReader.t H) chunk buffer :
  reader_ok r → 0 < length chunk → length (rest_of r) < fuel →
  ∃ r', read_file_loop fuel r chunk buffer = (Ok (buffer ++ rest_of r), r') ∧ rest_of r' = [].
Proof.
  revert r chunk buffer. induction fuel as [|fuel IH]; intros r chunk buffer Hok Hc Hf; [lia|].
  cbn [read_file_loop]. destruct (read_into_spec r chunk Hok) as (r' & -> & Hok' & Hrest).
  set (n := length chunk `min` length (rest_of r)) in *.
  destruct (Nat.eqb_spec n 0) as [Hn|Hn].
  - exists r'. assert (rest_of r = []) as E by (apply length_zero_iff_nil; lia).
    rewrite Hrest, E, drop_nil, app_nil_r. done.
  - rewrite range_prefix by (rewrite length_app, length_take; lia).
    rewrite take_app_length' by (rewrite length_take; lia).
    destruct (IH r' (take n (rest_of r) ++ drop n chunk) (buffer ++ take n (rest_of r)))
      as (r'' & -> & ?); [done| | |].
    + rewrite length_app, length_take. lia.
    + rewrite Hrest, length_drop. lia.
    + exists r''. by rewrite Hrest, <- app_assoc, take_drop.
Qed.

(** The loop ends, with everything from the reader's position on. *)
Theorem read_file_reads_all {H} `{libguestfs_files H} (r : FileReader.t H) :
  reader_ok r → ∃ r', read_file r = (Ok (rest_of r), r') ∧ rest_of r' = [].
Proof.
  intros Hok. apply (read_file_loop_spec _ r _ []); [done|by rewrite length_replicate; lia|].
  pose proof (length_rest r Hok). destruct Hok. lia.
Qed.

Lemma lookup_cycle (n i : nat) :
  i < n * length DATA_PATTERN → concat (replicate n DATA_PATTERN) !! i = DATA_PATTERN !! (i mod length DATA_PATTERN).
Proof.
  revert i. induction n as [|n IH]; intros i Hi; [lia|]. cbn [replicate concat].
  destruct (decide (i < length DATA_PATTERN)).
  - by rewrite lookup_app_l, Nat.mod_small by done.
  - rewrite lookup_app_r, IH by lia. f_equal.
    replace i with (i - length DATA_PATTERN + 1 * length DATA_PATTERN) at 2 by lia. by rewrite Nat.Div0.mod_add.
Qed.

(** The payload is the pattern over and over. *)
Theorem make_payload_cycles (size i : nat) :
  length (make_payload size) = size ∧
  (i < size → make_payload size !! i = DATA_PATTERN !! (i mod length DATA_PATTERN)).
Proof.
  assert (size ≤ size * length DATA_PATTERN) as Hs by (change (length DATA_PATTERN) with 14; lia).
  unfold make_payload. split.
  - rewrite length_take, length_concat, fmap_replicate, sum_list_replicate. lia.
  - intros Hi. rewrite lookup_take_lt by done. apply lookup_cycle. lia.
Qed.

Example toy_read_file : (read_file toy_reader).1 = Ok (str "ernel").
Proof. by vm_compute. Qed.
