(* ===== verification/NbdDisk.v ===== *)
(** * NbdDisk: src/src/nbd_disk/mod.rs

    Connecting a remote disk and finding the configuration that says which.  The
    directory listing, the content of files and the JSON decoder are parameters. *)

From stdpp Require Import sorting.
From S2P Require Import Prelude Text Fs Options Paths Messages GuestFs RemoteFs.

Class Environment (Value : Type) : Type := {
  read_dir : rstring → res ErrorKind (list (res ErrorKind rstring));
  is_file : rstring → bool;
  read_to_string : rstring → res ErrorKind rstring;
  from_str : rstring → option Value;
}.

(** ** Attaching a disk *)

Section attach.
Context {H : Type} `{libguestfs H}.

Definition disable_appliance_log_color (handle : GuestFS.t H) : res GuestFSError.t unit * GuestFS.t H :=
  GuestFS.set_append handle (str "SYSTEMD_COLORS=0").

Definition add_stub_disk (handle : GuestFS.t H) : res GuestFSError.t unit * GuestFS.t H :=
  GuestFS.add_disk handle (str "/dev/null") true.

Definition add_nbd_device_read_only (handle : GuestFS.t H) (url : rstring)
  : res GuestFSError.t unit * GuestFS.t H :=
  let? (_, handle1) :=
    GuestFS.add_qemu_option handle (str "-device") (str "scsi-hd,drive=nbd0") in
  GuestFS.add_qemu_option handle1 (str "-drive")
    (str "id=nbd0,file=" ++ url ++ str ",format=raw,if=none,readonly=on").

(** The loop over the appliance's messages after a failed launch. *)
Fixpoint launch_error (url : rstring) (messages appliance_errors : list rstring) : GuestFSError.t :=
  match messages with
  | [] => GuestFSError.Generic (join_with [line_feed] appliance_errors)
  | error :: messages' =>
      if contains (str "Failed to connect to") error && contains (str "Connection refused") error
      then GuestFSError.ConnectionRefused url
      else if contains (str "server reported: export ") error && contains (str "not present") error
      then GuestFSError.ShareNotFound (str "Share is not found on server: " ++ url)
      else launch_error url messages' (appliance_errors ++ [error])
  end.

Definition attach_nbd_disk (url : rstring) : res GuestFSError.t (ConnectedDisk.t H) :=
  match GuestFS.new with
  | Stop h => Stop h
  | Err e => Err e
  | Ok handle =>
      let '(prepared, handle3) :=
        let? (_, handle1) := disable_appliance_log_color handle in
        let? (_, handle2) := add_stub_disk handle1 in
        add_nbd_device_read_only handle2 url in
      match prepared with
      | Err e => Err e
      | Stop h => Stop h
      | Ok _ =>
          match GuestFS.launch handle3 with
          | (Stop h, _) => Stop h
          | (Err _, handle4) =>
              Err (launch_error url (GuestFS.retrieve_appliance_stderr handle4).1 [])
          | (Ok _, handle4) =>
              Ok (ConnectedDisk.new (GuestFS.retrieve_appliance_stderr handle4).2 url)
          end
      end
  end.

End attach.

(** ** A configuration *)

Module NBDConfig.
Section config.
Context {H : Type} `{libguestfs H}.

Record t : Type := mk { url : rstring; mounts : list Mount.t; tftp_root : rstring }.

Fixpoint mount_all (debug : bool) (configs : list Mount.t) (partitions : list Partition.t)
    (handle : GuestFS.t H) : res VirtualRootError.t unit * GuestFS.t H :=
  match configs with
  | [] => (Ok tt, handle)
  | mountpoint_config :: configs' =>
      let? (_, handle') := Mount.mount_suitable debug mountpoint_config partitions handle in
      mount_all debug configs' partitions handle'
  end.

Definition connect (debug : bool) (self : t) : res VirtualRootError.t (RemoteRoot.t H) :=
  if negb (starts_with (str "nbd://") (url self))
  then Err (VirtualRootError.ConfigError (str "Invalid NBD URL: " ++ url self))
  else
    match attach_nbd_disk (url self) with
    | Stop h => Stop h
    | Err error => Err (VirtualRootError.SetupError error)
    | Ok disk =>
        match ConnectedDisk.list_partitions disk with
        | (Stop h, _) => Stop h
        | (Err error, _) => Err (VirtualRootError.SetupError error)
        | (Ok partitions, disk') =>
            match mount_all debug (mounts self) partitions (ConnectedDisk.handle disk') with
            | (Stop h, _) => Stop h
            | (Err error, _) => Err error
            | (Ok _, handle') =>
                Ok (RemoteRoot.new (ConnectedDisk.mk handle' (ConnectedDisk.url disk')) (tftp_root self))
            end
        end
    end.

End config.

(** The decoder's error is printed and forgotten. *)
Definition from_json {Value : Type} (from_value : Value → option t) (value : Value) : option t :=
  match from_value value with
  | Some config => Some config
  | None => None
  end.

End NBDConfig.

#[global] Instance NBDConfig_Config {H : Type} `{libguestfs H} {Value : Type} (from_value : Value → option NBDConfig.t)
  : Config H Value NBDConfig.t := {
  from_json := NBDConfig.from_json from_value;
  connect := NBDConfig.connect;
}.

(** ** Finding the configuration of a client *)

Section find.
Context {Value : Type} `{ENV : Environment Value}.

(** The order of [PathBuf]: component by component, names byte by byte. *)
Definition component_key (c : component) : Z * list Z :=
  match c with
  | RootDir => (0%Z, [])
  | CurDir => (1%Z, [])
  | ParentDir => (2%Z, [])
  | Normal name => (3%Z, u8_val <$> name)
  end.

Fixpoint lex_leb {A} (leb : A → A → bool) (eqb : A → A → bool) (l k : list A) : bool :=
  match l, k with
  | [], _ => true
  | _ :: _, [] => false
  | a :: l', b :: k' => if eqb a b then lex_leb leb eqb l' k' else leb a b
  end.

Definition key_leb (a b : Z * list Z) : bool :=
  if (a.1 =? b.1)%Z then lex_leb Z.leb Z.eqb a.2 b.2 else (a.1 <=? b.1)%Z.

Definition path_leb (p q : rstring) : bool :=
  lex_leb key_leb (λ a b, bool_decide (a = b)) (component_key <$> components p)
    (component_key <$> components q).

Definition path_le (p q : rstring) : Prop := path_leb p q = true.

#[global] Instance path_le_dec p q : Decision (path_le p q).
Proof. unfold path_le. apply _. Defined.

Definition files_sorted (parent : rstring) : list rstring :=
  let entries := match read_dir parent with Ok l => l | _ => [] end in
  let files := omap (λ entry, match entry with
                              | Ok path => if is_file path then Some path else None
                              | _ => None
                              end) entries in
  merge_sort path_le files.

Definition match_ip (path : rstring) (ip : rstring) : bool :=
  match file_name path ≫= from_utf8 with
  | Some name => starts_with ip name
  | None => false
  end.

Definition read_json (path : rstring) : option Value :=
  match read_to_string path with
  | Ok content => from_str content
  | _ => None
  end.

Context {H : Type} `{libguestfs H} (from_value : Value → option NBDConfig.t).

(** The loop of [open_nbd_root]. *)
Fixpoint open_first (debug : bool) (ip : rstring) (files : list rstring)
  : res Empty_set (option (RemoteRoot.t H)) :=
  match files with
  | [] => Ok None
  | file_path :: files' =>
      if match_ip file_path ip then
        match read_json file_path ≫= NBDConfig.from_json from_value with
        | Some nbd_config =>
            match NBDConfig.connect debug nbd_config with
            | Ok disk => Ok (Some disk)
            | Err (VirtualRootError.ConfigError _) => open_first debug ip files'
            | Err (VirtualRootError.SetupError _) => open_first debug ip files'
            | Stop h => Stop h
            end
        | None => open_first debug ip files'
        end
      else open_first debug ip files'
  end.

Definition open_nbd_root (debug : bool) (tftp_root ip : rstring)
  : res Empty_set (option (RemoteRoot.t H)) :=
  open_first debug ip (files_sorted tftp_root).

End find.

(** ** Order *)

Section lex.
Context {A : Type} (leb eqb : A → A → bool).
Context (Heqb : ∀ a b, eqb a b = true ↔ a = b) (Htot : ∀ a b, leb a b = true ∨ leb b a = true).

Lemma lex_leb_total l k : lex_leb leb eqb l k = true ∨ lex_leb leb eqb k l = true.
Proof using All.
  revert k. induction l as [|a l IH]; intros [|b k]; simpl; auto.
  destruct (eqb a b) eqn:E.
  - apply Heqb in E as ->. rewrite (proj2 (Heqb b b) eq_refl). apply IH.
  - destruct (eqb b a) eqn:E'; [apply Heqb in E' as ->; by rewrite (proj2 (Heqb a a) eq_refl) in E|].
    apply Htot.
Qed.

End lex.

#[global] Instance path_le_total : Total path_le.
Proof.
  intros p q. apply lex_leb_total; [intros; apply bool_decide_eq_true|].
  intros [a x] [b y]. unfold key_leb. simpl. rewrite (Z.eqb_sym b a).
  destruct (a =? b)%Z eqn:E.
  - apply lex_leb_total; [apply Z.eqb_eq|]. intros u v. rewrite !Z.leb_le. lia.
  - rewrite !Z.leb_le. lia.
Qed.

Section laws.
Context {Value : Type} `{ENV : Environment Value} {H : Type} `{libguestfs H}
  (from_value : Value → option NBDConfig.t).

Definition candidate (debug : bool) (ip file_path : rstring) : option (res VirtualRootError.t (RemoteRoot.t H)) :=
  if match_ip file_path ip
  then NBDConfig.connect debug <$> (read_json file_path ≫= NBDConfig.from_json from_value) else None.

Lemma open_first_cons debug ip file files :
  open_first from_value debug ip (file :: files) =
  match candidate debug ip file with
  | Some (Ok root) => Ok (Some root)
  | Some (Stop h) => Stop h
  | _ => open_first from_value debug ip files
  end.
Proof.
  unfold candidate. cbn [open_first]. destruct (match_ip file ip); [|done].
  destruct (read_json file ≫= NBDConfig.from_json from_value) as [c|]; [|done]. simpl.
  by destruct (NBDConfig.connect debug c) as [|[]|].
Qed.

Lemma open_first_Some debug ip files root :
  open_first from_value debug ip files = Ok (Some root) ↔
  ∃ before file after, files = before ++ file :: after ∧
    candidate debug ip file = Some (Ok root) ∧
    Forall (λ f, candidate debug ip f = None ∨ ∃ e, candidate debug ip f = Some (Err e)) before.
Proof.
  induction files as [|f files IH].
  { split; [done|]. by intros ([|??] & ? & ? & ? & _). }
  rewrite open_first_cons. split.
  - destruct (candidate debug ip f) as [[r|e|h]|] eqn:E; [intros [= ->]| |done|].
    + exists [], f, files. auto.
    + intros (before & file & after & -> & ? & ?)%IH.
      exists (f :: before), file, after. split; [done|]. split; [done|]. constructor; eauto.
    + intros (before & file & after & -> & ? & ?)%IH.
      exists (f :: before), file, after. split; [done|]. split; [done|]. constructor; eauto.
  - intros ([|b before] & file & after & [= -> ->] & Hc & HF); [by rewrite Hc|].
    apply Forall_cons in HF as [[->|[e ->]] HF]; apply IH; eauto 10.
Qed.

End laws.

(** The files that are looked at. *)
Lemma elem_of_files_sorted {Value : Type} `{ENV : Environment Value} (parent file : rstring) :
  file ∈ files_sorted parent ↔ is_file file = true ∧ ∃ entries, read_dir parent = Ok entries ∧ Ok file ∈ entries.
Proof.
  unfold files_sorted. rewrite merge_sort_Permutation, list_elem_of_omap.
  split.
  - intros (entry & Hin & Hf). destruct entry as [path|e|h]; try done. destruct (is_file path) eqn:Hp; [|done].
    injection Hf as ->. split; [done|]. destruct (read_dir parent) as [entries|e|h]; [by exists entries|set_solver..].
  - intros (Hf & entries & -> & Hin). exists (Ok file). by rewrite Hf.
Qed.

(** C30: [open_nbd_root] looks at the files of the directory, in the order of their paths, and
    returns the disk of the first whose name begins with the client's address, that is a valid
    configuration and connects: files before it do not match, are not configurations, or fail
    to connect. *)
Theorem open_nbd_root_first {Value : Type} `{ENV : Environment Value} {H : Type} `{libguestfs H}
    (from_value : Value → option NBDConfig.t) (debug : bool) (tftp_root ip : rstring)
    (root : RemoteRoot.t H) :
  Sorted path_le (files_sorted tftp_root) ∧
  (∀ file, file ∈ files_sorted tftp_root ↔
     is_file file = true ∧ ∃ entries, read_dir tftp_root = Ok entries ∧ Ok file ∈ entries) ∧
  (open_nbd_root from_value debug tftp_root ip = Ok (Some root) ↔
   ∃ before file after, files_sorted tftp_root = before ++ file :: after ∧
     candidate from_value debug ip file = Some (Ok root) ∧
     Forall (λ f, candidate from_value debug ip f = None ∨
                  ∃ e, candidate from_value debug ip f = Some (Err e)) before).
Proof.
  split; [apply Sorted_merge_sort, _|]. split; [intros; apply elem_of_files_sorted|apply open_first_Some].
Qed.

(** ** Which files match a client *)

(** A file name: one component, other than the two directories. *)
Definition plain_name (name : rstring) : Prop :=
  name ≠ [] ∧ name ≠ str "." ∧ name ≠ str ".." ∧ slash ∉ name.

Lemma split_plain name : slash ∉ name → split_slash name = [name].
Proof.
  induction name as [|b name IH]; [done|]. rewrite not_elem_of_cons. intros [Hb Hn]. simpl.
  rewrite decide_False by congruence. by rewrite IH.
Qed.

Lemma file_name_join dir name : dir ≠ [] → plain_name name → file_name (join dir name) = Some name.
Proof.
  intros Hd (Hne & Hdot & Hdots & Hs). unfold file_name. rewrite components_join; [|done|].
  - rewrite split_plain by done. simpl. unfold segment.
    rewrite !decide_False by done. simpl. by rewrite last_snoc.
  - destruct name as [|b name]; [done|]. simpl. apply bool_decide_eq_false.
    intros ->. apply Hs. by left.
Qed.

(** A file belongs to a client if its name begins with the client's address, whatever
    follows: the configuration of 10.0.0.10 is also one of 10.0.0.1. *)
Theorem match_ip_iff (dir name ip : rstring) :
  dir ≠ [] → plain_name name → utf8_valid name = true →
  match_ip (join dir name) ip = true ↔ ∃ rest, name = ip ++ rest.
Proof.
  intros Hd Hn Hu. unfold match_ip. rewrite file_name_join by done. simpl.
  unfold from_utf8. rewrite Hu. apply starts_with_spec.
Qed.

Lemma match_ip_iff_witness :
  match_ip (join (str "/srv/tftp") (str "10.0.0.10.nbd")) (str "10.0.0.1") = true ↔
  ∃ rest, str "10.0.0.10.nbd" = str "10.0.0.1" ++ rest.
Proof.
  apply (match_ip_iff (str "/srv/tftp") (str "10.0.0.10.nbd") (str "10.0.0.1")); [done| |done].
  by split_and!; [..|apply (bool_decide_unpack _)].
Defined.

(** ** What a failed launch is reported as *)

Definition refused (m : rstring) : bool :=
  contains (str "Failed to connect to") m && contains (str "Connection refused") m.
Definition share_missing (m : rstring) : bool :=
  contains (str "server reported: export ") m && contains (str "not present") m.

(** A failed launch is reported after the first message of the appliance that says
    either that the connection was refused or that the share is missing; if none does, the
    report is all the messages, one to a line. *)
Theorem launch_error_first (url : rstring) (messages : list rstring) :
  launch_error url messages [] =
  match list_find (λ m, refused m || share_missing m) messages with
  | Some (_, m) => if refused m then GuestFSError.ConnectionRefused url
                   else GuestFSError.ShareNotFound (str "Share is not found on server: " ++ url)
  | None => GuestFSError.Generic (join_with [line_feed] messages)
  end.
Proof.
  change messages with ([] ++ messages) at 3. generalize (@nil rstring) as acc.
  induction messages as [|m messages IH]; intros acc; cbn [launch_error list_find].
  { by rewrite app_nil_r. }
  fold (refused m) (share_missing m).
  destruct (refused m) eqn:Hr, (share_missing m) eqn:Hs; simpl; rewrite ?Hr; try done. rewrite IH.
  destruct (list_find _ messages) as [[? ?]|]; [done|]. simpl. by rewrite <- app_assoc.
Qed.

(** ** What a connected configuration has *)

Section connected.
Context {H : Type} `{libguestfs H}.

Lemma mount_all_Ok debug configs partitions (g g' : GuestFS.t H) :
  (Z.of_nat (length partitions) ≤ usize_max)%Z →
  Forall (λ m, (0 ≤ Mount.partition m ≤ usize_max)%Z) configs →
  NBDConfig.mount_all debug configs partitions g = (Ok tt, g') →
  Forall (λ m, (1 ≤ Mount.partition m ≤ Z.of_nat (length partitions))%Z) configs.
Proof.
  intros Hlen HF. revert g. induction HF as [|m configs Hm HF IH]; intros g; cbn [NBDConfig.mount_all];
    [constructor|].
  destruct (Mount.mount_suitable debug m partitions g) as [[[]|e|h] g1] eqn:E; try done.
  intros Hrest%IH. constructor; [|done]. unfold Mount.mount_suitable in E.
  destruct (debug && _); [done|]. destruct (partitions !! _) eqn:Hl; [|done].
  apply lookup_lt_Some in Hl. unfold usize_max, as_usize in *.
  destruct (decide (Mount.partition m = 0%Z)) as [Hz|]; [rewrite Hz in Hl; vm_compute (_ mod _)%Z in Hl; lia|].
  rewrite Z.mod_small in Hl by lia. lia.
Qed.

Lemma collect_names_length n entries names :
  GuestFS.collect_names n entries = Some names → length names ≤ n.
Proof.
  revert entries names. induction n as [|n IH]; intros [|e entries] names; simpl;
    try (intros [= <-]; simpl; lia).
  intros (name & _ & (names' & Hn & [= <-])%bind_Some)%bind_Some. simpl. specialize (IH _ _ Hn). lia.
Qed.

Lemma list_partitions_length (disk disk' : ConnectedDisk.t H) partitions :
  ConnectedDisk.list_partitions disk = (Ok partitions, disk') → length partitions ≤ 100.
Proof.
  unfold ConnectedDisk.list_partitions, GuestFS.list_partitions.
  destruct (guestfs_list_partitions _) as [[entries|] h]; [|unfold GuestFS.last_error; by destruct (GuestFS.get_last_error _)].
  destruct (GuestFS.collect_names 100 entries) eqn:E; [|done].
  destruct (GuestFS.retrieve_appliance_stderr _). intros [= <- <-]. rewrite length_fmap.
  by apply collect_names_length in E.
Qed.

End connected.

(** C32: a configuration that connects has an [nbd://] address and mounts only partitions the
    disk has, of the first hundred, counted from 1; files are then served from the
    directory it names. *)
Theorem connect_valid {H} `{libguestfs H} (debug : bool) (c : NBDConfig.t) (root : RemoteRoot.t H) :
  Forall (λ m, (0 ≤ Mount.partition m ≤ usize_max)%Z) (NBDConfig.mounts c) →
  NBDConfig.connect debug c = Ok root →
  starts_with (str "nbd://") (NBDConfig.url c) = true ∧
  RemoteRoot.chroot_path root = NBDConfig.tftp_root c ∧
  ∃ disk partitions disk', attach_nbd_disk (NBDConfig.url c) = Ok disk ∧
    ConnectedDisk.list_partitions disk = (Ok partitions, disk') ∧ length partitions ≤ 100 ∧
    Forall (λ m, (1 ≤ Mount.partition m ≤ Z.of_nat (length partitions))%Z) (NBDConfig.mounts c).
Proof.
  intros HF. unfold NBDConfig.connect. destruct (starts_with _ _); [|done]. cbn [negb].
  destruct (attach_nbd_disk _) as [disk| |] eqn:Ha; try done.
  destruct (ConnectedDisk.list_partitions disk) as [[partitions| |] disk'] eqn:Hl; try done.
  pose proof (list_partitions_length _ _ _ Hl).
  destruct (NBDConfig.mount_all _ _ _ _) as [[[]| |] g] eqn:Hm; try done.
  intros [= <-]. split; [done|]. split; [done|]. exists disk, partitions, disk'.
  split_and!; [done..|]. eapply mount_all_Ok; [|done..]. unfold usize_max. lia.
Qed.

Definition toy_config : NBDConfig.t :=
  NBDConfig.mk (str "nbd://10.10.10.10:25000/server_root") [Mount.mk 2 (str "/")] (str "/boot").

Lemma connect_valid_witness :
  ∃ root : RemoteRoot.t toy, NBDConfig.connect true toy_config = Ok root ∧
    RemoteRoot.chroot_path root = str "/boot".
Proof.
  eexists. split; [reflexivity|].
  refine (proj1 (proj2 (connect_valid true toy_config _ _ eq_refl))).
  repeat constructor; simpl; unfold usize_max; lia.
Defined.
