(* ===== verification/PeerHandler.v ===== *)
(** * PeerHandler: the requests of one client, src/src/peer_handler/mod.rs

    A handler owns the sessions of one address.  It runs in a thread of its own: requests
    come in through a channel, each gets a socket and a task, and the thread ends when the
    sender is gone or the client has been idle.  What runs beside the loop, the sender, the
    clock and the tasks, are the other steps of a transition system; the loop's own rounds
    are functions of its state. *)

From S2P Require Import Prelude Text Cursor Errors Fs Options Messages Net Window Session Transfer Delivery Negotiation Paths LocalFs GuestFs RemoteFs NbdDisk.

Definition MAX_SESSIONS_PER_IP : nat := 128.
Definition CHANNEL_SIZE : nat := 10.

(** The text of an address; IPv6 has several for one address, so both directions are
    parameters. *)
Class IpText : Type := {
  ip_to_string : IpAddr → rstring;
  ip_from_str : rstring → option IpAddr;
}.

(** [HashMap]'s capacity: at least what was asked for, and after an insertion at least the
    number of entries.  It is taken to change only where an insertion needs room. *)
Class HashMapCapacity : Type := {
  with_capacity : nat → nat;
  grown : nat → nat;
  with_capacity_ge n : n ≤ with_capacity n;
  grown_ge n : n ≤ grown n;
}.

(** ** Choosing the file *)

Section tasks.
Context {H : Type} `{libguestfs H} `{DebugStr} `{FileSystem}.

Inductive RootKind : Type :=
| Local (root : LocalRoot.t)
| Remote (root : RemoteRoot.t H).

(** What [schedule_task] hands to the executor. *)
Inductive Task : Type :=
| SendLocal (opened_file : LocalOpenedFile.t) (options : options_map) (l : Link)
| SendRemote (opened_file : FileReader.t H) (options : options_map) (l : Link)
| FireError (error : TFTPError) (l : Link).

Definition task_link (t : Task) : Link :=
  match t with SendLocal _ _ l | SendRemote _ _ l | FireError _ l => l end.

Definition open_root (root : RootKind) (request : ReadRequest.t) (l : Link) : res ErrorKind Task :=
  match root with
  | Local local_root =>
      match ReadRequest.open_in request local_root with
      | Ok opened_local_file => Ok (SendLocal opened_local_file (ReadRequest.yield_options request) l)
      | Err err => Err err
      | Stop h => Stop h
      end
  | Remote remote_root =>
      match ReadRequest.open_in request remote_root with
      | Ok opened_remote_file => Ok (SendRemote opened_remote_file (ReadRequest.yield_options request) l)
      | Err err => Err err
      | Stop h => Stop h
      end
  end.

Fixpoint schedule_task (request : ReadRequest.t) (l : Link) (available_roots : list RootKind)
  : res Empty_set Task :=
  match available_roots with
  | [] => Ok (FireError TFTPErr.file_not_found l)
  | root :: roots' =>
      match open_root root request l with
      | Ok task => Ok task
      | Stop h => Stop h
      | Err NotFound => schedule_task request l roots'
      | Err PermissionDenied => Ok (FireError TFTPErr.access_violation l)
      | Err _ => Ok (FireError (TFTPErr.undefined (str "Server Error")) l)
      end
  end.

Definition run_task (debug : bool) (t : Task) : res Empty_set unit * Link :=
  match t with
  | SendLocal f options l => send debug f options l
  | SendRemote f options l => send debug f options l
  | FireError error l => fire_error error l
  end.

(** The roots of a new handler: the client's directory, its remote disk if one is
    configured, the default directory. *)
Definition available_roots {Value} `{ENV : Environment Value} `{IpText}
    (from_value : Value → option NBDConfig.t) (debug : bool) (tftp_root : rstring) (peer : IpAddr)
  : res Empty_set (list RootKind) :=
  match open_nbd_root from_value debug tftp_root (ip_to_string peer) with
  | Stop h => Stop h
  | Err e => Err e
  | Ok remote =>
      Ok (Local (LocalRoot.new (join tftp_root (ip_to_string peer)))
          :: match remote with Some remote_root => [Remote remote_root] | None => [] end
          ++ [Local (LocalRoot.new (join tftp_root (str "default")))])
  end.

End tasks.
#[global] Arguments RootKind H : clear implicits.
#[global] Arguments Task H : clear implicits.

(** ** The loop over the requests *)

Section handler.
Context {H : Type} `{libguestfs H} `{DebugStr} `{FileSystem} `{HashMapCapacity}.

Record SessionHandle : Type := mkSession { session_task : Task H; is_finished : bool }.

(** Where the thread is: opening the roots, in the loop, past a [break] and before [close],
    waiting for the sessions, or gone, after its end or after a panic. *)
Inductive Phase : Type :=
| Opening
| Serving
| Leaving
| Waiting
| Exited
| Crashed.

Record Handler : Type := mkHandler {
  phase : Phase;
  queue : list (Z * ReadRequest.t);
  sender_alive : bool;
  receiver_open : bool;
  send_sessions : gmap Z SessionHandle;
  capacity : nat;
  last_active : Z;
}.

Definition new_handler (now : Z) : Handler :=
  mkHandler Opening [] true true ∅ (with_capacity MAX_SESSIONS_PER_IP) now.

Definition with_phase (s : Handler) (p : Phase) : Handler :=
  mkHandler p (queue s) (sender_alive s) (receiver_open s) (send_sessions s) (capacity s) (last_active s).
Definition with_queue (s : Handler) (q : list (Z * ReadRequest.t)) : Handler :=
  mkHandler (phase s) q (sender_alive s) (receiver_open s) (send_sessions s) (capacity s) (last_active s).
Definition with_sessions (s : Handler) (m : gmap Z SessionHandle) (cap : nat) : Handler :=
  mkHandler (phase s) (queue s) (sender_alive s) (receiver_open s) m cap (last_active s).
Definition with_last_active (s : Handler) (now : Z) : Handler :=
  mkHandler (phase s) (queue s) (sender_alive s) (receiver_open s) (send_sessions s) (capacity s) now.

(** [send_sessions.retain(|_, handle| !handle.is_finished())] *)
Definition retain_running (m : gmap Z SessionHandle) : gmap Z SessionHandle :=
  filter (λ kv, is_finished kv.2 = false) m.

Definition session_buffer : list byte := replicate buffer_size zero.

(** A round that received a request.  [bound] is what binding a socket gives; a failure to
    bind, like any panic, ends the loop's task. *)
Definition on_request (peer : IpAddr) (roots : list (RootKind H)) (bound : option UdpSocket.t)
    (peer_port : Z) (request : ReadRequest.t) (s : Handler)
  : res Empty_set unit * Handler :=
  match send_sessions s !! peer_port with
  | Some _ => (Ok tt, s)
  | None =>
      match bound with
      | None => (Stop Panicked, s)
      | Some local_socket =>
          let datagram_stream := DatagramStream.new local_socket (SocketAddr_new peer peer_port) in
          let l := mkLink datagram_stream session_buffer in
          let running := retain_running (send_sessions s) in
          let '(warned, l) :=
            if capacity s <=? size running
            then fire_error (TFTPErr.undefined (str "Maximum sessions per IP exceeded")) l
            else (Ok tt, l) in
          match warned with
          | Stop h => (Stop h, with_sessions s running (capacity s))
          | _ =>
              match schedule_task request l roots with
              | Ok task =>
                  let sessions := <[peer_port := mkSession task false]> running in
                  (Ok tt, with_sessions s sessions
                            (if capacity s <? size sessions then grown (size sessions) else capacity s))
              | Err e => match e with end
              | Stop h => (Stop h, with_sessions s running (capacity s))
              end
          end
      end
  end.

(** A round in which a second passed without a request. *)
Definition on_elapsed (idle_timeout now : Z) (s : Handler) : Handler :=
  let running := retain_running (send_sessions s) in
  let s' := with_sessions s running (capacity s) in
  if decide (running = ∅) then
    if (idle_timeout <? now - last_active s)%Z then with_phase s' Leaving else s'
  else with_last_active s' now.

(** After the loop: [rx_channel.close()]; what is still queued is never received. *)
Definition close (s : Handler) : Handler :=
  mkHandler Waiting (queue s) (sender_alive s) false (send_sessions s) (capacity s) (last_active s).

(** [feed]: [None] while the channel is full; [false] when the receiver is closed. *)
Definition feed (sender_port : Z) (request : ReadRequest.t) (s : Handler) : option (bool * Handler) :=
  if receiver_open s then
    if length (queue s) <? CHANNEL_SIZE
    then Some (true, with_queue s (queue s ++ [(sender_port, request)]))
    else None
  else Some (false, s).

(** [shutdown] drops the sender; the thread is then joined. *)
Definition drop_sender (s : Handler) : Handler :=
  mkHandler (phase s) (queue s) false (receiver_open s) (send_sessions s) (capacity s) (last_active s).

Definition finish_session (port : Z) (s : Handler) : Handler :=
  with_sessions s (alter (λ h, mkSession (session_task h) true) port (send_sessions s)) (capacity s).

Definition thread_finished (s : Handler) : bool :=
  match phase s with Exited | Crashed => true | _ => false end.

(** A panic ends the loop's task, which drops the receiver; the sessions run on. *)
Definition die (s : Handler) : Handler := close s.

(** A panic while the roots are opened ends the thread itself. *)
Definition crash (s : Handler) : Handler :=
  mkHandler Crashed (queue s) (sender_alive s) false (send_sessions s) (capacity s) (last_active s).

(** [opened] is what opening the roots gives. *)
Context (peer : IpAddr) (opened : res Empty_set (list (RootKind H))) (idle_timeout : Z).

(** The steps of the thread and of the tasks it runs. *)
Inductive thread_step : Handler → Handler → Prop :=
| thread_opened roots now s :
    opened = Ok roots → phase s = Opening → (last_active s ≤ now)%Z →
    thread_step s (with_last_active (with_phase s Serving) now)
| thread_crashes h s : opened = Stop h → phase s = Opening → thread_step s (crash s)
| thread_receive roots bound port request q s s' :
    opened = Ok roots → phase s = Serving → queue s = (port, request) :: q →
    on_request peer roots bound port request (with_queue s q) = (Ok tt, s') → thread_step s s'
| thread_panic roots bound port request q h s s' :
    opened = Ok roots → phase s = Serving → queue s = (port, request) :: q →
    on_request peer roots bound port request (with_queue s q) = (Stop h, s') → thread_step s (die s')
| thread_disconnected s :
    phase s = Serving → queue s = [] → sender_alive s = false → thread_step s (with_phase s Leaving)
| thread_elapsed now s :
    phase s = Serving → queue s = [] → (last_active s ≤ now)%Z → thread_step s (on_elapsed idle_timeout now s)
| thread_close s : phase s = Leaving → thread_step s (close s)
| thread_session_ends port s :
    is_Some (send_sessions s !! port) → thread_step s (finish_session port s)
| thread_exit s :
    phase s = Waiting → map_Forall (λ _ h, is_finished h = true) (send_sessions s) →
    thread_step s (with_phase s Exited).

(** And those of its owner, the server. *)
Inductive step : Handler → Handler → Prop :=
| step_feed port request s s' :
    is_u16 port → sender_alive s = true → feed port request s = Some (true, s') → step s s'
| step_drop s : step s (drop_sender s)
| step_thread s s' : thread_step s s' → step s s'.

Definition reachable (s : Handler) : Prop := ∃ now, rtc step (new_handler now) s.

End handler.
#[global] Arguments Handler H : clear implicits.
#[global] Arguments SessionHandle H : clear implicits.

(** ** Which root answers *)

Section precedence.
Context {H : Type} `{libguestfs H} `{DebugStr} `{FileSystem}.
Implicit Types roots : list (RootKind H).

(** What a root that does not say "not found" makes of the request. *)
Definition settled (root : RootKind H) (request : ReadRequest.t) (l : Link) (t : Task H) : Prop :=
  match open_root root request l with
  | Ok task => t = task
  | Err NotFound => False
  | Err PermissionDenied => t = FireError TFTPErr.access_violation l
  | Err _ => t = FireError (TFTPErr.undefined (str "Server Error")) l
  | Stop _ => False
  end.

Lemma schedule_task_skip request l before roots :
  Forall (λ root, open_root root request l = Err NotFound) before →
  schedule_task request l (before ++ roots) = schedule_task request l roots.
Proof. induction 1 as [|root before Hr _ IH]; [done|]. simpl. by rewrite Hr. Qed.

Lemma schedule_task_cons root roots request l t :
  settled root request l t → schedule_task request l (root :: roots) = Ok t.
Proof.
  unfold settled. cbn [schedule_task]. destruct (open_root root request l) as [task|e|h]; try done.
  - by intros ->.
  - by destruct e; try intros ->.
Qed.

Lemma schedule_task_link request l roots t :
  schedule_task request l roots = Ok t → task_link t = l.
Proof.
  induction roots as [|root roots IH]; cbn [schedule_task]; [by intros [= <-]|].
  destruct (open_root root request l) as [task|e|h] eqn:E; [intros [= ->]| |done].
  - unfold open_root in E. destruct root; repeat (case_match; simplify_eq; try done).
  - destruct e; try (by intros [= <-]); done.
Qed.

End precedence.

(** C18: the roots are tried in order and the first that does not answer "not found" decides:
    its file is sent, or the request is refused with "access violation", or with "Server
    Error" for any other failure; if no root has the file, the request is refused with
    "file not found". *)
Theorem first_root_decides {H} `{libguestfs H} `{DebugStr} `{FileSystem} (request : ReadRequest.t)
    (l : Link) (roots : list (RootKind H)) (t : Task H) :
  schedule_task request l roots = Ok t ↔
  (∃ before root after, roots = before ++ root :: after ∧
     Forall (λ root, open_root root request l = Err NotFound) before ∧ settled root request l t) ∨
  (Forall (λ root, open_root root request l = Err NotFound) roots ∧
   t = FireError TFTPErr.file_not_found l).
Proof.
  split.
  - induction roots as [|root roots IH]; [intros [= <-]; right; by split|].
    destruct (open_root root request l) as [task|e|h] eqn:E.
    2: destruct (decide (e = NotFound)) as [->|Hne].
    2: { cbn [schedule_task]. rewrite E.
         intros [(before & r & after & -> & HF & Hs)|[HF ->]]%IH; [left|right; auto].
         exists (root :: before), r, after. auto. }
    all: intros Ht; left; exists [], root, roots; split; [done|]; split; [done|];
      unfold settled; cbn [schedule_task] in Ht; rewrite E in *; try done.
    + by injection Ht as ->.
    + destruct e; try done; by injection Ht as ->.
  - intros [(before & root & after & -> & HF & Hs)|[HF ->]].
    + rewrite schedule_task_skip by done. by apply schedule_task_cons.
    + rewrite <- (app_nil_r roots). by rewrite schedule_task_skip.
Qed.

(** ** From the request to the client's copy *)

(** A file of a local root that no root before it has: the task scheduled for the request
    delivers it. *)
Lemma local_task_runs {H} `{libguestfs H} `{DebugStr} `{FileSystem} (debug : bool)
    (request : ReadRequest.t) (before after : list (RootKind H)) (dir data : list byte)
    (peer : SocketAddr) (n : nat) (c : Script) :
  let l := mkLink (stream_of peer (script_arrivals peer (ReadRequest.options request) data c) [])
             (replicate n zero) in
  Forall (λ root, open_root root request l = Err NotFound) before →
  os_open (join dir (trim_start_slashes (ReadRequest.filename request))) = Ok (File.mk data 0 [] []) →
  (Z.of_nat (length data) < 2 ^ 63)%Z → 128 ≤ n →
  cooperates peer (ReadRequest.options request) data c →
  ∃ f l', readable f ∧ fresh f ∧ schedule_task request l (before ++ Local (LocalRoot.new dir) :: after) =
      Ok (SendLocal f (ReadRequest.options request) l) ∧
    send debug f (ReadRequest.options request) l = (Ok tt, l') ∧
    delivered (ReadRequest.options request) data c (sent_by (stream l')).
Proof.
  intros l Hbefore Hopen Hlen Hn Hco.
  set (f := LocalOpenedFile.mk (File.mk data 0 [] [])
    (join dir (trim_start_slashes (ReadRequest.filename request)))).
  assert (open_root (H := H) (Local (LocalRoot.new dir)) request l =
    Ok (SendLocal f (ReadRequest.options request) l)) as Hroot.
  { unfold open_root, ReadRequest.open_in. simpl. rewrite open_file_any. simpl.
    rewrite trim_start_twice, Hopen. done. }
  destruct (session_runs debug f (ReadRequest.options request) peer n c [])
    as (l' & new & Hrun & Hsent & Hdel); [by split|done|done|by simpl; rewrite drop_0|].
  simpl in Hrun, Hdel. rewrite drop_0 in Hrun, Hdel.
  exists f, l'. rewrite schedule_task_skip by done. split; [by split|]. split; [done|].
  split; [apply schedule_task_cons; unfold settled; by rewrite Hroot|].
  split; [done|]. by rewrite Hsent.
Qed.

(** The same for a file of a remote disk, with the reader that is opened. *)
Lemma remote_task_runs {H} `{libguestfs_files H} `{DebugStr} `{FileSystem} (debug : bool)
    (request : ReadRequest.t) (before after : list (RootKind H)) (root : RemoteRoot.t H)
    (data : list byte) (peer : SocketAddr) (n : nat) (c : Script) :
  let l := mkLink (stream_of peer (script_arrivals peer (ReadRequest.options request) data c) [])
             (replicate n zero) in
  let path := join (RemoteRoot.chroot_path root) (trim_start_slashes (ReadRequest.filename request)) in
  Forall (λ root, open_root root request l = Err NotFound) before →
  file_at (root_handle root) path = Some data → utf8_valid path = true → nul_free path →
  (Z.of_nat (length data) < 2 ^ 63)%Z → 128 ≤ n →
  cooperates peer (ReadRequest.options request) data c →
  ∃ r l', open root (trim_start_slashes (ReadRequest.filename request)) = Ok r ∧
    readable r ∧ fresh r ∧
    schedule_task request l (before ++ Remote root :: after) =
      Ok (SendRemote r (ReadRequest.options request) l) ∧
    send debug r (ReadRequest.options request) l = (Ok tt, l') ∧
    delivered (ReadRequest.options request) data c (sent_by (stream l')).
Proof.
  intros l path Hbefore Hfile Hutf Hnul Hlen Hn Hco.
  destruct (remote_open_reader root (trim_start_slashes (ReadRequest.filename request)) data)
    as (r & Hr & Hok & Hz & Hrest); [done..|].
  assert (open_root (Remote root) request l = Ok (SendRemote r (ReadRequest.options request) l)) as Hroot.
  { unfold open_root, ReadRequest.open_in. by rewrite Hr. }
  destruct (session_runs debug r (ReadRequest.options request) peer n c [])
    as (l' & new & Hrun & Hsent & Hdel); [done|done|done|by simpl; rewrite Hrest|].
  simpl in Hrun, Hdel. rewrite Hrest in Hrun, Hdel.
  exists r, l'. rewrite schedule_task_skip by done.
  do 3 (split; [done|]). split; [apply schedule_task_cons; unfold settled; by rewrite Hroot|].
  split; [done|]. by rewrite Hsent.
Qed.

(** A file of a remote disk is delivered.  If the roots before it do not have the file
    and the mounted image does, below the configured directory, the task scheduled for the
    request delivers the file's content, read chunk by chunk through the library, to a
    client that cooperates. *)
Theorem remote_file_served {H} `{libguestfs_files H} `{DebugStr} `{FileSystem} (debug : bool)
    (request : ReadRequest.t) (before after : list (RootKind H)) (root : RemoteRoot.t H)
    (data : list byte) (peer : SocketAddr) (n : nat) (c : Script) :
  let l := mkLink (stream_of peer (script_arrivals peer (ReadRequest.options request) data c) [])
             (replicate n zero) in
  let path := join (RemoteRoot.chroot_path root) (trim_start_slashes (ReadRequest.filename request)) in
  Forall (λ root, open_root root request l = Err NotFound) before →
  file_at (root_handle root) path = Some data → utf8_valid path = true → nul_free path →
  (Z.of_nat (length data) < 2 ^ 63)%Z → 128 ≤ n →
  cooperates peer (ReadRequest.options request) data c →
  ∃ task l', schedule_task request l (before ++ Remote root :: after) = Ok task ∧
    run_task debug task = (Ok tt, l') ∧
    delivered (ReadRequest.options request) data c (sent_by (stream l')).
Proof.
  intros l path Hbefore Hfile Hutf Hnul Hlen Hn Hco.
  destruct (remote_task_runs debug request before after root data peer n c)
    as (r & l' & _ & _ & _ & Htask & Hrun & Hdel); [done..|].
  by exists (SendRemote r (ReadRequest.options request) l), l'.
Qed.

(** ** What every reachable state of a handler has *)

Section invariant.
Context {H : Type} `{libguestfs H} `{DebugStr} `{FileSystem} `{HashMapCapacity}.
Context (peer : IpAddr) (opened : res Empty_set (list (RootKind H))) (idle_timeout : Z).

(** A session talks to the port it is registered under, over a buffer of the full size. *)
Definition session_ok (port : Z) (h : SessionHandle H) : Prop :=
  let l := task_link (session_task h) in
  DatagramStream.peer_address (stream l) = SocketAddr_new peer port ∧
  length (buf l) = buffer_size.

Record handler_inv (s : Handler H) : Prop := mkHandlerInv {
  hi_queue : length (queue s) ≤ CHANNEL_SIZE;
  hi_sessions : map_Forall session_ok (send_sessions s);
  hi_opening : phase s = Opening → send_sessions s = ∅;
  hi_serving : phase s = Serving → ∃ roots, opened = Ok roots;
  hi_receiver : receiver_open s = true ↔ phase s = Opening ∨ phase s = Serving ∨ phase s = Leaving;
  hi_exited : thread_finished s = true → map_Forall (λ _ h, is_finished h = true) (send_sessions s);
}.

Lemma retain_running_Forall (P : Z → SessionHandle H → Prop) m :
  map_Forall P m → map_Forall P (retain_running m).
Proof. intros HF i x [Hi _]%map_lookup_filter_Some. by apply HF. Qed.

(** What a round leaves alone, and the sessions it may add. *)
Lemma on_request_spec roots bound port request (s s' : Handler H) r :
  on_request peer roots bound port request s = (r, s') →
  phase s' = phase s ∧ queue s' = queue s ∧ receiver_open s' = receiver_open s ∧
  sender_alive s' = sender_alive s ∧ last_active s' = last_active s ∧
  (map_Forall session_ok (send_sessions s) → map_Forall session_ok (send_sessions s')).
Proof using All.
  unfold on_request. destruct (send_sessions s !! port) eqn:Hp; [by intros [= <- <-]|].
  destruct bound as [socket|]; [|by intros [= <- <-]].
  set (l := mkLink _ _). set (running := retain_running (send_sessions s)).
  assert (map_Forall session_ok (send_sessions s) → map_Forall session_ok running) as Hrun
    by apply retain_running_Forall.
  assert (∃ l', (if capacity s <=? size running
    then fire_error (TFTPErr.undefined (str "Maximum sessions per IP exceeded")) l else (Ok tt, l))
    = (Ok tt, l') ∧ evolves (λ _, True) l l') as (l' & -> & Hev).
  { destruct (capacity s <=? size running); [|by exists l].
    destruct (fire_error_evolves (TFTPErr.undefined (str "Maximum sessions per IP exceeded")) l)
      as (l' & -> & Hev & _); [|exists l'; split; [done|by eapply evolves_impl]].
    change (37 < length session_buffer). unfold session_buffer. rewrite length_replicate.
    pose proof buffer_size_val. lia. }
  destruct (schedule_task request l' roots) as [task|[]|h] eqn:Ht; intros [= <- <-]; simpl; [|by auto 10].
  split_and!; try done. intros HF. apply map_Forall_insert_2; [|auto].
  unfold session_ok. simpl. rewrite (schedule_task_link _ _ _ _ Ht). split.
  - by rewrite (ev_peer _ _ _ Hev).
  - rewrite (ev_buf _ _ _ Hev). unfold l, session_buffer. simpl. by rewrite length_replicate.
Qed.

Lemma finish_session_ok (port : Z) (m : gmap Z (SessionHandle H)) :
  map_Forall session_ok m →
  map_Forall session_ok (alter (λ h, mkSession (session_task h) true) port m).
Proof.
  intros HF p h. rewrite lookup_alter. case_decide; [|by apply HF].
  intros (h' & Hh & ->)%fmap_Some. subst. exact (HF _ _ Hh).
Qed.

(** The receiver's clause, for a known phase. *)
Ltac phase_iff Hr :=
  split; intros Hx; [first [discriminate | by auto | apply Hr in Hx; destruct_or! Hx; by auto]|];
  first [by (apply Hr; auto) | by (destruct_or! Hx; discriminate)].

Lemma handler_inv_feed port request (s s' : Handler H) :
  feed port request s = Some (true, s') → handler_inv s → handler_inv s'.
Proof.
  intros Hf [Hq Hs Ho Hv Hr He]. unfold feed in Hf. destruct (receiver_open s) eqn:Hopen; [|done].
  destruct (length (queue s) <? CHANNEL_SIZE) eqn:Hl; [|done]. injection Hf as <-. to_prop.
  split; simpl; rewrite ?Hopen; try done. rewrite length_app. simpl. lia.
Qed.

Lemma handler_inv_thread (s s' : Handler H) :
  thread_step peer opened idle_timeout s s' → handler_inv s → handler_inv s'.
Proof using All.
  intros Hstep [Hq Hs Ho Hv Hr He]. unfold thread_finished in He. destruct Hstep as
    [roots now s Hop Hp Hn|h s Hop Hp
    |roots bound port request q s s' Hop Hp Hqs Hreq|roots bound port request q h s s' Hop Hp Hqs Hreq
    |s Hp Hqs Ha|now s Hp Hqs Hn|s Hp|port s Hsome|s Hp HF].
  3, 4: apply on_request_spec in Hreq as (Hp' & Hq' & Hr' & _ & _ & HF); simpl in *; rewrite Hqs in Hq; simpl in Hq.
  6: unfold on_elapsed; destruct (decide _); [destruct (idle_timeout <? _)%Z|].
  all: try rewrite Hp in Hr; split; unfold thread_finished; simpl; rewrite ?Hp', ?Hq', ?Hr', ?Hp; auto; try lia; try done;
    try (by apply retain_running_Forall); try (by eauto); try phase_iff Hr.
  - rewrite (Ho Hp). intros _. apply map_Forall_empty.
  - by apply finish_session_ok.
  - intros Hx%Ho. rewrite Hx in *. by destruct Hsome.
  - intros Hx%He p h. rewrite lookup_alter. case_decide; [|by apply Hx]. by intros (h' & _ & ->)%fmap_Some.
Qed.

Lemma handler_inv_step (s s' : Handler H) :
  step peer opened idle_timeout s s' → handler_inv s → handler_inv s'.
Proof using All.
  destruct 1 as [port request s s' _ _ Hf|s|s s' Hstep];
    [by eapply handler_inv_feed|by intros []; split|by apply handler_inv_thread].
Qed.

Lemma new_handler_inv now : handler_inv (new_handler now).
Proof. split; simpl; [unfold CHANNEL_SIZE; lia|apply map_Forall_empty|done|done|by split; auto|done]. Qed.

Lemma reachable_inv (s : Handler H) : reachable peer opened idle_timeout s → handler_inv s.
Proof using All.
  intros [now Hrtc]. pose proof (new_handler_inv now) as Hinit. revert Hinit. induction Hrtc as [|s1 s2 s3 Hstep _ IH]; [done|].
  intros Hinv. eapply IH, handler_inv_step; done.
Qed.

Section served.
Context (roots : list (RootKind H)) (Hroots : opened = Ok roots).

(** A request of a new port, while nothing is queued: it is fed, received, and served. *)
Lemma request_starts_session socket port request (s : Handler H) :
  is_u16 port → phase s = Serving → queue s = [] → sender_alive s = true → receiver_open s = true →
  send_sessions s !! port = None →
  (∀ l, ∃ t, schedule_task request l roots = Ok t) →
  ∃ s' t, rtc (step peer opened idle_timeout) s s' ∧
    phase s' = Serving ∧ queue s' = [] ∧ sender_alive s' = true ∧ receiver_open s' = true ∧
    send_sessions s' = <[port := mkSession t false]> (retain_running (send_sessions s)) ∧
    on_request peer roots (Some socket) port request s = (Ok tt, s').
Proof using All.
  intros Hport Hp Hq Ha Ho Hnone Htask.
  set (s1 := with_queue s [(port, request)]).
  destruct (on_request peer roots (Some socket) port request s) as [r s2] eqn:Hreq.
  assert (with_queue s1 [] = s) as Hs1 by (destruct s; simpl in *; by subst).
  assert (∃ t, r = Ok tt ∧ send_sessions s2 = <[port := mkSession t false]> (retain_running (send_sessions s)))
    as (t & -> & Hsess).
  { pose proof Hreq as Hreq'. unfold on_request in Hreq'. rewrite Hnone in Hreq'.
    destruct (if capacity s <=? _ then _ else _) as [warned l] eqn:Hw.
    destruct (Htask l) as [t Ht]. rewrite Ht in Hreq'.
    destruct warned as [[]|[]|h]; [by injection Hreq' as <- <-; exists t|].
    exfalso. destruct (capacity s <=? _); [|done].
    edestruct fire_error_evolves as (l' & Hfe & _); [|rewrite Hfe in Hw; done].
    change (37 < length session_buffer). unfold session_buffer. rewrite length_replicate.
    pose proof buffer_size_val. lia. }
  apply on_request_spec in Hreq as Hspec. destruct Hspec as (Hp2 & Hq2 & Ho2 & Ha2 & _ & _).
  exists s2, t. split; [|by split_and!; [congruence..|done|done]].
  eapply rtc_l; [|eapply rtc_once, step_thread, (thread_receive _ _ _ roots (Some socket) port request [] s1); [done|done|done|by rewrite Hs1]].
  apply (step_feed _ _ _ port request); [done..|]. unfold feed. by rewrite Ho, Hq.
Qed.

Lemma retain_running_all (m : gmap Z (SessionHandle H)) :
  map_Forall (λ _ h, is_finished h = false) m → retain_running m = m.
Proof. intros HF. apply map_filter_id. intros i x Hi. by apply (HF i x). Qed.

Lemma on_request_capacity bound port request (s s' : Handler H) :
  send_sessions s !! port = None → on_request peer roots bound port request s = (Ok tt, s') →
  capacity s' = if capacity s <? size (send_sessions s') then grown (size (send_sessions s')) else capacity s.
Proof using All.
  unfold on_request. intros ->. destruct bound; [|done].
  destruct (if capacity s <=? _ then _ else _) as [[[]|[]|h] l]; [|done].
  destruct (schedule_task request l roots) as [task|[]|h]; [|done]. by intros [= <-].
Qed.

(** A request of a new port is served; at capacity, an error is sent first. *)
Lemma request_beside arrs port request (s : Handler H) :
  send_sessions s !! port = None → (∀ l, ∃ t, schedule_task request l roots = Ok t) →
  ∃ s' t b, on_request peer roots (Some (UdpSocket.mk arrs [] [])) port request s = (Ok tt, s') ∧
    send_sessions s' = <[port := mkSession t false]> (retain_running (send_sessions s)) ∧
    schedule_task request (mkLink (stream_of (SocketAddr_new peer port) arrs
      (if capacity s <=? size (retain_running (send_sessions s))
       then [TFTPErr.wire (TFTPErr.undefined (str "Maximum sessions per IP exceeded")) zero] else [])) b) roots = Ok t.
Proof using All.
  intros Hnone Htask. unfold on_request. rewrite Hnone.
  change (DatagramStream.new (UdpSocket.mk arrs [] []) (SocketAddr_new peer port)) with
    (stream_of (SocketAddr_new peer port) arrs []).
  set (e := TFTPErr.undefined (str "Maximum sessions per IP exceeded")).
  assert (length (TFTPErr.wire e zero) < length session_buffer) as Hfit
    by (unfold session_buffer; rewrite length_replicate; pose proof buffer_size_val;
        change (length (TFTPErr.wire e zero)) with 37; lia).
  destruct (fire_error_sends e (SocketAddr_new peer port) arrs [] session_buffer Hfit) as (x & b & Hx & _ & Hfire).
  apply lookup_replicate in Hx as [-> _]. rewrite Hfire.
  destruct (capacity s <=? size (retain_running (send_sessions s))).
  - destruct (Htask (mkLink (stream_of (SocketAddr_new peer port) arrs [TFTPErr.wire e zero]) b)) as [t Ht].
    cbn [app]. rewrite Ht. by eexists _, t, b.
  - destruct (Htask (mkLink (stream_of (SocketAddr_new peer port) arrs []) session_buffer)) as [t Ht].
    rewrite Ht. by eexists _, t, session_buffer.
Qed.

Lemma many_sessions (socket : UdpSocket.t) (request : ReadRequest.t) (now : Z) (n : nat) :
  (Z.of_nat n ≤ 65536)%Z → (∀ l, ∃ t, schedule_task request l roots = Ok t) →
  ∃ s : Handler H, rtc (step peer opened idle_timeout) (new_handler now) s ∧
    phase s = Serving ∧ queue s = [] ∧ sender_alive s = true ∧ receiver_open s = true ∧
    map_Forall (λ _ h, is_finished h = false) (send_sessions s) ∧
    dom (send_sessions s) = list_to_set (Z.of_nat <$> seq 0 n) ∧ size (send_sessions s) = n ∧
    (n ≤ with_capacity MAX_SESSIONS_PER_IP → capacity s = with_capacity MAX_SESSIONS_PER_IP).
Proof using All.
  intros Hn Htask. induction n as [|n IH].
  { exists (with_last_active (with_phase (new_handler now) Serving) now). simpl. split_and!; try done.
    by eapply rtc_once, step_thread, thread_opened. }
  destruct IH as (s & Hr & Hp & Hq & Ha & Ho & HF & Hd & Hsz & Hcap); [lia|].
  assert (send_sessions s !! Z.of_nat n = None) as Hnone.
  { apply not_elem_of_dom. rewrite Hd, elem_of_list_to_set, list_elem_of_fmap.
    intros (k & Hk & Hin%elem_of_seq). lia. }
  destruct (request_starts_session socket (Z.of_nat n) request s)
    as (s' & t & Hr' & Hp' & Hq' & Ha' & Ho' & Hs' & Hreq); try done; [split; lia|].
  rewrite retain_running_all in Hs' by done.
  assert (size (send_sessions s') = S n) as Hsz' by (rewrite Hs', map_size_insert_None by done; lia).
  exists s'. split_and!; try done; [by etrans|rewrite Hs'; by apply map_Forall_insert_2| |].
  2: { intros Hle. apply on_request_capacity in Hreq as ->; [|done]. rewrite Hsz', Hcap by lia.
       destruct (Nat.ltb_spec (with_capacity MAX_SESSIONS_PER_IP) (S n)); [lia|done]. }
  rewrite Hs', dom_insert_L, Hd, seq_S, fmap_app, list_to_set_app_L. simpl. set_solver.
Qed.

End served.

(** The thread can always get out once its sender is gone. *)
Lemma drains roots q (s : Handler H) :
  opened = Ok roots → queue s = q → sender_alive s = false → phase s = Serving →
  ∃ s', rtc (thread_step peer opened idle_timeout) s s' ∧ phase s' = Waiting.
Proof using All.
  intros Hroots. revert s. induction q as [|[port request] q IH]; intros s Hq Ha Hp.
  - exists (close (with_phase s Leaving)). split; [|done].
    eapply rtc_l; [by apply thread_disconnected|]. by apply rtc_once, thread_close.
  - destruct (on_request peer roots (Some (UdpSocket.mk [] [] [])) port request (with_queue s q)) as [r s1] eqn:Hreq.
    pose proof (on_request_spec _ _ _ _ _ _ _ Hreq) as (Hp1 & Hq1 & _ & Ha1 & _ & _). simpl in *.
    destruct r as [[]|[]|h].
    + destruct (IH s1) as (s' & Hr & Hw); [congruence..|]. exists s'. split; [|done].
      eapply rtc_l; [by eapply thread_receive|done].
    + exists (die s1). split; [|done]. by eapply rtc_once, thread_panic.
Qed.

Lemma leaves (s : Handler H) :
  handler_inv s → sender_alive s = false →
  ∃ s', rtc (thread_step peer opened idle_timeout) s s' ∧ (phase s' = Waiting ∨ thread_finished s' = true).
Proof using All.
  intros Hinv Ha. destruct (phase s) eqn:Hp.
  - destruct opened as [roots|[]|h] eqn:Hop.
    + set (s1 := with_last_active (with_phase s Serving) (last_active s)).
      destruct (drains roots (queue s1) s1) as (s' & Hr & Hw); [done..|]. rewrite Hop in Hr.
      exists s'. split; [|by left]. eapply rtc_l; [|done]. by eapply thread_opened.
    + exists (crash s). split; [|by right]. by eapply rtc_once, thread_crashes.
  - destruct (hi_serving _ Hinv Hp) as [roots Hop].
    destruct (drains roots (queue s) s) as (s' & Hr & Hw); [done..|]. eauto.
  - exists (close s). split; [by apply rtc_once, thread_close|by left].
  - exists s. split; [done|by left].
  - exists s. split; [done|]. right. unfold thread_finished. by rewrite Hp.
  - exists s. split; [done|]. right. unfold thread_finished. by rewrite Hp.
Qed.

Lemma sessions_end (s : Handler H) (ports : list Z) :
  phase s = Waiting → (∀ p h, send_sessions s !! p = Some h → is_finished h = false → p ∈ ports) →
  ∃ s', rtc (thread_step peer opened idle_timeout) s s' ∧ phase s' = Exited.
Proof using All.
  revert s. induction ports as [|port ports IH]; intros s Hp Hall.
  - exists (with_phase s Exited). split; [|done]. apply rtc_once, thread_exit; [done|].
    intros p h Hh. destruct (is_finished h) eqn:E; [done|]. by apply Hall, elem_of_nil in Hh.
  - destruct (send_sessions s !! port) as [h0|] eqn:E.
    + destruct (IH (finish_session port s)) as (s' & Hr & He); [done| |].
      * intros p h. simpl. rewrite lookup_alter. case_decide as Hd.
        -- by intros (h' & _ & ->)%fmap_Some.
        -- intros Hh Hf. apply Hall in Hh; [|done]. set_solver.
      * exists s'. split; [|done]. eapply rtc_l; [|done]. by apply thread_session_ends; rewrite E.
    + apply IH; [done|]. intros p h Hh Hf. pose proof (Hall p h Hh Hf) as Hin.
      apply elem_of_cons in Hin as [->|]; [congruence|done].
Qed.

(** Once its sender is gone and its sessions end, the thread can end. *)
Lemma joining_completes (s : Handler H) :
  handler_inv s →
  ∃ s', rtc (thread_step peer opened idle_timeout) (drop_sender s) s' ∧ thread_finished s' = true.
Proof using All.
  intros Hinv. destruct (leaves (drop_sender s)) as (s1 & Hr1 & Hp1); [by destruct Hinv|done|].
  destruct Hp1 as [Hp1|Hp1]; [|by exists s1].
  destruct (sessions_end s1 (elements (dom (send_sessions s1)))) as (s2 & Hr2 & Hp2); [done| |].
  - intros p h Hh _. by apply elem_of_elements, elem_of_dom.
  - exists s2. split; [by etrans|unfold thread_finished; by rewrite Hp2].
Qed.

End invariant.

(** In every state a handler can reach, at most ten requests are queued; every session is
    registered under the port it talks to and has a full buffer; the receiver is open
    until the loop has been left; and a thread that has ended leaves no running session. *)
Theorem handler_invariant {H} `{libguestfs H} `{DebugStr} `{FileSystem} `{HashMapCapacity}
    (peer : IpAddr) (opened : res Empty_set (list (RootKind H))) (idle_timeout : Z) (s : Handler H) :
  reachable peer opened idle_timeout s →
  length (queue s) ≤ CHANNEL_SIZE ∧ map_Forall (session_ok peer) (send_sessions s) ∧
  (receiver_open s = true ↔ phase s = Opening ∨ phase s = Serving ∨ phase s = Leaving) ∧
  (thread_finished s = true → map_Forall (λ _ h, is_finished h = true) (send_sessions s)).
Proof.
  intros []%reachable_inv. by split_and!.
Qed.

(** C40: the limit on sessions is not enforced.  [n] requests from as many ports, up to all
    of them, bring a handler to a state with [n] sessions running, at the table's first
    capacity if [n] is that.  The request of any further port is then served like those
    before: if the table is at its capacity, the port is sent "Maximum sessions per IP
    exceeded" first, and a task for its file is scheduled all the same. *)
Theorem session_limit_ignored {H} `{libguestfs H} `{DebugStr} `{FileSystem} `{HashMapCapacity}
    (peer : IpAddr) (roots : list (RootKind H)) (idle_timeout : Z) (request : ReadRequest.t) (n : nat) :
  (Z.of_nat n ≤ 65536)%Z → (∀ l, ∃ t, schedule_task request l roots = Ok t) →
  ∃ s, reachable peer (Ok roots) idle_timeout s ∧ size (send_sessions s) = n ∧
    dom (send_sessions s) = list_to_set (Z.of_nat <$> seq 0 n) ∧
    map_Forall (λ _ h, is_finished h = false) (send_sessions s) ∧
    (n ≤ with_capacity MAX_SESSIONS_PER_IP → capacity s = with_capacity MAX_SESSIONS_PER_IP) ∧
    ∀ arrs port, send_sessions s !! port = None →
      ∃ s' task b, on_request peer roots (Some (UdpSocket.mk arrs [] [])) port request s = (Ok tt, s') ∧
        send_sessions s' = <[port := mkSession task false]> (send_sessions s) ∧
        schedule_task request (mkLink (stream_of (SocketAddr_new peer port) arrs
          (if capacity s <=? n
           then [TFTPErr.wire (TFTPErr.undefined (str "Maximum sessions per IP exceeded")) zero] else [])) b) roots
          = Ok task.
Proof.
  intros Hn Htask.
  destruct (many_sessions peer (Ok roots) idle_timeout roots eq_refl (UdpSocket.mk [] [] []) request 0 n Hn Htask)
    as (s & Hr & _ & _ & _ & _ & HF & Hd & Hsz & Hcap).
  exists s. split; [by exists 0%Z|]. split_and!; [done..|]. intros arrs port Hnone.
  pose proof (request_beside peer (Ok roots) idle_timeout roots eq_refl arrs port request s Hnone Htask) as Hreq.
  rewrite retain_running_all in Hreq by done. by rewrite Hsz in Hreq.
Qed.

(** From every state a handler can reach, once its sender is gone and if its sessions
    end, its thread can end, or has panicked: joining it does not wait for ever. *)
Theorem shutdown_can_complete {H} `{libguestfs H} `{DebugStr} `{FileSystem} `{HashMapCapacity}
    (peer : IpAddr) (opened : res Empty_set (list (RootKind H))) (idle_timeout : Z) (s : Handler H) :
  reachable peer opened idle_timeout s →
  ∃ s', rtc (thread_step peer opened idle_timeout) (drop_sender s) s' ∧ thread_finished s' = true.
Proof.
  intros Hinv%reachable_inv. by apply joining_completes.
Qed.

(** Past the loop, nothing starts a session. *)
Lemma no_more_sessions {H} `{libguestfs H} `{DebugStr} `{FileSystem} `{HashMapCapacity}
    (peer : IpAddr) opened (idle_timeout : Z) (s s' : Handler H) :
  phase s = Waiting ∨ phase s = Exited → send_sessions s = ∅ →
  rtc (step peer opened idle_timeout) s s' → send_sessions s' = ∅.
Proof.
  intros Hp Hs Hr. revert Hp Hs. induction Hr as [|x y z Hst _ IH]; [done|]. intros Hx Hs.
  apply IH; destruct Hst as [port request x y _ _ Hf|x|x y Hst]; try done.
  - unfold feed in Hf. by repeat (case_match; simplify_eq).
  - destruct Hst; simpl in *; auto; destruct_or! Hx; congruence.
  - unfold feed in Hf. by repeat (case_match; simplify_eq).
  - destruct Hst; simpl in *; try done; try (by rewrite Hs); destruct_or! Hx; congruence.
Qed.

(** A request can be accepted and then forgotten: one that is fed after the idle thread
    has left its loop and before it closes the channel stays queued, and no session is ever
    started for it. *)
Theorem idle_request_forgotten {H} `{libguestfs H} `{DebugStr} `{FileSystem} `{HashMapCapacity}
    (peer : IpAddr) (roots : list (RootKind H)) (idle_timeout port : Z) (request : ReadRequest.t) :
  is_u16 port →
  ∃ s0 s1 : Handler H, reachable peer (Ok roots) idle_timeout s0 ∧
    feed port request s0 = Some (true, s1) ∧ rtc (step peer (Ok roots) idle_timeout) s0 (close s1) ∧
    ∀ s', rtc (step peer (Ok roots) idle_timeout) (close s1) s' → send_sessions s' = ∅.
Proof.
  intros Hport. set (now := (1 + Z.max 0 idle_timeout)%Z).
  set (begun := with_last_active (H := H) (with_phase (new_handler 0) Serving) 0).
  assert (on_elapsed idle_timeout now begun = with_phase begun Leaving) as Hel.
  { unfold on_elapsed. simpl. rewrite decide_True by done.
    replace (idle_timeout <? now - 0)%Z with true by (symmetry; apply Z.ltb_lt; lia). done. }
  set (s0 := with_phase begun Leaving). set (s1 := with_queue s0 [(port, request)]). exists s0, s1.
  split; [|split; [done|split]].
  - exists 0%Z. eapply rtc_l; [by eapply step_thread, (thread_opened _ _ _ roots 0)|].
    apply rtc_once, step_thread. unfold s0. rewrite <- Hel. apply thread_elapsed; [done..|]. simpl. lia.
  - eapply rtc_l; [by apply (step_feed _ _ _ port request s0 s1)|]. by apply rtc_once, step_thread, thread_close.
  - intros s'. apply no_more_sessions; [by left|done].
Qed.

(** *** When a handler gives up *)

Section giving_up.
Context {H : Type} `{libguestfs H} `{DebugStr} `{FileSystem} `{HashMapCapacity}.
Context (peer : IpAddr) (opened : res Empty_set (list (RootKind H))) (idle_timeout : Z).
Abbreviation handler_step := (step peer opened idle_timeout).

Lemma last_active_grows (s s' : Handler H) : handler_step s s' → (last_active s ≤ last_active s')%Z.
Proof using All.
  destruct 1 as [port request s s' _ _ Hf|s|s s' Hstep]; [|done|].
  - unfold feed in Hf. by repeat (case_match; simplify_eq/=).
  - destruct Hstep as [| |? ? ? ? ? ? ? _ _ _ Hreq|? ? ? ? ? ? ? ? _ _ _ Hreq| | | | |]; simpl; try lia.
    + by apply (on_request_spec peer opened idle_timeout) in Hreq as (_ & _ & _ & _ & -> & _).
    + by apply (on_request_spec peer opened idle_timeout) in Hreq as (_ & _ & _ & _ & -> & _).
    + unfold on_elapsed. destruct (decide _); [destruct (_ <? _)%Z|]; simpl; lia.
Qed.

(** The ways out of the loop: the sender is gone; a tick, after the idle timeout since [t],
    finds no session running; a request's round panics. *)
Inductive leaves_loop (t : Z) (s : Handler H) : Handler H → Prop :=
| leaves_disconnected :
    queue s = [] → sender_alive s = false → leaves_loop t s (with_phase s Leaving)
| leaves_idle now :
    queue s = [] → retain_running (send_sessions s) = ∅ → (t + idle_timeout < now)%Z →
    leaves_loop t s (on_elapsed idle_timeout now s)
| leaves_panicking roots bound port request q h s' :
    opened = Ok roots → queue s = (port, request) :: q →
    on_request peer roots bound port request (with_queue s q) = (Stop h, s') → leaves_loop t s (die s').

Lemma serving_step (t : Z) (s s' : Handler H) :
  phase s = Serving → (t ≤ last_active s)%Z → handler_step s s' →
  phase s' = Serving ∨ leaves_loop t s s'.
Proof using All.
  intros Hs Ht. destruct 1 as [port request s s' _ _ Hf|s|s s' Hstep]; [|by left|].
  - left. unfold feed in Hf. by repeat (case_match; simplify_eq/=).
  - destruct Hstep as [| |? ? ? ? ? ? ? _ _ _ Hreq|? ? ? ? ? ? ? ? ? _ ? ?| |now s _ Hq Hn| | |]; try congruence.
    + left. apply (on_request_spec peer opened idle_timeout) in Hreq as (Hp & _). simpl in Hp. congruence.
    + right. by eapply leaves_panicking.
    + right. by apply leaves_disconnected.
    + destruct (decide (retain_running (send_sessions s) = ∅)) as [Hr|Hr];
        [destruct (Z.ltb_spec idle_timeout (now - last_active s))|].
      * right. apply leaves_idle; [done..|lia].
      * left. unfold on_elapsed. rewrite decide_True by done.
        destruct (Z.ltb_spec idle_timeout (now - last_active s)); [lia|done].
      * left. unfold on_elapsed. by rewrite decide_False.
    + by left.
Qed.

(** Every run out of the loop has such a step. *)
Lemma loop_left (t : Z) (s s' : Handler H) :
  phase s = Serving → (t ≤ last_active s)%Z → rtc handler_step s s' → phase s' ≠ Serving →
  ∃ s0 s1, rtc handler_step s s0 ∧ phase s0 = Serving ∧ leaves_loop t s0 s1 ∧
    handler_step s0 s1 ∧ rtc handler_step s1 s'.
Proof using All.
  intros Hs Ht Hr. revert Hs Ht. induction Hr as [x|x y z Hxy Hyz IH]; intros Hs Ht Hp; [done|].
  destruct (serving_step t x y Hs Ht Hxy) as [Hy|Hl].
  - pose proof (last_active_grows x y Hxy).
    destruct IH as (s0 & s1 & ? & ? & ? & ? & ?); [done|lia|done|].
    exists s0, s1. split_and!; try done. by eapply rtc_l.
  - by exists x, y.
Qed.

End giving_up.

(** C23: a handler is not given up while its client is busy.  Once a tick of its loop, at
    [t], has found a session running, whatever follows, the thread leaves the loop in one of
    three ways only: the server has let go of it; a tick more than the idle timeout after [t]
    finds no request queued and no session running; the round of a request panics. *)
Theorem busy_handler_stays {H} `{libguestfs H} `{DebugStr} `{FileSystem} `{HashMapCapacity}
    (peer : IpAddr) (opened : res Empty_set (list (RootKind H))) (idle_timeout t : Z) (s s' : Handler H) :
  phase s = Serving → retain_running (send_sessions s) ≠ ∅ →
  rtc (step peer opened idle_timeout) (on_elapsed idle_timeout t s) s' → phase s' ≠ Serving →
  ∃ s0 s1, rtc (step peer opened idle_timeout) (on_elapsed idle_timeout t s) s0 ∧
    phase s0 = Serving ∧ leaves_loop peer opened idle_timeout t s0 s1 ∧
    step peer opened idle_timeout s0 s1 ∧ rtc (step peer opened idle_timeout) s1 s'.
Proof.
  intros Hp Hrun. assert (on_elapsed idle_timeout t s =
    with_last_active (with_sessions s (retain_running (send_sessions s)) (capacity s)) t) as ->
    by (unfold on_elapsed; by rewrite decide_False).
  apply loop_left; [done|simpl; lia].
Qed.

(** Only a tick counts as activity: a handler that was opened at 0 and has a session running
    gives up at the next tick after the idle timeout, if the session ends before it, however
    late the session was started. *)
Theorem short_session_unseen {H} `{libguestfs H} `{DebugStr} `{FileSystem} `{HashMapCapacity}
    (peer : IpAddr) (roots : list (RootKind H)) (idle_timeout now port : Z) (request : ReadRequest.t) :
  is_u16 port → (0 ≤ idle_timeout < now)%Z → (∀ l, ∃ t, schedule_task request l roots = Ok t) →
  ∃ (s : Handler H) t, reachable peer (Ok roots) idle_timeout s ∧ phase s = Serving ∧
    send_sessions s = {[ port := mkSession t false ]} ∧
    thread_step peer (Ok roots) idle_timeout s (finish_session port s) ∧
    phase (on_elapsed idle_timeout now (finish_session port s)) = Leaving.
Proof.
  intros Hport Hnow Htask. set (s1 := with_last_active (H := H) (with_phase (new_handler 0) Serving) 0).
  destruct (request_starts_session peer (Ok roots) idle_timeout roots eq_refl (UdpSocket.mk [] [] []) port request s1)
    as (s & t & Hr & Hp & Hq & Ha & Ho & Hs & Hreq); try done.
  exists s, t. change (retain_running (send_sessions s1)) with (retain_running (∅ : gmap Z (SessionHandle H))) in Hs.
  assert (retain_running ∅ = (∅ : gmap Z (SessionHandle H))) as He by (by rewrite retain_running_all).
  rewrite He in Hs. split; [|split; [done|split; [done|split]]].
  - exists 0%Z. eapply rtc_l; [|exact Hr]. by eapply step_thread, thread_opened.
  - apply thread_session_ends. rewrite Hs, lookup_insert_eq. by eexists.
  - assert (last_active s = 0%Z) as Hl by (by apply (on_request_spec peer (Ok roots) idle_timeout) in Hreq as (_ & _ & _ & _ & -> & _)).
    assert (retain_running (send_sessions (finish_session port s)) = ∅) as Hrun.
    { apply map_eq. intros i. rewrite lookup_empty. apply map_lookup_filter_None. right. simpl. intros x.
      rewrite Hs, lookup_alter. case_decide as Hi.
      - subst. rewrite lookup_insert_eq. by intros [= <-].
      - by rewrite lookup_insert_ne by done. }
    unfold on_elapsed. rewrite Hrun, decide_True by done. simpl. rewrite Hl.
    destruct (Z.ltb_spec idle_timeout (now - 0)); [done|lia].
Qed.

(** ** The hypotheses can hold *)

#[global] Instance sample_capacity : HashMapCapacity.
Proof. refine {| with_capacity n := n; grown n := n |}; lia. Defined.

(** A system with one file, in the default directory. *)
#[global] Instance one_file_system : FileSystem := {|
  os_open p := if decide (p = str "/srv/tftp/default/boot.img")
               then Ok (File.mk sample_bytes 0 [] []) else Err NotFound;
|}.

Definition boot_request : ReadRequest.t := ReadRequest.mk (str "/boot.img") small_options.

(** The same request answered by a disk image. *)
Definition boot_root : RemoteRoot.t toy :=
  RemoteRoot.mk (ConnectedDisk.mk (GuestFS.mk (mkToy {[ str "/tftp/boot.img" := sample_bytes ]} None) 0)
    (str "nbd://10.0.0.1")) (str "/tftp").

Lemma remote_file_served_witness :
  let l := mkLink (stream_of sample_peer (script_arrivals sample_peer small_options sample_bytes small_script) [])
             (replicate 128 zero) in
  ∃ task l',
    schedule_task boot_request l
      ([Local (LocalRoot.new (str "/srv/tftp/10.0.0.1"))] ++ [Remote boot_root]) = Ok task ∧
    run_task true task = (Ok tt, l') ∧ delivered small_options sample_bytes small_script (sent_by (stream l')).
Proof.
  refine (remote_file_served true boot_request
    [Local (LocalRoot.new (str "/srv/tftp/10.0.0.1"))] [] boot_root sample_bytes
    sample_peer 128 small_script _ _ _ _ _ _ _).
  - repeat constructor.
  - reflexivity.
  - reflexivity.
  - by apply (bool_decide_unpack _).
  - reflexivity.
  - lia.
  - exact small_script_cooperates.
Defined.

(** A handler that was fed a request while it opened its roots. *)
Definition fed_handler : Handler toy := with_queue (new_handler 0) [(4000%Z, boot_request)].

Lemma fed_reachable opened : reachable (V4 1) opened 5 fed_handler.
Proof. exists 0%Z. apply rtc_once. by apply (step_feed _ _ _ 4000 boot_request). Qed.

Lemma handler_invariant_witness :
  length (queue fed_handler) ≤ CHANNEL_SIZE ∧ receiver_open fed_handler = true.
Proof.
  destruct (handler_invariant (H := toy) (V4 1) (Ok []) 5 fed_handler (fed_reachable _))
    as (Hq & _ & [_ Hr] & _). split; [exact Hq|]. apply Hr. by left.
Defined.

(** Of 128 ports, each has a session; the next is sent the error, and gets one too. *)
Lemma session_limit_ignored_witness :
  ∃ (s s' : Handler toy) task b, reachable (V4 1) (Ok []) 5 s ∧ size (send_sessions s) = 128 ∧ capacity s = 128 ∧
    on_request (V4 1) [] (Some (UdpSocket.mk [] [] [])) 65535 boot_request s = (Ok tt, s') ∧
    size (send_sessions s') = 129 ∧
    schedule_task boot_request (mkLink (stream_of (SocketAddr_new (V4 1) 65535) []
      [TFTPErr.wire (TFTPErr.undefined (str "Maximum sessions per IP exceeded")) zero]) b) [] = Ok (task : Task toy).
Proof.
  destruct (session_limit_ignored (H := toy) (V4 1) [] 5 boot_request 128) as (s & Hr & Hsz & Hd & _ & Hcap & Hnext);
    [lia|intros l; by eexists|].
  specialize (Hcap ltac:(unfold MAX_SESSIONS_PER_IP; simpl; lia)).
  assert (send_sessions s !! 65535%Z = None) as Hnone
    by (apply not_elem_of_dom; rewrite Hd; by apply (bool_decide_unpack _)).
  destruct (Hnext [] 65535%Z Hnone) as (s' & task & b & Hreq & Hs' & Ht). rewrite Hcap in Ht.
  exists s, s', task, b. split_and!; [done..| |exact Ht].
  rewrite Hs', map_size_insert_None, Hsz by done. done.
Defined.

Lemma shutdown_can_complete_witness :
  ∃ s', rtc (thread_step (V4 1) (Ok []) 5) (drop_sender fed_handler) s' ∧ thread_finished s' = true.
Proof.
  apply (shutdown_can_complete (H := toy) (V4 1) (Ok []) 5 fed_handler). apply fed_reachable.
Defined.

Lemma idle_request_forgotten_witness :
  ∃ s0 s1 : Handler toy, reachable (V4 1) (Ok []) 5 s0 ∧
    feed 4000 boot_request s0 = Some (true, s1) ∧
    rtc (step (V4 1) (Ok []) 5) s0 (close s1) ∧
    ∀ s', rtc (step (V4 1) (Ok []) 5) (close s1) s' → send_sessions s' = ∅.
Proof.
  apply (idle_request_forgotten (H := toy) (V4 1) [] 5 4000 boot_request). by split.
Defined.

(** A handler with one session, and the same once the session has ended. *)
Definition busy_handler : Handler toy :=
  mkHandler Serving [] true true
    {[ 4000%Z := mkSession (FireError TFTPErr.access_violation (mkLink (stream_of sample_peer [] []) [])) false ]} 3 0.

Lemma busy_handler_stays_witness :
  let left := on_elapsed 5 13 (finish_session 4000 (on_elapsed 5 7 busy_handler)) in
  phase left = Leaving ∧
  ∃ s0 s1, rtc (step (V4 1) (Ok []) 5) (on_elapsed 5 7 busy_handler) s0 ∧
    phase s0 = Serving ∧ leaves_loop (V4 1) (Ok []) 5 7 s0 s1 ∧
    step (V4 1) (Ok []) 5 s0 s1 ∧ rtc (step (V4 1) (Ok []) 5) s1 left.
Proof.
  intros left. split; [by vm_compute|].
  refine (busy_handler_stays (V4 1) (Ok []) 5 7 busy_handler _ _ _ _ _).
  - reflexivity.
  - by vm_compute.
  - eapply rtc_l; [eapply step_thread, (thread_session_ends _ _ _ 4000); vm_compute; by eexists|].
    eapply rtc_once, step_thread, thread_elapsed; [done..|vm_compute; done].
  - by vm_compute.
Defined.

Lemma short_session_unseen_witness :
  ∃ (s : Handler toy) t, reachable (V4 1) (Ok []) 5 s ∧ phase s = Serving ∧
    send_sessions s = {[ 4000%Z := mkSession t false ]} ∧
    thread_step (V4 1) (Ok []) 5 s (finish_session 4000 s) ∧
    phase (on_elapsed 5 6 (finish_session 4000 s)) = Leaving.
Proof.
  apply (short_session_unseen (H := toy) (V4 1) [] 5 6 4000 boot_request); [by split|by split|].
  intros l. by eexists.
Defined.
