(* ===== verification/LocalSet.v ===== *)
(** * LocalSet: the sessions of a handler side by side, src/src/peer_handler/mod.rs

    A handler's thread runs its sessions' tasks in turns: a task goes on until it has to wait,
    and then any other may go on.  The tasks are the trees of AsyncSession; each has a stream
    and a buffer of its own, but those that read from the client's disk share the disk's
    handle, which here is one store.  A turn is one step of a task, so that the turns of the
    executor, from one await to the next, are sequences of turns here. *)

From S2P Require Import Prelude Text Cursor Errors Fs Options Messages Net Window Session Transfer Delivery Negotiation AsyncSession Paths LocalFs GuestFs RemoteFs SharedDisk NbdDisk PeerHandler.
From ITree Require Import Core.ITreeDefinition.

(** The task of an error report has no file, and asks for none. *)
#[global] Instance no_file : OpenedFile unit := {
  read_to f buffer := (Stop Panicked, (buffer, f));
  get_size f := (Stop Panicked, f);
}.

Inductive JobFile (H : Type) : Type :=
| NoFile
| LocalFile (opened_file : LocalOpenedFile.t)
| RemoteFile (opened_file : FileReader.t H).
Arguments NoFile {H}.
Arguments LocalFile {H}.
Arguments RemoteFile {H}.

Record Job (H : Type) : Type := mkJob {
  tree : itree' sessionE (res Empty_set unit * list byte);
  job_file : JobFile H;
  job_stream : DatagramStream.t;
}.
Arguments mkJob {H}.
Arguments tree {H}.
Arguments job_file {H}.
Arguments job_stream {H}.

Record World (H : Type) : Type := mkWorld { guest : GuestFS.t H; jobs : gmap nat (Job H) }.
Arguments mkWorld {H}.
Arguments guest {H}.
Arguments jobs {H}.

Section local_set.
Context {H : Type} `{libguestfs H} `{DebugStr}.

(** [tokio::task::spawn_local] *)
Definition spawn (debug : bool) (t : Task H) : Job H :=
  match t with
  | SendLocal f options l => mkJob (observe (send_task debug options (buf l))) (LocalFile f) (stream l)
  | SendRemote f options l => mkJob (observe (send_task debug options (buf l))) (RemoteFile f) (stream l)
  | FireError error l => mkJob (observe (fire_error_task error (buf l))) NoFile (stream l)
  end.

(** A step of a task; a reader finds the handle as the last turn left it. *)
Definition step_job (g : GuestFS.t H) (j : Job H) : GuestFS.t H * Job H :=
  match job_file j with
  | NoFile =>
      let '(ot, (_, s)) := step_tree answer (tree j) (tt, job_stream j) in (g, mkJob ot NoFile s)
  | LocalFile f =>
      let '(ot, (f', s)) := step_tree answer (tree j) (f, job_stream j) in (g, mkJob ot (LocalFile f') s)
  | RemoteFile r =>
      let '(ot, (r', s)) := step_tree answer (tree j) (with_guest r g, job_stream j) in
      (FileReader.handle r', mkJob ot (RemoteFile r') s)
  end.

(** What the thread turns to: a task, a request that starts a session, or something else that
    uses the disk, like a request for a file that is not found. *)
Inductive turn : Type :=
| Poll (id : nat)
| Start (id : nat) (debug : bool) (task : Task H)
| Elsewhere (u : use H).

(** Every task has an id of its own; one that is given is not given again. *)
Definition take_turn (w : World H) (t : turn) : World H :=
  match t with
  | Poll id =>
      match jobs w !! id with
      | None => w
      | Some j => let '(g, j') := step_job (guest w) j in mkWorld g (<[id := j']> (jobs w))
      end
  | Start id debug task =>
      match jobs w !! id with
      | None => mkWorld (guest w) (<[id := spawn debug task]> (jobs w))
      | Some _ => w
      end
  | Elsewhere u => mkWorld (used (guest w) u) (jobs w)
  end.

Definition run_turns (turns : list turn) (w : World H) : World H := foldl take_turn w turns.

Definition polled (id : nat) (t : turn) : bool :=
  match t with Poll p => bool_decide (p = id) | _ => false end.

Definition polls (id : nat) (turns : list turn) : nat := length (filter (λ t, polled id t = true) turns).

End local_set.
#[global] Arguments turn H : clear implicits.

(** ** A reader over the shared handle is a stream of bytes *)

Section streams.
Context {H : Type} `{libguestfs_files H}.
Context (image : rstring → option (list byte)).

(** The in-memory file that a reader amounts to, over every handle the others may leave. *)
Definition like (v : VirtualOpenedFile.t) (r : FileReader.t H) : Prop :=
  VirtualOpenedFile.offset v ≤ length (VirtualOpenedFile.buffer v) ∧
  FileReader.file_size r = Z.of_nat (length (VirtualOpenedFile.buffer v)) ∧
  ∀ g, files_of g = image →
    reader_ok (with_guest r g) ∧
    rest_of (with_guest r g) = drop (VirtualOpenedFile.offset v) (VirtualOpenedFile.buffer v).

Lemma like_reader (r : FileReader.t H) :
  reader_ok r → FileReader.current_offset r = 0%Z → files_of (FileReader.handle r) = image →
  like (VirtualOpenedFile.new (rest_of r)) r.
Proof.
  intros Hok Hz Hf. pose proof (length_rest r Hok). split; simpl; [lia|]. split; [lia|].
  intros g Hg. destruct (reader_ok_with_guest r g Hok) as [? ->]; [congruence|]. by rewrite drop_0.
Qed.

Lemma like_here v (r : FileReader.t H) :
  like v r → files_of (FileReader.handle r) = image →
  reader_ok r ∧ rest_of r = drop (VirtualOpenedFile.offset v) (VirtualOpenedFile.buffer v).
Proof. intros (_ & _ & Hl) Hg. destruct r. apply (Hl _ Hg). Qed.

Lemma virtual_reads (v : VirtualOpenedFile.t) buffer :
  VirtualOpenedFile.offset v ≤ length (VirtualOpenedFile.buffer v) →
  let rest := drop (VirtualOpenedFile.offset v) (VirtualOpenedFile.buffer v) in
  let n := length buffer `min` length rest in
  VirtualOpenedFile.read_into v buffer =
  (Ok n, (take n rest ++ drop n buffer,
          VirtualOpenedFile.mk (VirtualOpenedFile.buffer v) (VirtualOpenedFile.offset v + n))).
Proof.
  destruct v as [b o]. simpl. intros Hf. unfold VirtualOpenedFile.read_into. simpl.
  rewrite length_drop, range_Some by lia. by rewrite Nat.add_comm, Nat.add_sub.
Qed.

Lemma buffer_new_chunk_size (r : FileReader.t H) :
  FileReader.file_size (FileReader.buffer_new_chunk r).2 = FileReader.file_size r.
Proof.
  unfold FileReader.buffer_new_chunk. by destruct (GuestFS.read_chunk _ _ _) as [[[|x l]|e|h] g].
Qed.

Lemma read_loop_size fuel (r : FileReader.t H) read buffer :
  FileReader.file_size (FileReader.read_loop fuel r read buffer).2.2 = FileReader.file_size r.
Proof.
  revert r read buffer. induction fuel as [|fuel IH]; intros r read buffer; cbn [FileReader.read_loop];
    destruct (negb _); try done.
  destruct (range _ _ _) as [dst|]; [|done].
  destruct (FileChunk.fill _ _) as [[copied|e|h] [dst' chunk']]; try done.
  destruct (copied =? 0); [|by rewrite IH].
  set (r1 := FileReader.mk _ _ _ _ chunk' _). pose proof (buffer_new_chunk_size r1) as Hs.
  destruct (FileReader.buffer_new_chunk r1) as [[[]|e|h] r2]; simpl in *; [by rewrite IH|done..].
Qed.

(** The same step, with the same answer. *)
Lemma step_like {A} (ot : itree' sessionE A) v (r : FileReader.t H) g s :
  like v r → files_of g = image →
  let '(ot1, (r', s1)) := step_tree answer ot (with_guest r g, s) in
  ∃ v', step_tree answer ot (v, s) = (ot1, (v', s1)) ∧ like v' r' ∧ files_of (FileReader.handle r') = image.
Proof.
  intros Hl Hg. assert (like v (with_guest r g)) as Hl' by (destruct Hl as (? & ? & Hl); by split_and!).
  destruct ot as [a|t|X e k]; simpl; [by exists v..|].
  destruct e as [buffer| |bytes|a buffer m]; simpl.
  - destruct (like_here v (with_guest r g) Hl' Hg) as [Hok Hrest].
    destruct (read_into_spec (with_guest r g) buffer Hok) as (r' & Hr & Hr' & Hrem).
    pose proof (read_into_keeps (with_guest r g) buffer) as Hk.
    pose proof (read_loop_size (2 * length buffer + 1) (with_guest r g) 0 buffer) as Hsz.
    change (FileReader.read_loop _ (with_guest r g) 0 buffer) with (FileReader.read_into (with_guest r g) buffer) in Hsz.
    destruct Hl as (Ho & Hs & _). rewrite virtual_reads by done. rewrite Hrest in *. rewrite Hr in *.
    simpl in *. eexists. split; [done|]. split; [|congruence].
    split; simpl; [rewrite length_drop; lia|]. split; [congruence|].
    intros g' Hg'. destruct (reader_ok_with_guest r' g' Hr') as [? ->]; [congruence|].
    by rewrite Hrem, drop_drop.
  - unfold FileReader.size, VirtualOpenedFile.size. destruct Hl as (Ho & Hs & Hl). simpl. rewrite Hs.
    exists v. split; [done|]. by split; [split_and!|].
  - destruct (DatagramStream.send bytes s). by exists v.
  - destruct (AckTimeout_timeout _ _) as [x [b s']]. by exists v.
Qed.

End streams.

(** ** Every task on its course *)

Section course.
Context {H : Type} `{libguestfs_files H} `{DebugStr}.
Context (image : rstring → option (list byte)).

(** [n] more steps of its own bring the task to [a], and its stream to [s]. *)
Definition on_course (j : Job H) (n : nat) (a : res Empty_set unit * list byte) (s : DatagramStream.t) : Prop :=
  match job_file j with
  | NoFile => ∃ f', runs answer (tree j) (tt, job_stream j) n a (f', s)
  | LocalFile f => ∃ f', runs answer (tree j) (f, job_stream j) n a (f', s)
  | RemoteFile r => ∃ v v', like image v r ∧ runs answer (tree j) (v, job_stream j) n a (v', s)
  end.

Lemma step_on_course g (j : Job H) n a s :
  on_course j n a s → files_of g = image → on_course (step_job g j).2 (pred n) a s.
Proof.
  unfold on_course, step_job. intros Hc Hg. destruct (job_file j) as [|f|r].
  - destruct Hc as [f' Hr%runs_step]. destruct (step_tree _ _ _) as [ot [[] s1]]. by exists f'.
  - destruct Hc as [f' Hr%runs_step]. destruct (step_tree _ _ _) as [ot [f1 s1]]. by exists f'.
  - destruct Hc as (v & v' & Hl & Hr%runs_step).
    pose proof (step_like image (tree j) v r g (job_stream j) Hl Hg) as Hs.
    destruct (step_tree answer (tree j) (with_guest r g, _)) as [ot [r1 s1]].
    destruct Hs as (v1 & Hv & Hl1 & _). rewrite Hv in Hr. by exists v1, v'.
Qed.

(** No task changes a file, whatever state it is in. *)
Lemma step_job_keeps g (j : Job H) : files_of (step_job g j).1 = files_of g.
Proof.
  unfold step_job. destruct (job_file j) as [|f|r].
  - by destruct (step_tree _ _ _) as [ot [[] s1]].
  - by destruct (step_tree _ _ _) as [ot [f1 s1]].
  - destruct (tree j) as [a|t|X e k]; [done..|]. destruct e as [buffer| |bytes|a buffer m]; simpl.
    + pose proof (read_into_keeps (with_guest r g) buffer) as Hk.
      by destruct (FileReader.read_into _ _) as [x [b r']].
    + done.
    + by destruct (DatagramStream.send _ _).
    + by destruct (AckTimeout_timeout _ _) as [x [b s']].
Qed.

Lemma take_turn_keeps (w : World H) t : files_of (guest (take_turn w t)) = files_of (guest w).
Proof.
  destruct t as [id|id debug task|u]; simpl.
  - destruct (jobs w !! id) as [j|]; [|done]. pose proof (step_job_keeps (guest w) j) as Hk.
    by destruct (step_job _ _).
  - by destruct (jobs w !! id).
  - by apply (used_keeps [u]).
Qed.

Lemma run_turns_course turns id (w : World H) j n a s :
  jobs w !! id = Some j → on_course j n a s → files_of (guest w) = image →
  ∃ j', jobs (run_turns turns w) !! id = Some j' ∧ on_course j' (n - polls id turns) a s.
Proof.
  revert w j n. induction turns as [|t turns IH]; intros w j n Hj Hc Hg.
  { exists j. unfold polls. simpl. by rewrite Nat.sub_0_r. }
  assert (∃ j1, jobs (take_turn w t) !! id = Some j1 ∧
    on_course j1 (n - (if polled id t then 1 else 0)) a s) as (j1 & Hj1 & Hc1).
  { destruct t as [p|p debug task|u]; simpl.
    - case_bool_decide as Hp.
      + subst p. rewrite Hj. pose proof (step_on_course (guest w) j n a s Hc Hg) as Hs.
        destruct (step_job (guest w) j) as [g j1]. simpl in *. exists j1. rewrite lookup_insert_eq.
        split; [done|]. by replace (n - 1) with (pred n) by lia.
      + exists j. rewrite Nat.sub_0_r. split; [|done]. destruct (jobs w !! p) as [jp|]; [|done].
        destruct (step_job _ jp). simpl. by rewrite lookup_insert_ne.
    - exists j. rewrite Nat.sub_0_r. split; [|done]. destruct (jobs w !! p) eqn:Hp; [done|]. simpl.
      rewrite lookup_insert_ne; [done|congruence].
    - exists j. by rewrite Nat.sub_0_r. }
  destruct (IH (take_turn w t) j1 _ Hj1 Hc1) as (j' & Hj' & Hc'); [by rewrite take_turn_keeps|].
  exists j'. split; [done|]. unfold polls in *. rewrite filter_cons.
  destruct (polled id t); [rewrite decide_True by done|rewrite decide_False by done]; simpl.
  - by replace (n - S _) with (n - 1 - length (filter (λ t, polled id t = true) turns)) by lia.
  - by rewrite Nat.sub_0_r in Hc'.
Qed.

Lemma on_course_end (j : Job H) a s : on_course j 0 a s → tree j = RetF a ∧ job_stream j = s.
Proof.
  unfold on_course.
  assert (∀ (F : Type) (h : handler (F * DatagramStream.t)) ot (f f' : F) s0 n,
    runs h ot (f, s0) n a (f', s) → n = 0 → ot = RetF a ∧ s0 = s) as Hend.
  { intros F h ot f f' s0 n Hr. remember (f, s0) as st. remember (f', s) as st'.
    destruct Hr; [|done..]. intros _. by simplify_eq. }
  destruct (job_file j) as [|f|r].
  - intros [f' Hr]. by eapply Hend.
  - intros [f' Hr]. by eapply Hend.
  - intros (v & v' & _ & Hr). by eapply Hend.
Qed.

End course.


(** ** A task beside others *)

Section beside.
Context {H : Type} `{libguestfs_files H} `{DebugStr}.

(** What [schedule_task] hands over: a file just opened, and a session's buffer.  A reader's
    handle may have been used since, but the disk is the one the world holds. *)
Definition task_ok (g : GuestFS.t H) (t : Task H) : Prop :=
  match t with
  | SendLocal f _ l => readable f ∧ fresh f ∧ ∃ n, 128 ≤ n ∧ buf l = replicate n zero
  | SendRemote r _ l =>
      readable r ∧ fresh r ∧ files_of (FileReader.handle r) = files_of g ∧
      ∃ n, 128 ≤ n ∧ buf l = replicate n zero
  | FireError _ _ => True
  end.

Lemma runs_like image {A} (ot : itree' sessionE A) v (r r' : FileReader.t H) s s' n a :
  runs answer ot (r, s) n a (r', s') → like image v r → files_of (FileReader.handle r) = image →
  ∃ v', runs answer ot (v, s) n a (v', s').
Proof.
  intros Hr. remember (r, s) as st eqn:Hst. remember (r', s') as st' eqn:Hst'.
  revert r s v Hst. induction Hr as [a st|t st n a st' Hr IH|X e k st n a st' Hr IH];
    intros r s v -> Hl Hg.
  - exists v. injection Hst' as -> ->. constructor.
  - destruct (IH Hst' r s v eq_refl Hl Hg) as [v' Hv]. exists v'. by constructor.
  - pose proof (step_like image (VisF e k) v r (FileReader.handle r) s Hl Hg) as Hs.
    replace (with_guest r (FileReader.handle r)) with r in Hs by (by destruct r).
    cbn [step_tree] in Hs. destruct (answer X e (r, s)) as [x [r1 s1]].
    destruct Hs as (v1 & Hv & Hl1 & Hg1). destruct (answer X e (v, s)) as [x' st1] eqn:Hx.
    injection Hv as Hk ->. cbn [fst snd] in *.
    destruct (IH Hst' r1 s1 v1 eq_refl Hl1 Hg1) as [v' Hv']. exists v'.
    constructor. rewrite Hx. cbn [fst snd]. by rewrite Hk.
Qed.

(** Alone, a session comes to an end: so many steps put its task on course for it. *)
Lemma send_runs {F} `{OpenedFileSpec F} debug (f : F) o (l : Link) n :
  readable f → fresh f → 128 ≤ n → buf l = replicate n zero →
  ∃ r l' f' steps, send debug f o l = (r, l') ∧
    runs answer (observe (send_task debug o (buf l))) (f, stream l) steps (r, buf l') (f', stream l').
Proof.
  intros Hr Hf Hn Hb. destruct l as [s b]. simpl in *. subst b.
  destruct (session_returns debug f o s n Hr Hf Hn) as (r & l' & Hs & Hne & _).
  destruct (send_does debug f o _ r l' Hs Hne) as (f' & steps & Hruns). by exists r, l', f', steps.
Qed.

Lemma spawn_on_course debug (g : GuestFS.t H) (t : Task H) :
  task_ok g t →
  ∃ r l n, run_task debug t = (r, l) ∧ on_course (files_of g) (spawn debug t) n (r, buf l) (stream l).
Proof.
  destruct t as [f o l|rd o l|e l]; simpl.
  - intros (Hr & Hf & n & Hn & Hb). destruct (send_runs debug f o l n) as (r & l' & f' & k & Hs & Hk); [done..|].
    exists r, l', k. split; [done|]. by exists f'.
  - intros (Hr & Hf & Hg & n & Hn & Hb).
    destruct (send_runs debug rd o l n) as (r & l' & f' & k & Hs & Hk); [done..|].
    exists r, l', k. split; [done|]. pose proof (like_reader (files_of g) rd Hr Hf Hg) as Hl.
    destruct (runs_like _ _ _ _ _ _ _ _ _ Hk Hl Hg) as [v' Hv]. by exists (VirtualOpenedFile.new (rest_of rd)), v'.
  - intros _. destruct (fire_error e l) as [r l'] eqn:He.
    destruct (fire_error_does (F := unit) e tt l r l' He) as [k Hk]. exists r, l', k. split; [done|]. by exists tt.
Qed.

Lemma spawned_task_ends debug (t : Task H) id (w : World H) :
  jobs w !! id = None → task_ok (guest w) t →
  ∃ r l n, run_task debug t = (r, l) ∧
    ∀ turns, n ≤ polls id turns →
      ∃ j, jobs (run_turns (Start id debug t :: turns) w) !! id = Some j ∧
        tree j = RetF (r, buf l) ∧ job_stream j = stream l.
Proof.
  intros Hid Ht. destruct (spawn_on_course debug (guest w) t Ht) as (r & l & n & Hrun & Hc).
  exists r, l, n. split; [done|]. intros turns Hn. cbn [run_turns foldl take_turn]. rewrite Hid.
  destruct (run_turns_course (files_of (guest w)) turns id
    (mkWorld (guest w) (<[id := spawn debug t]> (jobs w))) (spawn debug t) n (r, buf l) (stream l))
    as (j & Hj & Hc'); [apply lookup_insert_eq|done|done|].
  exists j. split; [done|]. replace (n - polls id turns) with 0 in Hc' by lia. by eapply on_course_end.
Qed.

End beside.

(** C4: sessions do not disturb each other.  A session that is started beside any others ends
    as it does alone: however the executor takes the turns, whatever other sessions are
    started and do, and whatever other requests do with the disk, once the task has had its
    turns it has returned what [run_task] computes, and its stream has sent the datagrams and
    taken the arrivals that it sends and takes alone. *)
Theorem sessions_interleave {H} `{libguestfs_files H} `{DebugStr} (debug : bool) (t : Task H)
    (id : nat) (w : World H) :
  jobs w !! id = None → task_ok (guest w) t →
  ∃ r l n, run_task debug t = (r, l) ∧
    ∀ turns, n ≤ polls id turns →
      ∃ j, jobs (run_turns (Start id debug t :: turns) w) !! id = Some j ∧
        tree j = RetF (r, buf l) ∧ job_stream j = stream l.
Proof. apply spawned_task_ends. Qed.

Lemma opened_from {H} `{libguestfs_files H} `{DebugStr} (root : RemoteRoot.t H) path r :
  open root path = Ok r →
  files_of (FileReader.handle r) = files_of (ConnectedDisk.handle (RemoteRoot.disk root)).
Proof.
  simpl. unfold RemoteRoot.open_file. destruct (from_utf8 _) as [p|]; [|done].
  intros Ho. rewrite (open_shared_reader _ _ _ Ho). apply open_shared_keeps.
Qed.

(** The root holds the file, at the path the request is opened with. *)
Definition holds_file {H} `{libguestfs_files H} `{FileSystem} (root : RootKind H) (filename data : list byte)
  : Prop :=
  match root with
  | Local local_root =>
      os_open (join (LocalRoot.path local_root) (trim_start_slashes filename)) = Ok (File.mk data 0 [] [])
  | Remote remote_root =>
      let path := join (RemoteRoot.chroot_path remote_root) (trim_start_slashes filename) in
      file_at (root_handle remote_root) path = Some data ∧ utf8_valid path = true ∧ nul_free path
  end.

(** The world's disk is the root's. *)
Definition same_disk {H} `{libguestfs_files H} (root : RootKind H) (g : GuestFS.t H) : Prop :=
  match root with
  | Local _ => True
  | Remote remote_root => files_of g = files_of (ConnectedDisk.handle (RemoteRoot.disk remote_root))
  end.

(** The task of a request for a file that a root holds, among others. *)
Lemma held_file_served {H} `{libguestfs_files H} `{DebugStr} `{FileSystem} (debug : bool)
    (request : ReadRequest.t) (before after : list (RootKind H)) (root : RootKind H)
    (data : list byte) (peer : SocketAddr) (size : nat) (c : Script) :
  let l := mkLink (stream_of peer (script_arrivals peer (ReadRequest.options request) data c) [])
             (replicate size zero) in
  Forall (λ root, open_root root request l = Err NotFound) before →
  holds_file root (ReadRequest.filename request) data →
  (Z.of_nat (length data) < 2 ^ 63)%Z → 128 ≤ size →
  cooperates peer (ReadRequest.options request) data c →
  ∃ task, schedule_task request l (before ++ root :: after) = Ok task ∧
    ∀ id (w : World H), jobs w !! id = None → same_disk root (guest w) →
    ∃ n, ∀ turns, n ≤ polls id turns →
      ∃ j b, jobs (run_turns (Start id debug task :: turns) w) !! id = Some j ∧
        tree j = RetF (Ok tt, b) ∧
        delivered (ReadRequest.options request) data c (sent_by (job_stream j)).
Proof.
  intros l Hbefore Hheld Hlen Hn Hco.
  assert (∃ task l', schedule_task request l (before ++ root :: after) = Ok task ∧
    run_task debug task = (Ok tt, l') ∧
    delivered (ReadRequest.options request) data c (sent_by (stream l')) ∧
    ∀ g, same_disk root g → task_ok g task) as (task & l' & Htask & Hrun & Hdel & Hok).
  { destruct root as [[dir]|root].
    - destruct (local_task_runs debug request before after dir data peer size c)
        as (f & l' & Hr & Hf & Htask & Hrun & Hdel); [done..|].
      exists (SendLocal f (ReadRequest.options request) l), l'. split_and!; try done.
      intros g _. by split_and!; [..|exists size].
    - destruct Hheld as (Hfile & Hutf & Hnul).
      destruct (remote_task_runs debug request before after root data peer size c)
        as (r & l' & Hopen & Hr & Hf & Htask & Hrun & Hdel); [done..|].
      exists (SendRemote r (ReadRequest.options request) l), l'. split_and!; try done.
      intros g Hg. simpl in *. rewrite (opened_from _ _ _ Hopen). by split_and!; [..|exists size]. }
  exists task. split; [done|]. intros id w Hid Hg.
  destruct (spawned_task_ends debug task id w Hid (Hok _ Hg)) as (r & l2 & n & Hr & Hends).
  rewrite Hrun in Hr. injection Hr as <- <-. exists n. intros turns Hturns.
  destruct (Hends turns Hturns) as (j & Hj & Ht & Hs). exists j, (buf l'). by rewrite Hs.
Qed.

(** C11: a request is served while others are.  If the roots before it do not have the file
    and a root has it, a directory or a disk, the task scheduled for the request, started
    among any sessions, also such that use the same disk through the same handle, has
    delivered the whole file to a client that cooperates once it has had its turns, in
    whatever order those and the turns of the others are taken. *)
Theorem served_beside_others {H} `{libguestfs_files H} `{DebugStr} `{FileSystem} (debug : bool)
    (request : ReadRequest.t) (before after : list (RootKind H)) (root : RootKind H)
    (data : list byte) (peer : SocketAddr) (size : nat) (c : Script) (id : nat) (w : World H) :
  let l := mkLink (stream_of peer (script_arrivals peer (ReadRequest.options request) data c) [])
             (replicate size zero) in
  Forall (λ root, open_root root request l = Err NotFound) before →
  holds_file root (ReadRequest.filename request) data →
  (Z.of_nat (length data) < 2 ^ 63)%Z → 128 ≤ size →
  cooperates peer (ReadRequest.options request) data c →
  jobs w !! id = None → same_disk root (guest w) →
  ∃ task n, schedule_task request l (before ++ root :: after) = Ok task ∧
    ∀ turns, n ≤ polls id turns →
      ∃ j b, jobs (run_turns (Start id debug task :: turns) w) !! id = Some j ∧
        tree j = RetF (Ok tt, b) ∧
        delivered (ReadRequest.options request) data c (sent_by (job_stream j)).
Proof.
  intros l Hbefore Hheld Hlen Hn Hco Hid Hg.
  destruct (held_file_served debug request before after root data peer size c) as (task & Htask & Hserved);
    [done..|].
  destruct (Hserved id w Hid Hg) as [n Hends]. by exists task, n.
Qed.

(** ** The hypotheses can hold *)

(** The image of [boot_root] while another session reads it. *)
Definition busy_world : World toy :=
  run_turns [Start 0 true (SendRemote
      (FileReader.mk (ConnectedDisk.handle (RemoteRoot.disk boot_root)) (str "/tftp/boot.img")
         (Z.of_nat (length sample_bytes)) 0 (FileChunk.new []) (str "boot.img"))
      small_options (mkLink (stream_of sample_peer [] []) (replicate 128 zero))); Poll 0]
    (mkWorld (ConnectedDisk.handle (RemoteRoot.disk boot_root)) ∅).

Lemma sessions_interleave_witness :
  let t := SendLocal (LocalOpenedFile.mk (File.mk sample_bytes 0 [] []) (str "boot.img")) small_options
             (mkLink (stream_of sample_peer
                (script_arrivals sample_peer small_options sample_bytes small_script) []) (replicate 128 zero)) in
  ∃ r l n, run_task true t = (r, l) ∧
    ∀ turns, n ≤ polls 1 turns →
      ∃ j, jobs (run_turns (Start 1 true t :: turns) busy_world) !! 1 = Some j ∧
        tree j = RetF (r, buf l) ∧ job_stream j = stream l.
Proof.
  intros t. apply (sessions_interleave true t 1 busy_world).
  - by vm_compute.
  - simpl. split; [by split|]. split; [done|]. by exists 128; split; [lia|].
Defined.

Lemma served_beside_others_witness :
  let l := mkLink (stream_of sample_peer (script_arrivals sample_peer small_options sample_bytes small_script) [])
             (replicate 128 zero) in
  ∃ task n,
    schedule_task boot_request l
      ([Local (LocalRoot.new (str "/srv/tftp/10.0.0.1"))] ++ [Remote boot_root]) = Ok task ∧
    ∀ turns, n ≤ polls 1 turns →
      ∃ j b, jobs (run_turns (Start 1 true task :: turns) busy_world) !! 1 = Some j ∧
        tree j = RetF (Ok tt, b) ∧
        delivered small_options sample_bytes small_script (sent_by (job_stream j)).
Proof.
  refine (served_beside_others true boot_request
    [Local (LocalRoot.new (str "/srv/tftp/10.0.0.1"))] [] (Remote boot_root) sample_bytes
    sample_peer 128 small_script 1 busy_world _ _ _ _ _ _ _).
  - repeat constructor.
  - split; [reflexivity|]. split; [reflexivity|]. by apply (bool_decide_unpack _).
  - reflexivity.
  - lia.
  - exact small_script_cooperates.
  - by vm_compute.
  - by vm_compute.
Defined.

(** The same session twice over one handle, with a turn each at a time: both copies arrive. *)
Definition twin (reader : FileReader.t toy) : Task toy :=
  SendRemote reader small_options (mkLink (stream_of sample_peer
    (script_arrivals sample_peer small_options sample_bytes small_script) []) (replicate 128 zero)).

Definition twin_turns (reader : FileReader.t toy) : list (turn toy) :=
  Start 0 true (twin reader) :: Start 1 true (twin reader) :: concat (replicate 40 [Poll 0; Poll 1]).

Definition finished_sent (j : Job toy) : option (list (list byte)) :=
  match tree j with RetF (Ok _, _) => Some (sent_by (job_stream j)) | _ => None end.

Example twins_delivered :
  match open boot_root (str "boot.img") with
  | Ok reader =>
      let w := run_turns (twin_turns reader) (mkWorld (ConnectedDisk.handle (RemoteRoot.disk boot_root)) ∅) in
      finished_sent <$> jobs w !! 0 = Some (Some (sent_by (stream (run_task true (twin reader)).2))) ∧
      finished_sent <$> jobs w !! 1 = finished_sent <$> jobs w !! 0
  | _ => False
  end.
Proof. vm_compute. done. Qed.
