(* ===== verification/Network.v ===== *)
(** * Network: two parties over the loopback interface

    What runs at either end of a pair of UDP sockets, as far as the other end is concerned:
    the interface [Party].  Two parties that run side by side form a closed system: what one
    sends is what the other receives, in the same order, and a party that waits goes on when
    there is something for it.  Its turns commute, so that all schedules have the same end. *)

From stdpp Require Import relations.
From S2P Require Import Prelude Options Net.

(** ** Relations whose steps commute *)

Section diamond.
Context {T : Type} (R : relation T).
Context (diamond : ∀ x y1 y2, R x y1 → R x y2 → y1 = y2 ∨ ∃ z, R y1 z ∧ R y2 z).

Lemma diamond_step n x y z : nsteps R n x z → nf R z → R x y → ∃ m, n = S m ∧ nsteps R m y z.
Proof using diamond.
  intros Hn Hz. revert y. induction Hn as [z|n x x1 z Hx Hn IH]; intros y Hy; [by destruct Hz; exists y|].
  exists n. split; [done|]. destruct (diamond _ _ _ Hx Hy) as [->|(u & Hu & Hy')]; [done|].
  destruct (IH Hz u Hu) as (m & -> & Hm). by apply nsteps_l with u.
Qed.

(** If one way to go on ends, every way ends, after as many steps and in the same place. *)
Lemma diamond_ends n k x y z :
  nsteps R n x z → nf R z → nsteps R k x y → k ≤ n ∧ nsteps R (n - k) y z.
Proof using diamond.
  intros Hn Hz Hk. revert n Hn. induction Hk as [x|k x x1 y Hx _ IH]; intros n Hn.
  - split; [lia|]. by rewrite Nat.sub_0_r.
  - destruct (diamond_step n x x1 z Hn Hz Hx) as (m & -> & Hm).
    destruct (IH m Hm) as [? Hy]. split; [lia|done].
Qed.

End diamond.

(** ** Parties *)

(** [idle]: it has returned, or waits for a datagram.  [poll]: one step.  [outbox]: what the
    kernel has taken from it so far.  [hear]: datagrams come in on its socket. *)
Class Party (P : Type) : Type := {
  idle : P → bool;
  poll : P → P;
  outbox : P → list (SocketAddr * list byte);
  hear : list arrival → P → P;
}.

(** What comes in later changes nothing of a step that does not wait for it. *)
Class PartyLaws (P : Type) `{Party P} : Prop := {
  idle_hear l (p : P) : idle p = false → idle (hear l p) = false;
  poll_hear l (p : P) : idle p = false → poll (hear l p) = hear l (poll p);
  outbox_poll (p : P) : outbox p `prefix_of` outbox (poll p);
  outbox_hear l (p : P) : outbox (hear l p) = outbox p;
  hear_hear l l' (p : P) : hear l' (hear l p) = hear (l ++ l') p;
  hear_nil (p : P) : hear [] p = p;
}.

(** The datagrams of [from] to [to]; what goes elsewhere is not received. *)
Definition mail (from to : SocketAddr) (sent : list (SocketAddr * list byte)) : list arrival :=
  (λ d, Datagram from d.2) <$> filter (λ d, d.1 = to) sent.

(** What a party has sent between two of its states. *)
Definition posted {P} `{Party P} (p p' : P) : list (SocketAddr * list byte) :=
  drop (length (outbox p)) (outbox p').

Lemma mail_app from to l l' : mail from to (l ++ l') = mail from to l ++ mail from to l'.
Proof. unfold mail. by rewrite filter_app, fmap_app. Qed.

Lemma mail_to from to l : mail from to (pair to <$> l) = Datagram from <$> l.
Proof. unfold mail. induction l as [|x l IH]; [done|]. cbn. rewrite decide_True by done. cbn. by f_equal. Qed.

Section moves.
Context {P : Type} `{PartyLaws P}.
Implicit Types p : P.

(** The steps of a party on its own, as long as it does not wait. *)
Definition moves p p' : Prop := idle p = false ∧ p' = poll p.

Lemma moves_grow p p' : rtc moves p p' → outbox p `prefix_of` outbox p'.
Proof. induction 1 as [|p p1 p' [_ ->] _ IH]; [done|]. etrans; [apply outbox_poll|done]. Qed.

Lemma posted_refl p : posted p p = [].
Proof. apply drop_all. Qed.

Lemma posted_moves p p' : rtc moves (poll p) p' → posted p p' = posted p (poll p) ++ posted (poll p) p'.
Proof.
  intros Hm%moves_grow. destruct (outbox_poll p) as [k Hk], Hm as [k' Hk']. unfold posted.
  rewrite Hk', Hk, <- app_assoc, !drop_app_length, (app_assoc (outbox p)), drop_app_length. done.
Qed.

End moves.

(** ** Two parties side by side *)

Inductive side : Type := TheServer | TheClient.

Record Joined (P Q : Type) : Type := mkJoined { server : P; client : Q }.
Arguments mkJoined {P Q}.
Arguments server {P Q}.
Arguments client {P Q}.

Section joined.
Context {P Q : Type} `{Party P} `{Party Q} (server_address client_address : SocketAddr).
Implicit Types j : Joined P Q.

Definition idle_side (i : side) (j : Joined P Q) : bool :=
  match i with TheServer => idle (server j) | TheClient => idle (client j) end.

(** A turn of a party: its step, and what it sends is on the other's socket. *)
Definition join_turn (i : side) (j : Joined P Q) : Joined P Q :=
  if idle_side i j then j
  else
    match i with
    | TheServer =>
        let s := poll (server j) in
        mkJoined s (hear (mail server_address client_address (posted (server j) s)) (client j))
    | TheClient =>
        let c := poll (client j) in
        mkJoined (hear (mail client_address server_address (posted (client j) c)) (server j)) c
    end.

Definition join_step j j' : Prop := ∃ i, idle_side i j = false ∧ j' = join_turn i j.

(** [join!] goes on with one task until it waits, then with the other. *)
Fixpoint join_run (fuel : nat) (j : Joined P Q) : Joined P Q :=
  match fuel with
  | O => j
  | S fuel' =>
      if idle (server j)
      then if idle (client j) then j else join_run fuel' (join_turn TheClient j)
      else join_run fuel' (join_turn TheServer j)
  end.

End joined.

Section schedules.
Context {P Q : Type} `{PartyLaws P} `{PartyLaws Q} (sa ca : SocketAddr).
Abbreviation step := (join_step (P := P) (Q := Q) sa ca).

Lemma server_turn (s : P) (c : Q) :
  idle s = false → join_turn sa ca TheServer (mkJoined s c) = mkJoined (poll s) (hear (mail sa ca (posted s (poll s))) c).
Proof. intros Hs. unfold join_turn. simpl. by rewrite Hs. Qed.

Lemma client_turn (s : P) (c : Q) :
  idle c = false → join_turn sa ca TheClient (mkJoined s c) = mkJoined (hear (mail ca sa (posted c (poll c))) s) (poll c).
Proof. intros Hc. unfold join_turn. simpl. by rewrite Hc. Qed.

(** The turns of the two parties commute. *)
Lemma join_diamond j j1 j2 : step j j1 → step j j2 → j1 = j2 ∨ ∃ j', step j1 j' ∧ step j2 j'.
Proof.
  intros [p [Hp ->]] [q [Hq ->]]. destruct j as [s c].
  assert (idle s = false → idle c = false →
    ∃ j', step (join_turn sa ca TheServer (mkJoined s c)) j' ∧
          step (join_turn sa ca TheClient (mkJoined s c)) j') as Hboth.
  { intros Hs Hc. exists (join_turn sa ca TheClient (join_turn sa ca TheServer (mkJoined s c))).
    rewrite (server_turn s c Hs), (client_turn s c Hc).
    split; [exists TheClient|exists TheServer]; simpl;
      rewrite ?idle_hear, ?client_turn, ?server_turn by (by rewrite ?idle_hear); (split; [done|]); try done.
    unfold posted. by rewrite !poll_hear, !outbox_hear by done. }
  destruct p, q; simpl in Hp, Hq; [by left| | |by left]; right.
  - by apply Hboth.
  - destruct (Hboth Hq Hp) as (j' & ? & ?). by exists j'.
Qed.

(** The steps of one party alone, as steps of both. *)
Lemma server_moves (s s' : P) (c : Q) :
  rtc moves s s' → rtc step (mkJoined s c) (mkJoined s' (hear (mail sa ca (posted s s')) c)).
Proof.
  intros Hm. revert c. induction Hm as [s|s s1 s' [Hs ->] Hm IH]; intros c.
  - by rewrite posted_refl, hear_nil.
  - eapply rtc_l; [exists TheServer; split; [done|reflexivity]|]. rewrite server_turn by done.
    rewrite (posted_moves s s') by done. rewrite mail_app, <- hear_hear. apply IH.
Qed.

Lemma client_moves (s : P) (c c' : Q) :
  rtc moves c c' → rtc step (mkJoined s c) (mkJoined (hear (mail ca sa (posted c c')) s) c').
Proof.
  intros Hm. revert s. induction Hm as [c|c c1 c' [Hc ->] Hm IH]; intros s.
  - by rewrite posted_refl, hear_nil.
  - eapply rtc_l; [exists TheClient; split; [done|reflexivity]|]. rewrite client_turn by done.
    rewrite (posted_moves c c') by done. rewrite mail_app, <- hear_hear. apply IH.
Qed.

Lemma both_idle_nf (j : Joined P Q) : idle (server j) = true → idle (client j) = true → nf step j.
Proof. intros Hs Hc [j' [[] [Hp _]]]; simpl in Hp; congruence. Qed.

(** [join!] takes steps for as long as there are any. *)
Lemma join_run_steps fuel (j : Joined P Q) :
  ∃ k, k ≤ fuel ∧ nsteps step k j (join_run sa ca fuel j) ∧ (k = fuel ∨ nf step (join_run sa ca fuel j)).
Proof.
  revert j. induction fuel as [|fuel IH]; intros j; cbn [join_run].
  { exists 0. split; [done|]. split; [constructor|by left]. }
  destruct (idle (server j)) eqn:Hs; [destruct (idle (client j)) eqn:Hc|].
  - exists 0. split; [lia|]. split; [constructor|]. right. by apply both_idle_nf.
  - destruct (IH (join_turn sa ca TheClient j)) as (k & ? & Hk & Hend). exists (S k). split; [lia|].
    split; [|destruct Hend; [left; lia|by right]]. eapply nsteps_l; [by exists TheClient|done].
  - destruct (IH (join_turn sa ca TheServer j)) as (k & ? & Hk & Hend). exists (S k). split; [lia|].
    split; [|destruct Hend; [left; lia|by right]]. eapply nsteps_l; [by exists TheServer|done].
Qed.

(** Every way to interleave the two parties of [start] comes to its end in [final], after as
    many turns; and so does [join!]. *)
Definition always_ends (start final : Joined P Q) : Prop :=
  ∃ turns, (∀ k j, nsteps step k start j → k ≤ turns ∧ nsteps step (turns - k) j final) ∧
    join_run sa ca turns start = final.

(** When one schedule comes to an end, all do. *)
Lemma schedules_end (start final : Joined P Q) :
  rtc step start final → idle (server final) = true → idle (client final) = true → always_ends start final.
Proof.
  intros [turns Hn]%rtc_nsteps Hs Hc. pose proof (both_idle_nf final Hs Hc) as Hnf.
  assert (∀ k j, nsteps step k start j → k ≤ turns ∧ nsteps step (turns - k) j final) as Hends.
  { intros k j Hk. by eapply diamond_ends; [apply join_diamond|..]. }
  exists turns. split; [done|]. destruct (join_run_steps turns start) as (k & Hk & Hrun & Hend).
  destruct (Hends k _ Hrun) as [_ Hrest].
  destruct Hend as [->|Hend]; [rewrite Nat.sub_diag in Hrest; by inversion Hrest|].
  inversion Hrest; [done|]. exfalso. apply Hend. by eexists.
Qed.

End schedules.
