(* ===== verification/Loopback.v ===== *)
(** * Loopback: a transfer to the client of src/src/peer_handler/tests.rs

    The tests of [send_file] run it against a client of their own, [download_stream], over two
    UDP sockets of the loopback interface, both tasks under one [join!].  Here the client is a
    tree like the session's own, and the two run as a closed system: what one sends is what
    the other receives, datagrams between them are kept in order, and a read waits until there
    is something to read.  No timer expires in this system: five seconds of the loopback
    interface are more than the tests need. *)

From stdpp Require Import relations.
From S2P Require Import Prelude Text Cursor Errors Fs Options Messages Net Window Session Transfer Delivery Negotiation AsyncSession Paths LocalFs GuestFs RemoteFs SharedDisk NbdDisk PeerHandler LocalSet Network.
From ITree Require Import Basics.Basics Core.ITreeDefinition Eq.Shallow.

(** ** The data the tests send *)

Definition xorshift64star (index seed : Z) : Z :=
  let x := Z.lxor index seed in
  let x := Z.lxor x (Z.shiftr x 12) in
  let x := Z.lxor x (as_usize (Z.shiftl x 25)) in
  let x := Z.lxor x (Z.shiftr x 27) in
  Z.shiftr (as_usize (x * 0x2545F4914F6CDD1D)) 56.

Definition weak_pseudo_random_data (len : nat) (seed : Z) : list byte :=
  (λ i, as_u8 (xorshift64star i seed)) <$> seqZ 0 (Z.of_nat len).

Definition generate_data (size : nat) : list byte := weak_pseudo_random_data size (Z.of_nat size).

(** ** The client *)

(** The string of an [io::Error] is not written out. *)
Inductive DownloadError : Type :=
| FromIo (error : ErrorKind)
| Message (text : rstring).

(** The local variables of [download_stream]. *)
Record Download : Type := mkDownload {
  read_data : list byte;
  d_buffer : list byte;
  last_received_block_index : Z;
  d_done : bool;
}.

Definition block_header_size : nat := 4.

(** [((hi as u16) << 8) | lo as u16] *)
Definition word_at (buffer : list byte) (i : nat) : option Z :=
  hi ← buffer !! i; lo ← buffer !! S i;
  Some (Z.lor (as_u16 (Z.shiftl (u8_val hi) 8)) (u8_val lo)).

(** What the body of the [for] does with a datagram; [true] is its [break]. *)
Definition take_datagram (expected_message_size received_bytes : nat) (buffer : list byte) (d : Download)
  : res DownloadError (Download * bool) :=
  match word_at buffer 0 with
  | None => Stop Panicked
  | Some opcode =>
      if negb (opcode =? DATA)%Z then Err (Message (str "Wrong opcode received: {opcode}"))
      else
        match word_at buffer 2, range block_header_size received_bytes buffer with
        | Some index, Some payload =>
            let short := received_bytes <? expected_message_size in
            Ok (mkDownload (read_data d ++ payload) buffer index (short || d_done d), short)
        | _, _ => Stop Panicked
        end
  end.

(** The four stores that make the buffer's head an acknowledgement. *)
Definition write_ack (index : Z) (buffer : list byte) : option (list byte) :=
  buffer0 ← store 0 (as_u8 0) buffer;
  buffer1 ← store 1 (as_u8 ACK) buffer0;
  buffer2 ← store 2 (as_u8 (Z.shiftr index 8)) buffer1;
  store 3 (as_u8 (Z.land index 0xFF)) buffer2.

Section client.
Context (block_size window_size : Z).
Abbreviation expected_message_size := (Z.to_nat block_size + block_header_size).
Local Abbreviation task := (itree sessionE).

(** [for _ in 0..window_size], by the rounds left. *)
Fixpoint download_window (rounds : nat) (d : Download) : task (res DownloadError Download) :=
  match rounds with
  | O => Ret (Ok d)
  | S rounds' =>
      await! (received, buffer) :=
        ITree.trigger (RecvWithin (AckTimeout.mk 5) (d_buffer d) block_header_size) in
      match received with
      | Err _timeout => Ret (Err (Message (str "timeout")))
      | Ok (Err error) => Ret (Err (FromIo error))
      | Ok (Ok received_bytes) =>
          match take_datagram expected_message_size received_bytes buffer d with
          | Ok (d', true) => Ret (Ok d')
          | Ok (d', false) => download_window rounds' d'
          | Err e => Ret (Err e)
          | Stop h => Ret (Stop h)
          end
      | Ok (Stop h) | Stop h => Ret (Stop h)
      end
  end.

(** The [while !done]. *)
Definition download_round (d : Download) : task (Download + res DownloadError (list byte)) :=
  if d_done d then Ret (inr (Ok (read_data d)))
  else
    await! window := download_window (Z.to_nat window_size) d in
    match window with
    | Err e => Ret (inr (Err e))
    | Stop h => Ret (inr (Stop h))
    | Ok d' =>
        match write_ack (last_received_block_index d') (d_buffer d') with
        | None => Ret (inr (Stop Panicked))
        | Some buffer =>
            match range 0 block_header_size buffer with
            | None => Ret (inr (Stop Panicked))
            | Some bytes =>
                await! sent := ITree.trigger (SendBytes bytes) in
                Ret (match sent with
                     | Ok _ => inl (mkDownload (read_data d') buffer (last_received_block_index d') (d_done d'))
                     | Err error => inr (Err (FromIo error))
                     | Stop h => inr (Stop h)
                     end)
            end
        end
    end.

Definition download_stream : task (res DownloadError (list byte)) :=
  ITree.iter download_round (mkDownload [] (replicate expected_message_size zero) 0 false).

End client.

(** ** A task is a party *)

(** A task with its file and its stream. *)
Abbreviation Endpoint F A := (itree' sessionE A * (F * DatagramStream.t))%type.

(** The call has nothing to return with. *)
Definition waits {X} (ev : sessionE X) (s : DatagramStream.t) : bool :=
  match ev with
  | RecvWithin _ buffer min_size =>
      match (DatagramStream.recv buffer min_size s).1 with None => true | Some _ => false end
  | _ => false
  end.

#[global] Instance endpoint_party {F A} `{OpenedFile F} : Party (Endpoint F A) := {
  idle '(ot, (f, s)) := match ot with RetF _ => true | TauF _ => false | VisF ev k => waits ev s end;
  poll '(ot, st) := step_tree answer ot st;
  outbox '(ot, (f, s)) := UdpSocket.sent (DatagramStream.local_socket s);
  hear l '(ot, (f, s)) := (ot, (f, with_arrivals s (arrivals_of s ++ l)));
}.

(** What comes later makes no difference to a read that ends without it. *)
Lemma recv_loop_app peer m arrs l buffer x rest buffer' :
  DatagramStream.recv_loop peer m arrs buffer = (Some x, (rest, buffer')) →
  DatagramStream.recv_loop peer m (arrs ++ l) buffer = (Some x, (rest ++ l, buffer')).
Proof.
  revert buffer. induction arrs as [|[from payload| |] arrs IH]; intros buffer; simpl; [done| |congruence|done].
  destruct (decide _); [apply IH|]. destruct (_ <? m); [apply IH|congruence].
Qed.

Lemma recv_later buffer m s l x b s' :
  DatagramStream.recv buffer m s = (Some x, (b, s')) →
  DatagramStream.recv buffer m (with_arrivals s (arrivals_of s ++ l)) =
  (Some x, (b, with_arrivals s' (arrivals_of s' ++ l))).
Proof.
  unfold DatagramStream.recv, with_arrivals, arrivals_of. simpl.
  destruct (DatagramStream.recv_loop _ _ (UdpSocket.arrivals _) buffer) as [r [rest b']] eqn:E.
  intros [= -> <- <-]. by rewrite (recv_loop_app _ _ _ _ _ _ _ _ E).
Qed.

Lemma endpoint_poll_hear {F A} `{OpenedFile F} l (e : Endpoint F A) :
  idle e = false → idle (hear l e) = false ∧ poll (hear l e) = hear l (poll e).
Proof.
  destruct e as [[a|t|X ev k] [f s]]; try done. destruct ev as [buffer| |bytes|a buffer m]; simpl.
  - by destruct (read_to f buffer) as [r [b f']].
  - by destruct (get_size f).
  - intros _. split; [done|]. rewrite send_with_arrivals.
    destruct (DatagramStream.send bytes s) as [r s'] eqn:E. apply send_any in E as (_ & E & _). by rewrite E.
  - destruct (DatagramStream.recv buffer m s) as [[x|] [b s']] eqn:E; [|done]. intros _.
    by rewrite (recv_later _ _ _ _ _ _ _ E).
Qed.

Lemma endpoint_outbox {F A} `{OpenedFile F} (e : Endpoint F A) : outbox e `prefix_of` outbox (poll e).
Proof.
  destruct e as [[a|t|X ev k] [f s]]; try done. destruct ev as [buffer| |bytes|a buffer m]; simpl.
  - by destruct (read_to f buffer) as [r [b f']].
  - by destruct (get_size f).
  - unfold DatagramStream.send, UdpSocket.send_to.
    destruct (UdpSocket.outcomes _) as [|[|n|k'] o]; simpl; repeat case_match; simplify_eq/=;
      first [by eexists|by exists []; rewrite app_nil_r].
  - unfold DatagramStream.recv. by destruct (DatagramStream.recv_loop _ _ _ buffer) as [[r|] [rest b']].
Qed.

#[global] Instance endpoint_laws {F A} `{OpenedFile F} : PartyLaws (Endpoint F A).
Proof.
  split.
  - intros l e He. by apply endpoint_poll_hear.
  - intros l e He. by apply endpoint_poll_hear.
  - apply endpoint_outbox.
  - by intros l [ot [f s]].
  - intros l l' [ot [f s]]. unfold hear, endpoint_party, with_arrivals, arrivals_of. simpl. by rewrite app_assoc.
  - intros [ot [f [[arrs outs sent] peer]]]. unfold hear, endpoint_party, with_arrivals, arrivals_of. simpl.
    by rewrite app_nil_r.
Qed.

(** ** A task that does not have to wait *)

Section live.
Context {F : Type} `{OpenedFile F}.

(** The answers of [answer], until a read has to wait: then the stream is lost. *)
Definition live : handler (F * option DatagramStream.t) := λ X ev '(f, o),
  match o with
  | Some s => let '(x, (f', s')) := answer X ev (f, s) in (x, (f', if waits ev s then None else Some s'))
  | None => let '(x, (f', _)) := answer X ev (f, stream_of (SocketAddr_new (V4 0) 0) [] []) in (x, (f', None))
  end.

#[global] Instance live_files : FileHandler live.
Proof.
  split.
  - intros buffer f [s|]; simpl; by destruct (read_to f buffer) as [r [b f']].
  - intros f [s|]; simpl; by destruct (get_size f).
Qed.

Lemma live_answer X (ev : sessionE X) f s :
  live X ev (f, Some s) =
  let '(x, (f', s')) := answer X ev (f, s) in (x, (f', if waits ev s then None else Some s')).
Proof. done. Qed.

Lemma live_lost {A} (ot : itree' sessionE A) f n a f' o : runs live ot (f, None) n a (f', o) → o = None.
Proof.
  intros Hr. remember (f, None) as st eqn:Hst. remember (f', o) as st' eqn:Hst'. revert f Hst.
  induction Hr as [a s|t s n a s' Ht IH|X e k s n a s' Ht IH]; intros f ->.
  - congruence.
  - by apply (IH Hst' f).
  - unfold live in *. destruct (answer X e (f, stream_of _ _ _)) as [x [f1 s1]]. by apply (IH Hst' f1).
Qed.

Lemma runs_moves {A} (ot : itree' sessionE A) f s n a f' s' :
  runs live ot (f, Some s) n a (f', Some s') → rtc moves (ot, (f, s)) (RetF a, (f', s')).
Proof.
  intros Hr. remember (f, Some s) as st eqn:Hst. remember (f', Some s') as st' eqn:Hst'. revert f s Hst.
  induction Hr as [a st|t st n a st' Ht IH|X e k st n a st' Ht IH]; intros f s ->.
  - by injection Hst' as <- <-.
  - eapply rtc_l; [split; [done|reflexivity]|]. by apply (IH Hst').
  - destruct (answer X e (f, s)) as [x [f1 s1]] eqn:E. pose proof (live_answer X e f s) as Hl. rewrite E in Hl.
    rewrite Hl in Ht, IH. subst st'. cbn [fst snd] in *. destruct (waits e s) eqn:Hw; [by apply live_lost in Ht|].
    eapply rtc_l; [split; [exact Hw|reflexivity]|]. cbn [poll endpoint_party step_tree]. rewrite E.
    by apply IH.
Qed.

(** What a task does goes on inside what awaits it. *)
Lemma bind_moves {A B} (K : A → itree sessionE B) t t' (st st' : F * DatagramStream.t) :
  rtc moves (observe t, st) (observe t', st') →
  rtc moves (observe (ITree.bind t K), st) (observe (ITree.bind t' K), st').
Proof.
  intros Hm. remember (observe t, st) as c eqn:Hc. remember (observe t', st') as c' eqn:Hc'. revert t st Hc.
  induction Hm as [c|c c1 c' [Hidle ->] Hm IH]; intros t st ->.
  - injection Hc' as Ht ->. by rewrite !observe_bind, Ht.
  - destruct st as [f s]. destruct (observe t) as [a|u|X e k] eqn:E; [done|..].
    + eapply rtc_l; [rewrite observe_bind, E; split; [done|reflexivity]|]. by apply (IH Hc' u).
    + eapply rtc_l; [rewrite observe_bind, E; split; [exact Hidle|reflexivity]|].
      cbn [poll endpoint_party step_tree observe _observe] in IH |- *.
      destruct (answer X e (f, s)) as [x st1]. by apply (IH Hc' (k x)).
Qed.

Lemma does_moves {A B} (K : A → itree sessionE B) t f s a f' s' :
  does live t (f, Some s) a (f', Some s') →
  rtc moves (observe (ITree.bind t K), (f, s)) (observe (K a), (f', s')).
Proof. intros [n Hr%runs_moves]. by apply (bind_moves K t (Ret a)). Qed.

(** A place in a program where a task can stand: what the task does there is what it does. *)
Definition in_context {A B} (C : itree sessionE A → itree' sessionE B) : Prop :=
  ∀ t t' (st st' : F * DatagramStream.t),
    rtc moves (observe t, st) (observe t', st') → rtc moves (C t, st) (C t', st').

(** One round of a loop. *)
Lemma iter_moves {I A} (body : I → itree sessionE (I + A)) t f s j f' s' :
  does live t (f, Some s) (inl j) (f', Some s') →
  rtc moves (observe (ITree.bind t (λ lr, match lr with inl l => Tau (ITree.iter body l) | inr r => Ret r end)),
             (f, s)) (observe (ITree.iter body j), (f', s')).
Proof. intros Hd. etrans; [by apply does_moves|]. apply rtc_once. by split. Qed.

Lemma live_send f peer arrs sent bytes :
  does live (ITree.trigger (SendBytes bytes)) (f, Some (stream_of peer arrs sent)) (Ok tt)
    (f, Some (stream_of peer arrs (sent ++ [bytes]))).
Proof.
  pose proof (does_trigger live (SendBytes bytes) (f, Some (stream_of peer arrs sent))) as Hd.
  cbn -[DatagramStream.send] in Hd. by rewrite send_stream_of in Hd.
Qed.

(** A datagram of the peer is there. *)
Lemma live_recv f peer arrs sent a buffer m payload :
  m ≤ length payload → m ≤ length buffer →
  does live (ITree.trigger (RecvWithin a buffer m))
    (f, Some (stream_of peer (Datagram peer payload :: arrs) sent))
    (Ok (Ok (UdpSocket.receive payload buffer).1), (UdpSocket.receive payload buffer).2)
    (f, Some (stream_of peer arrs sent)).
Proof.
  intros Hp Hb.
  assert (DatagramStream.recv buffer m (stream_of peer (Datagram peer payload :: arrs) sent) =
    (Some (Ok (UdpSocket.receive payload buffer).1), ((UdpSocket.receive payload buffer).2, stream_of peer arrs sent)))
    as Hr.
  { unfold DatagramStream.recv. simpl. rewrite decide_False by naive_solver. by settle_all. }
  pose proof (does_trigger live (RecvWithin a buffer m)
    (f, Some (stream_of peer (Datagram peer payload :: arrs) sent))) as Hd.
  rewrite live_answer in Hd. cbn [answer waits] in Hd. by rewrite Hr in Hd.
Qed.

Lemma live_burst f W indices peer sent s' :
  send_blocks W indices (stream_of peer [] sent) = (Ok tt, s') →
  ∃ packets, s' = stream_of peer [] (sent ++ packets) ∧
    does live (send_blocks_task W indices) (f, Some (stream_of peer [] sent)) (Ok tt)
      (f, Some (stream_of peer [] (sent ++ packets))).
Proof.
  intros Hs.
  destruct (burst_does live (λ new, (f, Some (stream_of peer [] (sent ++ new)))) W indices peer [] sent s' [])
    as (packets & -> & Hd); [intros new bytes; rewrite app_assoc; apply live_send|done|].
  exists packets. by rewrite app_nil_r in Hd.
Qed.

End live.

(** ** One round of the server *)

Section server_round.
Context {F : Type} `{OpenedFileSpec F}.
Context (bs w : nat) (data : list byte).
Context (Hbs : 0 < bs) (Hbs16 : (Z.of_nat bs < 65536)%Z) (Hw : 0 < w) (Hw16 : (Z.of_nat w < 65536)%Z).
Context (debug : bool) (a : AckTimeout.t) (peer : SocketAddr).

Abbreviation n := (n_blocks bs data).
Abbreviation serve := (ITree.iter (send_loop_round debug a)).

Lemma live_ack (f : F) number sent b :
  is_u16 number → 4 ≤ length b →
  ∃ b', length b' = length b ∧
    does live (read_acknowledge_task a b)
      (f, Some (stream_of peer [Datagram peer (ack_payload number [])] sent)) (Ok number, b')
      (f, Some (stream_of peer [] sent)).
Proof using Type.
  clear Hbs Hbs16 Hw Hw16.
  intros Hn Hb. set (b' := (UdpSocket.receive (ack_payload number []) b).2).
  assert (length b' = length b) as Hl by apply length_receive. exists b'. split; [done|].
  eapply does_bind; [apply live_recv; [done|exact Hb]|]. cbv beta iota. fold b'.
  rewrite (parse_ack_payload b' number [] 4); [apply does_ret|done| |lia|done].
  rewrite Hl. subst b'. cbn [UdpSocket.receive snd]. change (length (ack_payload number [])) with 4.
  rewrite Nat.min_l, (take_ge (ack_payload number []) (length b)), (take_ge (ack_payload number []) 4) by (done || exact Hb). done.
Qed.

(** The window goes out; with the number of its last block for an answer the loop goes on. *)
Lemma server_round A t sent :
  at_block bs w data A t → A < n → last_acknowledged_index t = as_u16 (Z.of_nat A) →
  blocks_sent t = 0 → 4 ≤ length (buf (link t)) →
  let R := (A + w) `min` n in
  let sent' := sent ++ (packet bs data <$> seq (S A) (R - A)) in
  w = 1 ∨ (Z.of_nat R < 65536)%Z →
  ∃ waiting (t' : Transfer F),
    at_block bs w data R t' ∧ last_acknowledged_index t' = as_u16 (Z.of_nat R) ∧
    blocks_sent t' = 0 ∧ 4 ≤ length (buf (link t')) ∧
    rtc moves (observe (serve (false, locals t)), (opened_file t, stream_of peer [] sent))
      (observe waiting, (opened_file t', stream_of peer [] sent')) ∧
    rtc moves (observe waiting, (opened_file t', stream_of peer [Datagram peer (ack_payload (as_u16 (Z.of_nat R)) [])] sent'))
      (observe (serve (bool_decide (R = n), locals t')), (opened_file t', stream_of peer [] sent')).
Proof using All.
  intros Hat HA Hack Hbl Hb R sent' Hroll.
  destruct (fill_window_spec bs w data Hbs Hbs16 Hw Hw16 (Z.to_nat (Z.of_nat w)) 0 A t)
    as (t1 & Hfill & Hat1 & Hl1 & Hb1 & Ha1); [done|lia|lia|lia|].
  rewrite Z.sub_0_r, Nat2Z.id in Hfill, Hat1. replace (A + w `min` (n - A)) with R in Hat1, Hfill by lia.
  replace (0 + Z.of_nat (w `min` (n - A)))%Z with (Z.of_nat (R - A)) in Hfill by lia.
  destruct (fill_window_does live _ _ _ _ _ (Some (stream_of peer [] sent)) Hfill) as [_ Hd]; [done|].
  pose proof (window_blocks_sent bs w data Hbs Hbs16 Hw Hw16 A R t1 Hat1 ltac:(lia) Hroll peer [] sent) as Hs.
  apply (live_burst (opened_file t1)) in Hs as (packets & Heq & Hburst).
  apply (f_equal sent_by) in Heq. rewrite !sent_by_stream_of in Heq. fold sent' in Heq. rewrite <- Heq in Hburst.
  destruct (live_ack (opened_file t1) (as_u16 (Z.of_nat R)) sent' (buf (link t1))) as (b' & Hb' & Hrecv);
    [apply as_u16_range|by rewrite Hl1|].
  set (t' := acknowledged t1 (mkLink (stream (link t1)) b') (as_u16 (Z.of_nat R))).
  eexists _, t'. split; [by destruct Hat1; split|]. split; [done|]. split; [simpl; congruence|].
  split; [simpl; rewrite Hb', Hl1; done|]. split.
  - change (observe (serve ?i)) with (observe (ITree.bind (send_loop_round debug a i)
      (λ lr, match lr with inl l => Tau (serve l) | inr r => Ret r end))).
    eapply bind_moves. cbn [send_loop_round locals l_last_read l_last_acknowledged l_window].
    rewrite (ab_index _ _ _ _ _ Hat), Hack, (unacknowledged bs w data Hbs Hbs16 Hw Hw16) by lia.
    rewrite (win_size bs w) by (done || apply Hat). rewrite Nat.sub_diag. settle_all. rewrite andb_false_r.
    etrans; [apply does_moves; exact Hd|]. cbv beta iota. cbn [locals l_window l_last_acknowledged l_buffer].
    rewrite (win_size bs w) by (done || apply Hat1). settle_all. rewrite andb_false_r.
    eapply bind_moves. rewrite Ha1, Hack, wrapping_succ. cbn [SEND_ATTEMPTS send_attempts_task].
    etrans; [apply does_moves; exact Hburst|]. reflexivity.
  - apply iter_moves. eapply does_bind; [eapply does_bind; [exact Hrecv|]|]; cbv beta iota.
    + assert (as_u16 (Z.of_nat (S A)) ≤ as_u16 (Z.of_nat R))%Z as Hle.
      { destruct Hroll as [->|?]; [by replace R with (S A) by lia|rewrite !as_u16_small by (split; lia); lia]. }
      apply Z.leb_le in Hle. rewrite Hle. apply does_ret.
    + apply does_ret.
Qed.

End server_round.

(** ** One round of the client *)

(** The word the client puts together is the one [from_be_bytes] does. *)
Lemma word_from_be_bytes hi lo :
  Z.lor (as_u16 (Z.shiftl (u8_val hi) 8)) (u8_val lo) = from_be_bytes hi lo.
Proof.
  pose proof (u8_val_range hi). pose proof (u8_val_range lo).
  rewrite Z.shiftl_mul_pow2 by lia. change (2 ^ 8)%Z with 256%Z. rewrite as_u16_small by (split; lia).
  unfold from_be_bytes. rewrite <- Z.add_lor_land. rewrite <- (Z.add_0_r (Z.lor _ _)) at 1. f_equal. symmetry.
  apply Z.bits_inj'. intros i Hi. rewrite Z.land_spec, Z.bits_0.
  change 256%Z with (2 ^ 8)%Z. rewrite <- Z.shiftl_mul_pow2 by lia.
  destruct (decide (i < 8)%Z); [by rewrite Z.shiftl_spec_low|].
  rewrite <- (Z.mod_small (u8_val lo) (2 ^ 8)) by done.
  by rewrite Z.mod_pow2_bits_high, andb_false_r by lia.
Qed.

Section client_round.
Context (bs w : nat) (data : list byte).
Context (Hbs : 0 < bs) (Hbs16 : (Z.of_nat bs < 65536)%Z) (Hw : 0 < w) (Hw16 : (Z.of_nat w < 65536)%Z).
Context (peer : SocketAddr).

Abbreviation n := (n_blocks bs data).
Abbreviation download := (ITree.iter (download_round (Z.of_nat bs) (Z.of_nat w))).

(** The client has the first [R] blocks. *)
Definition has_blocks (R : nat) (d : Download) : Prop :=
  read_data d = take (R * bs) data ∧ length (d_buffer d) = bs + 4 ∧ d_done d = bool_decide (R = n).

Lemma take_packet R d :
  has_blocks R d → R < n →
  let '(received_bytes, buffer) := UdpSocket.receive (packet bs data (S R)) (d_buffer d) in
  ∃ d', take_datagram (bs + 4) received_bytes buffer d = Ok (d', bool_decide (S R = n)) ∧
    has_blocks (S R) d' ∧ last_received_block_index d' = as_u16 (Z.of_nat (S R)).
Proof using All.
  intros (Hr & Hb & Hf) HR.
  pose proof (block_short bs data Hbs (S R) ltac:(lia) ltac:(lia)) as Hshort.
  pose proof (length_block bs data (S R) ltac:(lia)) as Hlen.
  assert ((4 + length (block bs data (S R)) <? bs + 4) = bool_decide (S R = n)) as Hlast.
  { destruct (decide (S R = n)) as [E|E].
    - rewrite bool_decide_eq_true_2 by done. apply Nat.ltb_lt. apply Hshort in E. lia.
    - rewrite bool_decide_eq_false_2 by done. apply Nat.ltb_ge.
      destruct (decide (length (block bs data (S R)) < bs)) as [Hs|]; [tauto|lia]. }
  set (p := packet bs data (S R)).
  assert (length p = 4 + length (block bs data (S R))) as Hp by done.
  unfold UdpSocket.receive. rewrite Hb, Nat.min_l by lia. rewrite take_ge by lia.
  unfold take_datagram. unfold word_at at 1. change (p ++ ?l) with
    ([as_u8 0; as_u8 DATA; as_u8 (Z.shiftr (as_u16 (Z.of_nat (S R))) 8); as_u8 (as_u16 (Z.of_nat (S R)))]
       ++ (block bs data (S R) ++ l)). cbn [app lookup list_lookup mbind option_bind].
  rewrite word_from_be_bytes. change (from_be_bytes (as_u8 0) (as_u8 DATA)) with DATA. cbn [negb Z.eqb].
  unfold word_at. cbn [lookup list_lookup mbind option_bind].
  rewrite word_from_be_bytes, be_bytes_roundtrip by apply as_u16_range.
  rewrite range_Some by (simpl; rewrite ?length_app, ?length_drop; unfold block_header_size; lia).
  replace (length p - block_header_size) with (length (block bs data (S R))) by (unfold block_header_size; lia).
  change (drop block_header_size (?x1 :: ?x2 :: ?x3 :: ?x4 :: ?l)) with l. rewrite take_app_length, Hp, Hlast. eexists. split; [done|]. split; [split; [|split]|done]; simpl.
  - rewrite Hr. unfold block. simpl. rewrite Nat.sub_0_r, (Nat.add_comm bs). apply take_take_drop.
  - rewrite length_app, length_drop. lia.
  - rewrite Hf, (bool_decide_eq_false_2 (R = n)) by lia. apply orb_false_r.
Qed.

(** A window, up to the last block of the file. *)
Lemma test_client_window m : ∀ A rounds d sent,
  has_blocks A d → 0 < m ≤ rounds → A + m ≤ n → m = rounds ∨ A + m = n →
  ∃ d', does live (download_window (Z.of_nat bs) rounds d)
          (tt, Some (stream_of peer (Datagram peer <$> (packet bs data <$> seq (S A) m)) sent))
          (Ok d') (tt, Some (stream_of peer [] sent)) ∧
    has_blocks (A + m) d' ∧ last_received_block_index d' = as_u16 (Z.of_nat (A + m)).
Proof using All.
  induction m as [|m IH]; intros A [|rounds] d sent Hd Hm HA Hend; try lia.
  pose proof (take_packet A d Hd ltac:(lia)) as Ht. destruct (UdpSocket.receive _ _) as [k b] eqn:E.
  destruct Ht as (d1 & Ht & Hd1 & Hi1). cbn [download_window seq fmap list_fmap].
  pose proof (live_recv (F := unit) tt peer (Datagram peer <$> (packet bs data <$> seq (S (S A)) m)) sent
    (AckTimeout.mk 5) (d_buffer d) block_header_size (packet bs data (S A))) as Hr.
  destruct Hd as (_ & Hb & _).
  specialize (Hr ltac:(unfold packet, data_packet, block_header_size; simpl; lia)
                 ltac:(unfold block_header_size; lia)).
  rewrite E in Hr. cbn [fst snd] in Hr. rewrite <- Nat.add_succ_comm.
  destruct (decide (S A = n)) as [Hn|Hn].
  - exists d1. replace m with 0 in * by lia. rewrite Nat.add_0_r. split; [|done].
    eapply does_bind; [exact Hr|]. cbv beta iota. rewrite Nat2Z.id. unfold block_header_size. rewrite Ht.
    rewrite bool_decide_eq_true_2 by done. apply does_ret.
  - rewrite bool_decide_eq_false_2 in Ht by done. destruct m as [|m].
    + exists d1. rewrite Nat.add_0_r. split; [|done]. replace rounds with 0 by lia.
      eapply does_bind; [exact Hr|]. cbv beta iota. rewrite Nat2Z.id. unfold block_header_size. rewrite Ht.
      apply does_ret.
    + destruct (IH (S A) rounds d1 sent) as (d' & Hd' & Hblocks & Hi); [done|lia..|].
      exists d'. split; [|done]. eapply does_bind; [exact Hr|]. cbv beta iota. rewrite Nat2Z.id.
      unfold block_header_size. rewrite Ht. exact Hd'.
Qed.

Lemma write_ack_spec index buffer :
  4 ≤ length buffer →
  write_ack index buffer = Some (ack_payload index [] ++ drop 4 buffer).
Proof.
  destruct buffer as [|b0 [|b1 [|b2 [|b3 rest]]]]; simpl; try lia. intros _.
  assert (as_u8 (Z.land index 0xFF) = as_u8 index) as E.
  { apply u8_val_inj. rewrite !u8_val_as_u8. change 255%Z with (Z.ones 8). rewrite Z.land_ones by lia.
    apply Zmod_mod. }
  unfold write_ack, store. rewrite E. done.
Qed.

(** The blocks of a window taken, and the last one acknowledged. *)
Lemma client_round A d sent :
  has_blocks A d → A < n →
  let R := (A + w) `min` n in
  ∃ d', has_blocks R d' ∧
    does live (download_round (Z.of_nat bs) (Z.of_nat w) d)
      (tt, Some (stream_of peer (Datagram peer <$> (packet bs data <$> seq (S A) (R - A))) sent))
      (inl d') (tt, Some (stream_of peer [] (sent ++ [ack_payload (as_u16 (Z.of_nat R)) []]))).
Proof using All.
  intros Hd HA R.
  destruct (test_client_window (R - A) A w d sent Hd) as (d1 & Hw1 & (Hr & Hb & Hf) & Hi); [lia..|].
  replace (A + (R - A)) with R in * by lia. destruct Hd as (_ & _ & Hf0). unfold download_round.
  rewrite Hf0, bool_decide_eq_false_2, Nat2Z.id by lia.
  eexists (mkDownload (read_data d1) (ack_payload (as_u16 (Z.of_nat R)) [] ++ drop 4 (d_buffer d1))
    (last_received_block_index d1) (d_done d1)).
  split; [split; [done|split; [|done]]; simpl; rewrite length_drop; lia|].
  eapply does_bind; [exact Hw1|]. cbv beta iota. rewrite Hi, write_ack_spec by lia. cbv beta iota.
  rewrite range_prefix by (unfold block_header_size; simpl; lia).
  eapply does_bind; [apply live_send|]. change (take block_header_size _) with (ack_payload (as_u16 (Z.of_nat R)) []).
  apply does_ret.
Qed.

End client_round.

(** ** The transfer *)

Section transfer.
Context {F : Type} `{OpenedFileSpec F}.
Context (bs w : nat) (data : list byte).
Context (Hbs : 0 < bs) (Hbs16 : (Z.of_nat bs < 65536)%Z) (Hw : 0 < w) (Hw16 : (Z.of_nat w < 65536)%Z).
Context (debug : bool) (a : AckTimeout.t) (sa ca : SocketAddr).

Abbreviation n := (n_blocks bs data).
Abbreviation serve := (ITree.iter (send_loop_round debug a)).

(** What a client makes of a window: with [A] blocks it takes the blocks that follow, up to
    the window's or the file's last, and acknowledges that one. *)
Definition takes_windows {Q} `{Party Q} (has : nat → Q → Prop) : Prop :=
  ∀ A q, has A q → A < n →
    let R := (A + w) `min` n in
    ∃ q', has R q' ∧ rtc moves (hear (Datagram sa <$> (packet bs data <$> seq (S A) (R - A))) q) q' ∧
      mail ca sa (posted q q') = [Datagram ca (ack_payload (as_u16 (Z.of_nat R)) [])].

Lemma posted_stream {B} (ot ot' : itree' sessionE B) (f f' : F) peer arrs arrs' sent packets :
  posted (P := Endpoint F B) (ot, (f, stream_of peer arrs sent)) (ot', (f', stream_of peer arrs' (sent ++ packets))) =
  pair peer <$> packets.
Proof. unfold posted. cbn. by rewrite fmap_app, drop_app_length. Qed.

Context {B : Type} (C : itree sessionE (res TFTPError (nat * nat) * Locals) → itree' sessionE B).
Context (HC : in_context (F := F) C).
Context {Q : Type} `{PartyLaws Q} (has : nat → Q → Prop) (Hclient : takes_windows has).

(** The transfer before a round, with [A] blocks acknowledged. *)
Definition round_at (A : nat) (t : Transfer F) (sent : list (list byte)) : Endpoint F B :=
  (C (serve (bool_decide (A = n), locals t)), (opened_file t, stream_of ca [] sent)).

Lemma transfer_round A t q sent :
  at_block bs w data A t → A < n → last_acknowledged_index t = as_u16 (Z.of_nat A) →
  blocks_sent t = 0 → 4 ≤ length (buf (link t)) → has A q →
  let R := (A + w) `min` n in
  w = 1 ∨ (Z.of_nat R < 65536)%Z →
  ∃ t' q', at_block bs w data R t' ∧ last_acknowledged_index t' = as_u16 (Z.of_nat R) ∧
    blocks_sent t' = 0 ∧ 4 ≤ length (buf (link t')) ∧ has R q' ∧
    rtc (join_step sa ca) (mkJoined (round_at A t sent) q)
      (mkJoined (round_at R t' (sent ++ (packet bs data <$> seq (S A) (R - A)))) q').
Proof using All.
  intros Hat HA Hack Hbl Hb Hq R Hroll.
  destruct (server_round bs w data Hbs Hbs16 Hw Hw16 debug a ca A t sent)
    as (waiting & t' & Hat' & Hack' & Hbl' & Hb' & Hburst & Hresume); [done..|].
  destruct (Hclient A q Hq HA) as (q' & Hq' & Htake & Hmail).
  fold R in Hat', Hack', Hburst, Hresume, Hq', Htake, Hmail. exists t', q'. do 5 (split; [done|]).
  set (packets := packet bs data <$> _) in *. set (ack := ack_payload _ _) in *.
  apply HC in Hburst, Hresume. unfold round_at. rewrite (bool_decide_eq_false_2 (A = n)) by lia.
  etrans; [apply server_moves; exact Hburst|]. rewrite posted_stream, mail_to.
  etrans; [apply client_moves; exact Htake|]. unfold posted. rewrite outbox_hear. fold (posted q q'). rewrite Hmail.
  etrans; [exact (server_moves sa ca _ _ _ Hresume)|].
  replace (posted _ _) with ([] : list (SocketAddr * list byte)); [by rewrite hear_nil|].
  symmetry. apply (drop_all (pair ca <$> (sent ++ packets))).
Qed.

Context (Hroll : w = 1 ∨ (Z.of_nat n < 65536)%Z).

Lemma transfer_rounds k : ∀ A t q sent,
  n - A ≤ k → A ≤ n → at_block bs w data A t → last_acknowledged_index t = as_u16 (Z.of_nat A) →
  blocks_sent t = 0 → 4 ≤ length (buf (link t)) → has A q →
  ∃ t' q', at_block bs w data n t' ∧ blocks_sent t' = 0 ∧ 4 ≤ length (buf (link t')) ∧ has n q' ∧
    rtc (join_step sa ca) (mkJoined (round_at A t sent) q)
      (mkJoined (round_at n t' (sent ++ (packet bs data <$> seq (S A) (n - A)))) q').
Proof using All.
  induction k as [|k IH]; intros A t q sent Hk HA Hat Hack Hbl Hb Hq.
  - replace A with n in * by lia. rewrite Nat.sub_diag, app_nil_r. by exists t, q.
  - destruct (decide (A = n)) as [->|Hne]; [rewrite Nat.sub_diag, app_nil_r; by exists t, q|].
    destruct (transfer_round A t q sent) as (t1 & q1 & Hat1 & Hack1 & Hbl1 & Hb1 & Hq1 & Hstep);
      [done|lia|done..|destruct Hroll; [by left|right; lia]|].
    edestruct (IH ((A + w) `min` n) t1 q1) as (t' & q' & Hat' & Hbl' & Hb' & Hq' & Hrest); [lia|lia|done..|].
    exists t', q'. do 4 (split; [done|]). etrans; [exact Hstep|].
    replace (seq (S A) (n - A)) with (seq (S A) ((A + w) `min` n - A) ++ seq (S ((A + w) `min` n)) (n - (A + w) `min` n)).
    + rewrite fmap_app, app_assoc. exact Hrest.
    + replace (S ((A + w) `min` n)) with (S A + ((A + w) `min` n - A)) by lia. rewrite <- seq_app. f_equal. lia.
Qed.

(** One schedule of the whole transfer: the server returns, and the client has every block. *)
Lemma transfer_completes (f : F) buffer q sent :
  readable f → remaining f = data → 4 ≤ length buffer → has 0 q →
  ∃ t f' q', has n q' ∧ 4 ≤ length (l_buffer t) ∧
    rtc (join_step sa ca)
      (mkJoined (C (send_file_task debug (Window.new (Z.of_nat bs) (Z.of_nat w)) a buffer), (f, stream_of ca [] sent)) q)
      (mkJoined (C (Ret (Ok (length data, 0), t)),
                 (f', stream_of ca [] (sent ++ (packet bs data <$> seq 1 n)))) q').
Proof using All.
  intros Hr Hrem Hb Hq.
  set (t0 := mkTransfer f (Window.new (Z.of_nat bs) (Z.of_nat w)) (mkLink (stream_of ca [] []) buffer) 0 0 0 0).
  assert (0 ≠ n) as Hblocks by (unfold n_blocks; lia).
  assert (at_block bs w data 0 t0) as Hat by (by apply at_block_start).
  destruct (transfer_rounds n 0 t0 q sent) as (t' & q' & Hat' & Hbl & Hb' & Hq' & Hsteps); [lia..|done|done|done|done|done|].
  exists (locals t'), (opened_file t'), q'. split; [done|]. split; [done|]. unfold round_at in Hsteps.
  rewrite (bool_decide_eq_false_2 (0 = _)) in Hsteps by done. rewrite Nat.sub_0_r in Hsteps.
  etrans; [exact Hsteps|]. rewrite bool_decide_eq_true_2 by done.
  assert (length data ≤ n * bs) as Hall by (by apply Nat.lt_le_incl, n_blocks_bound).
  set (s := stream_of ca [] _).
  assert (rtc moves (C (serve (true, locals t')), (opened_file t', s))
    (C (Ret (Ok (length data, 0), locals t')), (opened_file t', s))) as Hend.
  { apply HC. rewrite <- Hbl. replace (length data) with (bytes_sent t'); [done|].
    by rewrite (ab_bytes _ _ _ _ _ Hat'), Nat.min_r. }
  etrans; [exact (server_moves sa ca _ _ _ Hend)|].
  replace (posted _ _) with ([] : list (SocketAddr * list byte)); [by rewrite hear_nil|].
  symmetry. apply (drop_all (pair ca <$> _)).
Qed.

End transfer.

(** The client of the tests. *)
Section test_client.
Context (bs w : nat) (data : list byte).
Context (Hbs : 0 < bs) (Hbs16 : (Z.of_nat bs < 65536)%Z) (Hw : 0 < w) (Hw16 : (Z.of_nat w < 65536)%Z).
Context (sa ca : SocketAddr).

Definition test_client_has (A : nat) (q : Endpoint unit (res DownloadError (list byte))) : Prop :=
  ∃ d acks, has_blocks bs data A d ∧
    q = (observe (ITree.iter (download_round (Z.of_nat bs) (Z.of_nat w)) d), (tt, stream_of sa [] acks)).

Lemma test_client_takes_windows : takes_windows bs w data sa ca test_client_has.
Proof using All.
  intros A q (d & acks & Hd & ->) HA R.
  destruct (client_round bs w data Hbs Hbs16 Hw Hw16 sa A d acks Hd HA) as (d' & Hd' & Htake).
  eexists. split; [by exists d', (acks ++ [ack_payload (as_u16 (Z.of_nat R)) []])|]. split.
  - exact (iter_moves (download_round (Z.of_nat bs) (Z.of_nat w)) _ _ _ _ _ _ Htake).
  - by rewrite posted_stream, mail_to.
Qed.

Lemma test_client_done q : test_client_has (n_blocks bs data) q → q.1 = RetF (Ok data).
Proof using Hbs.
  intros (d & acks & (Hrd & _ & Hdone) & ->). rewrite bool_decide_eq_true_2 in Hdone by done.
  rewrite take_ge in Hrd by (by apply Nat.lt_le_incl, n_blocks_bound).
  rewrite <- Hrd. destruct d as [rd b i fin]. simpl in Hdone. by subst fin.
Qed.

End test_client.

(** The two tasks of a test before [join!]: [send_file] with its buffer, and the client. *)
Definition joined_at_start {F} (debug : bool) (bs w : nat) (f : F) (a : AckTimeout.t) (buffer : list byte)
    (server_address client_address : SocketAddr)
  : Joined (Endpoint F (res TFTPError (nat * nat) * Locals)) (Endpoint unit (res DownloadError (list byte))) :=
  mkJoined
    (observe (send_file_task debug (Window.new (Z.of_nat bs) (Z.of_nat w)) a buffer),
     (f, stream_of client_address [] []))
    (observe (download_stream (Z.of_nat bs) (Z.of_nat w)), (tt, stream_of server_address [] [])).

(** C16: the server and the client of its tests, run side by side, transfer every file.  With
    a window of one block, or a file of fewer than 65536 blocks, every way to interleave the
    two tasks comes to an end after the same number of turns and in the same state: neither
    waits for the other for ever.  There [send_file] has returned [Ok] and the file's length,
    having sent every block once and in order, and [download_stream] has returned [Ok] and
    the file; and that is where [join!] gets to. *)
Theorem download_gets_file {F} `{OpenedFileSpec F} (debug : bool) (bs w : nat) (data : list byte) (f : F)
    (a : AckTimeout.t) (buffer : list byte) (sa ca : SocketAddr) :
  0 < bs → (Z.of_nat bs < 65536)%Z → 0 < w → (Z.of_nat w < 65536)%Z →
  w = 1 ∨ (Z.of_nat (n_blocks bs data) < 65536)%Z →
  readable f → remaining f = data → 4 ≤ length buffer →
  ∃ final, always_ends sa ca (joined_at_start debug bs w f a buffer sa ca) final ∧
    (∃ t, (server final).1 = RetF (Ok (length data, 0), t)) ∧ (client final).1 = RetF (Ok data) ∧
    sent_by (server final).2.2 = packet bs data <$> seq 1 (n_blocks bs data).
Proof.
  intros Hbs Hbs16 Hw Hw16 Hroll Hr Hrem Hb.
  destruct (transfer_completes bs w data Hbs Hbs16 Hw Hw16 debug a sa ca observe (λ t t' st st' Hm, Hm)
    (test_client_has bs w data sa) (test_client_takes_windows bs w data Hbs Hbs16 Hw Hw16 sa ca) Hroll f buffer
    (client (joined_at_start debug bs w f a buffer sa ca)) [])
    as (t & f' & q & Hq & _ & Hsteps); [done|done|done| |].
  { eexists _, []. split; [|reflexivity]. split; [done|]. split; [simpl; by rewrite length_replicate, Nat2Z.id|].
    simpl. rewrite bool_decide_eq_false_2; [done|unfold n_blocks; lia]. }
  apply test_client_done in Hq; [|done].
  eexists. split; [apply (schedules_end sa ca _ _ Hsteps); [done|by destruct q as [ot [? ?]]; simpl in *; subst]|].
  split; [by exists t|]. split; [done|]. apply sent_by_stream_of.
Qed.

(** ** The tests *)

(** [make_streams]: the addresses the sockets are bound to, with ports of the kernel's choice. *)
Definition test_server : SocketAddr := SocketAddr_new (V4 0x7F00000A) 40001.
Definition test_client : SocketAddr := SocketAddr_new (V4 0x7F000014) 40002.

(** What the tests do: the first argument is the size of the data. *)
Definition run_test (size bs w fuel : nat) : option (list byte) :=
  let j := join_run test_server test_client fuel
    (joined_at_start true bs w (VirtualOpenedFile.new (generate_data size)) AckTimeout.default
       (replicate 1024 zero) test_server test_client) in
  match (client j).1 with RetF (Ok data) => Some data | _ => None end.

Example send_aligned_data : run_test 100 100 1 40 = Some (generate_data 100).
Proof. vm_compute. reflexivity. Qed.

Example send_unaligned_data : run_test 512 100 1 100 = Some (generate_data 512).
Proof. vm_compute. reflexivity. Qed.

Example send_aligned_data_windowed : run_test 100 100 5 40 = Some (generate_data 100).
Proof. vm_compute. reflexivity. Qed.

Example send_unaligned_data_windowed : run_test 512 100 5 100 = Some (generate_data 512).
Proof. vm_compute. reflexivity. Qed.

Lemma download_gets_file_witness :
  ∃ final, always_ends test_server test_client
      (joined_at_start true 100 5 (VirtualOpenedFile.new (generate_data 512)) AckTimeout.default
         (replicate 1024 zero) test_server test_client) final ∧
    (∃ t, (server final).1 = RetF (Ok (length (generate_data 512), 0), t)) ∧
    (client final).1 = RetF (Ok (generate_data 512)) ∧
    sent_by (server final).2.2 = packet 100 (generate_data 512) <$> seq 1 (n_blocks 100 (generate_data 512)).
Proof.
  apply (download_gets_file true 100 5 (generate_data 512) (VirtualOpenedFile.new (generate_data 512))
    AckTimeout.default (replicate 1024 zero) test_server test_client);
    [lia|done|lia|done|by right|vm_compute; lia|done|rewrite length_replicate; lia].
Defined.

(** A datagram that is not DATA ends the download; the name in the braces is not replaced. *)
Example wrong_opcode_literal :
  take_datagram 104 5 (str "     ") (mkDownload [] [] 0 false) =
  Err (Message (str "Wrong opcode received: {opcode}")).
Proof. reflexivity. Qed.
