(* ===== verification/Interop.v ===== *)
(** * Interop: whole sessions with the client of src/tests/common/client.rs

    The integration tests download files with a TFTP client of their own.  Here that client,
    from the moment its request has been sent, is joined with the session's task, negotiation
    included: the first answer, which may come from any port of the server, the OACK, and the
    blocks.  The client has copies of the two cursors, which are those of Cursor, and of the
    stream, which is that of Net.  As in Loopback, no timer expires. *)

From stdpp Require Import relations.
From S2P Require Import Prelude Text Cursor Errors Fs Options Messages Net Window Session Transfer Delivery Negotiation AsyncSession Paths LocalFs GuestFs RemoteFs SharedDisk NbdDisk PeerHandler LocalSet Network Loopback.
From ITree Require Import Basics.Basics Core.ITreeDefinition Eq.Shallow.

Module TFTPClientError.
(** A [Timeout] gives back what the client had sent, which is not kept here. *)
Inductive t : Type :=
| IO (error : ErrorKind)
| Timeout
| ClientError (code : Z) (message : rstring)
| ParseError (error : ErrorKind)
| UnexpectedData (data : list byte)
| UnexpectedPeer (ip : IpAddr) (data : list byte).
End TFTPClientError.

Module TFTPClient.

Definition BUFFER_SIZE : nat := 1536.

(** [DownloadError]: the text is written out only where the client writes it itself. *)
Inductive DownloadError : Type :=
| Failed (error : TFTPClientError.t)
| Message (text : rstring).

(** ** The request *)

Definition unwrap {E A S} (r : res E A * S) : res Empty_set A * S :=
  match r with
  | (Ok x, s) => (Ok x, s)
  | (Err _, s) => (Stop Panicked, s)
  | (Stop h, s) => (Stop h, s)
  end.

Definition make_read_request (file_name : rstring) (write_buffer : list byte) : res Empty_set nat * WriteCursor.t :=
  let? (_, write_cursor) := unwrap (WriteCursor.put_ushort RRQ (WriteCursor.new write_buffer)) in
  let? (_, write_cursor) := unwrap (WriteCursor.put_string file_name write_cursor) in
  unwrap (WriteCursor.put_string (str "octet") write_cursor).

(** The options are put in the order in which the map yields them. *)
Fixpoint put_options (options : list (rstring * rstring)) (buffer_size : nat) (write_cursor : WriteCursor.t)
  : res Empty_set nat * WriteCursor.t :=
  match options with
  | [] => (Ok buffer_size, write_cursor)
  | (option_name, option_value) :: options' =>
      let? (_, write_cursor) := unwrap (WriteCursor.put_string option_name write_cursor) in
      let? (buffer_size, write_cursor) := unwrap (WriteCursor.put_string option_value write_cursor) in
      put_options options' buffer_size write_cursor
  end.

(** What is sent, and the write buffer it leaves. *)
Definition read_request (file_name : rstring) (options : list (rstring * rstring))
  : res Empty_set (list byte * list byte) :=
  match make_read_request file_name (replicate BUFFER_SIZE zero) with
  | (Ok size, write_cursor) =>
      match put_options options size write_cursor with
      | (Ok buffer_size, write_cursor) =>
          match range 0 buffer_size (WriteCursor.buffer write_cursor) with
          | Some datagram => Ok (datagram, WriteCursor.buffer write_cursor)
          | None => Stop Panicked
          end
      | (Err e, _) => Err e
      | (Stop h, _) => Stop h
      end
  | (Err e, _) => Err e
  | (Stop h, _) => Stop h
  end.

(** ** What the answers are taken for *)

(** The [match] on the code of a datagram. *)
Definition check_code (expected : Z) (read_bytes : nat) (read_buffer : list byte) : res TFTPClientError.t unit :=
  match range 0 read_bytes read_buffer with
  | None => Stop Panicked
  | Some datagram =>
      match ReadCursor.extract_ushort (ReadCursor.new datagram) with
      | (Ok code, read_cursor) =>
          if (code =? expected)%Z then Ok tt
          else if (code =? ERROR)%Z then
            match ReadCursor.extract_ushort read_cursor with
            | (Ok error_code, read_cursor) =>
                match ReadCursor.extract_string read_cursor with
                | (Ok message, _) => Err (TFTPClientError.ClientError error_code message)
                | _ => Stop Panicked
                end
            | _ => Stop Panicked
            end
          else Err (TFTPClientError.UnexpectedData datagram)
      | (Err parse_error, _) => Err (TFTPClientError.ParseError parse_error)
      | (Stop h, _) => Stop h
      end
  end.

(** What [recv_from] under a timer returns. *)
Definition received : Type := res Elapsed (res ErrorKind (nat * SocketAddr)).

(** [SentPlainReadRequest::read_next] and [SentReadRequestWithOpts::read_oack]. *)
Definition first_answer (expected : Z) (remote_addr : SocketAddr) (r : received) (read_buffer : list byte)
  : res TFTPClientError.t nat :=
  match r with
  | Ok (Ok (read_bytes, remote_address)) =>
      if decide (ip remote_address = ip remote_addr) then
        match check_code expected read_bytes read_buffer with
        | Ok _ => Ok read_bytes
        | Err e => Err e
        | Stop h => Stop h
        end
      else
        match range 0 read_bytes read_buffer with
        | Some data => Err (TFTPClientError.UnexpectedPeer (ip remote_address) data)
        | None => Stop Panicked
        end
  | Ok (Err error) => Err (TFTPClientError.IO error)
  | Err _timeout_error => Err TFTPClientError.Timeout
  | Ok (Stop h) | Stop h => Stop h
  end.

(** ** Blocks and acknowledgements *)

Section tasks.
Local Abbreviation task := (itree sessionE).

(** The two buffers, which a request, an OACK, a block and a sent acknowledgement hand on. *)
Record Buffers : Type := mkBuffers { read_buffer : list byte; write_buffer : list byte }.

(** [Block::read_next] and [SentACK::read_next]. *)
Definition read_next (b : Buffers) : task (res TFTPClientError.t nat * Buffers) :=
  await! (result, read_buffer) := ITree.trigger (RecvWithin (AckTimeout.mk 5) (read_buffer b) 4) in
  Ret (match result with
       | Ok (Ok read_bytes) =>
           match check_code DATA read_bytes read_buffer with
           | Ok _ => Ok read_bytes
           | Err e => Err e
           | Stop h => Stop h
           end
       | Ok (Err err) => Err (TFTPClientError.IO err)
       | Err _timeout_error => Err TFTPClientError.Timeout
       | Ok (Stop h) | Stop h => Stop h
       end, mkBuffers read_buffer (write_buffer b)).

(** [Block::data] *)
Definition block_data (read_bytes : nat) (b : Buffers) : option (list byte) := range 4 read_bytes (read_buffer b).

Definition send_ack (number : Z) (b : Buffers) : task (res ErrorKind unit * Buffers) :=
  let written :=
    let? (_, write_cursor) := unwrap (WriteCursor.put_ushort ACK (WriteCursor.new (write_buffer b))) in
    unwrap (WriteCursor.put_ushort number write_cursor) in
  match written with
  | (Ok buffer_size, write_cursor) =>
      match range 0 buffer_size (WriteCursor.buffer write_cursor) with
      | Some bytes =>
          await! sent := ITree.trigger (SendBytes bytes) in
          Ret (sent, mkBuffers (read_buffer b) (WriteCursor.buffer write_cursor))
      | None => Ret (Stop Panicked, b)
      end
  | (_, _) => Ret (Stop Panicked, b)
  end.

(** [Block::acknowledge]: a send that fails is unwrapped. *)
Definition acknowledge_block (b : Buffers) : task (res TFTPClientError.t unit * Buffers) :=
  match read_buffer b !! 2, read_buffer b !! 3 with
  | Some hi, Some lo =>
      await! (sent, b') := send_ack (from_be_bytes hi lo) b in
      Ret (match sent with Ok _ => Ok tt | Err _ => Stop Panicked | Stop h => Stop h end, b')
  | _, _ => Ret (Stop Panicked, b)
  end.

(** [OACK::acknowledge] *)
Definition acknowledge_oack (b : Buffers) : task (res TFTPClientError.t unit * Buffers) :=
  await! (sent, b') := send_ack 0 b in
  Ret (match sent with Ok _ => Ok tt | Err error => Err (TFTPClientError.IO error) | Stop h => Stop h end, b').

(** ** [download] *)

Definition default_block_size : nat := 512.

(** What follows the acknowledgement of a block of [recv_block_len] bytes. *)
Definition after_ack (read_data : list byte) (recv_block_len : nat) (b : Buffers)
  : task ((list byte * nat * Buffers) + res DownloadError (list byte)) :=
  if recv_block_len =? default_block_size then
    await! (next, b') := read_next b in
    Ret (match next with
         | Ok read_bytes => inl (read_data, read_bytes, b')
         | Err error => inr (Err (Failed error))
         | Stop h => inr (Stop h)
         end)
  else Ret (inr (Ok read_data)).

(** [while let Some(_block) = block.take()] *)
Definition download_round (s : list byte * nat * Buffers)
  : task ((list byte * nat * Buffers) + res DownloadError (list byte)) :=
  let '(read_data, read_bytes, b) := s in
  match block_data read_bytes b with
  | None => Ret (inr (Stop Panicked))
  | Some data =>
      await! (acknowledged, b') := acknowledge_block b in
      match acknowledged with
      | Ok _ => after_ack (read_data ++ data) (length data) b'
      | Err error => Ret (inr (Err (Failed error)))
      | Stop h => Ret (inr (Stop h))
      end
  end.

(** Past the request. *)
Definition download (remote_addr : SocketAddr) (write_buffer : list byte) (r : received) (read_buffer : list byte)
  : task (res DownloadError (list byte)) :=
  match first_answer DATA remote_addr r read_buffer with
  | Ok read_bytes => ITree.iter download_round ([], read_bytes, mkBuffers read_buffer write_buffer)
  | Err error => Ret (Err (Failed error))
  | Stop h => Ret (Stop h)
  end.

(** ** [download_window] *)

Definition WINDOW_SIZE : rstring := str "windowsize".

(** The loop of [OACK::fields]; every round takes a byte at least. *)
Fixpoint fields_loop (fuel : nat) (cursor : ReadCursor.t) (fields : options_map) : res Empty_set options_map :=
  match fuel with
  | O => Stop OutOfFuel
  | S fuel' =>
      match ReadCursor.extract_string cursor with
      | (Ok option, cursor) =>
          match ReadCursor.extract_string cursor with
          | (Ok value, cursor) => fields_loop fuel' cursor (<[option := value]> fields)
          | _ => Stop Panicked
          end
      | (Err _, _) => Ok fields
      | (Stop h, _) => Stop h
      end
  end.

Definition fields (read_bytes : nat) (b : Buffers) : res Empty_set options_map :=
  match range 2 read_bytes (read_buffer b) with
  | Some raw => fields_loop (S (length raw)) (ReadCursor.new raw) ∅
  | None => Stop Panicked
  end.

(** [str::parse::<u16>] *)
Definition parse_u16 (s : rstring) : option Z :=
  v ← parse_usize s; if (v <=? u16_max)%Z then Some v else None.

Section window.
Context (window_size : Z).

(** A block, and the acknowledgement that was sent, either of which has the buffers. *)
Record WindowState : Type := mkWindowState {
  sent_ack : option Buffers;
  last_block : option (nat * Buffers);
  read_so_far : list byte;
  done : bool;
}.

(** [for _ in 0..window_size] *)
Fixpoint window_blocks (rounds : nat) (s : WindowState) : task (res DownloadError WindowState) :=
  match rounds with
  | O => Ret (Ok s)
  | S rounds' =>
      let '(previous, sent_ack') :=
        match last_block s with
        | Some (_, b) => (Some b, sent_ack s)
        | None => (sent_ack s, None)
        end in
      match previous with
      | None => Ret (Stop Panicked)
      | Some b =>
          await! (next, b') := read_next b in
          match next with
          | Ok read_bytes =>
              match block_data read_bytes b' with
              | None => Ret (Stop Panicked)
              | Some data =>
                  let s' := mkWindowState sent_ack' (Some (read_bytes, b')) (read_so_far s ++ data)
                              (length data <? default_block_size) in
                  if done s' then Ret (Ok s') else window_blocks rounds' s'
              end
          | Err error => Ret (Err (Failed error))
          | Stop h => Ret (Stop h)
          end
      end
  end.

(** [while !done] *)
Definition window_round (s : WindowState) : task (WindowState + res DownloadError (list byte)) :=
  if done s then Ret (inr (Ok (read_so_far s)))
  else
    await! window := window_blocks (Z.to_nat window_size) s in
    match window with
    | Ok s' =>
        match last_block s' with
        | None => Ret (inr (Stop Panicked))
        | Some (_, b) =>
            await! (acknowledged, b') := acknowledge_block b in
            Ret (match acknowledged with
                 | Ok _ => inl (mkWindowState (Some b') None (read_so_far s') (done s'))
                 | Err error => inr (Err (Failed error))
                 | Stop h => inr (Stop h)
                 end)
        end
    | Err e => Ret (inr (Err e))
    | Stop h => Ret (inr (Stop h))
    end.

(** The checks of the OACK's fields. *)
Definition check_window (received : options_map) : res DownloadError unit :=
  match received !! WINDOW_SIZE with
  | None => Err (Message (str "Window size not set"))
  | Some text =>
      match parse_u16 text with
      | None => Err (Message (str "Window size not recognized: " ++ text))
      | Some window_size_received =>
          if negb (window_size_received =? window_size)%Z
          then Err (Message (str "Window size mismatch: Received " ++ to_string window_size_received
                             ++ str ", expected " ++ to_string window_size))
          else Ok tt
      end
  end.

Definition download_window (remote_addr : SocketAddr) (write_buffer : list byte) (r : received)
    (read_buffer : list byte) : task (res DownloadError (list byte)) :=
  match first_answer OACK remote_addr r read_buffer with
  | Err error => Ret (Err (Failed error))
  | Stop h => Ret (Stop h)
  | Ok read_bytes =>
      let b := mkBuffers read_buffer write_buffer in
      match fields read_bytes b with
      | Err e => match e with end
      | Stop h => Ret (Stop h)
      | Ok received =>
          match check_window received with
          | Err e => Ret (Err e)
          | Stop h => Ret (Stop h)
          | Ok _ =>
              await! (acknowledged, b') := acknowledge_oack b in
              match acknowledged with
              | Ok _ => ITree.iter window_round (mkWindowState (Some b') None [] false)
              | Err error => Ret (Err (Failed error))
              | Stop h => Ret (Stop h)
              end
          end
      end
  end.

End window.
End tasks.

(** ** The client as a party *)

(** It has sent its request and waits for the first answer, from whatever port; or it talks
    to the address that has answered. *)
Inductive t (B : Type) : Type :=
| Asking (local_socket : UdpSocket.t) (remote_addr : SocketAddr) (read_buffer : list byte)
    (continue : received → list byte → itree sessionE B)
| Talking (task : itree' sessionE B) (datagram_stream : DatagramStream.t).
Arguments Asking {B}.
Arguments Talking {B}.

Definition socket_with (local_socket : UdpSocket.t) (l : list arrival) : UdpSocket.t :=
  UdpSocket.mk l (UdpSocket.outcomes local_socket) (UdpSocket.sent local_socket).

(** The call of [recv_from] returns: from here on the client has a [DatagramStream]. *)
Definition answered {B} (local_socket : UdpSocket.t) (remote_addr : SocketAddr) (read_buffer : list byte)
    (continue : received → list byte → itree sessionE B) : t B :=
  match UdpSocket.arrivals local_socket with
  | [] => Asking local_socket remote_addr read_buffer continue
  | first :: l =>
      let go_on r read_buffer peer :=
        Talking (observe (continue r read_buffer)) (DatagramStream.new (socket_with local_socket l) peer) in
      match first with
      | Datagram remote_address payload =>
          let '(read_bytes, read_buffer') := UdpSocket.receive payload read_buffer in
          go_on (Ok (Ok (read_bytes, remote_address))) read_buffer' remote_address
      | RecvFailed error => go_on (Ok (Err error)) read_buffer remote_addr
      | TimerElapsed => go_on (Err mkElapsed) read_buffer remote_addr
      end
  end.

#[global] Instance client_party {B} : Party (t B) := {
  idle c :=
    match c with
    | Asking socket _ _ _ => match UdpSocket.arrivals socket with [] => true | _ => false end
    | Talking ot s => idle (ot, (tt, s))
    end;
  poll c :=
    match c with
    | Asking socket remote_addr read_buffer continue => answered socket remote_addr read_buffer continue
    | Talking ot s => let '(ot', (_, s')) := poll (ot, (tt, s)) in Talking ot' s'
    end;
  outbox c :=
    match c with
    | Asking socket _ _ _ => UdpSocket.sent socket
    | Talking ot s => outbox (ot, (tt, s))
    end;
  hear l c :=
    match c with
    | Asking socket remote_addr read_buffer continue =>
        Asking (socket_with socket (UdpSocket.arrivals socket ++ l)) remote_addr read_buffer continue
    | Talking ot s => let '(ot', (_, s')) := hear l (ot, (tt, s)) in Talking ot' s'
    end;
}.

End TFTPClient.

#[global] Instance client_laws {B} : PartyLaws (TFTPClient.t B).
Proof.
  split.
  - intros l [[arrs out sent] remote rb k|ot s] Hc; simpl in *; [by destruct arrs|].
    exact (idle_hear (P := Endpoint unit B) l (ot, (tt, s)) Hc).
  - intros l [[arrs out sent] remote rb k|ot s] Hc; simpl in *.
    + destruct arrs as [|[from payload|e|] arrs]; [done|..]; by unfold TFTPClient.answered; simpl.
    + pose proof (poll_hear (P := Endpoint unit B) l (ot, (tt, s)) Hc) as Hp. simpl in Hp.
      destruct (step_tree answer ot (tt, s)) as [ot' [[] s']]. simpl in *. by rewrite Hp.
  - intros [[arrs out sent] remote rb k|ot s]; simpl.
    + unfold TFTPClient.answered. simpl. by destruct arrs as [|[from payload|e|] arrs].
    + pose proof (outbox_poll (P := Endpoint unit B) (ot, (tt, s))) as Hp. simpl in Hp.
      by destruct (step_tree answer ot (tt, s)) as [ot' [[] s']].
  - by intros l [[arrs out sent] remote rb k|ot s].
  - intros l l' [[arrs out sent] remote rb k|ot s]; simpl.
    + unfold TFTPClient.socket_with. simpl. by rewrite app_assoc.
    + unfold with_arrivals, arrivals_of. simpl. by rewrite app_assoc.
  - intros [[arrs out sent] remote rb k|ot [[arrs out sent] peer]]; simpl;
      unfold TFTPClient.socket_with, with_arrivals, arrivals_of; simpl; by rewrite app_nil_r.
Qed.

Import TFTPClient.

(** What the client's task does once it has a stream. *)
Lemma talking_moves {B} (ot ot' : itree' sessionE B) s s' :
  rtc moves (ot, (tt, s)) (ot', (tt, s')) → rtc moves (Talking ot s) (Talking ot' s').
Proof.
  intros Hm. remember (ot, (tt, s)) as e eqn:He. remember (ot', (tt, s')) as e' eqn:He'. revert ot s He.
  induction Hm as [e|e e1 e' [Hi ->] Hm IH]; intros ot s ->; [by injection He' as -> ->|].
  destruct (poll (ot, (tt, s))) as [ot1 [[] s1]] eqn:E.
  eapply rtc_l; [|by apply (IH He' ot1 s1)]. split; [exact Hi|]. unfold poll, client_party. by rewrite E.
Qed.

Lemma posted_talking {B} (ot ot' : itree' sessionE B) peer arrs arrs' sent packets :
  posted (Talking ot (stream_of peer arrs sent)) (Talking ot' (stream_of peer arrs' (sent ++ packets))) =
  pair peer <$> packets.
Proof. exact (posted_stream ot ot' tt tt peer arrs arrs' sent packets). Qed.

(** ** What the client does with its buffers *)

Section calls.
Context (bs : nat) (data : list byte) (peer : SocketAddr).

Definition buffers_ok (b : Buffers) : Prop := length (read_buffer b) = BUFFER_SIZE ∧ 4 ≤ length (write_buffer b).

(** A block in the read buffer. *)
Definition holds_block (k : nat) (b : Buffers) : Prop := ∃ rest, read_buffer b = packet bs data k ++ rest.

Lemma length_packet k : length (packet bs data k) = 4 + length (block bs data k).
Proof. done. Qed.

Lemma check_code_packet k rest : check_code DATA (length (packet bs data k)) (packet bs data k ++ rest) = Ok tt.
Proof.
  unfold check_code. rewrite range_prefix by (rewrite length_app; lia). rewrite take_app_length.
  rewrite ReadCursor.extract_ushort_rest. reflexivity.
Qed.

Lemma block_data_packet k b : holds_block k b → block_data (length (packet bs data k)) b = Some (block bs data k).
Proof.
  intros [rest Hb]. unfold block_data. rewrite Hb, range_Some by (rewrite ?length_app, ?length_packet; lia).
  replace (length (packet bs data k) - 4) with (length (block bs data k)) by (rewrite length_packet; lia).
  change (drop 4 (packet bs data k ++ rest)) with (block bs data k ++ rest). by rewrite take_app_length.
Qed.

Lemma live_read_next k b arrs sent :
  buffers_ok b → 4 + bs ≤ BUFFER_SIZE →
  ∃ b', buffers_ok b' ∧ holds_block k b' ∧
    does live (read_next b) (tt, Some (stream_of peer (Datagram peer (packet bs data k) :: arrs) sent))
      (Ok (length (packet bs data k)), b') (tt, Some (stream_of peer arrs sent)).
Proof.
  intros [Hr Hw] Hbs.
  assert (length (packet bs data k) ≤ length (read_buffer b)) as Hfit.
  { rewrite length_packet, Hr. unfold block. rewrite length_take. lia. }
  pose proof (live_recv (F := unit) tt peer arrs sent (AckTimeout.mk 5) (read_buffer b) 4 (packet bs data k)) as Hd.
  rewrite receive_fits in Hd by done. cbn [fst snd] in Hd.
  set (rb := packet bs data k ++ _) in *. exists (mkBuffers rb (write_buffer b)). split; [|split].
  - split; [|done]. cbn [read_buffer]. unfold rb. rewrite length_app, length_drop. lia.
  - by eexists.
  - eapply does_bind; [apply Hd; [rewrite length_packet|rewrite Hr; unfold BUFFER_SIZE]; lia|]. cbv beta iota.
    unfold rb. rewrite check_code_packet. apply does_ret.
Qed.

Lemma live_send_ack number b arrs sent :
  buffers_ok b →
  ∃ b', buffers_ok b' ∧
    does live (send_ack number b) (tt, Some (stream_of peer arrs sent))
      (Ok tt, b') (tt, Some (stream_of peer arrs (sent ++ [ack_payload number []]))).
Proof.
  intros [Hr Hw]. destruct b as [rb wb]. simpl in *. unfold send_ack. simpl.
  rewrite WriteCursor.put_ushort_fits by (simpl; lia). simpl.
  rewrite WriteCursor.put_ushort_fits by (simpl; rewrite length_overwrite; simpl; lia). simpl.
  set (wb' := overwrite 2 _ _).
  assert (length wb' = length wb) as Hl by (unfold wb'; rewrite !length_overwrite; simpl; rewrite ?length_overwrite; simpl; lia).
  rewrite range_prefix by lia. exists (mkBuffers rb wb'). split; [split; simpl; [done|lia]|].
  eapply does_bind; [apply live_send|]. cbv beta.
  replace (take 4 wb') with (ack_payload number []); [apply does_ret|]. unfold wb'.
  rewrite (take_overwrite 2 [_; _]) by (rewrite ?length_overwrite; simpl; lia).
  rewrite (take_overwrite 0 [_; _]) by (simpl; lia). done.
Qed.

Lemma live_acknowledge k b arrs sent :
  buffers_ok b → holds_block k b →
  ∃ b', buffers_ok b' ∧
    does live (acknowledge_block b) (tt, Some (stream_of peer arrs sent))
      (Ok tt, b') (tt, Some (stream_of peer arrs (sent ++ [ack_payload (as_u16 (Z.of_nat k)) []]))).
Proof.
  intros Hok [rest Hb]. destruct (live_send_ack (as_u16 (Z.of_nat k)) b arrs sent Hok) as (b' & Hok' & Hd).
  exists b'. split; [done|]. unfold acknowledge_block. rewrite Hb. cbn.
  rewrite be_bytes_roundtrip by apply as_u16_range. eapply does_bind; [exact Hd|]. apply does_ret.
Qed.

End calls.

(** ** [download]: a block at a time *)

Section plain.
Context (data : list byte) (sa ca remote : SocketAddr) (Hip : ip sa = ip remote).

Abbreviation bs := default_block_size.
Abbreviation n := (n_blocks bs data).
Abbreviation loop := (ITree.iter download_round).
Abbreviation again := (λ lr, match lr with inl l => Tau (loop l) | inr r => Ret r end).

(** The client with [A] blocks: it waits for the first answer, for the next block, or is done. *)
Inductive plain_has : nat → TFTPClient.t (res DownloadError (list byte)) → Prop :=
| plain_asking rb wb :
    buffers_ok (mkBuffers rb wb) →
    plain_has 0 (Asking (UdpSocket.mk [] [] []) remote rb (download remote wb))
| plain_waiting A b acks :
    0 < A < n → buffers_ok b →
    plain_has A (Talking (observe (ITree.bind (after_ack (take (A * bs) data) bs b) again)) (stream_of sa [] acks))
| plain_done A s : A = n → plain_has A (Talking (RetF (Ok data)) s).

(** A block that has been read is kept and acknowledged. *)
Lemma plain_block A b acks :
  A < n → buffers_ok b → holds_block bs data (S A) b →
  ∃ ot s, s = stream_of sa [] (acks ++ [ack_payload (as_u16 (Z.of_nat (S A))) []]) ∧ plain_has (S A) (Talking ot s) ∧
    rtc moves (observe (loop (take (A * bs) data, length (packet bs data (S A)), b)), (tt, stream_of sa [] acks))
      (ot, (tt, s)).
Proof using All.
  intros HA Hok Hblock.
  destruct (live_acknowledge bs data sa (S A) b [] acks Hok Hblock) as (b' & Hok' & Hack).
  assert (0 < bs) as Hbs by (unfold bs; lia).
  pose proof (block_short bs data Hbs (S A) ltac:(lia) ltac:(lia)) as Hshort.
  pose proof (length_block bs data (S A) ltac:(lia)) as Hlen.
  assert (take (A * bs) data ++ block bs data (S A) = take (S A * bs) data) as Hdata.
  { unfold block. replace (S A - 1) with A by lia. replace (S A * bs) with (A * bs + bs) by lia. apply take_take_drop. }
  assert (rtc moves (observe (loop (take (A * bs) data, length (packet bs data (S A)), b)), (tt, stream_of sa [] acks))
    (observe (ITree.bind (after_ack (take (S A * bs) data) (length (block bs data (S A))) b') again),
     (tt, stream_of sa [] (acks ++ [ack_payload (as_u16 (Z.of_nat (S A))) []])))) as Hmoves.
  { change (observe (loop ?i)) with (observe (ITree.bind (download_round i) again)).
    eapply bind_moves. unfold download_round. rewrite block_data_packet by done.
    etrans; [apply does_moves; exact Hack|]. cbv beta iota. by rewrite Hdata. }
  destruct (decide (S A = n)) as [Hn|Hn].
  - exists (RetF (Ok data)). eexists. split; [reflexivity|]. split; [by apply plain_done|].
    unfold after_ack in Hmoves. destruct (Nat.eqb_spec (length (block bs data (S A))) bs); [apply Hshort in Hn; lia|].
    rewrite (take_ge data (S A * bs)) in Hmoves by (rewrite Hn; by apply Nat.lt_le_incl, n_blocks_bound).
    exact Hmoves.
  - assert (length (block bs data (S A)) = bs) as Hfull.
    { destruct (decide (length (block bs data (S A)) < bs)) as [Hlt|]; [by apply Hshort in Hlt|lia]. }
    rewrite Hfull in Hmoves. eexists _, _. split; [reflexivity|]. split; [|exact Hmoves].
    apply plain_waiting; [lia|done].
Qed.

Lemma plain_takes_windows : takes_windows bs 1 data sa ca plain_has.
Proof using All.
  intros A q Hq HA R. replace R with (S A) by lia. replace (S A - A) with 1 by lia. cbn [seq fmap list_fmap].
  destruct Hq as [rb wb [Hrb Hwb]|A b acks HA' Hok|A s ->]; [| |lia].
  - set (p := packet bs data 1). cbn [read_buffer write_buffer] in Hrb, Hwb.
    assert (length p ≤ length rb) as Hfit.
    { unfold p. rewrite length_packet, Hrb. unfold block, bs. rewrite length_take. unfold BUFFER_SIZE. lia. }
    set (b := mkBuffers (p ++ drop (length p) rb) wb).
    assert (buffers_ok b) as Hb by (split; [unfold b; cbn [read_buffer]; rewrite length_app, length_drop; lia|done]).
    destruct (plain_block 0 b [] HA Hb) as (ot & s & -> & Hhas & Hmoves); [by eexists|].
    eexists. split; [exact Hhas|]. split.
    + eapply rtc_l; [split; [done|reflexivity]|]. unfold poll, hear, client_party, answered.
      cbn [socket_with UdpSocket.arrivals UdpSocket.outcomes UdpSocket.sent app].
      rewrite receive_fits by done. apply talking_moves. unfold download, first_answer.
      rewrite decide_True by done. subst p. rewrite check_code_packet. exact Hmoves.
    + exact (mail_to ca sa [ack_payload (as_u16 (Z.of_nat 1)) []]).
  - destruct (live_read_next bs data sa (S A) b [] acks Hok) as (b' & Hok' & Hblock & Hnext);
      [unfold bs, BUFFER_SIZE; lia|].
    destruct (plain_block A b' acks ltac:(lia) Hok' Hblock) as (ot & s & -> & Hhas & Hmoves).
    eexists. split; [exact Hhas|]. split.
    + apply talking_moves. etrans; [|exact Hmoves]. apply (iter_moves download_round).
      unfold after_ack. rewrite Nat.eqb_refl. eapply does_bind; [exact Hnext|]. apply does_ret.
    + by rewrite posted_talking, mail_to.
Qed.

End plain.

(** ** [download_window]: a window at a time *)

Section windowed.
Context (w : nat) (data : list byte) (sa ca : SocketAddr).
Context (Hw : 0 < w) (Hw16 : (Z.of_nat w < 65536)%Z).

Abbreviation bs := default_block_size.
Abbreviation n := (n_blocks bs data).
Abbreviation loop := (ITree.iter (window_round (Z.of_nat w))).

(** The buffers the next read goes to. *)
Definition current (s : WindowState) : option Buffers :=
  match last_block s with Some (_, b) => Some b | None => sent_ack s end.

Lemma window_blocks_live m : ∀ A rounds s b acks,
  current s = Some b → buffers_ok b → read_so_far s = take (A * bs) data →
  0 < m ≤ rounds → A + m ≤ n → m = rounds ∨ A + m = n →
  ∃ s' k b', last_block s' = Some (k, b') ∧ buffers_ok b' ∧ holds_block bs data (A + m) b' ∧
    read_so_far s' = take ((A + m) * bs) data ∧ done s' = bool_decide (A + m = n) ∧
    does live (window_blocks rounds s)
      (tt, Some (stream_of sa (Datagram sa <$> (packet bs data <$> seq (S A) m)) acks))
      (Ok s') (tt, Some (stream_of sa [] acks)).
Proof using All.
  induction m as [|m IH]; intros A [|rounds] s b acks Hcur Hok Hread Hm HA Hend; try lia.
  assert (0 < bs) as Hbs by (unfold bs; lia).
  pose proof (block_short bs data Hbs (S A) ltac:(lia) ltac:(lia)) as Hshort.
  destruct (live_read_next bs data sa (S A) b (Datagram sa <$> (packet bs data <$> seq (S (S A)) m)) acks Hok)
    as (b' & Hok' & Hblock & Hnext); [unfold bs, BUFFER_SIZE; lia|].
  pose proof (block_data_packet bs data (S A) b' Hblock) as Hdata.
  assert (read_so_far s ++ block bs data (S A) = take (S A * bs) data) as Hmore.
  { rewrite Hread. unfold block. replace (S A - 1) with A by lia. replace (S A * bs) with (A * bs + bs) by lia.
    apply take_take_drop. }
  set (ack' := match last_block s with Some _ => sent_ack s | None => None end).
  set (s' := mkWindowState ack' (Some (length (packet bs data (S A)), b')) (take (S A * bs) data)
               (bool_decide (S A = n))).
  assert ((length (block bs data (S A)) <? bs) = bool_decide (S A = n)) as Hlast.
  { destruct (decide (S A = n)) as [E|E].
    - rewrite bool_decide_eq_true_2 by done. apply Nat.ltb_lt. by apply Hshort.
    - rewrite bool_decide_eq_false_2 by done. apply Nat.ltb_ge.
      destruct (decide (length (block bs data (S A)) < bs)) as [Hs|]; [by apply Hshort in Hs|lia]. }
  assert (∀ r st, does live (if done s' then Ret (Ok s') else window_blocks rounds s') (tt, Some (stream_of sa
      (Datagram sa <$> (packet bs data <$> seq (S (S A)) m)) acks)) r st →
    does live (window_blocks (S rounds) s)
      (tt, Some (stream_of sa (Datagram sa <$> (packet bs data <$> seq (S A) (S m))) acks)) r st) as Hstep.
  { intros r st Hd. cbn [window_blocks]. unfold current in Hcur. subst s' ack'.
    destruct (last_block s) as [[k0 b0]|]; [injection Hcur as ->|rewrite Hcur];
      (eapply does_bind; [exact Hnext|]; cbv beta iota zeta; rewrite Hdata, Hmore, Hlast; exact Hd). }
  rewrite <- Nat.add_succ_comm.
  destruct (decide (m = 0)) as [->|Hne].
  - rewrite Nat.add_0_r. exists s', (length (packet bs data (S A))), b'. do 5 (split; [done|]). apply Hstep.
    destruct (done s') eqn:Hdone; [apply does_ret|]. subst s'. simpl in Hdone. apply bool_decide_eq_false in Hdone.
    replace rounds with 0 by lia. apply does_ret.
  - destruct (IH (S A) rounds s' b' acks) as (s2 & k & b2 & Hl & Hok2 & Hb2 & Hr2 & Hd2 & Hdoes); [done..|lia|lia|lia|].
    exists s2, k, b2. do 5 (split; [done|]). apply Hstep.
    replace (done s') with false by (subst s'; cbn [done]; rewrite bool_decide_eq_false_2; [done|lia]). exact Hdoes.
Qed.

(** The client with [A] blocks, at the head of its loop. *)
Definition window_has (A : nat) (q : TFTPClient.t (res DownloadError (list byte))) : Prop :=
  ∃ b acks, buffers_ok b ∧
    q = Talking (observe (loop (mkWindowState (Some b) None (take (A * bs) data) (bool_decide (A = n)))))
          (stream_of sa [] acks).

Lemma window_takes_windows : takes_windows bs w data sa ca window_has.
Proof using All.
  intros A q (b & acks & Hok & ->) HA R.
  rewrite (bool_decide_eq_false_2 (A = n)) by lia.
  set (s := mkWindowState _ _ _ _).
  destruct (window_blocks_live (R - A) A w s b acks) as (s' & k & b' & Hl & Hok' & Hblock & Hr & Hdone & Hd);
    [done|done|done|lia..|].
  replace (A + (R - A)) with R in * by lia.
  destruct (live_acknowledge bs data sa R b' [] acks Hok' Hblock) as (b2 & Hok2 & Hack).
  eexists. split; [exists b2, (acks ++ [ack_payload (as_u16 (Z.of_nat R)) []]); split; [done|reflexivity]|]. split.
  - apply talking_moves. change (observe (loop s)) with (observe (ITree.bind (window_round (Z.of_nat w) s)
      (λ lr, match lr with inl l => Tau (loop l) | inr r => Ret r end))).
    apply (iter_moves (window_round (Z.of_nat w))). unfold window_round.
    rewrite Nat2Z.id. unfold s at 1. cbn [done]. eapply does_bind; [exact Hd|]. cbv beta iota. rewrite Hl.
    eapply does_bind; [exact Hack|]. cbv beta iota. rewrite Hr, Hdone. apply does_ret.
  - by rewrite posted_talking, mail_to.
Qed.

Lemma window_done q : window_has n q → ∃ s, q = Talking (RetF (Ok data)) s.
Proof using Type.
  clear Hw Hw16.
  intros (b & acks & _ & ->). rewrite bool_decide_eq_true_2 by done.
  rewrite take_ge by (apply Nat.lt_le_incl, n_blocks_bound; unfold bs; lia). by eexists.
Qed.

End windowed.

(** ** The server's negotiation *)

Section negotiation.
Context {F : Type} `{OpenedFileSpec F} (debug : bool) (ca : SocketAddr).

Lemma handed_over (o : options_map) :
  as_u16 (Blksize.get_size (default Blksize.default (Blksize.find_in o))) = Z.of_nat (granted_block_size o) ∧
  as_u16 (WindowSize.get_size (default WindowSize.default (WindowSize.find_in o))) = Z.of_nat (granted_window_size o).
Proof. split; [apply granted_block_size_bounds|apply granted_window_size_bounds]. Qed.

(** What the task goes on with when the options are settled. *)
Definition sends (o : options_map) (b : list byte) : itree sessionE (res Empty_set unit * list byte) :=
  await! (sent, t) :=
    send_file_task debug (Window.new (Z.of_nat (granted_block_size o)) (Z.of_nat (granted_window_size o)))
      (granted_timeout o) b in
  match sent with
  | Ok _ => Ret (Ok tt, l_buffer t)
  | Err tftp_error => fire_error_task tftp_error (l_buffer t)
  | Stop h => Ret (Stop h, l_buffer t)
  end.

(** The first OACK goes out; its acknowledgement ends [oack_attempts_task]. *)
Lemma oack_answered m size a (f : F) sent b bytes :
  range 0 size b = Some bytes → 4 ≤ length b →
  ∃ waiting b', length b' = length b ∧
    rtc moves (observe (oack_attempts_task (S m) size a b), (f, stream_of ca [] sent))
      (observe waiting, (f, stream_of ca [] (sent ++ [bytes]))) ∧
    rtc moves (observe waiting, (f, stream_of ca [Datagram ca (ack_payload 0 [])] (sent ++ [bytes])))
      (observe (Ret (Ok tt, b')), (f, stream_of ca [] (sent ++ [bytes]))).
Proof.
  intros Hrange Hb. destruct (live_ack a ca f 0 (sent ++ [bytes]) b) as (b' & Hl & Hack); [by split|done|].
  eexists _, b'. split; [done|]. split.
  - cbn [oack_attempts_task]. rewrite Hrange. apply does_moves. apply live_send.
  - cbv beta iota. etrans; [apply does_moves; exact Hack|]. reflexivity.
Qed.

(** With options to acknowledge the OACK goes first, and the client's answer to it is awaited. *)
Lemma session_offers (f : F) o n :
  readable f → fresh f → 128 ≤ n → OptionsAcknowledge.has_options (oack_of o (remaining f)) = true →
  let oack := OptionsAcknowledge.wire (oack_of o (remaining f)) in
  ∃ f' waiting b, remaining f' = remaining f ∧ readable f' ∧ 4 ≤ length b ∧
    rtc moves (observe (send_task debug o (replicate n zero)), (f, stream_of ca [] []))
      (observe waiting, (f', stream_of ca [] [oack])) ∧
    rtc moves (observe waiting, (f', stream_of ca [Datagram ca (ack_payload 0 [])] [oack]))
      (observe (sends o b), (f', stream_of ca [] [oack])).
Proof.
  intros Hr Hf Hn Hh oack. unfold send_task, negotiate_task.
  destruct (collect_options_spec f o Hr Hf) as (f' & Hc & Hrem & Hr'). fold (oack_of o (remaining f)) in Hc.
  pose proof (collect_options_does live f f' (Some (stream_of ca [] [])) o _ Hc) as Hd.
  destruct (OptionsAcknowledge.oack_serialize_zeroed (oack_of o (remaining f)) n) as (b0 & Hs & Hb0 & Hw).
  { pose proof (length_offered (Z.of_nat (length (remaining f))) o). unfold oack_of. lia. }
  { unfold OptionsAcknowledge.has_options in Hh. by destruct (OptionsAcknowledge.options (oack_of o (remaining f))). }
  fold oack in Hs, Hw.
  destruct (oack_answered 4 (length oack) (granted_timeout o) f' [] b0 oack) as (waiting & b & Hb & Hout & Hin);
    [rewrite range_prefix, Hw; [done|]|lia|].
  { apply (f_equal length) in Hw. rewrite length_take in Hw. lia. }
  eexists f', _, b. split; [done|]. split; [done|]. split; [lia|]. split.
  - eapply bind_moves. etrans; [apply does_moves; exact Hd|]. cbv beta iota zeta.
    rewrite Hh. eapply bind_moves. unfold send_oack_task. rewrite Hs. exact Hout.
  - etrans; [apply bind_moves, bind_moves; exact Hin|]. cbv beta iota.
    destruct (handed_over o) as [-> ->]. reflexivity.
Qed.

(** Without options the blocks come at once. *)
Lemma session_plain (f : F) o n :
  readable f → fresh f → OptionsAcknowledge.has_options (oack_of o (remaining f)) = false →
  ∃ f', remaining f' = remaining f ∧ readable f' ∧
    rtc moves (observe (send_task debug o (replicate n zero)), (f, stream_of ca [] []))
      (observe (sends o (replicate n zero)), (f', stream_of ca [] [])).
Proof.
  intros Hr Hf Hh. unfold send_task, negotiate_task.
  destruct (collect_options_spec f o Hr Hf) as (f' & Hc & Hrem & Hr'). fold (oack_of o (remaining f)) in Hc.
  pose proof (collect_options_does live f f' (Some (stream_of ca [] [])) o _ Hc) as Hd.
  exists f'. split; [done|]. split; [done|].
  etrans; [apply bind_moves; etrans; [apply does_moves; exact Hd|]; cbv beta iota zeta; rewrite Hh; reflexivity|].
  cbv beta iota. destruct (handed_over o) as [-> ->]. reflexivity.
Qed.

End negotiation.

(** ** The request and the OACK *)

Lemma put_options_wire opts : ∀ size c,
  WriteCursor.clean c → WriteCursor.offset c = size →
  size + length (ReadRequest.options_wire opts) < length (WriteCursor.buffer c) →
  ∃ c', put_options opts size c = (Ok (WriteCursor.offset c'), c') ∧
    WriteCursor.offset c' = size + length (ReadRequest.options_wire opts) ∧
    length (WriteCursor.buffer c') = length (WriteCursor.buffer c) ∧
    WriteCursor.written c' = WriteCursor.written c ++ ReadRequest.options_wire opts.
Proof.
  induction opts as [|[k v] opts IH]; intros size c Hc Ho Hfit.
  - exists c. cbn [put_options]. rewrite app_nil_r, <- Ho. simpl. by rewrite Nat.add_0_r.
  - simpl in *. unfold ReadRequest.zstring in *. rewrite !length_app in *. simpl in *.
    destruct (WriteCursor.put_string_clean c Hc ltac:(lia) k) as (c1 & -> & Hc1 & Ho1 & Hl1 & Hw1); [lia|].
    cbn [unwrap]. destruct (WriteCursor.put_string_clean c1 Hc1) with (s := v) as (c2 & -> & Hc2 & Ho2 & Hl2 & Hw2); [lia..|].
    cbn [unwrap]. destruct (IH (WriteCursor.offset c1 + length v + 1) c2) as (c3 & -> & Ho3 & Hl3 & Hw3); [done|lia..|].
    exists c3. split; [done|]. split; [lia|]. split; [lia|]. by rewrite Hw3, Hw2, Hw1, <- !app_assoc.
Qed.

(** The datagram is that of RFC 1350. *)
Lemma read_request_wire file_name opts :
  length (ReadRequest.wire file_name OCTET opts) < BUFFER_SIZE →
  ∃ wb, length wb = BUFFER_SIZE ∧
    read_request file_name opts = Ok (ReadRequest.wire file_name OCTET opts, wb).
Proof.
  intros Hfit. unfold read_request, make_read_request. set (c := WriteCursor.new _).
  assert (length (WriteCursor.buffer c) = BUFFER_SIZE) as Hlen by apply length_replicate.
  set (wire := ReadRequest.wire _ _ _) in *.
  assert (length wire = 2 + (length file_name + 1) + 6 + length (ReadRequest.options_wire opts)) as Hwire.
  { unfold wire, ReadRequest.wire, ReadRequest.zstring. rewrite !length_app. simpl. lia. }
  destruct (WriteCursor.put_ushort_clean c) with (v := RRQ) as (c1 & -> & Hc1 & Ho1 & Hl1 & Hw1);
    [unfold WriteCursor.clean; by rewrite Hlen|simpl; lia|simpl; lia|]. cbn [unwrap].
  destruct (WriteCursor.put_string_clean c1 Hc1) with (s := file_name) as (c2 & -> & Hc2 & Ho2 & Hl2 & Hw2);
    [simpl in *; lia..|]. cbn [unwrap].
  destruct (WriteCursor.put_string_clean c2 Hc2) with (s := str "octet") as (c3 & -> & Hc3 & Ho3 & Hl3 & Hw3);
    [simpl in *; lia..|]. cbn [unwrap].
  change (length (str "octet")) with 5 in *. simpl in Ho1.
  destruct (put_options_wire opts (WriteCursor.offset c2 + 5 + 1) c3) as (c4 & -> & Ho4 & Hl4 & Hw4);
    [done|lia|lia|].
  exists (WriteCursor.buffer c4). split; [lia|].
  rewrite range_prefix by lia. do 3 f_equal.
  change (take (WriteCursor.offset c4) (WriteCursor.buffer c4)) with (WriteCursor.written c4).
  rewrite Hw4, Hw3, Hw2, Hw1. unfold wire, ReadRequest.wire, ReadRequest.zstring, OCTET.
  simpl. by rewrite <- !app_assoc.
Qed.

Lemma fields_loop_complete opts : ∀ fuel c m,
  Forall (λ kv, ReadRequest.wire_string kv.1 ∧ ReadRequest.wire_string kv.2) opts →
  ReadCursor.rest c = ReadRequest.options_wire opts → length opts < fuel →
  fields_loop fuel c m = Ok (foldl ReadRequest.insert_option m opts).
Proof.
  induction opts as [|[k v] opts IH]; intros [|fuel] c m Hwf Hr Hf; simpl in *; try lia.
  - by rewrite (proj2 (ReadRequest.extract_string_eof c c)) by done.
  - apply Forall_cons in Hwf as [[Hk Hv] Hwf]. rewrite <- app_assoc in Hr.
    destruct (ReadRequest.extract_zstring _ _ _ Hk Hr) as (c1 & -> & Hr1 & _).
    destruct (ReadRequest.extract_zstring _ _ _ Hv Hr1) as (c2 & -> & Hr2 & _).
    apply IH; [done..|lia].
Qed.

(** The client reads in the OACK what the server has put there. *)
Lemma fields_of_oack oack rest wb :
  Forall (λ kv, ReadRequest.wire_string kv.1 ∧ ReadRequest.wire_string kv.2) (OptionsAcknowledge.options oack) →
  fields (length (OptionsAcknowledge.wire oack)) (mkBuffers (OptionsAcknowledge.wire oack ++ rest) wb) =
  Ok (ReadRequest.options_of (OptionsAcknowledge.options oack)).
Proof.
  intros Hwf. unfold fields. cbn [read_buffer]. set (opts := OptionsAcknowledge.options oack).
  assert (length (OptionsAcknowledge.wire oack) = 2 + length (ReadRequest.options_wire opts)) as Hlen
    by (unfold OptionsAcknowledge.wire; by rewrite length_app).
  rewrite range_Some by (rewrite ?length_app; lia). rewrite Hlen.
  replace (2 + length _ - 2) with (length (ReadRequest.options_wire opts)) by lia.
  change (drop 2 (OptionsAcknowledge.wire oack ++ rest)) with (ReadRequest.options_wire opts ++ rest).
  rewrite take_app_length. apply fields_loop_complete; [done|unfold ReadCursor.rest; simpl; by rewrite drop_0|].
  pose proof (ReadRequest.options_wire_length opts). lia.
Qed.

(** ** The client's half of the negotiation *)

Section window_asked.
Context (w : nat) (Hw : 0 < w) (Hw16 : (Z.of_nat w < 65536)%Z).

(** The one option of [download_window]. *)
Definition window_options : list (rstring * rstring) := [(WINDOW_SIZE, to_string (Z.of_nat w))].

Abbreviation o := (ReadRequest.options_of window_options).

Lemma window_options_wire :
  Forall (λ kv, ReadRequest.wire_string kv.1 ∧ ReadRequest.wire_string kv.2) window_options.
Proof using Hw.
  apply Forall_singleton. split; (split; cbn [fst snd]).
  - by apply (bool_decide_unpack _).
  - done.
  - apply to_string_nul_free. lia.
  - apply ascii_utf8, to_string_ascii. lia.
Qed.

(** The server grants the window, and nothing else. *)
Lemma window_granted :
  granted_block_size o = default_block_size ∧ granted_window_size o = w ∧
  ∀ size, offered size o = window_options.
Proof using Hw Hw16.
  assert (WindowSize.find_in o = Some (WindowSize.mk (Z.of_nat w))) as Hfind.
  { rewrite WindowSize_find_capped. unfold o, window_options, ReadRequest.options_of. cbn [foldl].
    unfold ReadRequest.insert_option. cbn [fst snd]. change WINDOW_SIZE with Options.WINDOW_SIZE.
    rewrite find_capped_insert; [done|unfold WINDOW_SIZE_BOTTOM_CAP, WINDOW_SIZE_UPPER_CAP, u16_max; lia|unfold usize_max; lia]. }
  assert (∀ k, k ≠ WINDOW_SIZE → o !! k = None) as Hnone.
  { intros k Hk. unfold o, window_options, ReadRequest.options_of. cbn [foldl].
    unfold ReadRequest.insert_option. cbn [fst snd]. rewrite lookup_insert_ne by done. apply lookup_empty. }
  unfold granted_block_size, granted_window_size, offered. rewrite Hfind.
  rewrite Blksize_find_capped, AckTimeout_find_capped.
  unfold TSize.is_requested. rewrite !find_capped_absent, Hnone by (apply Hnone; done) || done.
  split; [done|]. split; [simpl; lia|done].
Qed.

Lemma window_checked : check_window (Z.of_nat w) (ReadRequest.options_of window_options) = Ok tt.
Proof using Hw Hw16.
  unfold check_window, window_options, ReadRequest.options_of. cbn [foldl].
  unfold ReadRequest.insert_option. cbn [fst snd]. rewrite lookup_insert_eq. unfold parse_u16.
  rewrite parse_to_string by (unfold usize_max; lia). simpl. unfold u16_max.
  destruct (Z.leb_spec (Z.of_nat w) 65535); [|lia]. by rewrite Z.eqb_refl.
Qed.

Context (data : list byte) (sa ca remote : SocketAddr) (Hip : ip sa = ip remote).

(** The OACK is read, found to be as asked for, and acknowledged with number zero. *)
Lemma window_answers rb wb :
  buffers_ok (mkBuffers rb wb) →
  let q := Asking (UdpSocket.mk [] [] []) remote rb (download_window (Z.of_nat w) remote wb) in
  let oack := OptionsAcknowledge.wire (OptionsAcknowledge.mk window_options) in
  ∃ q', window_has w data sa 0 q' ∧ rtc moves (hear [Datagram sa oack] q) q' ∧
    mail ca sa (posted q q') = [Datagram ca (ack_payload 0 [])].
Proof using All.
  intros [Hrb Hwb] q oack. cbn [read_buffer write_buffer] in Hrb, Hwb.
  assert (length oack ≤ 119) as Hlen.
  { destruct window_granted as (_ & _ & Hoff). unfold oack. rewrite <- (Hoff 0%Z). apply length_offered. }
  assert (length oack ≤ length rb) as Hfit by (rewrite Hrb; unfold BUFFER_SIZE; lia).
  set (b := mkBuffers (oack ++ drop (length oack) rb) wb).
  assert (buffers_ok b) as Hb by (split; [unfold b; cbn [read_buffer]; rewrite length_app, length_drop; lia|done]).
  destruct (live_send_ack sa 0 b [] [] Hb) as (b' & Hb' & Hack).
  eexists. split; [exists b', [ack_payload 0 []]; split; [done|reflexivity]|]. split.
  - eapply rtc_l; [split; [done|reflexivity]|]. unfold poll, hear, client_party, answered, q.
    cbn [socket_with UdpSocket.arrivals UdpSocket.outcomes UdpSocket.sent app].
    rewrite receive_fits by done. apply talking_moves. unfold download_window, first_answer.
    rewrite decide_True by done.
    assert (check_code OACK (length oack) (oack ++ drop (length oack) rb) = Ok tt) as ->.
    { unfold check_code. rewrite range_prefix by (rewrite length_app; lia). rewrite take_app_length.
      rewrite ReadCursor.extract_ushort_rest. reflexivity. }
    cbv beta iota zeta. fold b. unfold b, oack at 1. rewrite (fields_of_oack (OptionsAcknowledge.mk window_options)) by (by apply window_options_wire).
    cbn [OptionsAcknowledge.options]. rewrite window_checked.
    rewrite bool_decide_eq_false_2 by (unfold n_blocks; lia).
    etrans; [apply does_moves; eapply does_bind; [exact Hack|apply does_ret]|]. reflexivity.
  - exact (mail_to ca sa [ack_payload 0 []]).
Qed.

End window_asked.

(** ** Whole sessions *)

(** The client has sent the request it writes, and the server has parsed it and spawned the
    session's task: that of [AsyncSession], with a buffer of [size] bytes. *)
Definition after_request {F B} (debug : bool) (f : F) (size : nat) (ca remote : SocketAddr) (file_name : rstring)
    (options : list (rstring * rstring)) (continue : list byte → received → list byte → itree sessionE B)
  : option (Joined (Endpoint F (res Empty_set unit * list byte)) (TFTPClient.t B)) :=
  match read_request file_name options with
  | Ok (datagram, write_buffer) =>
      match ReadRequest.parse datagram with
      | Ok r =>
          Some (mkJoined
            (observe (send_task debug (ReadRequest.yield_options r) (replicate size zero)), (f, stream_of ca [] []))
            (Asking (UdpSocket.mk [] [] []) remote (replicate BUFFER_SIZE zero) (continue write_buffer)))
      | _ => None
      end
  | _ => None
  end.

(** A request without options is served as RFC 1350 has it. *)
Lemma nothing_asked data :
  OptionsAcknowledge.has_options (oack_of ∅ data) = false ∧ granted_block_size ∅ = 512 ∧ granted_window_size ∅ = 1.
Proof.
  unfold oack_of, offered, granted_block_size, granted_window_size, TSize.is_requested.
  rewrite Blksize_find_capped, AckTimeout_find_capped, WindowSize_find_capped, !find_capped_absent by apply lookup_empty.
  by rewrite lookup_empty.
Qed.

Section session.
Context {F : Type} `{OpenedFileSpec F} (debug : bool) (sa ca : SocketAddr).

(** The request reaches the server as it was meant, and leaves the client with its buffers. *)
Lemma request_understood {B} (f : F) size remote file_name opts
    (continue : list byte → received → list byte → itree sessionE B) :
  ReadRequest.wire_string file_name →
  Forall (λ kv, ReadRequest.wire_string kv.1 ∧ ReadRequest.wire_string kv.2) opts →
  length (ReadRequest.wire file_name OCTET opts) < BUFFER_SIZE →
  ∃ wb, buffers_ok (mkBuffers (replicate BUFFER_SIZE zero) wb) ∧
    after_request debug f size ca remote file_name opts continue =
    Some (mkJoined
      (observe (send_task debug (ReadRequest.options_of opts) (replicate size zero)), (f, stream_of ca [] []))
      (Asking (UdpSocket.mk [] [] []) remote (replicate BUFFER_SIZE zero) (continue wb))).
Proof.
  intros Hname Hopts Hfit. destruct (read_request_wire file_name opts Hfit) as (wb & Hwb & Hreq).
  exists wb. split; [split; [apply length_replicate|simpl; rewrite Hwb; unfold BUFFER_SIZE; lia]|].
  unfold after_request. by rewrite Hreq, ReadRequest.parse_complete.
Qed.

(** From where the options are settled. *)
Lemma session_completes {B} `{P : PartyLaws B} (has : nat → B → Prop) (f : F) o b q sent :
  let bs := granted_block_size o in
  let data := remaining f in
  let n := n_blocks bs data in
  takes_windows bs (granted_window_size o) data sa ca has →
  granted_window_size o = 1 ∨ (Z.of_nat n < 65536)%Z →
  readable f → 4 ≤ length b → has 0 q →
  ∃ b' f' q', has n q' ∧
    rtc (join_step sa ca) (mkJoined (observe (sends debug o b), (f, stream_of ca [] sent)) q)
      (mkJoined (RetF (Ok tt, b'), (f', stream_of ca [] (sent ++ (packet bs data <$> seq 1 n)))) q').
Proof.
  intros bs data n Hclient Hroll Hr Hb Hq.
  destruct (granted_block_size_bounds o) as (Hbs & Hbs16 & _), (granted_window_size_bounds o) as (Hw & Hw16 & _).
  destruct (transfer_completes bs (granted_window_size o) data Hbs Hbs16 Hw Hw16 debug (granted_timeout o) sa ca
    (λ t, observe (ITree.bind t (λ '(sent, t'), match sent with
       | Ok _ => Ret (Ok tt, l_buffer t')
       | Err tftp_error => fire_error_task tftp_error (l_buffer t')
       | Stop h => Ret (Stop h, l_buffer t')
       end))) (λ t t' st st' Hm, bind_moves _ t t' st st' Hm) has Hclient Hroll f b q sent)
    as (t & f' & q' & Hq' & _ & Hsteps); [done..|].
  exists (l_buffer t), f', q'. split; [done|]. exact Hsteps.
Qed.

(** C22: [download] of the integration tests' client gets every file.  The request it writes
    is the one the server parses; from there on, whatever the order in which the two tasks
    take their turns, both come to their end, always in the same state: the server's task has
    returned, having sent each block of 512 bytes once and in order, and the client has
    returned the content of the file, of any length and any number of blocks. *)
Theorem interop_download (f : F) (size : nat) (remote : SocketAddr) (file_name : rstring) :
  ReadRequest.wire_string file_name → length file_name < 1527 → ip sa = ip remote →
  readable f → fresh f → 128 ≤ size →
  ∃ start final,
    after_request debug f size ca remote file_name [] (download remote) = Some start ∧
    always_ends sa ca start final ∧
    (∃ b, (server final).1 = RetF (Ok tt, b)) ∧ (∃ s, client final = Talking (RetF (Ok (remaining f))) s) ∧
    sent_by (server final).2.2 = packet 512 (remaining f) <$> seq 1 (n_blocks 512 (remaining f)).
Proof.
  intros Hname Hlen Hip Hr Hf Hsize.
  destruct (request_understood f size remote file_name [] (download remote)) as (wb & Hb & Hstart); [done|done| |].
  { unfold ReadRequest.wire, ReadRequest.zstring. rewrite !length_app. unfold BUFFER_SIZE. simpl. lia. }
  destruct (nothing_asked (remaining f)) as (Hno & Hbs & Hws).
  destruct (session_plain debug ca f ∅ size Hr Hf Hno) as (f1 & Hrem & Hr1 & Hplain).
  destruct (session_completes (plain_has (remaining f1) sa remote) f1 ∅ (replicate size zero)
    (Asking (UdpSocket.mk [] [] []) remote (replicate BUFFER_SIZE zero) (download remote wb)) [])
    as (b' & f2 & q' & Hq' & Hsteps);
    [rewrite Hbs, Hws; exact (plain_takes_windows _ sa ca remote Hip)|by left|done|rewrite length_replicate; lia|by constructor|].
  rewrite Hbs, Hrem in *. inversion Hq' as [|A b acks HA|A s HA]; subst; [unfold n_blocks in *; lia|unfold default_block_size in *; lia|].
  eexists _, (mkJoined (RetF (Ok tt, b'), (f2, stream_of ca [] _)) (Talking (RetF (Ok (remaining f))) s)).
  split; [exact Hstart|]. split.
  2: split; [by exists b'|split; [by exists s|apply sent_by_stream_of]].
  apply schedules_end; [|done|done]. etrans; [|exact Hsteps].
  etrans; [apply server_moves; exact Hplain|]. reflexivity.
Qed.

(** C5: [download_window] of the integration tests' client gets every file of fewer than
    65536 blocks, or any file with a window of one.  The request it writes, with its option,
    is the one the server parses; the OACK it gets back grants the window it asked for, passes
    its checks and is acknowledged; and, whatever the order in which the two tasks take their
    turns, both come to their end, always in the same state: the server has sent the OACK and
    each block once and in order, and the client has returned the content of the file. *)
Theorem interop_download_window (f : F) (size w : nat) (remote : SocketAddr) (file_name : rstring) :
  0 < w → (Z.of_nat w < 65536)%Z →
  ReadRequest.wire_string file_name → length file_name < 1495 → ip sa = ip remote →
  readable f → fresh f → 128 ≤ size → w = 1 ∨ (Z.of_nat (n_blocks 512 (remaining f)) < 65536)%Z →
  ∃ start final,
    after_request debug f size ca remote file_name (window_options w) (download_window (Z.of_nat w) remote) =
      Some start ∧
    always_ends sa ca start final ∧
    (∃ b, (server final).1 = RetF (Ok tt, b)) ∧ (∃ s, client final = Talking (RetF (Ok (remaining f))) s) ∧
    sent_by (server final).2.2 =
      OptionsAcknowledge.wire (OptionsAcknowledge.mk (window_options w)) ::
      (packet 512 (remaining f) <$> seq 1 (n_blocks 512 (remaining f))).
Proof.
  intros Hw Hw16 Hname Hlen Hip Hr Hf Hsize Hroll.
  destruct (request_understood f size remote file_name (window_options w) (download_window (Z.of_nat w) remote))
    as (wb & Hb & Hstart); [done|by apply window_options_wire| |].
  { unfold ReadRequest.wire, window_options, ReadRequest.zstring. pose proof (length_to_string (Z.of_nat w)).
    simpl. unfold ReadRequest.zstring. rewrite !length_app. unfold BUFFER_SIZE. simpl. rewrite !length_app. simpl. lia. }
  set (o := ReadRequest.options_of (window_options w)) in *.
  destruct (window_granted w Hw Hw16) as (Hbs & Hws & Hoff). fold o in Hbs, Hws, Hoff.
  assert (oack_of o (remaining f) = OptionsAcknowledge.mk (window_options w)) as Hoack by (unfold oack_of; by rewrite Hoff).
  destruct (session_offers debug ca f o size Hr Hf Hsize) as (f1 & waiting & b & Hrem & Hr1 & Hb1 & Hout & Hin);
    [by rewrite Hoack|]. rewrite Hoack in Hout, Hin.
  destruct (window_answers w Hw Hw16 (remaining f1) sa ca remote Hip (replicate BUFFER_SIZE zero) wb Hb)
    as (q1 & Hq1 & Hopen & Hmail).
  set (q0 := Asking _ remote _ _) in *. set (oack := OptionsAcknowledge.wire _) in *.
  destruct (session_completes (window_has w (remaining f1) sa) f1 o b q1 [oack]) as (b' & f2 & q' & Hq' & Hsteps);
    [rewrite Hbs, Hws; by apply window_takes_windows|rewrite Hbs, Hws, Hrem; exact Hroll|done..|].
  rewrite Hbs in *. apply window_done in Hq' as [s ->]. rewrite Hrem in *.
  eexists _, (mkJoined (RetF (Ok tt, b'), (f2, stream_of ca [] _)) (Talking (RetF (Ok (remaining f))) s)).
  split; [exact Hstart|]. split.
  2: split; [by exists b'|split; [by exists s|apply sent_by_stream_of]].
  apply schedules_end; [|done|done]. etrans; [|exact Hsteps].
  etrans; [apply server_moves; exact Hout|].
  replace (mail sa ca (posted _ _)) with [Datagram sa oack] by (symmetry; exact (mail_to sa ca [oack])).
  etrans; [apply client_moves; exact Hopen|]. unfold posted. rewrite outbox_hear. fold (posted q0 q1). rewrite Hmail.
  etrans; [exact (server_moves sa ca _ _ _ Hin)|].
  replace (posted _ _) with ([] : list (SocketAddr * list byte)); [by rewrite hear_nil|].
  symmetry. apply (drop_all (pair ca <$> [oack])).
Qed.

End session.

(** ** The tests *)

(** The file of a test, its client and what [recv_from] gives as the server's address. *)
Definition interop_run {B} (size : nat) (options : list (rstring * rstring))
    (continue : list byte → received → list byte → itree sessionE (res DownloadError B)) (fuel : nat) : option B :=
  start ← after_request true (VirtualOpenedFile.new (generate_data size)) 2048 Loopback.test_client
            (SocketAddr_new (V4 0x7F00000A) 69) (str "file.txt") options continue;
  match client (join_run Loopback.test_server Loopback.test_client fuel start) with
  | Talking (RetF (Ok data)) _ => Some data
  | _ => None
  end.

(** A file that ends with a short block; and one that ends with a full block, in windows of five. *)
Example download_unaligned :
  interop_run 600 [] (download (SocketAddr_new (V4 0x7F00000A) 69)) 100 = Some (generate_data 600).
Proof. vm_compute. reflexivity. Qed.

Example download_window_aligned :
  interop_run 512 (window_options 5) (download_window 5 (SocketAddr_new (V4 0x7F00000A) 69)) 100 =
  Some (generate_data 512).
Proof. vm_compute. reflexivity. Qed.

(** An OACK that grants less than was asked for is refused. *)
Example smaller_window_refused :
  check_window 5 {[WINDOW_SIZE := str "4"]} =
  Err (Message (str "Window size mismatch: Received 4, expected 5")).
Proof. vm_compute. reflexivity. Qed.

Lemma interop_download_witness :
  ∃ start final,
    after_request true (VirtualOpenedFile.new (generate_data 600)) 2048 Loopback.test_client Loopback.test_server
      (str "file.txt") [] (download Loopback.test_server) = Some start ∧
    always_ends Loopback.test_server Loopback.test_client start final ∧
    (∃ b, (server final).1 = RetF (Ok tt, b)) ∧
    (∃ s, client final = Talking (RetF (Ok (generate_data 600))) s) ∧
    sent_by (server final).2.2 = packet 512 (generate_data 600) <$> seq 1 (n_blocks 512 (generate_data 600)).
Proof.
  pose proof (interop_download true Loopback.test_server Loopback.test_client
    (VirtualOpenedFile.new (generate_data 600)) 2048) as Hd.
  change (remaining (VirtualOpenedFile.new (generate_data 600))) with (generate_data 600) in Hd. apply Hd;
    [split; [by apply (bool_decide_unpack _)|done]|simpl; lia|done|vm_compute; lia|done|lia].
Defined.

Lemma interop_download_window_witness :
  ∃ start final,
    after_request true (VirtualOpenedFile.new (generate_data 600)) 2048 Loopback.test_client Loopback.test_server
      (str "file.txt") (window_options 5) (download_window 5 Loopback.test_server) = Some start ∧
    always_ends Loopback.test_server Loopback.test_client start final ∧
    (∃ b, (server final).1 = RetF (Ok tt, b)) ∧
    (∃ s, client final = Talking (RetF (Ok (generate_data 600))) s) ∧
    sent_by (server final).2.2 =
      OptionsAcknowledge.wire (OptionsAcknowledge.mk (window_options 5)) ::
      (packet 512 (generate_data 600) <$> seq 1 (n_blocks 512 (generate_data 600))).
Proof.
  pose proof (interop_download_window true Loopback.test_server Loopback.test_client
    (VirtualOpenedFile.new (generate_data 600)) 2048 5) as Hd.
  change (remaining (VirtualOpenedFile.new (generate_data 600))) with (generate_data 600) in Hd. apply Hd;
    [lia|done|split; [by apply (bool_decide_unpack _)|done]|simpl; lia|done|vm_compute; lia|done|lia|right; vm_compute; done].
Defined.
