(* ===== verification/Server.v ===== *)
(** * Server: src/src/server.rs

    The listening socket and the handlers of the clients.  The loop of [serve] waits for
    the first of a timer, a datagram and, if asked to, a change of a configuration file;
    each of these is a step, a function of the server's state.  The handlers' threads move
    between the steps, by the relation of PeerHandler. *)

From S2P Require Import Prelude Text Cursor Errors Fs Options Messages Net Window Session Transfer Delivery Negotiation Paths LocalFs GuestFs RemoteFs NbdDisk PeerHandler.

#[global] Instance IpAddr_countable : Countable IpAddr.
Proof.
  refine (inj_countable' (λ a, match a with V4 b => inl b | V6 b => inr b end)
            (λ s, match s with inl b => V4 b | inr b => V6 b end) _).
  by intros [].
Defined.

Definition dot : byte := as_u8 46.

(** [str::rsplit_once('.')]: what is before and after the last dot. *)
Fixpoint rsplit_dot (s : rstring) : option (rstring * rstring) :=
  match s with
  | [] => None
  | b :: s' =>
      match rsplit_dot s' with
      | Some (before, after) => Some (b :: before, after)
      | None => if decide (b = dot) then Some ([], s') else None
      end
  end.

Section server.
Context {H : Type} `{libguestfs H} `{DebugStr} `{FileSystem} `{HashMapCapacity} `{IpText}.
Context {Value : Type} `{ENV : Environment Value} (from_value : Value → option NBDConfig.t) (debug : bool).

(** A handler, with what opening the roots gives in its thread. *)
Record PeerHandler : Type := mkPeer {
  sender_address : IpAddr;
  peer_roots : res Empty_set (list (RootKind H));
  thread : Handler H;
}.

Definition PeerHandler_new (now : Z) (peer : IpAddr) (tftp_root : rstring) : PeerHandler :=
  mkPeer peer (available_roots from_value debug tftp_root peer) (new_handler now).

Definition with_thread (h : PeerHandler) (s : Handler H) : PeerHandler :=
  mkPeer (sender_address h) (peer_roots h) s.

Definition without_sender (h : PeerHandler) : PeerHandler := with_thread h (drop_sender (thread h)).

(** [shutdown]: the sender is dropped and the thread joined.  A thread that panics, which is
    one whose roots cannot be opened, makes the [expect] on the join panic. *)
Definition shutdown (h : PeerHandler) : res Empty_set PeerHandler :=
  match peer_roots h with
  | Ok _ => Ok (without_sender h)
  | Err e => Err e
  | Stop p => Stop p
  end.

Record TFTPServer : Type := mkServer {
  socket : UdpSocket.t;
  root_dir : rstring;
  peer_handlers : gmap IpAddr PeerHandler;
  max_idle_time : Z;
  buffer : list byte;
  joined : list PeerHandler;
}.

Definition new_server (socket : UdpSocket.t) (root_dir : rstring) (idle_timeout : Z) : TFTPServer :=
  mkServer socket root_dir ∅ idle_timeout (replicate buffer_size zero) [].

Definition with_handlers (s : TFTPServer) (m : gmap IpAddr PeerHandler) : TFTPServer :=
  mkServer (socket s) (root_dir s) m (max_idle_time s) (buffer s) (joined s).
Definition with_joined (s : TFTPServer) (l : list PeerHandler) : TFTPServer :=
  mkServer (socket s) (root_dir s) (peer_handlers s) (max_idle_time s) (buffer s) l.
Definition with_io (s : TFTPServer) (sock : UdpSocket.t) (b : list byte) : TFTPServer :=
  mkServer sock (root_dir s) (peer_handlers s) (max_idle_time s) b (joined s).

(** A handler taken out of the table is shut down; [joined] records those that were. *)
Definition join_handler (h : PeerHandler) (s : TFTPServer) : res Empty_set unit * TFTPServer :=
  match shutdown h with
  | Ok h' => (Ok tt, with_joined s (joined s ++ [h']))
  | Err e => (Err e, s)
  | Stop p => (Stop p, s)
  end.

(** [None] while the request waits for room in the handler's channel. *)
Definition dispatch (now : Z) (remote : SocketAddr) (rrq : ReadRequest.t) (s : TFTPServer)
  : option (res Empty_set unit * TFTPServer) :=
  let remote_ip := ip remote in
  let handler := default (PeerHandler_new now remote_ip (root_dir s)) (peer_handlers s !! remote_ip) in
  match feed (port remote) rrq (thread handler) with
  | None => None
  | Some (true, t) =>
      Some (Ok tt, with_handlers s (<[remote_ip := with_thread handler t]> (peer_handlers s)))
  | Some (false, _) =>
      Some (join_handler handler (with_handlers s (delete remote_ip (peer_handlers s))))
  end.

Definition refuse (remote : SocketAddr) (tftp_error : TFTPError) (s : TFTPServer)
  : res Empty_set unit * TFTPServer :=
  match TFTPErr.serialize tftp_error (buffer s) with
  | (Ok size, b) =>
      match range 0 size b with
      | None => (Stop Panicked, with_io s (socket s) b)
      | Some bytes => (Ok tt, with_io s (UdpSocket.send_to bytes remote (socket s)).2 b)
      end
  | (Err _, b) => (Ok tt, with_io s (socket s) b)
  | (Stop h, b) => (Stop h, with_io s (socket s) b)
  end.

Definition handle_request (now : Z) (size : nat) (remote : SocketAddr) (s : TFTPServer)
  : option (res Empty_set unit * TFTPServer) :=
  match range 0 size (buffer s) with
  | None => Some (Stop Panicked, s)
  | Some raw =>
      match ReadRequest.parse raw with
      | Ok rrq => dispatch now remote rrq s
      | Err tftp_error => Some (refuse remote tftp_error s)
      | Stop h => Some (Stop h, s)
      end
  end.

(** The timer: handlers whose thread has ended are forgotten. *)
Definition turn (s : TFTPServer) : TFTPServer :=
  with_handlers s (filter (λ kv, thread_finished (thread kv.2) = false) (peer_handlers s)).

(** A changed file: if it is named after an address, that client gets a new handler, and
    the one it had is shut down. *)
Definition config_changed (now : Z) (name : rstring) (is_modify : bool) (s : TFTPServer)
  : res Empty_set unit * TFTPServer :=
  match rsplit_dot name with
  | Some (stem, _extension) =>
      if is_modify then
        match ip_from_str stem with
        | Some remote_ip =>
            let new_handler := PeerHandler_new now remote_ip (root_dir s) in
            let s' := with_handlers s (<[remote_ip := new_handler]> (peer_handlers s)) in
            match peer_handlers s !! remote_ip with
            | Some previous_handler => join_handler previous_handler s'
            | None => (Ok tt, s')
            end
        | None => (Ok tt, s)
        end
      else (Ok tt, s)
  | None => (Ok tt, s)
  end.

(** [Drop]: the handlers are shut down one after the other; a panic leaves the rest. *)
Fixpoint join_all (handlers : list PeerHandler) (s : TFTPServer) : res Empty_set unit * TFTPServer :=
  match handlers with
  | [] => (Ok tt, s)
  | h :: handlers' => let? (_, s') := join_handler h s in join_all handlers' s'
  end.

Definition drop_server (s : TFTPServer) : res Empty_set unit * TFTPServer :=
  join_all (map_to_list (peer_handlers s)).*2 (with_handlers s ∅).

(** What a call that cannot fail leaves of a round: the loop goes on, or has panicked. *)
Definition round_of (r : res Empty_set unit * TFTPServer) : res ErrorKind unit * TFTPServer :=
  match r with
  | (Ok _, s) => (Ok tt, s)
  | (Err e, s) => match e with end
  | (Stop h, s) => (Stop h, s)
  end.

(** What the [select!] of the loop can wake up with. *)
Inductive Event : Type :=
| Turn
| ConfigChanged (name : rstring) (is_modify : bool)
| Received (payload : list byte) (remote : SocketAddr)
| ReadError (kind : ErrorKind).

(** One round of [serve_augmented]; [serve] is the same without [ConfigChanged].  [Err]: the
    loop has returned. *)
Definition serve_round (now : Z) (e : Event) (s : TFTPServer) : option (res ErrorKind unit * TFTPServer) :=
  match e with
  | Turn => Some (Ok tt, turn s)
  | ConfigChanged name is_modify => Some (round_of (config_changed now name is_modify s))
  | Received payload remote =>
      let '(read_bytes, b) := UdpSocket.receive payload (buffer s) in
      round_of <$> handle_request now read_bytes remote (with_io s (socket s) b)
  | ReadError error => Some (Err error, s)
  end.

(** The server and the threads, interleaved. *)
Inductive system_step : TFTPServer → TFTPServer → Prop :=
| system_serve now e s s' :
    match e with Received _ remote => is_u16 (port remote) | _ => True end →
    serve_round now e s = Some (Ok tt, s') → system_step s s'
| system_thread addr h t s :
    peer_handlers s !! addr = Some h →
    thread_step (sender_address h) (peer_roots h) (max_idle_time s) (thread h) t →
    system_step s (with_handlers s (<[addr := with_thread h t]> (peer_handlers s))).

(** [serve] and [serve_augmented] over the events to come. *)
Fixpoint serve (events : list (Z * Event)) (s : TFTPServer) : option (res ErrorKind unit * TFTPServer) :=
  match events with
  | [] => Some (Ok tt, s)
  | (now, e) :: events' =>
      match serve_round now e s with
      | Some (Ok _, s') => serve events' s'
      | r => r
      end
  end.

End server.
#[global] Arguments PeerHandler H : clear implicits.
#[global] Arguments TFTPServer H : clear implicits.

(** ** Invariant *)

Section invariant.
Context {H : Type} `{libguestfs H} `{DebugStr} `{FileSystem} `{HashMapCapacity} `{IpText}.
Context {Value : Type} `{ENV : Environment Value} (from_value : Value → option NBDConfig.t) (debug : bool).

(** A handler is registered under the address it serves, its sender is alive, and its
    thread is in a good state. *)
Definition registered (addr : IpAddr) (h : PeerHandler H) : Prop :=
  sender_address h = addr ∧ sender_alive (thread h) = true ∧ handler_inv addr (peer_roots h) (thread h).

Record server_inv (s : TFTPServer H) : Prop := mkServerInv {
  si_handlers : map_Forall registered (peer_handlers s);
  si_buffer : length (buffer s) = buffer_size;
  si_joined : Forall (λ h, sender_alive (thread h) = false) (joined s);
}.

Lemma PeerHandler_new_registered now addr dir :
  registered addr (PeerHandler_new from_value debug now addr dir).
Proof. split; [done|]. split; [done|]. apply new_handler_inv. Qed.

Lemma feed_registered addr h p request t :
  is_u16 p → registered addr h → feed p request (thread h) = Some (true, t) →
  registered addr (with_thread h t).
Proof using All.
  intros Hp (Ha & Hal & Hinv) Hf. split; [done|]. simpl.
  split; [|by eapply handler_inv_feed].
  unfold feed in Hf. by repeat (case_match; simplify_eq/=).
Qed.

Lemma thread_step_alive peer opened idle (s s' : Handler H) :
  thread_step peer opened idle s s' → sender_alive s' = sender_alive s.
Proof using All.
  destruct 1 as [| |roots bound port request q s s' _ _ _ Hreq|roots bound port request q h s s' _ _ _ Hreq|
    |now s _ _ _| | |]; try done.
  - by apply on_request_spec in Hreq as (_ & _ & _ & -> & _).
  - simpl. by apply on_request_spec in Hreq as (_ & _ & _ & -> & _).
  - unfold on_elapsed. by repeat case_match.
Qed.

Lemma join_handler_inv h (s s' : TFTPServer H) r :
  join_handler h s = (r, s') → server_inv s → server_inv s'.
Proof.
  unfold join_handler, shutdown. intros Hj [Hh Hb Hjo]. destruct (peer_roots h); simplify_eq; try by split.
  split; simpl; [done|done|]. apply Forall_app. by repeat constructor.
Qed.

Lemma dispatch_inv now remote rrq (s s' : TFTPServer H) r :
  is_u16 (port remote) → dispatch from_value debug now remote rrq s = Some (r, s') →
  server_inv s → server_inv s'.
Proof using All.
  intros Hport. unfold dispatch. set (h := default _ _). intros Hd [Hh Hb Hj].
  assert (registered (ip remote) h) as Hreg.
  { unfold h. destruct (peer_handlers s !! ip remote) eqn:E; [by apply (Hh (ip remote))|].
    apply PeerHandler_new_registered. }
  destruct (feed (port remote) rrq (thread h)) as [[[] t]|] eqn:Hf; simplify_eq.
  - split; simpl; [|done..]. apply map_Forall_insert_2; [|done]. by eapply feed_registered.
  - eapply join_handler_inv; [done|]. split; simpl; [by apply map_Forall_delete|done..].
Qed.

Lemma refuse_spec remote e (s : TFTPServer H) :
  length (TFTPErr.wire e zero) < 37 → length (buffer s) = buffer_size →
  ∃ x b, buffer s !! (4 + length (TFTPErr.parse e).2) = Some x ∧ length b = buffer_size ∧
    refuse remote e s = (Ok tt, with_io s (UdpSocket.send_to (TFTPErr.wire e x) remote (socket s)).2 b).
Proof.
  intros Hl Hb. pose proof buffer_size_val. rewrite TFTPErr.length_wire in Hl.
  destruct (lookup_lt_is_Some_2 (buffer s) (4 + length (TFTPErr.parse e).2)) as [x Hx]; [lia|].
  destruct (TFTPErr.error_serialize_fits e (buffer s) x) as (b & Hs & Hlb & Hw); [done|lia|].
  exists x, b. split; [done|]. split; [lia|].
  unfold refuse. by rewrite Hs, range_prefix, Hw by lia.
Qed.

Lemma config_changed_inv now name m (s s' : TFTPServer H) r :
  config_changed from_value debug now name m s = (r, s') → server_inv s → server_inv s'.
Proof.
  unfold config_changed. destruct (rsplit_dot name) as [[stem ext]|]; [|by intros [= <- <-]].
  destruct m; [|by intros [= <- <-]]. destruct (ip_from_str stem) as [a|]; [|by intros [= <- <-]].
  set (s1 := with_handlers s _). intros Hc [Hh Hb Hj].
  assert (server_inv s1) as Hinv.
  { split; simpl; [|done..]. apply map_Forall_insert_2; [apply PeerHandler_new_registered|done]. }
  destruct (peer_handlers s !! a); [by eapply join_handler_inv|by injection Hc as <- <-].
Qed.

Lemma handle_request_inv now n remote (s s' : TFTPServer H) r :
  is_u16 (port remote) → handle_request from_value debug now n remote s = Some (r, s') →
  server_inv s → server_inv s'.
Proof using All.
  intros Hport He Hinv. unfold handle_request in He.
  destruct (range 0 n (buffer s)) as [raw|]; [|by injection He as <- <-].
  destruct (ReadRequest.parse raw) as [rrq|err|h] eqn:Hparse.
  - by eapply dispatch_inv.
  - destruct (refuse_spec remote err s) as (x & b' & _ & Hb' & Hr);
      [by eapply ReadRequest.parse_error_length|apply Hinv|].
    rewrite Hr in He. injection He as <- <-. destruct Hinv. by split.
  - by injection He as <- <-.
Qed.

Lemma round_of_state (p : res Empty_set unit * TFTPServer H) r s : round_of p = (r, s) → s = p.2.
Proof. destruct p as [[|[]|] s']; simpl; congruence. Qed.

Lemma serve_round_inv now e (s s' : TFTPServer H) r :
  match e with Received _ remote => is_u16 (port remote) | _ => True end →
  serve_round from_value debug now e s = Some (r, s') → server_inv s → server_inv s'.
Proof using All.
  intros Hport He Hinv. destruct e as [|name m|payload remote|k]; cbn [serve_round] in He.
  - injection He as <- <-. destruct Hinv as [Hh Hb Hj]. split; simpl; [|done..].
    intros a h [Ha _]%map_lookup_filter_Some. by apply Hh.
  - destruct (config_changed from_value debug now name m s) as [r1 s1] eqn:Hc.
    apply (inj Some), round_of_state in He as ->. by eapply config_changed_inv.
  - destruct Hinv as [Hh Hb Hj]. pose proof (length_receive payload (buffer s)) as Hrl.
    destruct (UdpSocket.receive payload (buffer s)) as [n b]. simpl in Hrl.
    apply fmap_Some in He as ([r1 s1] & He & ->%eq_sym%round_of_state).
    eapply handle_request_inv; [done|done|]. split; simpl; [done|lia|done].
  - by injection He as <- <-.
Qed.

Lemma system_step_inv (s s' : TFTPServer H) :
  system_step from_value debug s s' → server_inv s → server_inv s'.
Proof using All.
  destruct 1 as [now e s s' Hport He|addr h t s Hlk Ht]; [by eapply serve_round_inv|].
  intros [Hh Hb Hj]. split; simpl; [|done..]. apply map_Forall_insert_2; [|done].
  destruct (Hh _ _ Hlk) as (Ha & Hal & Hinv). rewrite Ha in Ht. split; [done|]. simpl.
  split; [by rewrite (thread_step_alive _ _ _ _ _ Ht)|].
  by eapply handler_inv_thread.
Qed.

Lemma new_server_inv sock dir idle : server_inv (new_server sock dir idle).
Proof. split; simpl; [apply map_Forall_empty|by rewrite length_replicate|done]. Qed.

(** The invariant spelt out. *)
Lemma server_inv_facts (s : TFTPServer H) :
  server_inv s →
  length (buffer s) = buffer_size ∧
  Forall (λ h, sender_alive (thread h) = false) (joined s) ∧
  ∀ addr h, peer_handlers s !! addr = Some h →
    sender_address h = addr ∧ sender_alive (thread h) = true ∧ length (queue (thread h)) ≤ CHANNEL_SIZE ∧
    ∀ p session, send_sessions (thread h) !! p = Some session →
      DatagramStream.peer_address (stream (task_link (session_task session))) = SocketAddr_new addr p.
Proof.
  intros [Hh Hb Hj]. split; [done|]. split; [done|]. intros addr h (Ha & Hal & [Hq Hs _ _ _ _])%Hh.
  split_and!; try done. by intros p session (Hp & _)%Hs.
Qed.

End invariant.

(** While the server and the threads of its handlers run, in any interleaving: every
    handler is registered under the address it serves, can still be fed, and keeps its own
    invariant, so each of its sessions talks to that address and to the port it is
    registered under; and handlers that were shut down have lost their sender. *)
Theorem server_invariant {H} `{libguestfs H} `{DebugStr} `{FileSystem} `{HashMapCapacity} `{IpText}
    {Value : Type} `{ENV : Environment Value} (from_value : Value → option NBDConfig.t) (debug : bool)
    (sock : UdpSocket.t) (dir : rstring) (idle : Z) (s : TFTPServer H) :
  rtc (system_step from_value debug) (new_server sock dir idle) s →
  length (buffer s) = buffer_size ∧
  Forall (λ h, sender_alive (thread h) = false) (joined s) ∧
  ∀ addr h, peer_handlers s !! addr = Some h →
    sender_address h = addr ∧ sender_alive (thread h) = true ∧ length (queue (thread h)) ≤ CHANNEL_SIZE ∧
    ∀ p session, send_sessions (thread h) !! p = Some session →
      DatagramStream.peer_address (stream (task_link (session_task session))) = SocketAddr_new addr p.
Proof.
  intros Hr. apply server_inv_facts.
  assert (server_inv (new_server (H := H) sock dir idle)) as Hinv by apply new_server_inv.
  revert Hinv. induction Hr as [|x y z Hst _ IH]; [done|]. eauto using system_step_inv.
Qed.

(** ** What a datagram does *)

(** The request as it is parsed: the bytes received, no more. *)
Lemma handle_request_parse {H} `{libguestfs H} `{DebugStr} `{FileSystem} `{HashMapCapacity} `{IpText}
    {Value : Type} `{ENV : Environment Value} (from_value : Value → option NBDConfig.t) (debug : bool)
    now payload remote rest (s : TFTPServer H) :
  buffer s = payload ++ rest →
  handle_request from_value debug now (length payload) remote s =
  match ReadRequest.parse payload with
  | Ok rrq => dispatch from_value debug now remote rrq s
  | Err tftp_error => Some (refuse remote tftp_error s)
  | Stop h => Some (Stop h, s)
  end.
Proof.
  intros Hb. unfold handle_request. rewrite Hb, range_prefix by (rewrite length_app; lia).
  by rewrite take_app_length.
Qed.

Section datagram.
Context {H : Type} `{libguestfs H} `{DebugStr} `{FileSystem} `{HashMapCapacity} `{IpText}.
Context {Value : Type} `{ENV : Environment Value} (from_value : Value → option NBDConfig.t) (debug : bool).

Lemma received_request now payload remote rrq (s : TFTPServer H) :
  length payload ≤ length (buffer s) → ReadRequest.parse payload = Ok rrq →
  let h := default (PeerHandler_new from_value debug now (ip remote) (root_dir s))
             (peer_handlers s !! ip remote) in
  receiver_open (thread h) = true → length (queue (thread h)) < CHANNEL_SIZE →
  ∃ s', serve_round from_value debug now (Received payload remote) s = Some (Ok tt, s') ∧
    peer_handlers s' = <[ip remote := with_thread h
      (with_queue (thread h) (queue (thread h) ++ [(port remote, rrq)]))]> (peer_handlers s) ∧
    socket s' = socket s ∧ joined s' = joined s ∧ length (buffer s') = length (buffer s) ∧
    max_idle_time s' = max_idle_time s.
Proof using All.
  intros Hl Hp h Ho Hq. cbn [serve_round]. rewrite receive_fits by done.
  erewrite handle_request_parse by done. rewrite Hp. unfold dispatch.
  cbn [peer_handlers root_dir with_io]. fold h. unfold feed. rewrite Ho. settle_all.
  eexists. split; [done|]. simpl. rewrite length_app, length_drop. split_and!; try done. lia.
Qed.

Lemma received_by_closed now payload remote rrq (s : TFTPServer H) :
  length payload ≤ length (buffer s) → ReadRequest.parse payload = Ok rrq →
  let h := default (PeerHandler_new from_value debug now (ip remote) (root_dir s))
             (peer_handlers s !! ip remote) in
  receiver_open (thread h) = false →
  ∃ s', serve_round from_value debug now (Received payload remote) s =
          Some (match peer_roots h with Ok _ => Ok tt | Err e => match e with end | Stop p => Stop p end, s') ∧
    peer_handlers s' = delete (ip remote) (peer_handlers s) ∧ socket s' = socket s ∧
    joined s' = joined s ++ match peer_roots h with Ok _ => [without_sender h] | _ => [] end.
Proof using All.
  intros Hl Hp h Ho. cbn [serve_round]. rewrite receive_fits by done.
  erewrite handle_request_parse by done. rewrite Hp. unfold dispatch.
  cbn [peer_handlers root_dir with_io]. fold h. unfold feed. rewrite Ho. unfold join_handler, shutdown.
  destruct (peer_roots h) as [roots|[]|p]; simpl; rewrite ?app_nil_r; eauto.
Qed.

End datagram.

(** C25: a well-formed read request reaches the handler of its sender, an existing one or a
    new one, at the end of its queue and with the sender's port, and nothing is answered by
    the server itself.  If the handler has closed its channel, because it went idle, the
    request is dropped and the handler forgotten: the client has to ask again.  If it has
    closed it because its thread panicked, the server panics. *)
Theorem request_routed {H} `{libguestfs H} `{DebugStr} `{FileSystem} `{HashMapCapacity} `{IpText}
    {Value : Type} `{ENV : Environment Value} (from_value : Value → option NBDConfig.t) (debug : bool)
    (now : Z) (payload : list byte) (remote : SocketAddr) (rrq : ReadRequest.t) (s : TFTPServer H) :
  length payload ≤ length (buffer s) → ReadRequest.parse payload = Ok rrq →
  let h := default (PeerHandler_new from_value debug now (ip remote) (root_dir s))
             (peer_handlers s !! ip remote) in
  length (queue (thread h)) < CHANNEL_SIZE →
  ∃ r s', serve_round from_value debug now (Received payload remote) s = Some (r, s') ∧
    socket s' = socket s ∧
    if receiver_open (thread h)
    then r = Ok tt ∧ joined s' = joined s ∧
         peer_handlers s' = <[ip remote := with_thread h
           (with_queue (thread h) (queue (thread h) ++ [(port remote, rrq)]))]> (peer_handlers s)
    else peer_handlers s' = delete (ip remote) (peer_handlers s) ∧
         match peer_roots h with
         | Ok _ => r = Ok tt ∧ joined s' = joined s ++ [without_sender h]
         | _ => ∃ p, r = Stop p
         end.
Proof.
  intros Hl Hp h Hq. destruct (receiver_open (thread h)) eqn:Ho.
  - destruct (received_request from_value debug now payload remote rrq s) as (s' & ? & ? & ? & ? & _);
      [done..|]. by exists (Ok tt), s'.
  - destruct (received_by_closed from_value debug now payload remote rrq s) as (s' & Hs & Hph & Hso & Hj);
      [done..|]. fold h in Hs, Hj. eexists _, s'. split; [done|]. split; [done|]. split; [done|].
    destruct (peer_roots h) as [roots|[]|p]; by eauto.
Qed.

(** C33: a datagram that is not a well-formed read request is answered with the error that
    [parse] gives and changes no handler.  The answer is built over the datagram itself: in
    place of the terminator of the message stands the byte the datagram had there. *)
Theorem malformed_answered {H} `{libguestfs H} `{DebugStr} `{FileSystem} `{HashMapCapacity} `{IpText}
    {Value : Type} `{ENV : Environment Value} (from_value : Value → option NBDConfig.t) (debug : bool)
    (now : Z) (payload : list byte) (remote : SocketAddr) (e : TFTPError) (s : TFTPServer H) :
  length (buffer s) = buffer_size → length payload ≤ buffer_size →
  UdpSocket.outcomes (socket s) = [] → ReadRequest.parse payload = Err e →
  ∃ x s', serve_round from_value debug now (Received payload remote) s = Some (Ok tt, s') ∧
    UdpSocket.sent (socket s') = UdpSocket.sent (socket s) ++ [(remote, TFTPErr.wire e x)] ∧
    peer_handlers s' = peer_handlers s ∧ joined s' = joined s ∧
    (∀ b, payload !! (4 + length (TFTPErr.parse e).2) = Some b → x = b).
Proof.
  intros Hb Hl Ho Hp. cbn [serve_round]. rewrite receive_fits by lia.
  erewrite handle_request_parse by done. rewrite Hp.
  set (s1 := with_io s (socket s) (payload ++ drop (length payload) (buffer s))).
  destruct (refuse_spec remote e s1) as (x & b & Hx & Hlb & ->);
    [by eapply ReadRequest.parse_error_length|simpl; rewrite length_app, length_drop; lia|].
  eexists x, _. split; [done|]. cbn [socket with_io s1 peer_handlers joined]. split_and!; try done.
  - unfold UdpSocket.send_to. rewrite Ho. cbn [snd UdpSocket.sent]. by rewrite take_ge.
  - intros y Hy. cbn [buffer s1 with_io] in Hx. rewrite lookup_app_l in Hx; [congruence|].
    by eapply lookup_lt_Some.
Qed.

(** ** From the datagram to the client's copy of the file *)

(** A request of a new client starts the task that its roots settle on. *)
Lemma request_starts_task {H} `{libguestfs H} `{DebugStr} `{FileSystem} `{HashMapCapacity} `{IpText}
    {Value : Type} `{ENV : Environment Value} (from_value : Value → option NBDConfig.t) (debug : bool)
    (now : Z) (remote : SocketAddr) (filename : list byte) (opts : list (rstring * rstring))
    (roots : list (RootKind H)) (bound : UdpSocket.t) (task : Task H) (s : TFTPServer H) :
  let payload := ReadRequest.wire filename OCTET opts in
  let rrq := ReadRequest.mk filename (ReadRequest.options_of opts) in
  ReadRequest.wire_string filename →
  Forall (λ kv, ReadRequest.wire_string kv.1 ∧ ReadRequest.wire_string kv.2) opts →
  length payload ≤ length (buffer s) → peer_handlers s !! ip remote = None →
  available_roots from_value debug (root_dir s) (ip remote) = Ok roots →
  schedule_task rrq (mkLink (DatagramStream.new bound (SocketAddr_new (ip remote) (port remote))) session_buffer)
    roots = Ok task →
  ∃ s' h t,
    serve_round from_value debug now (Received payload remote) s = Some (Ok tt, s') ∧
    peer_handlers s' !! ip remote = Some h ∧ sender_address h = ip remote ∧ peer_roots h = Ok roots ∧
    max_idle_time s' = max_idle_time s ∧
    rtc (thread_step (ip remote) (Ok roots) (max_idle_time s)) (thread h) t ∧
    send_sessions t !! port remote = Some (mkSession task false).
Proof.
  intros payload rrq Hf Hopts Hl Hnone Hroots Htask.
  pose proof (ReadRequest.parse_complete filename opts Hf Hopts) as Hparse. fold payload rrq in Hparse.
  destruct (received_request from_value debug now payload remote rrq s) as (s' & Hs' & Hph & _ & _ & _ & Hidle);
    [done|done|by rewrite Hnone|rewrite Hnone; simpl; unfold CHANNEL_SIZE; lia|].
  rewrite Hnone in Hph. unfold PeerHandler_new in Hph. rewrite Hroots in Hph. simpl in Hph.
  eexists s', _, _. split; [done|]. split; [rewrite Hph; apply lookup_insert_eq|].
  do 3 (split; [done|]). split.
  - eapply rtc_l; [by apply (thread_opened _ _ _ roots now)|].
    eapply rtc_once, (thread_receive _ _ _ roots (Some bound) (port remote) rrq []); [done..|].
    unfold on_request.
    cbn [send_sessions with_queue with_phase with_last_active thread with_thread new_handler capacity].
    rewrite lookup_empty. change (retain_running ∅) with (∅ : gmap Z (SessionHandle H)).
    rewrite map_size_empty. pose proof (with_capacity_ge MAX_SESSIONS_PER_IP) as Hcap.
    unfold MAX_SESSIONS_PER_IP in Hcap at 1. settle (with_capacity MAX_SESSIONS_PER_IP <=? 0).
    rewrite Htask. reflexivity.
  - simpl. apply lookup_insert_eq.
Qed.

(** A read request for a file that a local root has is served, from the datagram to the
    last block.  The server gives the sender a handler, the handler's thread opens its roots,
    takes the request from its queue and starts a session, and the session's task delivers the file,
    with the options of the request, to a client that cooperates. *)
Theorem read_request_served {H} `{libguestfs H} `{DebugStr} `{FileSystem} `{HashMapCapacity} `{IpText}
    {Value : Type} `{ENV : Environment Value} (from_value : Value → option NBDConfig.t) (debug : bool)
    (now : Z) (remote : SocketAddr) (filename dir data : list byte) (opts : list (rstring * rstring))
    (before after : list (RootKind H)) (c : Script) (s : TFTPServer H) :
  let payload := ReadRequest.wire filename OCTET opts in
  let o := ReadRequest.options_of opts in
  let rrq := ReadRequest.mk filename o in
  let peer := SocketAddr_new (ip remote) (port remote) in
  let bound := UdpSocket.mk (script_arrivals peer o data c) [] [] in
  let roots := before ++ Local (LocalRoot.new dir) :: after in
  ReadRequest.wire_string filename →
  Forall (λ kv, ReadRequest.wire_string kv.1 ∧ ReadRequest.wire_string kv.2) opts →
  length payload ≤ length (buffer s) → peer_handlers s !! ip remote = None →
  available_roots from_value debug (root_dir s) (ip remote) = Ok roots →
  Forall (λ root, open_root root rrq (mkLink (DatagramStream.new bound peer) session_buffer) = Err NotFound)
    before →
  os_open (join dir (trim_start_slashes filename)) = Ok (File.mk data 0 [] []) →
  (Z.of_nat (length data) < 2 ^ 63)%Z → cooperates peer o data c →
  ∃ s' h t task l',
    serve_round from_value debug now (Received payload remote) s = Some (Ok tt, s') ∧
    peer_handlers s' !! ip remote = Some h ∧
    rtc (thread_step (ip remote) (Ok roots) (max_idle_time s)) (thread h) t ∧
    send_sessions t !! port remote = Some (mkSession task false) ∧
    run_task debug task = (Ok tt, l') ∧ delivered o data c (sent_by (stream l')).
Proof.
  intros payload o rrq peer bound roots Hf Hopts Hl Hnone Hroots Hbefore Hopen Hdata Hco.
  pose proof buffer_size_val as Hbs.
  destruct (local_task_runs (H := H) debug rrq before after dir data peer buffer_size c)
    as (f & l' & _ & _ & Htask & Hrun & Hdel); [done|done|done|lia|done|].
  destruct (request_starts_task from_value debug now remote filename opts roots bound _ s Hf Hopts Hl Hnone
    Hroots Htask) as (s' & h & t & Hs' & Hh & _ & _ & _ & Ht & Hsess).
  eexists s', h, t, _, l'. split; [exact Hs'|]. split; [exact Hh|]. split; [exact Ht|].
  split; [exact Hsess|]. split; [exact Hrun|exact Hdel].
Qed.

(** ** Configuration changes *)

Lemma rsplit_dot_none s : dot ∉ s → rsplit_dot s = None.
Proof.
  induction s as [|b s IH]; [done|]. rewrite not_elem_of_cons. intros [Hb Hs]. simpl.
  rewrite IH by done. by rewrite decide_False by congruence.
Qed.

Lemma rsplit_dot_app stem ext : dot ∉ ext → rsplit_dot (stem ++ dot :: ext) = Some (stem, ext).
Proof.
  intros He. induction stem as [|b stem IH]; simpl.
  - rewrite rsplit_dot_none by done. done.
  - by rewrite IH.
Qed.

(** C31: when a file named after a client's address changes, that client gets a new handler,
    which opens its roots anew, the one it had is shut down, and no other client is
    touched; the change of a file that is not named so, without a dot or with something else
    before the last one, or an event that is not a modification, changes nothing.  The loop goes on, unless the thread of the handler that
    is shut down panicked. *)
Theorem config_change_replaces {H} `{libguestfs H} `{DebugStr} `{FileSystem} `{HashMapCapacity} `{IpText}
    {Value : Type} `{ENV : Environment Value} (from_value : Value → option NBDConfig.t) (debug : bool)
    (now : Z) (stem ext : rstring) (is_modify : bool) (s : TFTPServer H) :
  dot ∉ ext →
  config_changed from_value debug now ext is_modify s = (Ok tt, s) ∧
  let '(r, s') := config_changed from_value debug now (stem ++ dot :: ext) is_modify s in
  match ip_from_str stem with
  | Some addr =>
      if is_modify
      then peer_handlers s' !! addr = Some (PeerHandler_new from_value debug now addr (root_dir s)) ∧
           delete addr (peer_handlers s') = delete addr (peer_handlers s) ∧
           match peer_handlers s !! addr with
           | None => r = Ok tt ∧ joined s' = joined s
           | Some h => (r = Ok tt ↔ ∃ roots, peer_roots h = Ok roots) ∧
                       (r = Ok tt → joined s' = joined s ++ [without_sender h])
           end
      else r = Ok tt ∧ s' = s
  | None => r = Ok tt ∧ s' = s
  end.
Proof.
  intros He. split; [unfold config_changed; by rewrite rsplit_dot_none|].
  unfold config_changed. rewrite rsplit_dot_app by done.
  destruct (ip_from_str stem) as [addr|], is_modify; try done. unfold join_handler, shutdown.
  destruct (peer_handlers s !! addr) as [h|]; [destruct (peer_roots h) as [roots|[]|p]|]; simpl;
    rewrite lookup_insert_eq, delete_insert_eq; split_and!; try done; naive_solver.
Qed.

(** ** A configuration that panics *)

(** C34: a configuration whose disk cannot be opened without a panic brings the server down.
    The client's first request is accepted; the handler's thread then panics, and when the
    client repeats its request, before the timer has removed the handler, the join of the
    thread makes the server panic. *)
Theorem bad_config_stops_server {H} `{libguestfs H} `{DebugStr} `{FileSystem} `{HashMapCapacity} `{IpText}
    {Value : Type} `{ENV : Environment Value} (from_value : Value → option NBDConfig.t) (debug : bool)
    (now now' : Z) (payload : list byte) (remote : SocketAddr) (rrq : ReadRequest.t) (p : halt)
    (s : TFTPServer H) :
  length (buffer s) = buffer_size → length payload ≤ buffer_size → ReadRequest.parse payload = Ok rrq →
  peer_handlers s !! ip remote = None →
  available_roots (H := H) from_value debug (root_dir s) (ip remote) = Stop p →
  ∃ s1 s2 s3,
    serve_round from_value debug now (Received payload remote) s = Some (Ok tt, s1) ∧
    system_step from_value debug s1 s2 ∧
    serve_round from_value debug now' (Received payload remote) s2 = Some (Stop p, s3).
Proof.
  intros Hb Hl Hp Hnone Hroots.
  destruct (received_request from_value debug now payload remote rrq s) as (s1 & Hs1 & Hph & _ & _ & Hb1);
    [lia|done|by rewrite Hnone|rewrite Hnone; simpl; unfold CHANNEL_SIZE; lia|].
  rewrite Hnone in Hph. unfold PeerHandler_new in Hph. rewrite Hroots in Hph. simpl in Hph.
  set (h := with_thread _ _) in Hph.
  set (s2 := with_handlers s1 (<[ip remote := with_thread h (crash (thread h))]> (peer_handlers s1))).
  destruct (received_by_closed from_value debug now' payload remote rrq s2) as (s3 & Hs3 & _);
    [simpl; lia|done|by simpl; rewrite lookup_insert_eq|].
  simpl in Hs3. rewrite lookup_insert_eq in Hs3. simpl in Hs3.
  exists s1, s2, s3. split; [done|]. split; [|done].
  eapply system_thread; [by rewrite Hph, lookup_insert_eq|]. by eapply thread_crashes.
Qed.

(** ** The hypotheses can hold *)

#[global] Instance sample_ip_text : IpText := {
  ip_to_string a := match a with V4 b => to_string b | V6 b => str ":" ++ to_string b end;
  ip_from_str s := V4 <$> parse_usize s;
}.

#[global] Instance sample_environment : Environment unit := {
  read_dir _ := Ok [];
  is_file _ := false;
  read_to_string _ := Err NotFound;
  from_str _ := None;
}.

Definition no_config (_ : unit) : option NBDConfig.t := None.

Definition empty_server : TFTPServer toy := new_server (UdpSocket.mk [] [] []) (str "/srv/tftp") 30.

Lemma length_empty_buffer : Z.of_nat (length (buffer empty_server)) = 65535%Z.
Proof. unfold empty_server, new_server. cbn [buffer]. rewrite length_replicate. apply buffer_size_val. Qed.

Definition boot_payload : list byte := ReadRequest.wire (str "/boot.img") OCTET [].

Lemma boot_payload_fits : length boot_payload ≤ buffer_size.
Proof. pose proof buffer_size_val. assert (length boot_payload = 18) as -> by reflexivity. lia. Qed.

(** A server whose client's configuration has just appeared. *)
Lemma server_invariant_witness :
  ∃ s, rtc (system_step no_config true) empty_server s ∧ length (buffer s) = buffer_size ∧
       is_Some (peer_handlers s !! ip sample_peer).
Proof.
  assert (∃ s, system_step no_config true empty_server s ∧ is_Some (peer_handlers s !! ip sample_peer))
    as (s & Hs & Hh).
  { exists (config_changed no_config true 0 (str "167772161.nbd") true empty_server).2. split.
    - by apply (system_serve _ _ 0 (ConfigChanged (str "167772161.nbd") true)).
    - by eexists. }
  exists s. split; [by apply rtc_once|]. split; [|done].
  refine (proj1 (server_invariant no_config true (UdpSocket.mk [] [] []) (str "/srv/tftp") 30 s _)).
  by apply rtc_once.
Defined.

Lemma request_routed_witness :
  ∃ s', serve_round no_config true 0 (Received boot_payload sample_peer) empty_server = Some (Ok tt, s') ∧
    is_Some (peer_handlers s' !! ip sample_peer).
Proof.
  destruct (request_routed no_config true 0 boot_payload sample_peer (ReadRequest.mk (str "/boot.img") ∅)
    empty_server) as (r & s' & Hs & Hk & Hr & Hj & Hm).
  - pose proof length_empty_buffer. pose proof boot_payload_fits. pose proof buffer_size_val. lia.
  - reflexivity.
  - vm_compute. lia.
  - subst r. exists s'. split; [exact Hs|]. rewrite Hm. by rewrite lookup_insert_eq.
Defined.

Lemma malformed_answered_witness :
  ∃ x s', serve_round no_config true 0 (Received [zero; zero] sample_peer) empty_server = Some (Ok tt, s') ∧
    UdpSocket.sent (socket s') = [] ++ [(sample_peer,
      TFTPErr.wire (IllegalOperation (str "Only RRQ is supported")) x)].
Proof.
  destruct (malformed_answered no_config true 0 [zero; zero] sample_peer
    (IllegalOperation (str "Only RRQ is supported")) empty_server) as (x & s' & Hs & Hk & _).
  - unfold empty_server, new_server. cbn [buffer]. apply length_replicate.
  - pose proof buffer_size_val. simpl. lia.
  - reflexivity.
  - reflexivity.
  - by exists x, s'.
Defined.

Lemma read_request_served_witness :
  ∃ s' h t task l',
    serve_round no_config true 0
      (Received (ReadRequest.wire (str "/boot.img") OCTET
         [(BLKSIZE, str "8"); (WINDOW_SIZE, str "2")]) sample_peer) empty_server = Some (Ok tt, s') ∧
    peer_handlers s' !! ip sample_peer = Some h ∧
    rtc (thread_step (ip sample_peer) (Ok ([Local (LocalRoot.new (str "/srv/tftp/167772161"))]
       ++ Local (LocalRoot.new (str "/srv/tftp/default")) :: [])) 30) (thread h) t ∧
    send_sessions t !! port sample_peer = Some (mkSession task false) ∧
    run_task true task = (Ok tt, l') ∧
    delivered (ReadRequest.options_of [(BLKSIZE, str "8"); (WINDOW_SIZE, str "2")]) sample_bytes small_script
      (sent_by (stream l')).
Proof.
  apply (read_request_served no_config true 0 sample_peer (str "/boot.img") (str "/srv/tftp/default")
    sample_bytes [(BLKSIZE, str "8"); (WINDOW_SIZE, str "2")]
    [Local (LocalRoot.new (str "/srv/tftp/167772161"))] [] small_script empty_server).
  - split; [by apply (bool_decide_unpack _)|reflexivity].
  - repeat constructor; simpl; try reflexivity; by apply (bool_decide_unpack _).
  - pose proof length_empty_buffer.
    assert (length (ReadRequest.wire (str "/boot.img") OCTET [(BLKSIZE, str "8"); (WINDOW_SIZE, str "2")]) = 41)
      as -> by reflexivity. lia.
  - reflexivity.
  - reflexivity.
  - constructor; [reflexivity|constructor].
  - reflexivity.
  - reflexivity.
  - assert (ReadRequest.options_of [(BLKSIZE, str "8"); (WINDOW_SIZE, str "2")] = small_options) as ->
      by (by apply (bool_decide_unpack _)).
    exact small_script_cooperates.
Defined.

Lemma config_change_replaces_witness :
  let '(r, s') := config_changed no_config true 0 (str "1234.nbd") true empty_server in
  r = Ok tt ∧ peer_handlers s' !! V4 1234 = Some (PeerHandler_new no_config true 0 (V4 1234) (str "/srv/tftp")).
Proof.
  assert (dot ∉ str "nbd") as Hdot by (by apply (bool_decide_unpack _)).
  destruct (config_change_replaces no_config true 0 (str "1234") (str "nbd") true empty_server Hdot)
    as (_ & Hnew & _ & Hr & _). split; [exact Hr|exact Hnew].
Defined.

(** A directory with one configuration, whose address has a NUL in it. *)
Definition bad_environment : Environment unit := {|
  read_dir _ := Ok [Ok (str "/srv/tftp/167772161.nbd")];
  is_file _ := true;
  read_to_string _ := Ok (str "{}");
  from_str _ := Some tt;
|}.

Definition bad_config (_ : unit) : option NBDConfig.t :=
  Some (NBDConfig.mk (str "nbd://" ++ [zero]) [] (str "/")).

Lemma bad_config_stops_server_witness :
  ∃ s1 s2 s3 : TFTPServer toy,
    serve_round (ENV := bad_environment) bad_config false 0 (Received boot_payload sample_peer) empty_server =
      Some (Ok tt, s1) ∧
    system_step (ENV := bad_environment) bad_config false s1 s2 ∧
    serve_round (ENV := bad_environment) bad_config false 1 (Received boot_payload sample_peer) s2 =
      Some (Stop Panicked, s3).
Proof.
  apply (bad_config_stops_server (ENV := bad_environment) bad_config false 0 1 boot_payload sample_peer
    (ReadRequest.mk (str "/boot.img") ∅) Panicked empty_server).
  - unfold empty_server, new_server. cbn [buffer]. apply length_replicate.
  - apply boot_payload_fits.
  - reflexivity.
  - reflexivity.
  - vm_compute. reflexivity.
Defined.
