(* ===== verification/Channel.v ===== *)
(** * Channel: src/src/fs_watch/async_channel.rs

    The queue that carries events from the task that reads them to the server's loop.
    Both ends share one [SharedQueue]; the model threads it.  A waker is a number, and
    what is woken is recorded. *)

From S2P Require Import Prelude.

Inductive QueueError : Type := NoData.

Module SharedQueue.
Section queue.
Context {T : Type}.

Record t : Type := mk { queue : list T; waker : option nat }.

Definition new : t := mk [] None.

(** The waker that was woken, if there was one. *)
Definition push (item : T) (self : t) : option nat * t :=
  (waker self, mk (queue self ++ [item]) None).

Definition pop_nowait (self : t) : res QueueError T * t :=
  match queue self with
  | value :: queue' => (Ok value, mk queue' (waker self))
  | [] => (Err NoData, self)
  end.

Definition register_waker (w : nat) (self : t) : t := mk (queue self) (Some w).

End queue.
#[global] Arguments t T : clear implicits.
End SharedQueue.

Section channel.
Context {T : Type}.

(** [new]: the two ends of one queue. *)
Definition channel_new : SharedQueue.t T := SharedQueue.new.

(** [TX::push]. *)
Definition tx_push (value : T) (shared_queue : SharedQueue.t T) : option nat * SharedQueue.t T :=
  SharedQueue.push value shared_queue.

Inductive Poll : Type :=
| Ready (item : T)
| Pending.

(** [poll] of the future that [RX::next] returns, by the task with waker [w]. *)
Definition poll (w : nat) (shared_queue : SharedQueue.t T) : Poll * SharedQueue.t T :=
  match SharedQueue.pop_nowait shared_queue with
  | (Ok item, q) => (Ready item, q)
  | (_, q) => (Pending, SharedQueue.register_waker w q)
  end.

(** A run of the two ends, with what came out and who was woken. *)
Inductive op : Type :=
| Push (value : T)
| PollBy (w : nat).

Record run_state : Type := mkRun {
  shared : SharedQueue.t T;
  popped : list T;
  woken : list nat;
}.

Definition run_op (s : run_state) (o : op) : run_state :=
  match o with
  | Push value =>
      let '(w, q) := tx_push value (shared s) in mkRun q (popped s) (woken s ++ option_list w)
  | PollBy w =>
      match poll w (shared s) with
      | (Ready item, q) => mkRun q (popped s ++ [item]) (woken s)
      | (Pending, q) => mkRun q (popped s) (woken s)
      end
  end.

Definition run (ops : list op) : run_state := foldl run_op (mkRun channel_new [] []) ops.

Definition pushed (ops : list op) : list T :=
  omap (λ o, match o with Push v => Some v | PollBy _ => None end) ops.

(** A waker is kept only while there is nothing to take. *)
Definition run_ok (ops : list op) (s : run_state) : Prop :=
  pushed ops = popped s ++ SharedQueue.queue (shared s) ∧
  (is_Some (SharedQueue.waker (shared s)) → SharedQueue.queue (shared s) = []).

Lemma run_snoc ops o : run (ops ++ [o]) = run_op (run ops) o.
Proof. unfold run. by rewrite foldl_app. Qed.

Lemma run_ok_op ops s o : run_ok ops s → run_ok (ops ++ [o]) (run_op s o).
Proof.
  intros [Hp Hw]. unfold run_ok, pushed in *. rewrite omap_app, Hp.
  destruct o as [v|w]; simpl.
  - rewrite <- app_assoc. split; [done|]. by intros [? ?].
  - unfold poll, SharedQueue.pop_nowait. destruct (SharedQueue.queue (shared s)) as [|x q] eqn:E; simpl.
    + by rewrite E, app_nil_r.
    + rewrite app_nil_r, <- app_assoc. split; [done|]. intros ?%Hw. done.
Qed.

Lemma run_invariant ops : run_ok ops (run ops).
Proof.
  induction ops as [|o ops IH] using rev_ind; [split; [done|by intros [? ?]]|].
  rewrite run_snoc. by apply run_ok_op.
Qed.

End channel.

(** The file's own tests: three values taken as they were put in, and a value put in after
    the other end has begun to wait. *)
Definition test_queue : list op := [Push 67; Push 78; Push 31; PollBy 0; PollBy 0; PollBy 0].

Example test_queue_ok : popped (run test_queue) = [67; 78; 31].
Proof. reflexivity. Qed.

Definition test_queue_wait : list op := [PollBy 0; Push 78; PollBy 0].

Example test_queue_wait_ok : popped (run test_queue_wait) = [78] ∧ woken (run test_queue_wait) = [0].
Proof. by split. Qed.

(** C28: the channel is a queue, and no wake-up is lost.  In every run, what was taken out
    followed by what is still queued is what was put in, in order; a task that finds the
    queue empty is woken by the very next value put in, whatever happened before; and a
    task that polls when a value is there gets the oldest one. *)
Theorem channel_correct {T : Type} (ops : list (@op T)) (w : nat) (v : T) :
  let s := run ops in
  pushed ops = popped s ++ SharedQueue.queue (shared s) ∧
  match SharedQueue.queue (shared s) with
  | [] => (poll w (shared s)).1 = Pending ∧ woken (run (ops ++ [PollBy w; Push v])) = woken s ++ [w]
  | item :: _ => (poll w (shared s)).1 = Ready item
  end.
Proof.
  intros s. destruct (run_invariant ops) as [Hp Hw]. split; [done|].
  change [PollBy w; Push v] with ([PollBy w] ++ [Push v]).
  rewrite app_assoc, !run_snoc. fold s. unfold poll, SharedQueue.pop_nowait.
  destruct (SharedQueue.queue (shared s)) eqn:E; [|done]. split; [done|].
  simpl. unfold poll, SharedQueue.pop_nowait. by rewrite E.
Qed.
