(* ===== verification/FsWatch.v ===== *)
(** * FsWatch: src/src/fs_watch/mod.rs

    Watching the directory of configurations: the records the kernel writes, how they are
    decoded, and how the events reach the channel.  A record is decoded in the byte order
    of the supported targets, little-endian. *)

From S2P Require Import Prelude Text Channel.

(** Constants of [libc]. *)
Definition IN_CLOSE_WRITE : Z := 0x8.
Definition IN_MOVED_TO : Z := 0x80.
Definition IN_DELETE : Z := 0x200.
Definition PATH_MAX : nat := 4096.

Definition EVENT_HEADER_SIZE : nat := 16.
Definition EVENT_BUFFER_SIZE : nat := EVENT_HEADER_SIZE + PATH_MAX + 1.

(** A [c_uint] at an offset of the buffer. *)
Definition u32_at (offset : nat) (buffer : list byte) : option Z :=
  b0 ← buffer !! offset; b1 ← buffer !! (offset + 1);
  b2 ← buffer !! (offset + 2); b3 ← buffer !! (offset + 3);
  Some (u8_val b0 + 256 * (u8_val b1 + 256 * (u8_val b2 + 256 * u8_val b3)))%Z.

(** A [c_int]: the same bits, signed. *)
Definition i32_at (offset : nat) (buffer : list byte) : option Z :=
  (λ n, if n <? 2 ^ 31 then n else n - 2 ^ 32)%Z <$> u32_at offset buffer.

Inductive ParseError : Type := NotEnoughBytes.

(** The header as it lies in memory, [repr(C)]. *)
Module InotifyEventHeader.

Record t : Type := mk { wd : Z; mask : Z; cookie : Z; len : Z }.

Definition at_start (buffer : list byte) : option t :=
  wd ← i32_at 0 buffer; mask ← u32_at 4 buffer; cookie ← u32_at 8 buffer; len ← u32_at 12 buffer;
  Some (mk wd mask cookie len).

End InotifyEventHeader.

Module InotifyEvent.

Record t : Type := mk { mask : Z; file_name_opt : option rstring }.

(** [None] of [from_bytes_until_nul] is the panic of [unwrap]. *)
Definition from (buffer : list byte) : res ParseError (t * nat) :=
  if length buffer <? EVENT_HEADER_SIZE then Err NotEnoughBytes
  else
    match InotifyEventHeader.at_start buffer with
    | Some event_header =>
        let mask := InotifyEventHeader.mask event_header in
        if (0 <? InotifyEventHeader.len event_header)%Z then
          let message_offset := EVENT_HEADER_SIZE + Z.to_nat (InotifyEventHeader.len event_header) in
          if length buffer <? message_offset then Err NotEnoughBytes
          else
            match range EVENT_HEADER_SIZE message_offset buffer with
            | None => Stop Panicked
            | Some bytes =>
                match position_zero bytes with
                | None => Stop Panicked
                | Some n => Ok (mk mask (Some (from_utf8_lossy (take n bytes))), message_offset)
                end
            end
        else Ok (mk mask None, EVENT_HEADER_SIZE)
    | None => Stop Panicked
    end.

Definition file_name (self : t) : rstring := default [] (file_name_opt self).

Definition is_modify (self : t) : bool :=
  (0 <? Z.land (mask self) (Z.lor IN_MOVED_TO IN_CLOSE_WRITE))%Z.

Definition is_removal (self : t) : bool := (0 <? Z.land (mask self) IN_DELETE)%Z.

End InotifyEvent.

(** The traits: what the server asks of an event, and of what it observes. *)
Class Event (E : Type) : Type := {
  file_name : E → rstring;
  is_modify : E → bool;
  is_removal : E → bool;
}.

Class Observer (O E : Type) `{Event E} : Type := { next : nat → O → @Poll E * O }.

#[global] Instance InotifyEvent_Event : Event InotifyEvent.t := {
  file_name := InotifyEvent.file_name;
  is_modify := InotifyEvent.is_modify;
  is_removal := InotifyEvent.is_removal;
}.

(** The loop of [parse_events].  Every round but the last takes a header at least. *)
Fixpoint parse_loop (fuel : nat) (buffer : list byte) (bytes_read offset : nat)
    (result : list InotifyEvent.t) : res Empty_set (list InotifyEvent.t) :=
  match fuel with
  | O => Stop OutOfFuel
  | S fuel' =>
      match range offset bytes_read buffer with
      | None => Stop Panicked
      | Some bytes =>
          match InotifyEvent.from bytes with
          | Ok (event, event_size) =>
              parse_loop fuel' buffer bytes_read (offset + event_size) (result ++ [event])
          | Err NotEnoughBytes => Ok result
          | Stop h => Stop h
          end
      end
  end.

Definition parse_events (buffer : list byte) (bytes_read : nat) : res Empty_set (list InotifyEvent.t) :=
  parse_loop (S bytes_read) buffer bytes_read 0 [].

(** ** The task that reads *)

(** What a round of [read_loop] meets: the descriptor's readiness and the read. *)
Inductive watch_read : Type :=
| NotReady
| ReadBytes (bytes : list byte)
| ReadyFailed
| ReadFailed.

(** One round; [Ok None]: the task returns. *)
Definition read_round (r : watch_read) (buffer : list byte) (tx : SharedQueue.t InotifyEvent.t)
  : res Empty_set (option (list byte)) * SharedQueue.t InotifyEvent.t :=
  match r with
  | NotReady => (Ok (Some buffer), tx)
  | ReadyFailed | ReadFailed => (Stop Panicked, tx)
  | ReadBytes [] => (Ok None, tx)
  | ReadBytes bytes =>
      let read_bytes := length bytes `min` length buffer in
      let buffer' := take read_bytes bytes ++ drop read_bytes buffer in
      match parse_events buffer' read_bytes with
      | Ok events => (Ok (Some buffer'), foldl (λ q e, (tx_push e q).2) tx events)
      | Err e => match e with end
      | Stop h => (Stop h, tx)
      end
  end.

(** [Ok]: the loop has returned, or the reads to come are unknown. *)
Fixpoint read_loop (reads : list watch_read) (buffer : list byte) (tx : SharedQueue.t InotifyEvent.t)
  : res Empty_set unit * SharedQueue.t InotifyEvent.t :=
  match reads with
  | [] => (Ok tt, tx)
  | r :: reads' =>
      match read_round r buffer tx with
      | (Ok (Some buffer'), tx') => read_loop reads' buffer' tx'
      | (Ok None, tx') => (Ok tt, tx')
      | (Err e, tx') => match e with end
      | (Stop h, tx') => (Stop h, tx')
      end
  end.

(** ** The observer *)

(** The reading task: at its next read, at its end, after a panic, or aborted. *)
Inductive ReaderTask : Type :=
| Reading (buffer : list byte)
| Returned
| Panicking
| Cancelled.

Module INotifyObserver.

Record t : Type := mk {
  fd : Z;
  wd : Z;
  join_handle : ReaderTask;
  rx : SharedQueue.t InotifyEvent.t;
  display : rstring;
}.

(** [next], polled by the task with waker [w]. *)
Definition next (w : nat) (self : t) : @Poll InotifyEvent.t * t :=
  let '(event, q) := poll w (rx self) in
  (event, mk (fd self) (wd self) (join_handle self) q (display self)).

(** The reading task is run with what it finds at the descriptor. *)
Definition run_reader (r : watch_read) (self : t) : t :=
  match join_handle self with
  | Reading buffer =>
      let '(result, q) := read_round r buffer (rx self) in
      let task :=
        match result with
        | Ok (Some buffer') => Reading buffer'
        | Ok None => Returned
        | Err _ | Stop _ => Panicking
        end in
      mk (fd self) (wd self) task q (display self)
  | _ => self
  end.

(** [Drop]: the task is aborted and the watch removed; whether the latter failed, which is
    only reported. *)
Definition drop_observer (inotify_rm_watch : Z → Z → Z) (self : t) : bool * t :=
  let task := match join_handle self with Reading _ => Cancelled | ended => ended end in
  (negb (inotify_rm_watch (fd self) (wd self) =? 0)%Z, mk (fd self) (wd self) task (rx self) (display self)).

End INotifyObserver.

#[global] Instance INotifyObserver_Observer : Observer INotifyObserver.t InotifyEvent.t := {
  next := INotifyObserver.next;
}.

(** ** What is watched *)

Module Watch.

Definition t : Type := Z.

Definition new : t := 0%Z.
Definition change (self : t) : t := Z.lor (Z.lor self IN_CLOSE_WRITE) IN_MOVED_TO.
Definition removal (self : t) : t := Z.lor self IN_DELETE.

(** [observe]: the descriptor is opened, then the watch added; the two system calls return
    a negative number on failure.  A failure to register the descriptor with the runtime
    closes it.  The list is the descriptors left open.  On success the reading task is
    spawned, with a buffer of its own and one end of a new channel. *)
Definition observe (self : t) (directory : rstring) (inotify_init1 : Z)
    (inotify_add_watch : Z → rstring → Z → Z) (last_os_error : ErrorKind) (async_fd : option ErrorKind)
  : res ErrorKind INotifyObserver.t * list Z :=
  match CString_new directory with
  | None => (Err InvalidInput, [])
  | Some path =>
      if (inotify_init1 <? 0)%Z then (Err last_os_error, [])
      else
        let wd := inotify_add_watch inotify_init1 path self in
        if (wd <? 0)%Z then (Err last_os_error, [inotify_init1])
        else
          match async_fd with
          | Some error => (Err error, [])
          | None =>
              (Ok (INotifyObserver.mk inotify_init1 wd (Reading (replicate EVENT_BUFFER_SIZE zero)) channel_new
                     directory),
               [inotify_init1])
          end
  end.

End Watch.

(** ** The records of inotify(7) *)

Definition le32 (z : Z) : list byte :=
  [as_u8 z; as_u8 (Z.shiftr z 8); as_u8 (Z.shiftr z 16); as_u8 (Z.shiftr z 24)].

Definition is_u32 (z : Z) : Prop := (0 ≤ z < 2 ^ 32)%Z.

(** An event of the watched directory itself has no name; the name of a file in it is
    followed by one NUL or more. *)
Record KernelRecord : Type := mkRecord {
  r_wd : Z;
  r_mask : Z;
  r_cookie : Z;
  r_name : option (rstring * nat);
}.

Definition name_bytes (r : KernelRecord) : list byte :=
  match r_name r with
  | None => []
  | Some (name, padding) => name ++ replicate (S padding) zero
  end.

Definition record_bytes (r : KernelRecord) : list byte :=
  le32 (r_wd r) ++ le32 (r_mask r) ++ le32 (r_cookie r)
  ++ le32 (Z.of_nat (length (name_bytes r))) ++ name_bytes r.

Definition record_ok (r : KernelRecord) : Prop :=
  is_u32 (r_mask r) ∧ is_u32 (Z.of_nat (length (name_bytes r))) ∧
  match r_name r with
  | None => True
  | Some (name, _) => nul_free name ∧ utf8_valid name = true
  end.

Definition event_of (r : KernelRecord) : InotifyEvent.t := InotifyEvent.mk (r_mask r) (fst <$> r_name r).

Lemma le32_value z :
  is_u32 z →
  (u8_val (as_u8 z) + 256 * (u8_val (as_u8 (Z.shiftr z 8)) + 256 * (u8_val (as_u8 (Z.shiftr z 16))
     + 256 * u8_val (as_u8 (Z.shiftr z 24)))))%Z = z.
Proof.
  intros [? ?]. rewrite !u8_val_as_u8, !Z.shiftr_div_pow2 by lia.
  change (2 ^ 8)%Z with 256%Z. change (2 ^ 16)%Z with (256 * 256)%Z.
  change (2 ^ 24)%Z with (256 * 256 * 256)%Z. rewrite <- !Z.div_div by lia.
  rewrite (Z.mod_small (z / 256 / 256 / 256)).
  - pose proof (Z.div_mod z 256). pose proof (Z.div_mod (z / 256) 256).
    pose proof (Z.div_mod (z / 256 / 256) 256). lia.
  - split; [repeat apply Z.div_pos; lia|]. repeat (apply Z.div_lt_upper_bound; [lia|]). lia.
Qed.

Lemma position_zero_padded name padding :
  nul_free name → position_zero (name ++ replicate (S padding) zero) = Some (length name).
Proof. intros. by apply position_zero_app. Qed.

(** The header of a record. *)
Lemma header_record r rest :
  record_ok r →
  ∃ wd cookie, InotifyEventHeader.at_start (record_bytes r ++ rest) =
    Some (InotifyEventHeader.mk wd (r_mask r) cookie (Z.of_nat (length (name_bytes r)))).
Proof.
  intros (Hm & Hl & _). unfold InotifyEventHeader.at_start.
  destruct (i32_at 0 (record_bytes r ++ rest)) as [wd|] eqn:Hw; [|done].
  destruct (u32_at 8 (record_bytes r ++ rest)) as [cookie|] eqn:Hc; [|done].
  assert (u32_at 4 (record_bytes r ++ rest) = Some (r_mask r)) as ->
    by (rewrite <- (le32_value (r_mask r)) by done; done).
  assert (u32_at 12 (record_bytes r ++ rest) = Some (Z.of_nat (length (name_bytes r)))) as ->
    by (rewrite <- (le32_value (Z.of_nat (length (name_bytes r)))) by done; done).
  by exists wd, cookie.
Qed.

(** One record at the front of what was read. *)
Lemma from_record r rest :
  record_ok r →
  InotifyEvent.from (record_bytes r ++ rest) = Ok (event_of r, length (record_bytes r)).
Proof.
  intros Hr. pose proof Hr as (Hm & Hl & Hn).
  assert (length (record_bytes r) = EVENT_HEADER_SIZE + length (name_bytes r)) as Hlen
    by (unfold record_bytes; rewrite !length_app; done).
  unfold InotifyEvent.from. rewrite length_app, Hlen. settle (EVENT_HEADER_SIZE + length (name_bytes r) + length rest <? EVENT_HEADER_SIZE).
  destruct (header_record r rest) as (wd & cookie & ->); [done|].
  cbn [InotifyEventHeader.mask InotifyEventHeader.len].
  unfold event_of. destruct (r_name r) as [[name padding]|] eqn:Hname; unfold name_bytes in *; rewrite Hname in *.
  - destruct Hn as [Hnul Hutf]. rewrite Nat2Z.id.
    set (nb := name ++ replicate (S padding) zero) in *.
    assert (0 < length nb) by (unfold nb; rewrite length_app; simpl; lia).
    settle (0 <? Z.of_nat (length nb))%Z.
    settle (EVENT_HEADER_SIZE + length nb + length rest <? EVENT_HEADER_SIZE + length nb). cbv iota.
    rewrite range_Some by (rewrite ?length_app; lia).
    assert (take (EVENT_HEADER_SIZE + length nb - EVENT_HEADER_SIZE)
      (drop EVENT_HEADER_SIZE (record_bytes r ++ rest)) = nb) as ->.
    { replace (EVENT_HEADER_SIZE + length nb - EVENT_HEADER_SIZE) with (length nb) by lia.
      unfold record_bytes, name_bytes. rewrite Hname. fold nb. simpl. rewrite drop_0, take_app_length. done. }
    unfold nb. rewrite position_zero_padded by done. rewrite take_app_length.
    by rewrite from_utf8_lossy_valid.
  - done.
Qed.

Lemma parse_loop_records rs fuel buffer front junk rest result :
  Forall record_ok rs → InotifyEvent.from junk = Err NotEnoughBytes →
  buffer = front ++ concat (record_bytes <$> rs) ++ junk ++ rest → length rs < fuel →
  parse_loop fuel buffer (length (front ++ concat (record_bytes <$> rs) ++ junk)) (length front) result =
  Ok (result ++ (event_of <$> rs)).
Proof.
  intros HF Hj. revert fuel front result. induction HF as [|r rs Hr _ IH]; intros [|fuel] front result Hb Hf;
    simpl in Hf; try lia; cbn [parse_loop]; rewrite range_Some by (rewrite ?Hb, ?length_app; lia);
    rewrite Hb, drop_app_length.
  - simpl. rewrite length_app, Nat.add_comm, Nat.add_sub, take_app_length, Hj. by rewrite app_nil_r.
  - cbn [fmap list_fmap concat]. rewrite <- !app_assoc.
    replace (length (front ++ _) - length front) with
      (length (record_bytes r ++ concat (record_bytes <$> rs) ++ junk)) by (rewrite !length_app; lia).
    assert (record_bytes r ++ concat (record_bytes <$> rs) ++ junk ++ rest =
      (record_bytes r ++ concat (record_bytes <$> rs) ++ junk) ++ rest) as Hass by (by rewrite <- !app_assoc).
    rewrite Hass at 1. rewrite take_app_length, from_record by done.
    specialize (IH fuel (front ++ record_bytes r) (result ++ [event_of r])).
    cbn [fmap list_fmap concat] in Hb. rewrite <- (app_assoc (record_bytes r)) in Hb. rewrite <- Hb.
    rewrite <- !app_assoc, (length_app front (record_bytes r)) in IH. by apply IH; [|lia].
Qed.

Lemma records_count rs : length rs ≤ length (concat (record_bytes <$> rs)).
Proof.
  induction rs as [|r rs IH]; [done|]. cbn [fmap list_fmap concat length].
  rewrite length_app. unfold record_bytes at 1. rewrite !length_app. simpl. lia.
Qed.

Lemma parse_events_all rs rest :
  Forall record_ok rs →
  parse_events (concat (record_bytes <$> rs) ++ rest) (length (concat (record_bytes <$> rs))) =
  Ok (event_of <$> rs).
Proof.
  intros HF. pose proof (parse_loop_records rs (S (length (concat (record_bytes <$> rs)))) _ [] [] rest []
    HF eq_refl eq_refl) as Hp.
  pose proof (records_count rs). rewrite app_nil_r in Hp. apply Hp. lia.
Qed.

(** The loop ends on every buffer, well-formed or not: a decoded event takes up a header
    at least, and what is left gets shorter. *)
Lemma from_takes bytes :
  match InotifyEvent.from bytes with
  | Ok (_, n) => EVENT_HEADER_SIZE ≤ n ≤ length bytes
  | Err _ => True
  | Stop h => h = Panicked
  end.
Proof.
  unfold InotifyEvent.from.
  repeat case_match; simplify_eq; try done;
    repeat match goal with H : (_ <? _) = false |- _ => apply Nat.ltb_ge in H end;
    unfold EVENT_HEADER_SIZE in *; lia.
Qed.

Lemma parse_loop_ends fuel buffer bytes_read offset result :
  offset ≤ bytes_read < offset + fuel → parse_loop fuel buffer bytes_read offset result ≠ Stop OutOfFuel.
Proof.
  revert offset result. induction fuel as [|fuel IH]; intros offset result Hf; cbn [parse_loop].
  { lia. }
  destruct (range offset bytes_read buffer) as [bytes|] eqn:Hr; [|done].
  assert (length bytes ≤ bytes_read - offset).
  { unfold range in Hr. case_match; simplify_eq. rewrite length_take. lia. }
  pose proof (from_takes bytes) as Ht.
  destruct (InotifyEvent.from bytes) as [[e n]|[]|h]; [|done|by subst].
  apply IH. unfold EVENT_HEADER_SIZE in Ht. lia.
Qed.

Lemma parse_events_ends buffer bytes_read : parse_events buffer bytes_read ≠ Stop OutOfFuel.
Proof. apply parse_loop_ends. lia. Qed.

(** C29: what the kernel writes is read back: from a buffer with any number of whole records,
    their names UTF-8, perhaps followed by an incomplete one, [parse_events] gives exactly their events, in
    order, with their names, and drops the incomplete record. *)
Theorem parse_events_records (rs : list KernelRecord) (junk rest : list byte) :
  Forall record_ok rs → InotifyEvent.from junk = Err NotEnoughBytes →
  parse_events (concat (record_bytes <$> rs) ++ junk ++ rest)
    (length (concat (record_bytes <$> rs) ++ junk)) = Ok (event_of <$> rs).
Proof.
  intros HF Hj. apply (parse_loop_records rs _ _ [] junk rest []); [done..|].
  rewrite length_app. pose proof (records_count rs). lia.
Qed.

Definition sample_records : list KernelRecord :=
  [mkRecord 1 IN_CLOSE_WRITE 0 (Some (str "10.0.0.1.nbd", 3)); mkRecord 1 IN_DELETE 0 None].

Lemma sample_records_ok : Forall record_ok sample_records.
Proof.
  by repeat constructor.
Qed.

Lemma parse_events_records_witness :
  parse_events (concat (record_bytes <$> sample_records) ++ [zero; zero] ++ replicate 10 zero)
    (length (concat (record_bytes <$> sample_records) ++ [zero; zero])) =
  Ok [InotifyEvent.mk IN_CLOSE_WRITE (Some (str "10.0.0.1.nbd")); InotifyEvent.mk IN_DELETE None].
Proof.
  exact (parse_events_records sample_records [zero; zero] (replicate 10 zero) sample_records_ok eq_refl).
Defined.

(** ** From the kernel to the server's loop *)

Lemma push_all_queue events (q : SharedQueue.t InotifyEvent.t) :
  SharedQueue.queue (foldl (λ q e, (tx_push e q).2) q events) = SharedQueue.queue q ++ events.
Proof.
  revert q. induction events as [|e events IH]; intros q; simpl; [by rewrite app_nil_r|].
  rewrite IH. simpl. by rewrite <- app_assoc.
Qed.

(** What one read takes from the kernel. *)
Definition batch_fits (buffer : list byte) (rs : list KernelRecord) : Prop :=
  Forall record_ok rs ∧ rs ≠ [] ∧ length (concat (record_bytes <$> rs)) ≤ length buffer.

Lemma record_bytes_cons r rs : concat (record_bytes <$> r :: rs) ≠ [].
Proof. intros E%(f_equal length). simpl in E. discriminate. Qed.

Lemma read_round_records rs buffer (q : SharedQueue.t InotifyEvent.t) :
  batch_fits buffer rs →
  ∃ buffer' q', read_round (ReadBytes (concat (record_bytes <$> rs))) buffer q = (Ok (Some buffer'), q') ∧
    length buffer' = length buffer ∧ SharedQueue.queue q' = SharedQueue.queue q ++ (event_of <$> rs).
Proof.
  intros (Hrs & Hn & Hf). set (bytes := concat (record_bytes <$> rs)) in *.
  assert (bytes ≠ []) as Hb by (destruct rs; [done|apply record_bytes_cons]).
  exists (bytes ++ drop (length bytes) buffer), (foldl (λ q e, (tx_push e q).2) q (event_of <$> rs)).
  split; [|split; [rewrite length_app, length_drop; lia|apply push_all_queue]].
  unfold read_round. destruct bytes as [|b bs] eqn:E; [done|]. rewrite <- E in *.
  rewrite Nat.min_l, take_ge by done.
  pose proof (parse_events_all rs (drop (length bytes) buffer) Hrs) as Hparse. fold bytes in Hparse.
  by rewrite Hparse.
Qed.

(** Every batch of records that is read ends up, in order, at the end of the channel, and
    the reader goes on; an event for which a change was watched counts as a modification,
    so the server is told the name of every configuration file that was written or moved
    in. *)
Theorem read_loop_delivers (batches : list (list KernelRecord)) (buffer : list byte)
    (q : SharedQueue.t InotifyEvent.t) :
  Forall (Forall record_ok) batches → Forall (λ rs, rs ≠ []) batches →
  Forall (λ rs, length (concat (record_bytes <$> rs)) ≤ length buffer) batches →
  ∃ q', read_loop (ReadBytes <$> ((λ rs, concat (record_bytes <$> rs)) <$> batches)) buffer q = (Ok tt, q') ∧
    SharedQueue.queue q' = SharedQueue.queue q ++ (event_of <$> concat batches) ∧
    ∀ r, Z.land (r_mask r) (Watch.change Watch.new) ≠ 0%Z → (0 ≤ r_mask r)%Z →
         InotifyEvent.is_modify (event_of r) = true.
Proof.
  intros Hok Hne Hfit.
  enough (∃ q', read_loop (ReadBytes <$> ((λ rs, concat (record_bytes <$> rs)) <$> batches)) buffer q = (Ok tt, q') ∧
    SharedQueue.queue q' = SharedQueue.queue q ++ (event_of <$> concat batches)) as (q' & ? & ?).
  { exists q'. split; [done|]. split; [done|]. intros r Hr Hp.
    unfold InotifyEvent.is_modify. apply Z.ltb_lt.
    change (Z.lor IN_MOVED_TO IN_CLOSE_WRITE) with (Watch.change Watch.new).
    assert (0 ≤ Z.land (r_mask r) (Watch.change Watch.new))%Z by (apply Z.land_nonneg; by left).
    simpl. lia. }
  revert buffer q Hfit. induction batches as [|rs batches IH]; intros buffer q Hfit.
  { exists q. by rewrite app_nil_r. }
  apply Forall_cons in Hok as [Hrs Hok]. apply Forall_cons in Hne as [Hn Hne].
  apply Forall_cons in Hfit as [Hf Hfit]. rewrite !fmap_cons. cbn [read_loop].
  destruct (read_round_records rs buffer q) as (buffer' & q1 & -> & Hl & Hq1); [done|].
  destruct (IH Hok Hne buffer' q1) as (q' & Hrun & Hq); [by rewrite Hl|].
  exists q'. split; [exact Hrun|]. rewrite Hq, Hq1. cbn [concat].
  by rewrite fmap_app, app_assoc.
Qed.

Lemma read_loop_delivers_witness :
  ∃ q', read_loop [ReadBytes (concat (record_bytes <$> sample_records));
                   ReadBytes (concat (record_bytes <$> sample_records))] (replicate 100 zero) SharedQueue.new =
        (Ok tt, q') ∧
    SharedQueue.queue q' = [] ++ (event_of <$> concat [sample_records; sample_records]) ∧
    ∀ r, Z.land (r_mask r) (Watch.change Watch.new) ≠ 0%Z → (0 ≤ r_mask r)%Z →
         InotifyEvent.is_modify (event_of r) = true.
Proof.
  apply (read_loop_delivers [sample_records; sample_records] (replicate 100 zero) SharedQueue.new).
  - constructor; [exact sample_records_ok|]. constructor; [exact sample_records_ok|constructor].
  - by repeat constructor.
  - assert (length (concat (record_bytes <$> sample_records)) = 48) as Hl by reflexivity.
    repeat constructor; rewrite Hl, length_replicate; lia.
Defined.
