(* ===== verification/Main.v ===== *)
(** * Main: src/src/main.rs

    The program: a socket is bound, a server set up over it and the directory of
    configurations watched; then the main task waits for an interrupt, a timer, a datagram or
    a file event, beside the task that reads the events from the kernel.  Each of these is a
    step of the system, in any order. *)

From S2P Require Import Prelude Text Cursor Errors Fs Options Messages Net Window Session Transfer Delivery Negotiation Paths LocalFs GuestFs RemoteFs NbdDisk PeerHandler Server Channel FsWatch.

Module Args.

Record t : Type := mk {
  listen_ip : rstring;
  listen_port : Z;
  root_dir : rstring;
  monitor_configs : bool;
  idle_timeout : Z;
}.

End Args.

Inductive ExitCode : Type := SUCCESS | FAILURE.

(** What the operating system and the runtime answer when the program starts and ends. *)
Class Platform : Type := {
  bind : rstring → Z → res ErrorKind UdpSocket.t;
  inotify_init1 : Z;
  inotify_add_watch : Z → rstring → Z → Z;
  inotify_rm_watch : Z → Z → Z;
  last_os_error : ErrorKind;
  async_fd : option ErrorKind;
}.

(** What wakes the main task, or, for [ReaderRuns], the task that reads file events. *)
Inductive wake : Type :=
| CtrlC
| TimerExpires (now : Z)
| DatagramArrives (now : Z) (payload : list byte) (remote : SocketAddr)
| SocketFails (now : Z) (kind : ErrorKind)
| FileEvent (now : Z)
| ReaderRuns (r : watch_read).

(** The waker of the main task. *)
Definition main_waker : nat := 0.

Section main.
Context {H : Type} `{libguestfs H} `{DebugStr} `{FileSystem} `{HashMapCapacity} `{IpText} `{Platform}.
Context {Value : Type} `{ENV : Environment Value} (from_value : Value → option NBDConfig.t) (debug : bool).

(** [observer] is there if configurations are monitored. *)
Record System : Type := mkSystem {
  tftp : TFTPServer H;
  observer : option INotifyObserver.t;
}.

(** After the [select!]: the observer is dropped at the end of its block, the server when
    the function returns. *)
Definition leave (s : System) : res Empty_set (option ExitCode) * System :=
  let observer' := (λ o, (INotifyObserver.drop_observer inotify_rm_watch o).2) <$> observer s in
  match drop_server (tftp s) with
  | (Ok _, t) => (Ok (Some SUCCESS), mkSystem t observer')
  | (Err e, t) => match e with end
  | (Stop h, t) => (Stop h, mkSystem t observer')
  end.

(** A round of the server's loop inside the [select!]: when the loop returns, the program
    ends; when it panics, so does the program. *)
Definition after_round (o : option INotifyObserver.t) (p : option (res ErrorKind unit * TFTPServer H))
  : option (res Empty_set (option ExitCode) * System) :=
  match p with
  | None => None
  | Some (Ok _, t) => Some (Ok None, mkSystem t o)
  | Some (Err _, t) => Some (leave (mkSystem t o))
  | Some (Stop h, t) => Some (Stop h, mkSystem t o)
  end.

(** [Ok None]: the program goes on.  [None]: the step has to wait, for room in the channel of
    a handler, or cannot be, without an observer. *)
Definition on_wake (w : wake) (s : System) : option (res Empty_set (option ExitCode) * System) :=
  let round now e o := after_round o (serve_round from_value debug now e (tftp s)) in
  match w with
  | CtrlC => Some (leave s)
  | TimerExpires now => round now Turn (observer s)
  | DatagramArrives now payload remote => round now (Received payload remote) (observer s)
  | SocketFails now kind => round now (ReadError kind) (observer s)
  | FileEvent now =>
      o ← observer s;
      match next main_waker o with
      | (Ready event, o') => round now (ConfigChanged (file_name event) (is_modify event)) (Some o')
      | (Pending, o') => Some (Ok None, mkSystem (tftp s) (Some o'))
      end
  | ReaderRuns r =>
      o ← observer s;
      Some (Ok None, mkSystem (tftp s) (Some (INotifyObserver.run_reader r o)))
  end.

Fixpoint run_main (wakes : list wake) (s : System) : option (res Empty_set (option ExitCode) * System) :=
  match wakes with
  | [] => Some (Ok None, s)
  | w :: wakes' =>
      match on_wake w s with
      | Some (Ok None, s') => run_main wakes' s'
      | r => r
      end
  end.

(** Before the [select!]; [inl] is an early return. *)
Definition start (args : Args.t) : res Empty_set (ExitCode + System) :=
  match bind (Args.listen_ip args) (Args.listen_port args) with
  | Stop h => Stop h
  | Err _ => Ok (inl FAILURE)
  | Ok socket =>
      let server := new_server socket (Args.root_dir args) (Args.idle_timeout args) in
      if Args.monitor_configs args then
        let monitor_directory := from_utf8_lossy (Args.root_dir args) in
        match Watch.observe (Watch.change Watch.new) monitor_directory inotify_init1 inotify_add_watch
                last_os_error async_fd with
        | (Ok watch, _) => Ok (inr (mkSystem server (Some watch)))
        | (Err _, _) => Ok (inl FAILURE)
        | (Stop h, _) => Stop h
        end
      else Ok (inr (mkSystem server None))
  end.

(** [async_main] for the wakes to come; the exit code, if it ends with them, and the system
    it leaves, if there was one. *)
Definition async_main (args : Args.t) (wakes : list wake)
  : option (res Empty_set (option ExitCode) * option System) :=
  match start args with
  | Stop h => Some (Stop h, None)
  | Err e => match e with end
  | Ok (inl code) => Some (Ok (Some code), None)
  | Ok (inr s) => (λ r, (r.1, Some r.2)) <$> run_main wakes s
  end.

(** What is reported of the device that libguestfs would like to use. *)
Definition warn_if_kvm_unavailable : option ErrorKind :=
  match os_open (str "/dev/kvm") with Err error => Some error | _ => None end.

(** [main]: the warning, and [async_main] on a runtime of one thread. *)
Definition main (args : Args.t) (wakes : list wake)
  : option ErrorKind * option (res Empty_set (option ExitCode) * option System) :=
  (warn_if_kvm_unavailable, async_main args wakes).

End main.
#[global] Arguments System H : clear implicits.

(** ** Shutting down *)

Section shutdown.
Context {H : Type} `{libguestfs H} `{DebugStr} `{FileSystem} `{HashMapCapacity} `{IpText} `{Platform}.

Definition roots_opened (h : PeerHandler H) : Prop := ∃ roots, peer_roots h = Ok roots.

Lemma join_handler_cases h (s : TFTPServer H) :
  (roots_opened h ∧ join_handler h s = (Ok tt, with_joined s (joined s ++ [without_sender h]))) ∨
  (¬ roots_opened h ∧ ∃ p, join_handler h s = (Stop p, s)).
Proof.
  unfold join_handler, shutdown, roots_opened.
  destruct (peer_roots h) as [roots|[]|p]; [left; eauto|right; split; [by intros [? ?]|eauto]].
Qed.

(** The handlers are joined one by one, up to the first whose thread panicked. *)
Lemma join_all_spec handlers (s : TFTPServer H) :
  ∃ before after, handlers = before ++ after ∧ Forall roots_opened before ∧
    let s' := with_joined s (joined s ++ (without_sender <$> before)) in
    (after = [] ∧ join_all handlers s = (Ok tt, s') ∨
     ∃ h after' p, after = h :: after' ∧ ¬ roots_opened h ∧ join_all handlers s = (Stop p, s')).
Proof.
  revert s. induction handlers as [|h handlers IH]; intros s; cbn [join_all].
  - exists [], []. split_and!; [done..|left]. simpl. rewrite app_nil_r. by destruct s.
  - destruct (join_handler_cases h s) as [[Hh ->]|[Hh [p ->]]].
    + destruct (IH (with_joined s (joined s ++ [without_sender h]))) as (before & after & -> & HF & Hr).
      exists (h :: before), after. split; [done|]. split; [by constructor|].
      simpl in Hr. rewrite <- app_assoc in Hr. exact Hr.
    + exists [], (h :: handlers). split; [done|]. split; [done|]. right. exists h, handlers, p.
      simpl. rewrite app_nil_r. split_and!; [done..|by destruct s].
Qed.

Definition handlers_of (s : TFTPServer H) : list (PeerHandler H) := (map_to_list (peer_handlers s)).*2.

Lemma leave_spec (s : System H) :
  let '(r, s') := leave s in
  let observer' := (λ o, (INotifyObserver.drop_observer inotify_rm_watch o).2) <$> observer s in
  peer_handlers (tftp s') = ∅ ∧ observer s' = observer' ∧
  (Forall roots_opened (handlers_of (tftp s)) ∧ r = Ok (Some SUCCESS) ∧
     joined (tftp s') = joined (tftp s) ++ (without_sender <$> handlers_of (tftp s)) ∨
   ¬ Forall roots_opened (handlers_of (tftp s)) ∧ ∃ p, r = Stop p).
Proof.
  unfold leave, drop_server, handlers_of.
  destruct (join_all_spec (map_to_list (peer_handlers (tftp s))).*2 (with_handlers (tftp s) ∅))
    as (before & after & E & HF & [(-> & ->)|(h & after' & p & -> & Hh & ->)]); rewrite E; simpl.
  - split; [done|]. split; [done|]. left. rewrite app_nil_r. auto.
  - split; [done|]. split; [done|]. right. split; [|by exists p].
    intros (_ & [Hh' _]%Forall_cons)%Forall_app. done.
Qed.

End shutdown.

(** C20: an interrupt, at any time, ends the program in good order: the reading of file events
    is stopped, the table of handlers is emptied, each of its handlers has lost its sender
    and was joined, and the exit code is a success; unless the thread of one of the
    handlers panicked on its configuration, and then so does the program. *)
Theorem interrupt_shuts_down {H} `{libguestfs H} `{DebugStr} `{FileSystem} `{HashMapCapacity} `{IpText}
    `{Platform} {Value : Type} `{ENV : Environment Value} (from_value : Value → option NBDConfig.t)
    (debug : bool) (s : System H) :
  ∃ r s', run_main from_value debug [CtrlC] s = Some (r, s') ∧
    peer_handlers (tftp s') = ∅ ∧
    (∀ o buffer, observer s' = Some o → INotifyObserver.join_handle o ≠ Reading buffer) ∧
    ((∀ addr h, peer_handlers (tftp s) !! addr = Some h → roots_opened h) →
       r = Ok (Some SUCCESS) ∧
       ∀ addr h, peer_handlers (tftp s) !! addr = Some h → without_sender h ∈ joined (tftp s')) ∧
    (¬ (∀ addr h, peer_handlers (tftp s) !! addr = Some h → roots_opened h) → ∃ p, r = Stop p).
Proof.
  pose proof (leave_spec s) as Hl. destruct (leave s) as [r s'] eqn:E. destruct Hl as (Hph & Ho & Hr).
  assert (∀ P : PeerHandler H → Prop, Forall P (handlers_of (tftp s)) ↔
    ∀ addr h, peer_handlers (tftp s) !! addr = Some h → P h) as HF.
  { intros P. unfold handlers_of. rewrite Forall_fmap.
    change (∀ addr h, peer_handlers (tftp s) !! addr = Some h → P h) with
      (map_Forall (λ _ h, P h) (peer_handlers (tftp s))).
    rewrite map_Forall_to_list. apply Forall_iff. by intros []. }
  exists r, s'. split; [|split; [done|split; [|split]]].
  - cbn [run_main on_wake]. rewrite E. by destruct r as [[code|]|[]|h];
      [|exfalso; destruct Hr as [(_ & ? & _)|(_ & p & ?)]|].
  - intros o buffer Hs' Hread. rewrite Ho in Hs'. apply fmap_Some in Hs' as (o0 & _ & ->).
    unfold INotifyObserver.drop_observer in Hread. simpl in Hread. by destruct (INotifyObserver.join_handle o0).
  - intros Hall%HF. destruct Hr as [(_ & -> & Hj)|(? & _)]; [|done]. split; [done|].
    rewrite Hj. apply HF, Forall_forall. intros h Hh. apply elem_of_app. right. by apply list_elem_of_fmap_2.
  - intros Hn. destruct Hr as [(Hall & _)|(_ & p & ->)]; [|by exists p]. by rewrite HF in Hall.
Qed.

(** ** From the kernel's records to the server's loop *)

(** The main task and the reading task, with the records the kernel hands over: a batch is
    read, the loop takes an event, or serves anything else. *)
Inductive move : Type :=
| Batch (records : list KernelRecord)
| Take (now : Z)
| Serve (now : Z) (payload : list byte) (remote : SocketAddr)
| Expire (now : Z)
| Lose (now : Z) (kind : ErrorKind).

Definition wake_of (m : move) : wake :=
  match m with
  | Batch records => ReaderRuns (ReadBytes (concat (record_bytes <$> records)))
  | Take now => FileEvent now
  | Serve now payload remote => DatagramArrives now payload remote
  | Expire now => TimerExpires now
  | Lose now kind => SocketFails now kind
  end.

(** The specification: the reading task, its buffer, the parser and the channel are a queue of
    records; what is left is the loop [Server.serve] over the events it hands out. *)
Fixpoint served_events (moves : list move) (pending : list KernelRecord) : list (Z * Server.Event) :=
  match moves, pending with
  | [], _ => []
  | Batch records :: moves', _ => served_events moves' (pending ++ records)
  | Take now :: moves', [] => served_events moves' []
  | Take now :: moves', r :: pending' =>
      (now, ConfigChanged (file_name (event_of r)) (is_modify (event_of r)))
        :: served_events moves' pending'
  | Serve now payload remote :: moves', _ => (now, Received payload remote) :: served_events moves' pending
  | Expire now :: moves', _ => (now, Turn) :: served_events moves' pending
  | Lose now kind :: moves', _ => (now, ReadError kind) :: served_events moves' pending
  end.

Fixpoint unserved (moves : list move) (pending : list KernelRecord) : list KernelRecord :=
  match moves with
  | [] => pending
  | Batch records :: moves' => unserved moves' (pending ++ records)
  | Take _ :: moves' => unserved moves' (tl pending)
  | _ :: moves' => unserved moves' pending
  end.

Definition move_ok (m : move) : Prop :=
  match m with Batch records => batch_fits (replicate EVENT_BUFFER_SIZE zero) records | _ => True end.

(** An observer whose channel holds the events of [pending]. *)
Definition observes (o : INotifyObserver.t) (pending : list KernelRecord) : Prop :=
  ∃ buffer, INotifyObserver.join_handle o = Reading buffer ∧ length buffer = EVENT_BUFFER_SIZE ∧
    SharedQueue.queue (INotifyObserver.rx o) = event_of <$> pending.

Lemma observes_batch o pending records :
  observes o pending → batch_fits (replicate EVENT_BUFFER_SIZE zero) records →
  observes (INotifyObserver.run_reader (ReadBytes (concat (record_bytes <$> records))) o) (pending ++ records).
Proof.
  intros (buffer & Hj & Hl & Hq) (Hok & Hne & Hfit). rewrite length_replicate in Hfit.
  destruct (read_round_records records buffer (INotifyObserver.rx o)) as (buffer' & q' & Hr & Hl' & Hq');
    [split; [done|]; split; [done|by rewrite Hl]|].
  unfold INotifyObserver.run_reader. rewrite Hj, Hr. exists buffer'. simpl.
  split; [done|]. split; [congruence|]. by rewrite Hq', Hq, fmap_app.
Qed.

Lemma observes_next w o pending :
  observes o pending →
  ∃ o', next w o =
          (match pending with r :: _ => Ready (event_of r) | [] => Pending end, o') ∧ observes o' (tl pending).
Proof.
  intros (buffer & Hj & Hl & Hq). simpl. unfold INotifyObserver.next, poll, SharedQueue.pop_nowait. rewrite Hq.
  destruct pending as [|r pending]; simpl; eexists; (split; [done|]); by exists buffer.
Qed.

Section composition.
Context {H : Type} `{libguestfs H} `{DebugStr} `{FileSystem} `{HashMapCapacity} `{IpText} `{Platform}.
Context {Value : Type} `{ENV : Environment Value} (from_value : Value → option NBDConfig.t) (debug : bool).

(** What the end of the loop makes of the program. *)
Definition concluded (p : option (res ErrorKind unit * TFTPServer H)) (pending : list KernelRecord)
    (r : option (res Empty_set (option ExitCode) * System H)) : Prop :=
  match p with
  | None => r = None
  | Some (Ok _, t) => ∃ o, r = Some (Ok None, mkSystem t (Some o)) ∧ observes o pending
  | Some (Err _, t) => ∃ o, r = Some (leave (mkSystem t (Some o)))
  | Some (Stop h, t) => ∃ o, r = Some (Stop h, mkSystem t (Some o))
  end.

Lemma leave_ends (s : System H) :
  match Some (leave s) with
  | Some (Ok None, s') => False
  | _ => True
  end.
Proof. unfold leave. by destruct (drop_server _) as [[[]|[]|h] t]. Qed.

(** A round of the loop, and then the rest. *)
Lemma concluded_round now e events o moves pending t :
  (∀ t', concluded (serve from_value debug events t') pending
           (run_main from_value debug moves (mkSystem t' (Some o)))) →
  concluded (serve from_value debug ((now, e) :: events) t) pending
    (match after_round (Some o) (serve_round from_value debug now e t) with
     | Some (Ok None, s') => run_main from_value debug moves s'
     | r => r
     end).
Proof.
  intros Hrest. cbn [serve].
  destruct (serve_round _ _ _ _ _) as [[[u|k|h] t']|]; simpl; [apply Hrest| |by eexists|done].
  exists o. pose proof (leave_ends (mkSystem t' (Some o))) as Hl.
  by destruct (leave _) as [[[code|]|[]|h] s'].
Qed.

Lemma run_main_serves moves : ∀ pending o t,
  Forall move_ok moves → observes o pending →
  concluded (serve from_value debug (served_events moves pending) t) (unserved moves pending)
    (run_main from_value debug (wake_of <$> moves) (mkSystem t (Some o))).
Proof.
  induction moves as [|m moves IH]; intros pending o t HF Ho; [by exists o|].
  apply Forall_cons in HF as [Hm HF]. rewrite fmap_cons. cbn [run_main].
  destruct m as [records|now|now payload remote|now|now kind]; cbn [served_events unserved wake_of on_wake].
  - simpl. apply IH; [done|]. by apply observes_batch.
  - cbn [mbind option_bind observer]. destruct (observes_next main_waker o pending Ho) as (o' & -> & Ho').
    destruct pending as [|r pending]; [by apply IH|]. apply concluded_round. auto.
  - destruct pending; apply concluded_round; auto.
  - destruct pending; apply concluded_round; auto.
  - destruct pending; apply concluded_round; auto.
Qed.

Lemma run_main_exit wakes (s s' : System H) code :
  run_main from_value debug wakes s = Some (Ok (Some code), s') → code = SUCCESS ∧ peer_handlers (tftp s') = ∅.
Proof.
  assert (∀ s0, leave s0 = (Ok (Some code), s') → code = SUCCESS ∧ peer_handlers (tftp s') = ∅) as Hleave.
  { intros s0 E. pose proof (leave_spec s0) as Hl. rewrite E in Hl.
    destruct Hl as (Hph & _ & [(_ & [= ->] & _)|(_ & p & ?)]); done. }
  assert (∀ o p, after_round o p = Some (Ok (Some code), s') → code = SUCCESS ∧ peer_handlers (tftp s') = ∅) as Hround.
  { intros o [[[u|k|h] t]|]; simpl; try done. intros [= E]. by eapply Hleave. }
  revert s. induction wakes as [|w wakes IH]; intros s; cbn [run_main]; [done|].
  destruct (on_wake from_value debug w s) as [[[[c|]|[]|h] s1]|] eqn:E; [|apply IH|done..].
  intros [= -> ->]. destruct w; cbn [on_wake] in E; try by eapply Hround.
  - injection E as E. by eapply Hleave.
  - apply bind_Some in E as (o & _ & E). destruct (next _ _) as [[event|] o']; [|done].
    by eapply Hround.
  - by apply bind_Some in E as (o & _ & E).
Qed.

End composition.

(** C7: the program is the server's loop over the kernel's file events.  Started with monitoring,
    and however the reading of events, the taking of them, the requests and the timer are
    interleaved, as long as file names are UTF-8: the parser, the reading task, the channel and its waker do nothing but
    hand every record over, once and in the order of the kernel, to the loop, which acts on
    it as on an event of its own. *)
Theorem main_refines_serve {H} `{libguestfs H} `{DebugStr} `{FileSystem} `{HashMapCapacity} `{IpText}
    `{Platform} {Value : Type} `{ENV : Environment Value} (from_value : Value → option NBDConfig.t)
    (debug : bool) (args : Args.t) (s : System H) (moves : list move) :
  Args.monitor_configs args = true → start args = Ok (inr s) → Forall move_ok moves →
  concluded (serve from_value debug (served_events moves []) (tftp s)) (unserved moves [])
    (run_main from_value debug (wake_of <$> moves) s).
Proof.
  intros Hm Hs HF. unfold start in Hs. destruct (bind _ _) as [socket|k|h]; [|done..]. rewrite Hm in Hs.
  unfold Watch.observe in Hs. repeat case_match; simplify_eq. apply run_main_serves; [done|].
  exists (replicate EVENT_BUFFER_SIZE zero). by rewrite length_replicate.
Qed.

(** C27: the exit code before the server runs: a failure exactly when the socket cannot be bound
    or the directory cannot be watched, and then no server is left behind; with a program
    that got as far as its loop the code is a success, whatever ended it. *)
Theorem exit_codes {H} `{libguestfs H} `{DebugStr} `{FileSystem} `{HashMapCapacity} `{IpText}
    `{Platform} {Value : Type} `{ENV : Environment Value} (from_value : Value → option NBDConfig.t)
    (debug : bool) (args : Args.t) (wakes : list wake) (code : ExitCode) (left_behind : option (System H)) :
  async_main from_value debug args wakes = Some (Ok (Some code), left_behind) →
  (code = FAILURE ↔
     (∃ k, bind (Args.listen_ip args) (Args.listen_port args) = Err k) ∨
     (Args.monitor_configs args = true ∧
      ∃ k fds, Watch.observe (Watch.change Watch.new) (from_utf8_lossy (Args.root_dir args)) inotify_init1
        inotify_add_watch last_os_error async_fd = (Err k, fds))) ∧
  (code = SUCCESS ↔ ∃ s, left_behind = Some s ∧ peer_handlers (tftp s) = ∅).
Proof.
  unfold async_main, start. destruct (bind _ _) as [socket|k|h]; [|intros [= <- <-]|done].
  2: { split; split; try done; [by left; exists k|by intros [? [? _]]]. }
  destruct (Args.monitor_configs args) eqn:Hm;
    [destruct (Watch.observe _ _ _ _ _ _) as [[o|k|h] fds]; [|intros [= <- <-]|done]|].
  2: { split; split; try done; [right; eauto|by intros [? [? _]]]. }
  all: intros ([r s'] & Hrun & [= <- ->])%fmap_Some; apply run_main_exit in Hrun as [-> Hph].
  all: split; split; try done; [|intros _; by exists s'].
  - intros [[k Hk]|[_ (k & fds' & Hk)]]; done.
  - intros [[k Hk]|[Hk _]]; done.
Qed.

(** ** The hypotheses can hold *)

#[global] Instance sample_platform : Platform := {
  bind ip port := if decide (ip = str "10.0.0.254") then Ok (UdpSocket.mk [] [] []) else Err Other;
  inotify_init1 := 5%Z;
  inotify_add_watch fd directory mask := 1%Z;
  inotify_rm_watch fd wd := 0%Z;
  last_os_error := Other;
  async_fd := None;
}.

Definition sample_args : Args.t := Args.mk (str "10.0.0.254") 69 (str "/srv/tftp") true 30.

Definition sample_system : System toy :=
  mkSystem empty_server (Some (INotifyObserver.mk 5 1 (Reading (replicate EVENT_BUFFER_SIZE zero))
    SharedQueue.new (str "/srv/tftp"))).

Lemma sample_start : start sample_args = Ok (inr sample_system).
Proof. reflexivity. Qed.

(** Two clients' configurations appear in one batch; a timer expires between the two. *)
Definition sample_batch : list KernelRecord :=
  [mkRecord 1 IN_CLOSE_WRITE 0 (Some (str "1234.nbd", 7)); mkRecord 1 IN_MOVED_TO 9 (Some (str "5678.nbd", 7))].

Definition sample_moves : list move := [Batch sample_batch; Take 1; Expire 2; Take 3; Take 4].

Definition both_served (p : option (res ErrorKind unit * TFTPServer toy)) : bool :=
  match p with
  | Some (Ok _, t) =>
      bool_decide (is_Some (peer_handlers t !! V4 1234)) && bool_decide (is_Some (peer_handlers t !! V4 5678))
  | _ => false
  end.

Lemma main_refines_serve_witness :
  ∃ t o, run_main no_config true (wake_of <$> sample_moves) sample_system =
    Some (Ok None, mkSystem t (Some o)) ∧ observes o [] ∧
    is_Some (peer_handlers t !! V4 1234) ∧ is_Some (peer_handlers t !! V4 5678).
Proof.
  assert (Forall move_ok sample_moves) as HF.
  { by repeat constructor. }
  pose proof (main_refines_serve no_config true sample_args sample_system sample_moves eq_refl sample_start HF) as Hc.
  assert (both_served (serve no_config true (served_events sample_moves []) (tftp sample_system)) = true) as Hb
    by (by vm_compute).
  destruct (serve no_config true (served_events sample_moves []) (tftp sample_system)) as [[[u|k|h] t]|];
    [|discriminate..].
  destruct Hc as (o & Hrun & Ho). exists t, o. apply andb_prop in Hb as [H1%bool_decide_eq_true H2%bool_decide_eq_true].
  by split_and!.
Defined.

(** An interrupt while a client's handler opens its roots. *)
Lemma interrupt_shuts_down_witness :
  let s := mkSystem (with_handlers empty_server
             {[ V4 1234 := PeerHandler_new no_config true 1 (V4 1234) (str "/srv/tftp") ]})
             (observer sample_system) in
  ∃ r s', run_main no_config true [CtrlC] s = Some (r, s') ∧ r = Ok (Some SUCCESS) ∧
    without_sender (PeerHandler_new no_config true 1 (V4 1234) (str "/srv/tftp")) ∈ joined (tftp s').
Proof.
  intros s. destruct (interrupt_shuts_down no_config true s) as (r & s' & Hrun & _ & _ & Hok & _).
  destruct Hok as [Hr Hj].
  - intros addr h Hh. change (peer_handlers (tftp s)) with
      ({[ V4 1234 := PeerHandler_new no_config true 1 (V4 1234) (str "/srv/tftp") ]} : gmap IpAddr (PeerHandler toy)) in Hh.
    apply lookup_singleton_Some in Hh as [_ <-]. by eexists.
  - exists r, s'. split; [exact Hrun|]. split; [exact Hr|]. apply (Hj (V4 1234)). apply lookup_singleton_eq.
Defined.

Lemma exit_codes_witness :
  let args := Args.mk (str "10.0.0.1") 69 (str "/srv/tftp") true 30 in
  async_main (H := toy) no_config true args [] = Some (Ok (Some FAILURE), None) ∧
  ¬ (FAILURE = SUCCESS) ∧ ∃ k, bind (Args.listen_ip args) (Args.listen_port args) = Err k.
Proof.
  intros args. assert (async_main (H := toy) no_config true args [] = Some (Ok (Some FAILURE), None)) as E by reflexivity.
  destruct (exit_codes no_config true args [] FAILURE None E) as [Hf _]. split; [exact E|]. split; [done|].
  destruct (proj1 Hf eq_refl) as [[k Hk]|(_ & k & fds & Hk)]; [by exists k|discriminate].
Defined.
