(* ===== verification/Program.v ===== *)
(** * Program: what holds while the program runs, src/src/main.rs

    Main gives the program as a function of what wakes it; the threads of the handlers run
    beside.  Here both are steps of one system.  Its projection to the server takes the steps
    of [Server.system_step], so that the server's invariant is one of the program. *)

From S2P Require Import Prelude Text Cursor Errors Fs Options Messages Net Window Session Transfer Delivery Negotiation Paths LocalFs GuestFs RemoteFs NbdDisk PeerHandler Server Channel FsWatch Main.

Section program.
Context {H : Type} `{libguestfs H} `{DebugStr} `{FileSystem} `{HashMapCapacity} `{IpText} `{Platform}.
Context {Value : Type} `{ENV : Environment Value} (from_value : Value → option NBDConfig.t) (debug : bool).

(** The kernel gives ports of sixteen bits. *)
Definition wake_ok (w : wake) : Prop :=
  match w with DatagramArrives _ _ remote => is_u16 (port remote) | _ => True end.

(** The main task and the reading task, or the thread of a handler. *)
Inductive program_step : System H → System H → Prop :=
| program_wake w s s' :
    wake_ok w → on_wake from_value debug w s = Some (Ok None, s') → program_step s s'
| program_thread addr h t s :
    peer_handlers (tftp s) !! addr = Some h →
    thread_step (sender_address h) (peer_roots h) (max_idle_time (tftp s)) (thread h) t →
    program_step s (mkSystem (with_handlers (tftp s) (<[addr := with_thread h t]> (peer_handlers (tftp s))))
                      (observer s)).

(** The task that reads has its whole buffer, and the channel keeps the waker of the main
    task, and only while there is nothing to take. *)
Definition observer_ok (o : INotifyObserver.t) : Prop :=
  (∀ buffer, INotifyObserver.join_handle o = Reading buffer → length buffer = EVENT_BUFFER_SIZE) ∧
  (∀ w, SharedQueue.waker (INotifyObserver.rx o) = Some w →
     w = main_waker ∧ SharedQueue.queue (INotifyObserver.rx o) = []).

Record program_inv (monitored : bool) (s : System H) : Prop := mkProgramInv {
  pi_server : server_inv (tftp s);
  pi_monitored : is_Some (observer s) ↔ monitored = true;
  pi_observer : ∀ o, observer s = Some o → observer_ok o;
}.

Lemma after_round_goes_on o p (s' : System H) :
  after_round o p = Some (Ok None, s') → ∃ t, p = Some (Ok tt, t) ∧ s' = mkSystem t o.
Proof using All.
  destruct p as [[[[]|k|h] t]|]; simpl; [intros [= <-]; by exists t| |done..].
  intros E. pose proof (leave_ends (mkSystem t o)) as Hl. by destruct (leave _) as [[[]|[]|] ?]; simplify_eq.
Qed.

(** A step of the program is one of the server, or leaves the server alone. *)
Lemma program_step_server (s s' : System H) :
  program_step s s' → rtc (system_step from_value debug) (tftp s) (tftp s').
Proof using All.
  destruct 1 as [w s s' Hw He|addr h t s Hlk Ht]; [|by eapply rtc_once, system_thread].
  assert (∀ o now e, after_round o (serve_round from_value debug now e (tftp s)) = Some (Ok None, s') →
    match e with Received _ remote => is_u16 (port remote) | _ => True end →
    rtc (system_step from_value debug) (tftp s) (tftp s')) as Hround.
  { intros o now e (t & Hr & ->)%after_round_goes_on He'. by eapply rtc_once, system_serve. }
  destruct w as [|now|now payload remote|now kind|now|r]; cbn [on_wake] in He; try by eapply Hround.
  - pose proof (leave_ends s) as Hl. by destruct (leave s) as [[[]|[]|] ?]; simplify_eq.
  - apply bind_Some in He as (o & _ & He).
    destruct (next main_waker o) as [[event|] o']; [by eapply Hround|]. by injection He as <-.
  - apply bind_Some in He as (o & _ & He). by injection He as <-.
Qed.

Lemma tx_pushes_ok events (q : SharedQueue.t InotifyEvent.t) :
  events ≠ [] ∨ (∀ w, SharedQueue.waker q = Some w → w = main_waker ∧ SharedQueue.queue q = []) →
  ∀ w, SharedQueue.waker (foldl (λ q e, (tx_push e q).2) q events) = Some w →
    w = main_waker ∧ SharedQueue.queue (foldl (λ q e, (tx_push e q).2) q events) = [].
Proof.
  revert q. induction events as [|e events IH]; intros q Hq; simpl; [by destruct Hq|].
  apply IH. right. by intros w.
Qed.

Lemma run_reader_ok r (o : INotifyObserver.t) : observer_ok o → observer_ok (INotifyObserver.run_reader r o).
Proof.
  intros [Hb Hw]. unfold INotifyObserver.run_reader.
  destruct (INotifyObserver.join_handle o) as [buffer| | |] eqn:Hj; try (split; [by rewrite Hj|done]).
  specialize (Hb buffer eq_refl). unfold read_round.
  destruct r as [|[|b bytes]| |]; try (split; simpl; [by intros ? [= <-]|done]).
  cbv beta iota zeta. generalize (b :: bytes) as bs. intros bs. destruct (parse_events _ _) as [events|[]|h]; simpl; split; simpl; try done.
  - intros ? [= <-]. rewrite length_app, length_take, length_drop. lia.
  - apply tx_pushes_ok. by right.
Qed.

Lemma next_ok (o : INotifyObserver.t) :
  observer_ok o → observer_ok (next main_waker o).2.
Proof.
  intros [Hb Hw]. simpl. unfold INotifyObserver.next, poll, SharedQueue.pop_nowait.
  destruct (SharedQueue.queue (INotifyObserver.rx o)) as [|e q] eqn:Hq; split; simpl; try done.
  - by intros w [= <-].
  - intros w Hw'. by apply Hw in Hw' as [_ ?].
Qed.

(** What a step does to the observer. *)
Lemma program_step_observer (s s' : System H) :
  program_step s s' →
  observer s' = observer s ∨
  ∃ o, observer s = Some o ∧
    (observer s' = Some (next main_waker o).2 ∨ ∃ r, observer s' = Some (INotifyObserver.run_reader r o)).
Proof using All.
  destruct 1 as [w s s' _ He|]; [|by left].
  destruct w as [|now|now payload remote|now kind|now|r]; cbn [on_wake] in He;
    try (apply after_round_goes_on in He as (t & _ & ->); by left).
  - pose proof (leave_ends s) as Hl. by destruct (leave s) as [[[]|[]|] ?]; simplify_eq.
  - apply bind_Some in He as (o & Ho & He). right. exists o. split; [done|]. left.
    destruct (next main_waker o) as [[event|] o']; [|by injection He as <-].
    by apply after_round_goes_on in He as (t & _ & ->).
  - apply bind_Some in He as (o & Ho & He). right. exists o. split; [done|]. right. exists r. by injection He as <-.
Qed.

Lemma program_step_inv monitored (s s' : System H) :
  program_step s s' → program_inv monitored s → program_inv monitored s'.
Proof using All.
  intros Hst [Hs Hm Ho]. split.
  - pose proof (program_step_server _ _ Hst) as Hr. clear Hst Ho Hm. revert Hs.
    induction Hr; [done|]. eauto using system_step_inv.
  - destruct (program_step_observer _ _ Hst) as [->|(o & E & [->|[r ->]])]; [done|..]; rewrite <- Hm, E; done.
  - intros o1. destruct (program_step_observer _ _ Hst) as [->|(o & E & [->|[r ->]])]; [apply Ho|..];
      intros [= <-]; [by apply next_ok, Ho|by apply run_reader_ok, Ho].
Qed.

Lemma start_inv args (s : System H) :
  start args = Ok (inr s) → program_inv (Args.monitor_configs args) s.
Proof.
  unfold start. destruct (bind _ _) as [sock|k|h]; [|done..]. destruct (Args.monitor_configs args).
  - unfold Watch.observe. intros Hs. repeat case_match; simplify_eq.
    split; [apply new_server_inv|by split|]. intros o [= <-]. split; [|done].
    intros buffer Hb. injection Hb as Hb. by rewrite <- Hb.
  - intros [= <-]. split; [apply new_server_inv|by split; [intros []|]|done].
Qed.

Lemma reachable_program_inv args (s0 s : System H) :
  start args = Ok (inr s0) → rtc program_step s0 s → program_inv (Args.monitor_configs args) s.
Proof using All.
  intros Hs%start_inv Hr. revert Hs. induction Hr; [done|]. eauto using program_step_inv.
Qed.

(** A run of the main task alone. *)
Lemma run_main_reaches wakes (s s' : System H) :
  Forall wake_ok wakes → run_main from_value debug wakes s = Some (Ok None, s') → rtc program_step s s'.
Proof using All.
  intros HF. revert s. induction HF as [|w wakes Hw _ IH]; intros s; cbn [run_main]; [by intros [= <-]|].
  destruct (on_wake from_value debug w s) as [[[[code|]|[]|h] s1]|] eqn:E; try done.
  intros Hr. eapply rtc_l; [by eapply program_wake|]. by apply IH.
Qed.

End program.

(** C8: while the program runs, whatever it was started with and however its main task, its
    reading task and the threads of its handlers take turns: every handler is registered
    under the address it serves, can be fed, has at most ten requests queued, and each of its
    sessions talks to that address and to the port it is registered under; its channel is
    open exactly until its loop has been left, and if its thread has ended so have its
    sessions; handlers that were shut down have lost their sender; file events are observed exactly if that was asked
    for, the reading task keeps its whole buffer, and only the main task ever waits for
    an event, with nothing queued when it does. *)
Theorem program_invariant {H} `{libguestfs H} `{DebugStr} `{FileSystem} `{HashMapCapacity} `{IpText} `{Platform}
    {Value : Type} `{ENV : Environment Value} (from_value : Value → option NBDConfig.t) (debug : bool)
    (args : Args.t) (s0 s : System H) :
  start args = Ok (inr s0) → rtc (program_step from_value debug) s0 s →
  length (buffer (tftp s)) = buffer_size ∧
  Forall (λ h, sender_alive (thread h) = false) (joined (tftp s)) ∧
  (∀ addr h, peer_handlers (tftp s) !! addr = Some h →
    sender_address h = addr ∧ sender_alive (thread h) = true ∧ length (queue (thread h)) ≤ CHANNEL_SIZE ∧
    ∀ p session, send_sessions (thread h) !! p = Some session →
      DatagramStream.peer_address (stream (task_link (session_task session))) = SocketAddr_new addr p) ∧
  (∀ addr h, peer_handlers (tftp s) !! addr = Some h →
    (receiver_open (thread h) = true ↔
       phase (thread h) = Opening ∨ phase (thread h) = Serving ∨ phase (thread h) = Leaving) ∧
    (thread_finished (thread h) = true →
       map_Forall (λ _ session, is_finished session = true) (send_sessions (thread h)))) ∧
  (is_Some (observer s) ↔ Args.monitor_configs args = true) ∧
  (∀ o, observer s = Some o → observer_ok o).
Proof.
  intros Hs Hr. destruct (reachable_program_inv from_value debug args s0 s Hs Hr) as [Hinv Hm Ho].
  destruct (server_inv_facts _ Hinv) as (? & ? & ?). split_and!; try done.
  intros addr h Hlk. by destruct (si_handlers _ Hinv _ _ Hlk) as (_ & _ & []).
Qed.

(** C24: the program can always be stopped.  From every state it reaches, an interrupt leaves the
    loop; each handler of the table has then lost its sender, and if its sessions end its
    thread can end, or has panicked, so that joining it does not wait for ever. *)
Theorem interrupt_completes {H} `{libguestfs H} `{DebugStr} `{FileSystem} `{HashMapCapacity} `{IpText} `{Platform}
    {Value : Type} `{ENV : Environment Value} (from_value : Value → option NBDConfig.t) (debug : bool)
    (args : Args.t) (s0 s : System H) :
  start args = Ok (inr s0) → rtc (program_step from_value debug) s0 s →
  ∃ r s', on_wake from_value debug CtrlC s = Some (r, s') ∧ r ≠ Ok None ∧ peer_handlers (tftp s') = ∅ ∧
    ∀ addr h, peer_handlers (tftp s) !! addr = Some h →
      ∃ t, rtc (thread_step addr (peer_roots h) (max_idle_time (tftp s))) (thread (without_sender h)) t ∧
           thread_finished t = true.
Proof.
  intros Hs Hr. destruct (reachable_program_inv from_value debug args s0 s Hs Hr) as [[Hh _ _] _ _].
  pose proof (leave_spec s) as Hl. destruct (leave s) as [r s'] eqn:E. destruct Hl as (Hph & _ & Hr').
  exists r, s'. split; [cbn [on_wake]; by rewrite E|]. split; [|split; [done|]].
  - by destruct Hr' as [(_ & -> & _)|(_ & p & ->)].
  - intros addr h Hlk. destruct (Hh _ _ Hlk) as (_ & _ & Hinv). by apply joining_completes.
Qed.

(** ** The hypotheses can hold *)

(** A batch of two records is read, and the first is taken. *)
Definition woken_system (wakes : list wake) : System toy :=
  match run_main no_config true wakes sample_system with Some (_, s) => s | None => sample_system end.

Definition sample_wakes : list wake := wake_of <$> [Batch sample_batch; Take 1].

Definition goes_on (r : option (res Empty_set (option ExitCode) * System toy)) : bool :=
  match r with Some (Ok None, _) => true | _ => false end.

Lemma woken_system_run wakes :
  goes_on (run_main no_config true wakes sample_system) = true →
  run_main no_config true wakes sample_system = Some (Ok None, woken_system wakes).
Proof.
  unfold woken_system. by destruct (run_main no_config true wakes sample_system) as [[[[]|[]|] s]|].
Qed.

Lemma sample_reached : rtc (program_step no_config true) sample_system (woken_system sample_wakes).
Proof.
  apply (run_main_reaches no_config true sample_wakes); [do 2 (apply Forall_cons; split; [exact I|]); apply Forall_nil_2|].
  apply woken_system_run. by vm_compute.
Qed.

Definition has_handler (s : System toy) (addr : IpAddr) : bool := bool_decide (is_Some (peer_handlers (tftp s) !! addr)).

Lemma program_invariant_witness :
  length (buffer (tftp (woken_system sample_wakes))) = buffer_size ∧
  has_handler (woken_system sample_wakes) (V4 1234) = true.
Proof.
  destruct (program_invariant no_config true sample_args sample_system (woken_system sample_wakes)
    sample_start sample_reached) as [Hb _].
  split; [exact Hb|]. by vm_compute.
Defined.

Lemma interrupt_completes_witness :
  ∃ r s', on_wake no_config true CtrlC (woken_system sample_wakes) = Some (r, s') ∧ r ≠ Ok None ∧
    peer_handlers (tftp s') = ∅ ∧
    ∀ addr h, peer_handlers (tftp (woken_system sample_wakes)) !! addr = Some h →
      ∃ t, rtc (thread_step addr (peer_roots h) (max_idle_time (tftp (woken_system sample_wakes))))
             (thread (without_sender h)) t ∧ thread_finished t = true.
Proof.
  exact (interrupt_completes no_config true sample_args sample_system (woken_system sample_wakes)
    sample_start sample_reached).
Defined.
