(* ===== verification/Service.v ===== *)
(** * Service: a request from the datagram to the client's copy of the file

    The components put together: the program receives a datagram (src/src/main.rs,
    src/src/server.rs), the handler's thread starts a task (src/src/peer_handler/mod.rs), and
    the task, one of many that take turns, sends the file. *)

From S2P Require Import Prelude Text Cursor Errors Fs Options Messages Net Window Session Transfer Delivery Negotiation AsyncSession Paths LocalFs GuestFs RemoteFs SharedDisk NbdDisk PeerHandler LocalSet Server Channel FsWatch Main Program.
From ITree Require Import Core.ITreeDefinition.

Section service.
Context {H : Type} `{libguestfs_files H} `{DebugStr} `{FileSystem} `{HashMapCapacity} `{IpText} `{Platform}.
Context {Value : Type} `{ENV : Environment Value} (from_value : Value → option NBDConfig.t) (debug : bool).

(** The program when the thread of one handler has moved. *)
Definition with_moved (addr : IpAddr) (h : PeerHandler H) (t : Handler H) (s : System H) : System H :=
  mkSystem (with_handlers (tftp s) (<[addr := with_thread h t]> (peer_handlers (tftp s)))) (observer s).

Lemma thread_runs addr opened idle (h : PeerHandler H) t0 t (s : System H) :
  rtc (thread_step addr opened idle) t0 t →
  peer_handlers (tftp s) !! addr = Some h → sender_address h = addr → peer_roots h = opened →
  max_idle_time (tftp s) = idle → thread h = t0 →
  rtc (program_step from_value debug) s (with_moved addr h t s).
Proof using All.
  intros Hr. revert h s. induction Hr as [t|t0 t1 t Hst Hr IH]; intros h s Hlk Ha Ho Hi Ht.
  - unfold with_moved. replace (with_thread h t) with h by (destruct h; by subst).
    rewrite insert_id by done. destruct s as [[] ?]. apply rtc_refl.
  - eapply rtc_l; [apply (program_thread _ _ addr h t1); [done|by subst]|].
    assert (with_moved addr h t s = with_moved addr (with_thread h t1) t (with_moved addr h t1 s)) as ->.
    { unfold with_moved, with_thread, with_handlers. simpl. by rewrite insert_insert_eq. }
    apply IH; [simpl; apply lookup_insert_eq|done..].
Qed.

End service.

(** C1: a read request is answered with the file.  In every state that the program reaches, a
    well-formed request for a file that one of the client's roots holds, a directory or the
    disk of its configuration, and that the roots before it do not have, from a client that
    has no handler: the program gives it a handler, the handler's thread can open its roots,
    take the request and start a task under the client's port; and among whatever tasks run
    beside it, the task, once it has had its turns, has ended well and has sent the file,
    with the options of the request, to a client that cooperates. *)
Theorem request_delivered {H} `{libguestfs_files H} `{DebugStr} `{FileSystem} `{HashMapCapacity} `{IpText}
    `{Platform} {Value : Type} `{ENV : Environment Value} (from_value : Value → option NBDConfig.t)
    (debug : bool) (args : Args.t) (s0 s : System H) (now : Z) (remote : SocketAddr)
    (filename data : list byte) (opts : list (rstring * rstring)) (before after : list (RootKind H))
    (root : RootKind H) (c : Script) :
  let payload := ReadRequest.wire filename OCTET opts in
  let o := ReadRequest.options_of opts in
  let peer := SocketAddr_new (ip remote) (port remote) in
  let l := mkLink (stream_of peer (script_arrivals peer o data c) []) session_buffer in
  start args = Ok (inr s0) → rtc (program_step from_value debug) s0 s → is_u16 (port remote) →
  ReadRequest.wire_string filename →
  Forall (λ kv, ReadRequest.wire_string kv.1 ∧ ReadRequest.wire_string kv.2) opts →
  length payload ≤ buffer_size → peer_handlers (tftp s) !! ip remote = None →
  available_roots from_value debug (root_dir (tftp s)) (ip remote) = Ok (before ++ root :: after) →
  Forall (λ root, open_root root (ReadRequest.mk filename o) l = Err NotFound) before →
  holds_file root filename data → (Z.of_nat (length data) < 2 ^ 63)%Z → cooperates peer o data c →
  ∃ s1 s2 h task,
    on_wake from_value debug (DatagramArrives now payload remote) s = Some (Ok None, s1) ∧
    rtc (program_step from_value debug) s1 s2 ∧
    peer_handlers (tftp s2) !! ip remote = Some h ∧
    send_sessions (thread h) !! port remote = Some (mkSession task false) ∧
    ∀ id (w : World H), jobs w !! id = None → same_disk root (guest w) →
    ∃ n, ∀ turns, n ≤ polls id turns →
      ∃ j b, jobs (run_turns (Start id debug task :: turns) w) !! id = Some j ∧
        tree j = RetF (Ok tt, b) ∧ delivered o data c (sent_by (job_stream j)).
Proof.
  intros payload o peer l Hs Hr Hport Hf Hopts Hl Hnone Hroots Hbefore Hheld Hdata Hco.
  pose proof buffer_size_val as Hbs.
  destruct (reachable_program_inv from_value debug args s0 s Hs Hr) as [[_ Hb _] _ _].
  destruct (held_file_served debug (ReadRequest.mk filename o) before after root data peer buffer_size c)
    as (task & Htask & Hserved); [exact Hbefore|exact Hheld|done|lia|exact Hco|].
  destruct (request_starts_task from_value debug now remote filename opts _
    (UdpSocket.mk (script_arrivals peer o data c) [] []) task (tftp s) Hf Hopts
    ltac:(rewrite Hb; exact Hl) Hnone Hroots Htask)
    as (t1 & h & t & Hserve & Hlk & Ha & Hpr & Hidle & Hthread & Hsess).
  exists (mkSystem t1 (observer s)), (with_moved (ip remote) h t (mkSystem t1 (observer s))), (with_thread h t), task.
  split; [unfold on_wake, payload; cbv zeta; by rewrite Hserve|]. split.
  { by eapply thread_runs. }
  split; [apply lookup_insert_eq|]. split; [done|]. exact Hserved.
Qed.

(** ** The hypotheses can hold *)

Lemma request_delivered_witness :
  ∃ s1 s2 h task,
    on_wake no_config true (DatagramArrives 0
      (ReadRequest.wire (str "/boot.img") OCTET [(BLKSIZE, str "8"); (WINDOW_SIZE, str "2")]) sample_peer)
      sample_system = Some (Ok None, s1) ∧
    rtc (program_step no_config true) s1 s2 ∧
    peer_handlers (tftp s2) !! ip sample_peer = Some h ∧
    send_sessions (thread h) !! port sample_peer = Some (mkSession task false) ∧
    ∀ id (w : World toy), jobs w !! id = None → same_disk (Local (LocalRoot.new (str "/srv/tftp/default"))) (guest w) →
    ∃ n, ∀ turns, n ≤ polls id turns →
      ∃ j b, jobs (run_turns (Start id true task :: turns) w) !! id = Some j ∧
        tree j = RetF (Ok tt, b) ∧
        delivered (ReadRequest.options_of [(BLKSIZE, str "8"); (WINDOW_SIZE, str "2")]) sample_bytes small_script
          (sent_by (job_stream j)).
Proof.
  apply (request_delivered no_config true sample_args sample_system sample_system 0 sample_peer (str "/boot.img")
    sample_bytes [(BLKSIZE, str "8"); (WINDOW_SIZE, str "2")]
    [Local (LocalRoot.new (str "/srv/tftp/167772161"))] [] (Local (LocalRoot.new (str "/srv/tftp/default")))
    small_script).
  - exact sample_start.
  - apply rtc_refl.
  - by split.
  - split; [by apply (bool_decide_unpack _)|reflexivity].
  - repeat constructor; simpl; try reflexivity; by apply (bool_decide_unpack _).
  - pose proof buffer_size_val.
    assert (length (ReadRequest.wire (str "/boot.img") OCTET [(BLKSIZE, str "8"); (WINDOW_SIZE, str "2")]) = 41)
      as -> by reflexivity. lia.
  - reflexivity.
  - reflexivity.
  - constructor; [reflexivity|constructor].
  - reflexivity.
  - reflexivity.
  - exact small_script_cooperates.
Defined.
