(* ===== verification/Display.v ===== *)
(** * Display: how values are printed

    The [Display] and [Debug] implementations of the program, in any file.  What is printed
    goes to the log alone, but for the errors of the library, which RemoteFs searches.  The
    names of addresses are those of PeerHandler, the quoting of strings that of RemoteFs;
    how the standard library prints a [File] is not modelled, and the order in which it goes
    through a hash map is a parameter. *)

From S2P Require Import Prelude Text Cursor Errors Fs Options Messages Net Window Session Paths LocalFs GuestFs RemoteFs NbdDisk PeerHandler Server Channel FsWatch.

(** ** Hexadecimal numbers *)

(** [{:x}] *)
Definition hex_digit (d : Z) : byte := if (d <? 10)%Z then as_u8 (48 + d) else as_u8 (87 + d).

Fixpoint hex_digits (fuel : nat) (n : Z) : rstring :=
  match fuel with
  | O => []
  | S f => if (n <? 16)%Z then [hex_digit n] else hex_digits f (n / 16) ++ [hex_digit (n mod 16)]
  end.

(** Eight digits are enough for a [u32]. *)
Definition to_hex (n : Z) : rstring := hex_digits 8 n.

(** [{:02x}] *)
Definition to_hex2 (n : Z) : rstring :=
  let digits := to_hex n in replicate (2 - length digits) (as_u8 48) ++ digits.

Definition hex_value (b : byte) : Z := let d := u8_val b in if (d <? 58)%Z then (d - 48)%Z else (d - 87)%Z.

Definition of_hex (s : rstring) : Z := foldl (λ n b, 16 * n + hex_value b)%Z 0%Z s.

Lemma hex_value_digit d : (0 ≤ d < 16)%Z → hex_value (hex_digit d) = d.
Proof.
  intros Hd. assert (d ∈ seqZ 0 16) as Hin by (apply elem_of_seqZ; lia). clear Hd. revert d Hin.
  apply Forall_forall. by repeat constructor.
Qed.

(** A number is read back from its digits. *)
Lemma of_hex_digits fuel n :
  (0 ≤ n < 16 ^ Z.of_nat (S fuel))%Z → of_hex (hex_digits (S fuel) n) = n.
Proof.
  revert n. induction fuel as [|fuel IH]; intros n Hn; cbn [hex_digits].
  - change (16 ^ Z.of_nat 1)%Z with 16%Z in Hn. settle_all. unfold of_hex. simpl. by rewrite hex_value_digit by lia.
  - destruct (Z.ltb_spec n 16); [unfold of_hex; simpl; by rewrite hex_value_digit by lia|].
    rewrite Nat2Z.inj_succ, Z.pow_succ_r in Hn by lia.
    unfold of_hex in *. rewrite foldl_app. change (if (n / 16 <? 16)%Z then _ else _) with (hex_digits (S fuel) (n / 16)).
    rewrite IH by (split; [apply Z.div_pos; lia|apply Z.div_lt_upper_bound; lia]). cbn [foldl].
    rewrite hex_value_digit by (apply Z.mod_pos_bound; lia). pose proof (Z.div_mod n 16). lia.
Qed.

Lemma of_hex_to_hex n : is_u32 n → of_hex (to_hex n) = n.
Proof. intros []. apply of_hex_digits. change (16 ^ Z.of_nat 8)%Z with (2 ^ 32)%Z. lia. Qed.

Lemma of_hex_to_hex2 n : is_u32 n → of_hex (to_hex2 n) = n.
Proof.
  intros Hn. unfold to_hex2, of_hex. rewrite foldl_app.
  replace (foldl _ 0%Z (replicate _ _)) with 0%Z; [by apply of_hex_to_hex|].
  by destruct (2 - _) as [|[|[|k]]] eqn:E; [..|lia].
Qed.

(** ** The implementations *)

Class Display (A : Type) : Type := { fmt : A → rstring }.
Class Debug (A : Type) : Type := { debug_fmt : A → rstring }.

#[global] Instance BufferError_display : Display BufferError := {
  fmt '(mkBufferError message) := str "<" ++ message ++ str ">";
}.

#[global] Instance TFTPError_display : Display TFTPError := {
  fmt self :=
    let '(code, message) := TFTPErr.parse self in
    str "TFTP ERROR: [0x" ++ to_hex2 code ++ str "] " ++ message;
}.

#[global] Instance AckTimeout_display : Display AckTimeout.t := {
  fmt self := str "[timeout: " ++ to_string (AckTimeout.timeout self) ++ str "]";
}.

#[global] Instance WindowSize_display : Display WindowSize.t := {
  fmt self := str "[blocks_count: " ++ to_string (WindowSize.blocks_count self) ++ str "]";
}.

(** [Vec<String>::join(",")] *)
Fixpoint join_commas (parts : list rstring) : rstring :=
  match parts with
  | [] => []
  | [part] => part
  | part :: parts' => part ++ str "," ++ join_commas parts'
  end.

#[global] Instance OptionsAcknowledge_display : Display OptionsAcknowledge.t := {
  fmt self :=
    let display := join_commas ((λ kv, kv.1 ++ str "=" ++ kv.2) <$> OptionsAcknowledge.options self) in
    str "OACK: [" ++ display ++ str "]";
}.

#[global] Instance LocalOpenedFile_display : Display LocalOpenedFile.t := {
  fmt self := str "<OpenedFile " ++ LocalOpenedFile.display self ++ str ">";
}.

#[global] Instance InotifyEvent_debug : Debug InotifyEvent.t := {
  debug_fmt self :=
    let file_name := match InotifyEvent.file_name_opt self with Some file_name => file_name | None => [] end in
    str "<InotifyEvent: mask=0x" ++ to_hex (InotifyEvent.mask self) ++ str ", file_name='" ++ file_name ++ str "'>";
}.

#[global] Instance FileChunk_debug : Debug FileChunk.t := {
  debug_fmt self :=
    str "<FileChunk " ++ to_string (Z.of_nat (length (FileChunk.buffer self))) ++ str ", offset "
    ++ to_string (Z.of_nat (FileChunk.offset self)) ++ str ">";
}.

#[global] Instance Partition_display : Display Partition.t := {
  fmt self := str "<Partition: " ++ Partition.device self ++ str ">";
}.
#[global] Instance Partition_debug : Debug Partition.t := {
  debug_fmt self := str "<Partition: " ++ Partition.device self ++ str ">";
}.

(** The ends of a channel of [T], by the name of that type. *)
Definition tx_debug (type_name : rstring) : rstring := str "TX<" ++ type_name ++ str ">".
Definition rx_debug (type_name : rstring) : rstring := str "RX<" ++ type_name ++ str ">".

Section quoted.
Context `{DebugStr}.

#[global] Instance LocalRoot_debug : Debug LocalRoot.t := {
  debug_fmt self := str "<LocalRoot: " ++ debug_str (LocalRoot.path self) ++ str ">";
}.
#[global] Instance LocalRoot_display : Display LocalRoot.t := {
  fmt self := str "<Local: " ++ debug_str (LocalRoot.path self) ++ str ">";
}.

#[global] Instance GuestFSError_display : Display GuestFSError.t := { fmt := GuestFSError_to_string }.

#[global] Instance INotifyObserver_debug : Debug INotifyObserver.t := {
  debug_fmt self := str "<Observer on: " ++ debug_str (INotifyObserver.display self) ++ str ">";
}.

End quoted.

(** The order in which a [HashMap] is iterated over. *)
Class HashMapOrder : Type := {
  iter_order : options_map → list (rstring * rstring);
  iter_order_perm m : iter_order m ≡ₚ map_to_list m;
}.

Section maps.
Context `{DebugStr} `{HashMapOrder}.

Fixpoint debug_entries (entries : list (rstring * rstring)) : rstring :=
  match entries with
  | [] => []
  | [(key, value)] => debug_str key ++ str ": " ++ debug_str value
  | (key, value) :: entries' => debug_str key ++ str ": " ++ debug_str value ++ str ", " ++ debug_entries entries'
  end.

(** [{:?}] of a [HashMap<String, String>] *)
#[global] Instance options_debug : Debug options_map := {
  debug_fmt self := str "{" ++ debug_entries (iter_order self) ++ str "}";
}.

#[global] Instance ReadRequest_display : Display ReadRequest.t := {
  fmt self := str "RRQ: '" ++ ReadRequest.filename self ++ str "' (" ++ debug_fmt (ReadRequest.options self) ++ str ")";
}.
#[global] Instance ReadRequest_debug : Debug ReadRequest.t := {
  debug_fmt self :=
    str "RRQ: '" ++ ReadRequest.filename self ++ str "' (" ++ debug_fmt (ReadRequest.options self) ++ str ")";
}.

End maps.

Section library.
Context {H : Type} `{libguestfs H} `{DebugStr}.

#[global] Instance GuestFS_display : Display (GuestFS.t H) := { fmt := GuestFS.to_text }.
#[global] Instance GuestFS_debug : Debug (GuestFS.t H) := { debug_fmt := GuestFS.to_text }.

#[global] Instance ConnectedDisk_display : Display (ConnectedDisk.t H) := { fmt := ConnectedDisk.to_text }.

#[global] Instance FileReader_display : Display (FileReader.t H) := { fmt := FileReader.display }.

#[global] Instance RemoteRoot_display : Display (RemoteRoot.t H) := {
  fmt self := str "<" ++ debug_str (RemoteRoot.chroot_path self) ++ str " in " ++ fmt (RemoteRoot.disk self) ++ str ">";
}.
#[global] Instance RemoteRoot_debug : Debug (RemoteRoot.t H) := {
  debug_fmt self :=
    str "<" ++ debug_str (RemoteRoot.chroot_path self) ++ str " in " ++ fmt (RemoteRoot.disk self) ++ str ">";
}.

End library.

Section addresses.
Context `{IpText}.

(** What a stream is called, from the address its socket is bound to. *)
Definition stream_name (local_address peer_address : SocketAddr) : rstring :=
  ip_to_string (ip local_address) ++ str ":" ++ to_string (port local_address) ++ str " <=> "
  ++ ip_to_string (ip peer_address) ++ str ":" ++ to_string (port peer_address).

(** Both implementations, for a stream whose socket is bound to [local_address]. *)
Definition stream_display (local_address : SocketAddr) (self : DatagramStream.t) : rstring :=
  str "<" ++ stream_name local_address (DatagramStream.peer_address self) ++ str ">".

Definition server_name (local_addr : SocketAddr) : rstring :=
  str "<TFTP on " ++ ip_to_string (ip local_addr) ++ str ":" ++ to_string (port local_addr) ++ str ">".

#[global] Instance PeerHandler_display {H} : Display (PeerHandler H) := {
  fmt self := str "<PeerHandler: " ++ ip_to_string (sender_address self) ++ str ">";
}.
#[global] Instance PeerHandler_debug {H} : Debug (PeerHandler H) := {
  debug_fmt self := str "<PeerHandler: " ++ ip_to_string (sender_address self) ++ str ">";
}.

End addresses.

(** An error as it is printed says its code and its message: two errors that print the same
    are sent as the same datagram. *)
Theorem printed_error_tells (e1 e2 : TFTPError) :
  fmt e1 = fmt e2 → TFTPErr.parse e1 = TFTPErr.parse e2 ∧ TFTPErr.wire e1 = TFTPErr.wire e2.
Proof.
  intros E. assert (TFTPErr.parse e1 = TFTPErr.parse e2) as Hp.
  { destruct e1, e2; unfold fmt in E; simpl in E; injection E; intros; subst; done. }
  split; [done|]. unfold TFTPErr.wire. by rewrite Hp.
Qed.

Lemma printed_error_tells_witness :
  fmt (TFTPErr.undefined (str "x")) = str "TFTP ERROR: [0x00] x" ∧
  TFTPErr.parse (TFTPErr.undefined (str "x")) = TFTPErr.parse (UndefinedError (str "x")).
Proof.
  split; [by vm_compute|].
  exact (proj1 (printed_error_tells (TFTPErr.undefined (str "x")) (UndefinedError (str "x")) eq_refl)).
Defined.

Example oack_printed :
  fmt (OptionsAcknowledge.mk [(str "blksize", str "512"); (str "windowsize", str "4")]) =
  str "OACK: [blksize=512,windowsize=4]".
Proof. reflexivity. Qed.

Example event_printed :
  debug_fmt (InotifyEvent.mk 0x80 (Some (str "10.0.0.1.nbd"))) =
  str "<InotifyEvent: mask=0x80, file_name='10.0.0.1.nbd'>".
Proof. reflexivity. Qed.

(** Keys in the order of the model's own maps. *)
Example request_printed :
  let order : HashMapOrder := {| iter_order := map_to_list; iter_order_perm m := Permutation_refl _ |} in
  fmt (ReadRequest.mk (str "boot.img") {[ TSIZE := str "0" ]}) = str "RRQ: 'boot.img' ({'tsize': '0'})".
Proof. vm_compute. reflexivity. Qed.
