(* ===== verification/UnitTests.v ===== *)
(** * UnitTests: the tests of the repository, on the model

    The tests beside the modules, src/src/*/tests.rs, as evaluations of the definitions: each
    has the name of the test and asserts what the test asserts.  The tests of [send_file] are
    in Loopback, those of the asynchronous channel in Channel.  Tests that need a disk image
    and qemu-nbd are not here. *)

From S2P Require Import Prelude Text Cursor Errors Fs Options Messages Net Window Session Transfer Delivery Paths LocalFs GuestFs RemoteFs NbdDisk PeerHandler Server Channel FsWatch Display.

(** The bytes of a literal with escapes: a string, then bytes by their values. *)
Definition bytes (values : list Z) : list byte := as_u8 <$> values.

(** [error.to_string().contains(...)] *)
Fixpoint contains (needle text : rstring) : bool :=
  starts_with needle text || match text with [] => false | _ :: text' => contains needle text' end.

(** ** src/src/cursor/tests.rs *)

Module cursor_tests.

Example extract_ushort :
  (ReadCursor.extract_ushort (ReadCursor.new (bytes [0x00; 0x0A; 0x00; 0x00; 0x00; 0xab; 0xcd; 0xef]%Z))).1 = Ok 0x0A%Z.
Proof. vm_compute. reflexivity. Qed.

Example extract_ushort_not_enough_data :
  let '(first, cursor) := ReadCursor.extract_ushort (ReadCursor.new (bytes [0x00; 0x0A; 0xFF]%Z)) in
  returns first ∧ (ReadCursor.extract_ushort cursor).1 = Err UnexpectedEof.
Proof. vm_compute. done. Qed.

Example extract_string :
  (ReadCursor.extract_string (ReadCursor.new (str "Arbitrary_string" ++ bytes [0x00; 0x0A]%Z))).1 =
  Ok (str "Arbitrary_string").
Proof. vm_compute. reflexivity. Qed.

Example extract_string_not_enough_data :
  let '(first, cursor) := ReadCursor.extract_string (ReadCursor.new (str "Arbitrary_string" ++ bytes [0x00]%Z)) in
  first = Ok (str "Arbitrary_string") ∧ (ReadCursor.extract_string cursor).1 = Err UnexpectedEof.
Proof. vm_compute. done. Qed.

Example extract_string_non_utf :
  (ReadCursor.extract_string
     (ReadCursor.new (str "Arbitrary_" ++ bytes [0xFF]%Z ++ str "string" ++ bytes [0x00; 0x0A]%Z))).1 = Err InvalidData.
Proof. vm_compute. reflexivity. Qed.

Example extract_non_terminated_string :
  (ReadCursor.extract_string (ReadCursor.new (str "Arbitrary_string"))).1 = Err InvalidData.
Proof. vm_compute. reflexivity. Qed.

End cursor_tests.

(** ** src/src/options/tests.rs *)

Module options_tests.

Definition only (key : rstring) (value : Z) : options_map := {[ key := to_string value ]}.

Example find_block_size :
  Blksize.find_in {[ BLKSIZE := str "1468" ]} = Some (Blksize.mk 1468) ∧
  Blksize.as_key_pair (Blksize.mk 1468) = (BLKSIZE, str "1468").
Proof. vm_compute. done. Qed.

Example find_tsize : TSize.is_requested {[ TSIZE := str "0" ]} = true.
Proof. vm_compute. reflexivity. Qed.

Example find_timeout : AckTimeout.find_in (only TIMEOUT 10) = Some (AckTimeout.mk 10).
Proof. vm_compute. reflexivity. Qed.

Example test_timeout_cap : AckTimeout.find_in (only TIMEOUT (ACK_TIMEOUT_UPPER_CAP + 1)) = None.
Proof. vm_compute. reflexivity. Qed.

Example test_timeout_bottom : AckTimeout.find_in (only TIMEOUT (ACK_TIMEOUT_BOTTOM_CAP - 1)) = None.
Proof. vm_compute. reflexivity. Qed.

Example test_block_size_bottom : Blksize.find_in (only BLKSIZE (BLOCK_SIZE_BOTTOM_CAP - 1)) = None.
Proof. vm_compute. reflexivity. Qed.

Example test_block_size_cap : Blksize.find_in (only BLKSIZE (BLOCK_SIZE_UPPER_CAP + 1)) = None.
Proof. vm_compute. reflexivity. Qed.

Example test_window_size : is_Some (WindowSize.find_in (only WINDOW_SIZE 10)).
Proof. vm_compute. by eexists. Qed.

Example test_window_bottom : WindowSize.find_in (only WINDOW_SIZE (WINDOW_SIZE_BOTTOM_CAP - 1)) = None.
Proof. vm_compute. reflexivity. Qed.

Example test_window_cap : WindowSize.find_in (only WINDOW_SIZE (WINDOW_SIZE_UPPER_CAP + 1)) = None.
Proof. vm_compute. reflexivity. Qed.

End options_tests.

(** ** src/src/messages/tests.rs *)

Module messages_tests.

Definition refused_with (text : rstring) (r : res TFTPError ReadRequest.t) : bool :=
  match r with Err error => contains text (fmt error) | _ => false end.

Example parse_rrq :
  match ReadRequest.parse (bytes [0x00; RRQ]%Z ++ str "irrelevant.file" ++ [zero] ++ OCTET ++ [zero]) with
  | Ok _ => True
  | _ => False
  end.
Proof. vm_compute. done. Qed.

Example parse_incomplete_rrq :
  refused_with (str "Bad format") (ReadRequest.parse (bytes [0x00; RRQ]%Z ++ str "irrelevant.file" ++ [zero])) = true.
Proof. vm_compute. reflexivity. Qed.

Example parse_empty_rrq : refused_with (str "Bad format") (ReadRequest.parse []) = true.
Proof. vm_compute. reflexivity. Qed.

End messages_tests.

(** ** src/src/local_fs/tests.rs *)

Module local_fs_tests.

(** The file the tests read, cut short; a directory without permissions; nothing else. *)
Definition manifest : rstring := str "[package]" ++ bytes [10]%Z ++ str "libc = 0.2".

#[local] Instance test_system : FileSystem := {|
  os_open p :=
    if decide (p = str "/root/Cargo.toml") then Ok (File.mk manifest 0 [] [])
    else if decide (p = str "/tmp/unreadable/nonexistent") then Err PermissionDenied
    else Err NotFound;
|}.

Definition open_at (root request : rstring) : res ErrorKind LocalOpenedFile.t :=
  LocalRoot.open_file (LocalRoot.mk root) request.

Example open_non_existent : open_at (str "/nonexistent") (str "nonexistent.file") = Err NotFound.
Proof. vm_compute. reflexivity. Qed.

Example open_access_denied : open_at (str "/tmp/unreadable") (str "nonexistent") = Err PermissionDenied.
Proof. vm_compute. reflexivity. Qed.

Example get_size :
  match open_at (str "/root") (str "Cargo.toml") with
  | Ok opened => match (LocalOpenedFile.size opened).1 with Ok size => (0 < size)%Z | _ => False end
  | _ => False
  end.
Proof. vm_compute. reflexivity. Qed.

Definition read_has (text request : rstring) : bool :=
  match open_at (str "/root") request with
  | Ok opened =>
      match LocalOpenedFile.read_into opened (replicate 1024 zero) with
      | (Ok read_size, (buffer, _)) =>
          match from_utf8 (take read_size buffer) with Some string => contains text string | None => false end
      | _ => false
      end
  | _ => false
  end.

Example read : read_has (str "libc") (str "Cargo.toml") = true.
Proof. vm_compute. reflexivity. Qed.

Example read_leading_slash : read_has (str "libc") (str "/Cargo.toml") = true.
Proof. vm_compute. reflexivity. Qed.

End local_fs_tests.

(** ** src/src/fs_watch/tests.rs *)

Module fs_watch_tests.

Definition watched : Watch.t := Watch.removal (Watch.change Watch.new).

(** What inotify reports of a directory that is watched with [mask], when a file in it is
    written and closed, and then removed. *)
Definition written_and_removed (mask : Z) (name : rstring) : list KernelRecord :=
  (λ event, mkRecord 1 event 0 (Some (name, 3))) <$>
    filter (λ event, Z.land mask event ≠ 0%Z) [IN_CLOSE_WRITE; IN_DELETE].

Example test_create_delete :
  let records := written_and_removed watched (str "first_file") ++ written_and_removed watched (str "second_file") in
  let raw := concat (record_bytes <$> records) in
  match parse_events raw (length raw) with
  | Ok events =>
      (λ event, (InotifyEvent.file_name event, InotifyEvent.is_modify event, InotifyEvent.is_removal event)) <$> events =
      [(str "first_file", true, false); (str "first_file", false, true);
       (str "second_file", true, false); (str "second_file", false, true)]
  | _ => False
  end.
Proof. vm_compute. reflexivity. Qed.

End fs_watch_tests.

(** ** src/src/nbd_disk/tests.rs *)

Module nbd_disk_tests.

(** Nothing is there, so that whoever asks is told so. *)
Example open_non_existing_file :
  match open boot_root (str "nonexisting/file") with Err e => e = NotFound | _ => False end.
Proof. vm_compute. reflexivity. Qed.

End nbd_disk_tests.
